(** * GitService: retrieval, caching and pagination

    A shallow embedding of [src/git/gitService.ts] and of the constructor of
    [src/git/gitUri.ts].  The first part embeds the methods, one module for
    each group of them:

    - [JsMap]: the ES6 [Map]s the service iterates, in insertion order;
    - [Regex], [Search]: the three search regular expressions and
      [parseSearchOperations] / [parseSearchMessageOperations];
    - [Model], [Blame]: the blame objects and [getBlameForRangeSync];
    - [Service]: the four service caches, [onAnyRepositoryChanged],
      [getBranches] and [getTags];
    - [Async]: the programs that stand for the asynchronous methods;
    - [Nav]: the previous/next navigation methods;
    - [Log]: [getLog], [getLogMoreFn], [getLogForFileMoreFn];
    - [DocCache]: the per-document promise cache used by [getBlameForFile],
      [getBlameForFileContents], [getDiffForFile] and [getLogForFile];
    - [BlameLine]: [getBlameForLine] and [getBlameForLineContents];
    - [Tracked]: [isTrackable], [isTracked] and [isTrackedCore];
    - [Users]: [getCurrentUser];
    - [SearchLog]: [SearchPattern.toKey], [getLogForSearch] and its [more];
    - [Uris]: the constructor of [GitUri] in [src/git/gitUri.ts], with
      [ensureValidUNCPath] and [resolve];
    - [CommitBranches]: [getCommitBranches];
    - [Reflog]: [getIncomingActivity] and [getReflogMoreFn];
    - [RepoSearch]: [repositorySearchCore];
    - [WorkingUri]: [getWorkingUri].

    The second part gives the predicates the statements are written with
    (modules [...Spec], and [SearchTerms] for the search queries made of
    words and operators) and concrete repositories, documents and answers of
    the tool on which the methods are run (modules [...Sample]).  The third
    part holds the properties.

    JavaScript strings are modelled as [string] / [list ascii] (code units
    below 256), ES6 [Map]s whose iteration order matters as association lists
    in insertion order, the service-level caches as [gmap string]. *)

From Stdlib Require Import Ascii String List Bool Arith ZArith Lia Permutation.
From Stdlib Require Import DecimalString Sorted.
From stdpp Require Import base option list strings gmap.
Import ListNotations.

Open Scope string_scope.
Open Scope list_scope.

(** ** ES6 [Map] with string keys, in insertion order *)

Module JsMap.
Section Defs.
Context {V : Type}.

Definition t := list (string * V).

Fixpoint get (k : string) (m : t) : option V :=
    match m with
    | [] => None
    | (k', v) :: m' => if String.eqb k k' then Some v else get k m'
    end.

(** [Map.prototype.set]: an existing key keeps its position. *)
Fixpoint set (k : string) (v : V) (m : t) : t :=
    match m with
    | [] => [(k, v)]
    | (k', v') :: m' =>
        if String.eqb k k' then (k', v) :: m' else (k', v') :: set k v m'
    end.

Definition has (k : string) (m : t) : bool :=
    match get k m with Some _ => true | None => false end.

Definition keys (m : t) : list string := map fst m.
Definition values (m : t) : list V := map snd m.

(** [new Map([...a, ...b])]: the entries are set one after the other. *)
Definition of_entries (es : list (string * V)) : t :=
    fold_left (fun m e => set (fst e) (snd e) m) es [].

(** [new Map([...a, ...b])] for [a] a map already: its entries have distinct
    keys and make [a] again, on which those of [b] are set one after the other
    ([JsMapFacts.merge_of_entries]). *)
Definition merge (a b : t) : t :=
    fold_left (fun m e => set (fst e) (snd e) m) b a.
End Defs.
Arguments t : clear implicits.
End JsMap.

(** ** A backtracking matcher for the regular expressions of the service *)

Module Regex.

(** Capture groups that took part in the match, by number. *)
Definition caps := list (nat * list ascii).

Fixpoint cap (n : nat) (c : caps) : option (list ascii) :=
    match c with
    | [] => None
    | (n', s) :: c' => if Nat.eqb n n' then Some s else cap n c'
    end.

Inductive re : Type :=
  | Chr (p : ascii -> bool)       (* one code unit of a class *)
  | Lit (l : list ascii)          (* a literal string *)
  | Seq (r1 r2 : re)
  | Alt (r1 r2 : re)              (* ordered alternative [r1|r2] *)
  | Opt (r : re)                  (* greedy [r?] *)
  | StarLazy (p : ascii -> bool)  (* [c*?] on a class *)
  | PlusGreedy (p : ascii -> bool) (* [c+] on a class *)
  | Grp (n : nat) (r : re)        (* capture group number [n] *)
  | Look (r : re)                 (* positive lookahead [(?=r)] *)
  | EOI.                          (* [$] without the multiline flag *)

Definition K := list ascii -> caps -> option (list ascii * caps).

Fixpoint strip_prefix (l s : list ascii) : option (list ascii) :=
    match l, s with
    | [], _ => Some s
    | a :: l', b :: s' => if Ascii.eqb a b then strip_prefix l' s' else None
    | _ :: _, [] => None
    end.

(** The text between two positions, both given as the remaining input. *)
Definition matched (s s' : list ascii) : list ascii :=
    firstn (length s - length s') s.

Fixpoint lazy_star {R} (p : ascii -> bool) (k : list ascii -> option R)
      (s : list ascii) : option R :=
    match k s with
    | Some r => Some r
    | None =>
        match s with
        | a :: s' => if p a then lazy_star p k s' else None
        | [] => None
        end
    end.

Fixpoint greedy_star {R} (p : ascii -> bool) (k : list ascii -> option R)
      (s : list ascii) : option R :=
    match s with
    | a :: s' =>
        if p a then
          match greedy_star p k s' with
          | Some r => Some r
          | None => k s
          end
        else k s
    | [] => k s
    end.

Fixpoint m (r : re) (s : list ascii) (c : caps) (k : K)
      : option (list ascii * caps) :=
    match r with
    | Chr p =>
        match s with
        | a :: s' => if p a then k s' c else None
        | [] => None
        end
    | Lit l =>
        match strip_prefix l s with
        | Some s' => k s' c
        | None => None
        end
    | Seq r1 r2 => m r1 s c (fun s' c' => m r2 s' c' k)
    | Alt r1 r2 =>
        match m r1 s c k with
        | Some x => Some x
        | None => m r2 s c k
        end
    | Opt r1 =>
        match m r1 s c k with
        | Some x => Some x
        | None => k s c
        end
    | StarLazy p => lazy_star p (fun s' => k s' c) s
    | PlusGreedy p =>
        match s with
        | a :: s' => if p a then greedy_star p (fun s'' => k s'' c) s' else None
        | [] => None
        end
    | Grp n r1 => m r1 s c (fun s' c' => k s' ((n, matched s s') :: c'))
    | Look r1 =>
        match m r1 s c (fun s' c' => Some (s', c')) with
        | Some (_, c') => k s c'
        | None => None
        end
    | EOI =>
        match s with
        | [] => k s c
        | _ :: _ => None
        end
    end.

(** A match anchored at the current position: remaining input and groups. *)
Definition match_here (r : re) (s : list ascii) : option (list ascii * caps) :=
    m r s [] (fun s' c' => Some (s', c')).

(** [RegExp.prototype.exec] from the position whose remaining input is [s]:
    the leftmost position at which the expression matches. *)
Fixpoint exec (r : re) (s : list ascii) : option (list ascii * caps) :=
    match match_here r s with
    | Some x => Some x
    | None =>
        match s with
        | _ :: s' => exec r s'
        | [] => None
        end
    end.

Definition alts (ls : list string) : re :=
    match map (fun l => Lit (list_ascii_of_string l)) ls with
    | [] => Lit []
    | r :: rs => fold_left Alt rs r
    end.

(** Character classes on code units below 256. *)
Definition is_line_terminator (a : ascii) : bool :=
    let n := nat_of_ascii a in Nat.eqb n 10 || Nat.eqb n 13.
Definition dot (a : ascii) : bool := negb (is_line_terminator a).
Definition white (a : ascii) : bool :=
    let n := nat_of_ascii a in
    (Nat.leb 9 n && Nat.leb n 13) || Nat.eqb n 32 || Nat.eqb n 160.
Definition not_backspace_or_white (a : ascii) : bool :=
    negb (Nat.eqb (nat_of_ascii a) 8 || white a).

End Regex.

(** ** Search operators: [parseSearchOperations] *)

Module Search.
Import Regex.

Definition dquote : list ascii := [ascii_of_nat 34].

Definition operatorPrefixes : list string :=
    ["=:"; "message:"; "@:"; "author:"; "#:"; "commit:"; "?:"; "file:"; "~:";
     "change:"].

Definition operatorNames : list string :=
    ["="; "message"; "@"; "author"; "#"; "commit"; "?"; "file"; "~"; "change"].

(** [(.*?)\s?(?:(?:=:|message:|...|change:)|$)], capturing into group [g]. *)
Definition valueTail (g : nat) : re :=
    Seq (Grp g (StarLazy dot))
        (Seq (Opt (Chr white)) (Alt (alts operatorPrefixes) EOI)).

(** [searchMessageOperationRegex] (no flag). *)
Definition searchMessageOperationRegex : re := Look (valueTail 1).

(** [searchMessageValuesRegex = /(".+"|[^\b\s]+)/g]. *)
Definition searchMessageValuesRegex : re :=
    Grp 1 (Alt (Seq (Lit dquote) (Seq (PlusGreedy dot) (Lit dquote)))
               (PlusGreedy not_backspace_or_white)).

(** [searchOperationRegex] (flag [g]). *)
Definition searchOperationRegex : re :=
    Seq (Grp 1 (Seq (alts operatorNames) (Lit [":"%char])))
        (Seq (Opt (Chr white)) (Look (valueTail 2))).

(** [normalizeSearchOperatorsMap]. *)
Definition normalizeSearchOperatorsMap : JsMap.t string :=
    [ ("", "message:");
      ("=:", "message:");
      ("message:", "message:");
      ("@:", "author:");
      ("author:", "author:");
      ("#:", "commit:");
      ("commit:", "commit:");
      ("?:", "file:");
      ("file:", "file:");
      ("~:", "change:");
      ("change:", "change:") ].

(** The text of a group of a match.  The groups the service reads stand
    outside every alternative and option of their expressions, so that they
    take part in every match and the default is not used; for the operator
    this is [SearchFacts.operation_group_normalized]. *)
Definition group (n : nat) (c : caps) : string :=
    match cap n c with
    | Some s => string_of_list_ascii s
    | None => ""
    end.

Abbreviation Ops := (JsMap.t (list string)).

(** [values = operations.get(op)]; if undefined, [operations.set(op, [value])],
    otherwise [values.push(value)], which updates the array held by the map. *)
Definition push_value (op value : string) (operations : Ops) : Ops :=
    match JsMap.get op operations with
    | None => JsMap.set op [value] operations
    | Some values => JsMap.set op (values ++ [value]) operations
    end.

(** The [do ... while (true)] loop of [parseSearchMessageOperations]; [rest]
    is the input from [lastIndex] on.  A failed [exec] ends the loop (and
    resets [lastIndex] to zero for the next use of the expression). *)
Fixpoint message_values_loop (fuel : nat) (rest : list ascii)
      (operations : Ops) : option Ops :=
    match fuel with
    | 0 => None
    | S fuel' =>
        match exec searchMessageValuesRegex rest with
        | None => Some operations
        | Some (rest', c) =>
            message_values_loop fuel' rest'
              (push_value "message:" (group 1 c) operations)
        end
    end.

Definition parseSearchMessageOperations (message : string)
      (operations : Ops) : option Ops :=
    if String.eqb message "" then Some (push_value "message:" "" operations)
    else
      let s := list_ascii_of_string message in
      message_values_loop (S (length s)) s operations.

Section Parse.
(** [Git.isSha] is declared outside this file. *)
Variable isSha : string -> bool.

(** The [do ... while (true)] loop of [parseSearchOperations]. *)
Fixpoint operations_loop (fuel : nat) (rest : list ascii)
        (operations : Ops) : option Ops :=
      match fuel with
      | 0 => None
      | S fuel' =>
          match exec searchOperationRegex rest with
          | None => Some operations
          | Some (rest', c) =>
              let op := group 1 c in
              let value := group 2 c in
              match JsMap.get op normalizeSearchOperatorsMap with
              | Some op' =>
                  if String.eqb op' "message:" then
                    match parseSearchMessageOperations value operations with
                    | Some operations' => operations_loop fuel' rest' operations'
                    | None => None
                    end
                  else operations_loop fuel' rest' (push_value op' value operations)
              | None =>
                  (* not reached: group 1 is a key of the table *)
                  operations_loop fuel' rest' operations
              end
          end
      end.

Definition parseSearchOperations (search : string) : option Ops :=
      let s := list_ascii_of_string search in
      let operations : Ops := [] in
      let first :=
        match exec searchMessageOperationRegex s with
        | Some (_, c) =>
            let value := group 1 c in
            if negb (String.eqb value "") then
              if isSha value then Some (push_value "commit:" value operations)
              else parseSearchMessageOperations value operations
            else Some operations
        | None => Some operations
        end in
      match first with
      | Some operations' => operations_loop (S (length s)) s operations'
      | None => None
      end.
End Parse.

End Search.


(** ** Domain objects read by the service *)

Module Model.

(** [vscode.Position] and [vscode.Range]; lines are zero-based. *)
Record Position := { line : nat; character : nat }.
Record Range := { start : Position; end_ : Position }.

Record GitAuthor := { name : string; lineCount : nat }.

(** [GitCommitLine]: [line] is the one-based line number in the blamed file. *)
Record GitCommitLine := {
  l_sha : string;
  l_line : nat;
  l_originalLine : nat
}.

Record GitBlameCommit := {
  c_sha : string;
  c_author : string;
  c_lines : list GitCommitLine
}.

(** [c.with({ lines })]. *)
Definition with_lines (c : GitBlameCommit) (ls : list GitCommitLine)
    : GitBlameCommit :=
  {| c_sha := c_sha c; c_author := c_author c; c_lines := ls |}.

Record GitBlame := {
  b_repoPath : option string;
  b_authors : JsMap.t GitAuthor;
  b_commits : JsMap.t GitBlameCommit;
  b_lines : list GitCommitLine
}.

(** [GitBlameLines extends GitBlame] with [allLines]. *)
Record GitBlameLines := {
  bl_repoPath : option string;
  bl_authors : JsMap.t GitAuthor;
  bl_commits : JsMap.t GitBlameCommit;
  bl_lines : list GitCommitLine;
  bl_allLines : list GitCommitLine
}.

(** [Array.prototype.slice(from, to)] for non-negative integers. *)
Definition slice {A} (from to : nat) (l : list A) : list A :=
  firstn (to - from) (skipn from l).

End Model.

(** ** [getBlameForRangeSync] *)

Module Blame.
Import Model.

Definition in_lines (startLine endLine : nat) (l : GitCommitLine) : bool :=
  Nat.leb startLine (l_line l) && Nat.leb (l_line l) endLine.

(** One turn of [for (const c of blame.commits.values())]: the state is the
    pair of maps [authors], [commits].  The author record held by [authors]
    is updated in place by [author.lineCount += ...]. *)
Definition range_step (shas : gset string) (startLine endLine : nat)
    (acc : JsMap.t GitAuthor * JsMap.t GitBlameCommit) (c : GitBlameCommit)
    : JsMap.t GitAuthor * JsMap.t GitBlameCommit :=
  let '(authors, commits) := acc in
  if negb (bool_decide (c_sha c ∈ shas)) then acc
  else
    let commit := with_lines c (List.filter (in_lines startLine endLine) (c_lines c)) in
    let commits := JsMap.set (c_sha c) commit commits in
    let '(author, authors) :=
      match JsMap.get (c_author commit) authors with
      | Some a => (a, authors)
      | None =>
          let a := {| name := c_author commit; lineCount := 0 |} in
          (a, JsMap.set (name a) a authors)
      end in
    (* [author.lineCount += commit.lines.length] on the record that
       [authors] holds under [commit.author] *)
    let author := {| name := name author;
                     lineCount := lineCount author + length (c_lines commit) |} in
    (JsMap.set (c_author commit) author authors, commits).

(** [entries.sort((a, b) => b[1].lineCount - a[1].lineCount)]: a stable sort,
    larger counts first. *)
Fixpoint insert_author (x : string * GitAuthor) (l : list (string * GitAuthor))
    : list (string * GitAuthor) :=
  match l with
  | [] => [x]
  | y :: l' =>
      if Nat.ltb (lineCount (snd x)) (lineCount (snd y))
      then y :: insert_author x l'
      else x :: y :: l'
  end.

Definition sort_authors (l : list (string * GitAuthor))
    : list (string * GitAuthor) :=
  fold_right insert_author [] l.

Definition whole (blame : GitBlame) : GitBlameLines :=
  {| bl_repoPath := b_repoPath blame;
     bl_authors := b_authors blame;
     bl_commits := b_commits blame;
     bl_lines := b_lines blame;
     bl_allLines := b_lines blame |}.

Definition getBlameForRangeSync (blame : GitBlame) (uri_repoPath : option string)
    (range : Range) : GitBlameLines :=
  if Nat.eqb (length (b_lines blame)) 0 then whole blame
  else if Nat.eqb (line (start range)) 0
          && Nat.eqb (line (end_ range)) (length (b_lines blame) - 1)
  then whole blame
  else
    let lines := slice (line (start range)) (line (end_ range) + 1) (b_lines blame) in
    let shas : gset string := list_to_set (map l_sha lines) in
    let startLine := line (start range) + 1 in
    let endLine := line (end_ range) + 1 in
    let '(authors, commits) :=
      fold_left (range_step shas startLine endLine)
                (JsMap.values (b_commits blame)) ([], []) in
    let sortedAuthors := JsMap.of_entries (sort_authors authors) in
    {| bl_repoPath := uri_repoPath;
       bl_authors := sortedAuthors;
       bl_commits := commits;
       bl_lines := lines;
       bl_allLines := b_lines blame |}.

(** The sum of all authors' [lineCount]. *)
Definition total_lineCount (authors : JsMap.t GitAuthor) : nat :=
  list_sum (map lineCount (JsMap.values authors)).

End Blame.

(** ** The service-level caches: [onAnyRepositoryChanged], [getBranches],
    [getTags] *)

Module Service.

(** A call awaited by the service, as seen by the subprocess layer. *)
Inductive Call :=
| for_each_ref__branch (repoPath : string)
| getBranch (repoPath : string)
| tag (repoPath : string)
| getRepository (repoPath : string).

Inductive Outcome (A : Type) :=
| Returns (a : A)
| Throws.
Arguments Returns {A} a.
Arguments Throws {A}.

Section Caches.
(** [GitBranch], [GitTag], the values of [_trackedCache] and of
    [_userMapCache] are declared outside this file. *)
Context {GitBranch GitTag Tracked User : Type}.

(** [_branchesCache], [_tagsCache], [_trackedCache], [_userMapCache], and the
    notifications queued with [setImmediate]. *)
Record Caches := {
  branchesCache : gmap string (list GitBranch);
  tagsCache : gmap string (list GitTag);
  trackedCache : gmap string Tracked;
  userMapCache : gmap string User;
  notifications : nat
}.

Section Changed.
(** [RepositoryChange] and [RepositoryChangeEvent.changed(change, solely)]
    are declared outside this file. *)
Context {RepositoryChange Event : Type}.
Variables Stashes Config Closed : RepositoryChange.
Variable changed : Event -> RepositoryChange -> bool -> bool.

Definition onAnyRepositoryChanged (s : Caches) (repo_path : string) (e : Event)
    : Caches :=
  if changed e Stashes true then s
  else
    let branches := delete repo_path (branchesCache s) in
    let tags := delete repo_path (tagsCache s) in
    let tracked : gmap string Tracked := ∅ in
    let users :=
      if changed e Config false then delete repo_path (userMapCache s)
      else userMapCache s in
    let queued :=
      if changed e Closed false then S (notifications s) else notifications s in
    {| branchesCache := branches;
       tagsCache := tags;
       trackedCache := tracked;
       userMapCache := users;
       notifications := queued |}.
End Changed.

Section Refs.
(** [GitBranchParser.parse], [GitTagParser.parse] (undefined when nothing was
    parsed), [GitBranch.sort] and [GitTag.sort] (both sort their argument in
    place) are declared outside this file. *)
Variable parseBranches : string -> string -> list GitBranch.
Variable parseTags : string -> string -> option (list GitTag).
Variable sortBranches : list GitBranch -> list GitBranch.
Variable sortTags : list GitTag -> list GitTag.

(** What the awaited calls of one [getBranches] answer: the output of
    [Git.for_each_ref__branch] (or its failure), the result of
    [this.getBranch], and, from [this.getRepository], whether a repository
    was found and its [supportsChangeEvents]. *)
Record BranchesEnv := {
  be_data : Outcome (option string);
  be_current : option GitBranch;
  be_repo : option bool
}.

Record TagsEnv := {
  te_data : Outcome string;
  te_repo : option bool
}.

Record Options (A : Type) := {
  filter_ : option (A -> bool);
  sort_ : bool
}.
Arguments filter_ {A} o.
Arguments sort_ {A} o.

(** The [finally] block.  [held] tells whether the array in [branches] is the
    one the cache holds under [repoPath]; [GitBranch.sort] then reorders the
    cached array as well. *)
Definition finally_ {A} (sort : list A -> list A) (options : Options A)
    (held : bool) (arr : list A) (cache : gmap string (list A))
    (repoPath : string) : list A * gmap string (list A) :=
  match filter_ options with
  | Some f =>
      let arr := List.filter f arr in
      let arr := if sort_ options then sort arr else arr in
      (arr, cache)
  | None =>
      if sort_ options
      then (sort arr, if held then <[repoPath := sort arr]> cache else cache)
      else (arr, cache)
  end.

Definition getBranches (useCaching : bool) (s : Caches)
    (repoPath : option string) (options : Options GitBranch)
    (env : BranchesEnv)
    : Outcome (list GitBranch) * Caches * list Call :=
  match repoPath with
  | None => (Returns [], s, [])
  | Some repoPath =>
      let with_cache c :=
        {| branchesCache := c; tagsCache := tagsCache s;
           trackedCache := trackedCache s; userMapCache := userMapCache s;
           notifications := notifications s |} in
      match (if useCaching then branchesCache s !! repoPath else None) with
      | Some branches =>
          let '(r, c) := finally_ sortBranches options true branches
                           (branchesCache s) repoPath in
          (Returns r, with_cache c, [])
      | None =>
          match be_data env with
          | Throws => (Throws, s, [for_each_ref__branch repoPath])
          | Returns data =>
              let empty :=
                match data with
                | None => true
                | Some d => Nat.eqb (String.length d) 0
                end in
              let branches :=
                if empty then
                  match be_current env with
                  | Some current => [current]
                  | None => []
                  end
                else parseBranches (default "" data) repoPath in
              let calls1 :=
                for_each_ref__branch repoPath
                  :: (if empty then [getBranch repoPath] else []) in
              if useCaching then
                let store :=
                  match be_repo env with
                  | Some supportsChangeEvents => supportsChangeEvents
                  | None => false
                  end in
                let cache :=
                  if store then <[repoPath := branches]> (branchesCache s)
                  else branchesCache s in
                let '(r, c) := finally_ sortBranches options store branches
                                 cache repoPath in
                (Returns r, with_cache c, calls1 ++ [getRepository repoPath])
              else
                let '(r, c) := finally_ sortBranches options false branches
                                 (branchesCache s) repoPath in
                (Returns r, with_cache c, calls1)
          end
      end
  end.

Definition getTags (useCaching : bool) (s : Caches)
    (repoPath : option string) (options : Options GitTag) (env : TagsEnv)
    : Outcome (list GitTag) * Caches * list Call :=
  match repoPath with
  | None => (Returns [], s, [])
  | Some repoPath =>
      let with_cache c :=
        {| branchesCache := branchesCache s; tagsCache := c;
           trackedCache := trackedCache s; userMapCache := userMapCache s;
           notifications := notifications s |} in
      match tagsCache s !! repoPath with
      | Some tags =>
          let '(r, c) := finally_ sortTags options true tags
                           (tagsCache s) repoPath in
          (Returns r, with_cache c, [])
      | None =>
          match te_data env with
          | Throws => (Throws, s, [tag repoPath])
          | Returns data =>
              let tags := default [] (parseTags data repoPath) in
              let store :=
                match te_repo env with
                | Some supportsChangeEvents => supportsChangeEvents
                | None => false
                end in
              let cache :=
                if store then <[repoPath := tags]> (tagsCache s)
                else tagsCache s in
              let '(r, c) := finally_ sortTags options store tags
                               cache repoPath in
              (Returns r, with_cache c, [tag repoPath; getRepository repoPath])
          end
      end
  end.

End Refs.
End Caches.
Arguments Caches : clear implicits.
Arguments filter_ {A} o.
Arguments sort_ {A} o.

End Service.

(** ** Asynchronous methods

    An asynchronous method is a program over the calls it awaits: [Vis e k]
    awaits [e] and goes on with [k]; [Throw] is a rejected promise.  A program
    that is [Ret v] resolves to [v] having awaited nothing. *)

Module Async.

Inductive Reply (A : Type) :=
| Ok (a : A)
| Err (message : string).
Arguments Ok {A} a.
Arguments Err {A} message.

Section Programs.
Variable Eff : Type -> Type.

Inductive Prog (A : Type) : Type :=
| Ret (a : A)
| Throw (message : string)
| Vis {X : Type} (e : Eff X) (k : X -> Prog A).
Arguments Ret {A} a.
Arguments Throw {A} message.
Arguments Vis {A X} e k.

Fixpoint bind {A B} (p : Prog A) (f : A -> Prog B) : Prog B :=
  match p with
  | Ret a => f a
  | Throw ex => Throw ex
  | Vis e k => Vis e (fun x => bind (k x) f)
  end.

(** [await e]: a rejection propagates. *)
Definition await {A} (e : Eff (Reply A)) : Prog A :=
  Vis e (fun r => match r with Ok a => Ret a | Err ex => Throw ex end).

(** Running a program against the answers of its environment; the second
    component lists the calls that were awaited, oldest first. *)
Inductive Awaited :=
| awaited {X : Type} (e : Eff X).

Inductive Result (A : Type) :=
| Resolved (a : A)
| Rejected (message : string).
Arguments Resolved {A} a.
Arguments Rejected {A} message.

Fixpoint run {A} (answer : forall X, Eff X -> X) (p : Prog A)
    : Result A * list Awaited :=
  match p with
  | Ret a => (Resolved a, [])
  | Throw ex => (Rejected ex, [])
  | Vis e k =>
      let '(r, t) := run answer (k (answer _ e)) in
      (r, awaited e :: t)
  end.

End Programs.

Arguments Ret {Eff A} a.
Arguments Throw {Eff A} message.
Arguments Vis {Eff A X} e k.
Arguments bind {Eff A B} p f.
Arguments await {Eff A} e.
Arguments awaited {Eff X} e.
Arguments run {Eff A} answer p.
Arguments Resolved {A} a.
Arguments Rejected {A} message.

Notation "'let*' x ':=' p 'in' q" := (bind p (fun x => q))
  (at level 10, x name, p at level 100, q at level 200).

End Async.

(** ** Previous / next navigation *)

Module Nav.
Import Async.

Record Uri := { fsPath : string }.

Record GitUri := {
  g_fsPath : string;
  g_repoPath : option string;
  g_sha : option string
}.

Record LogFileOptions := {
  filters : option (list string);
  limit : option nat;
  reverse : option bool;
  simple : option bool;
  firstParent : option bool;
  startLine : option Z
}.

Record TextDocument := { isDirty : bool; getText : string }.

Record GitStatusFile := {
  indexStatus : option string;
  workingTreeStatus : option string
}.

(** The fields of [GitBlameLine] the navigation reads. *)
Record GitBlameLine := {
  commit_sha : string;
  commit_isUncommitted : bool;
  commit_fileName : option string;
  commit_originalFileName : option string;
  commit_previousSha : option string;
  line_originalLine : Z
}.

(** The awaited calls: the [Git.*] commands spawn the external tool, the
    others are the editor and other methods of the service. *)
Inductive Eff : Type -> Type :=
| log__file (repoPath fileName : string) (ref : option string)
    (options : LogFileOptions) : Eff (Reply (option string))
| log__file_recent (repoPath fileName : string) : Eff (Reply (option string))
| status__file (repoPath fileName : string) (porcelainVersion : nat)
    : Eff (Reply string)
| openTextDocument (uri : Uri) : Eff (Reply TextDocument)
| getBlameForLine (uri : GitUri) (editorLine : Z)
    : Eff (Reply (option GitBlameLine))
| getBlameForLineContents (uri : GitUri) (editorLine : Z) (contents : string)
    : Eff (Reply (option GitBlameLine))
| getDiffForLine (uri : GitUri) (editorLine : Z) (ref1 ref2 : option string)
    : Eff (option unit).

Abbreviation Prog := (Async.Prog Eff).

(** JavaScript [a || b] on an optional string: the empty string is falsy. *)
Definition or_else (a : option string) (b : string) : string :=
  match a with
  | Some s => if Nat.eqb (String.length s) 0 then b else s
  | None => b
  end.

Definition or_opt (a b : option string) : option string :=
  match a with
  | Some s => if Nat.eqb (String.length s) 0 then b else a
  | None => b
  end.

Definition is_empty (data : option string) : bool :=
  match data with
  | None => true
  | Some d => Nat.eqb (String.length d) 0
  end.

Definition opt_eqb (a : option string) (b : string) : bool :=
  match a with
  | Some s => String.eqb s b
  | None => false
  end.

Section Navigation.
(** Declared outside this file: the sentinel shas of [Git], its predicates on
    refs, the path helpers behind [GitUri.relativeTo] and [GitUri.resolve],
    the parsers, [Git.validateVersion] and [GitErrors.invalidLineCount]. *)
Variables deletedOrMissingSha uncommittedSha uncommittedStagedSha : string.
Variables isUncommitted isUncommittedStaged : string -> bool.
Variable relativeTo : Uri -> string -> string.
Variable resolve : string -> option string -> string.
Variable parseSimple :
  string -> nat -> option string ->
  option string * option string * option string.
Variable parseSimpleRenamed :
  string -> string -> option string * option string.
Variable parseStatus : string -> string -> nat -> option (list GitStatusFile).
Variable validateVersion : nat -> nat -> bool.
Variable invalidLineCount : string -> bool.

(** [new GitUri(uri, repoPath)] and [new GitUri(uri, { repoPath, sha })]. *)
Definition fromFile (fileName repoPath : string) (ref : option string) : GitUri :=
  let path := resolve fileName (Some repoPath) in
  match ref with
  | None => {| g_fsPath := path; g_repoPath := Some repoPath; g_sha := None |}
  | Some r =>
      if Nat.eqb (String.length r) 0
      then {| g_fsPath := path; g_repoPath := Some repoPath; g_sha := None |}
      else
        {| g_fsPath := resolve path (Some repoPath);
           g_repoPath := Some repoPath;
           g_sha := if isUncommittedStaged r || negb (isUncommitted r)
                    then Some r else None |}
  end.

Definition resolveToUri (fileName repoPath : string) : Uri :=
  {| fsPath := resolve fileName (Some repoPath) |}.

Definition getStatusForFile (repoPath fileName : string)
    : Prog (option GitStatusFile) :=
  let porcelainVersion := if validateVersion 2 11 then 2 else 1 in
  let* data := await (status__file repoPath fileName porcelainVersion) in
  match parseStatus data repoPath porcelainVersion with
  | None => Ret None
  | Some [] => Ret None
  | Some (f :: _) => Ret (Some f)
  end.

Definition getNextUri (repoPath : string) (uri : Uri) (ref : option string)
    (skip : nat) : Prog (option GitUri) :=
  match ref with
  | None => Ret None
  | Some r =>
      if Nat.eqb (String.length r) 0 || isUncommittedStaged r then Ret None
      else
        let '(ref, filters) :=
          if String.eqb r deletedOrMissingSha
          then (None, Some ["A"])
          else (Some r, None) in
        let fileName := relativeTo uri repoPath in
        let* data := await (log__file repoPath fileName ref
                  {| filters := filters; limit := Some (skip + 1);
                     reverse := Some true; simple := Some true;
                     firstParent := None; startLine := None |}) in
        if is_empty data then Ret None
        else
          let '(nextRef, file, status) :=
            parseSimple (default "" data) skip None in
          if opt_eqb status "D" then
            let* data := await (log__file repoPath "." nextRef
                      {| filters := Some ["R"]; limit := Some 1;
                         reverse := None; simple := Some true;
                         firstParent := None; startLine := None |}) in
            if is_empty data
            then Ret (Some (fromFile (or_else file fileName) repoPath nextRef))
            else
              let '(nextRenamedRef, renamedFile) :=
                parseSimpleRenamed (default "" data) (or_else file fileName) in
              Ret (Some (fromFile
                           (or_else renamedFile (or_else file fileName))
                           repoPath
                           (Some (or_else nextRenamedRef
                                    (or_else nextRef deletedOrMissingSha)))))
          else Ret (Some (fromFile (or_else file fileName) repoPath nextRef))
  end.

(** [current] is typed [GitUri] but is the unchecked result of [getNextUri]
    when [skip] is not zero. *)
Record NextDiffUris := { nd_current : option GitUri; nd_next : option GitUri }.

Definition getNextDiffUris (repoPath : string) (uri : Uri)
    (ref : option string) (skip : nat) : Prog (option NextDiffUris) :=
  match ref with
  | None => Ret None
  | Some r =>
      if Nat.eqb (String.length r) 0 then Ret None
      else
        let fileName := relativeTo uri repoPath in
        if isUncommittedStaged r then
          Ret (Some {| nd_current := Some (fromFile fileName repoPath ref);
                       nd_next := Some (fromFile fileName repoPath None) |})
        else
          let* next := getNextUri repoPath uri ref skip in
          match next with
          | None =>
              let* status := getStatusForFile repoPath fileName in
              match status with
              | Some {| indexStatus := Some _ |} =>
                  Ret (Some {| nd_current := Some (fromFile fileName repoPath ref);
                               nd_next := Some (fromFile fileName repoPath
                                                  (Some uncommittedStagedSha)) |})
              | _ =>
                  Ret (Some {| nd_current := Some (fromFile fileName repoPath ref);
                               nd_next := Some (fromFile fileName repoPath None) |})
              end
          | Some _ =>
              if Nat.eqb skip 0 then
                Ret (Some {| nd_current := Some (fromFile fileName repoPath ref);
                             nd_next := next |})
              else
                let* current := getNextUri repoPath uri ref (skip - 1) in
                Ret (Some {| nd_current := current; nd_next := next |})
          end
  end.

Definition getPreviousUri (repoPath : string) (uri : Uri) (ref : option string)
    (skip : nat) (editorLine : option Z) (firstParent : bool)
    : Prog (option GitUri) :=
  if opt_eqb ref deletedOrMissingSha then Ret None
  else
    let ref := if opt_eqb ref uncommittedSha then None else ref in
    let fileName := relativeTo uri repoPath in
    Vis (log__file repoPath fileName ref
           {| filters := None; limit := Some (skip + 2); reverse := None;
              simple := Some true; firstParent := Some firstParent;
              startLine := option_map (fun l => (l + 1)%Z) editorLine |})
      (fun reply =>
         match reply with
         | Err ex =>
             (* If the line count is invalid just fallback to the most recent
                commit *)
             if match ref with
                | None => true
                | Some r => isUncommittedStaged r
                end && invalidLineCount ex
             then
               let recent :=
                 let* ref' := await (log__file_recent repoPath fileName) in
                 Ret (Some (fromFile fileName repoPath
                              (Some (or_else ref' deletedOrMissingSha)))) in
               match ref with
               | None =>
                   let* status := getStatusForFile repoPath fileName in
                   match status with
                   | Some {| indexStatus := Some _ |} =>
                       Ret (Some (fromFile fileName repoPath
                                    (Some uncommittedStagedSha)))
                   | _ => recent
                   end
               | Some _ => recent
               end
             else Throw ex
         | Ok data =>
             if is_empty data then Ret None
             else
               let '(previousRef, file, _) :=
                 parseSimple (default "" data) skip ref in
               (* If the previous ref matches the ref we asked for assume we
                  are at the end of the history *)
               if match ref with
                  | Some r => opt_eqb previousRef r
                  | None => false
                  end
               then Ret None
               else
                 Ret (Some (fromFile (or_else file fileName) repoPath
                              (Some (or_else previousRef deletedOrMissingSha))))
         end).

Record PreviousDiffUris := { pd_current : GitUri; pd_previous : option GitUri }.

Definition getPreviousDiffUris (repoPath : string) (uri : Uri)
    (ref : option string) (skip : nat) (firstParent : bool)
    : Prog (option PreviousDiffUris) :=
  if opt_eqb ref deletedOrMissingSha then Ret None
  else
    let fileName := relativeTo uri repoPath in
    (* If we are at a commit, diff commit with previous *)
    let at_commit (skip : nat) : Prog (option PreviousDiffUris) :=
      let* current :=
        if Nat.eqb skip 0 then Ret (Some (fromFile fileName repoPath ref))
        else getPreviousUri repoPath uri ref (skip - 1) None firstParent in
      match current with
      | None => Ret None
      | Some c =>
          if opt_eqb (g_sha c) deletedOrMissingSha then Ret None
          else
            let* previous := getPreviousUri repoPath uri ref skip None firstParent in
            Ret (Some {| pd_current := c; pd_previous := previous |})
      end in
    if match ref with
       | None => true
       | Some r => Nat.eqb (String.length r) 0
       end
    then
      (* First, check the file status to see if there is anything staged *)
      let* status := getStatusForFile repoPath fileName in
      match status with
      | Some st =>
          match indexStatus st with
          | Some _ =>
              let skip :=
                match workingTreeStatus st with
                | None => S skip
                | Some _ => skip
                end in
              if Nat.eqb skip 0 then
                Ret (Some {| pd_current := fromFile fileName repoPath None;
                             pd_previous :=
                               Some (fromFile fileName repoPath
                                       (Some uncommittedStagedSha)) |})
              else
                let* previous :=
                  getPreviousUri repoPath uri ref (skip - 1) None firstParent in
                Ret (Some {| pd_current := fromFile fileName repoPath
                                             (Some uncommittedStagedSha);
                             pd_previous := previous |})
          | None =>
              match workingTreeStatus st with
              | Some _ =>
                  if Nat.eqb skip 0 then
                    let* previous :=
                      getPreviousUri repoPath uri None skip None firstParent in
                    Ret (Some {| pd_current := fromFile fileName repoPath None;
                                 pd_previous := previous |})
                  else at_commit skip
              | None => at_commit skip
              end
          end
      | None => at_commit (if Nat.eqb skip 0 then S skip else skip)
      end
    else if match ref with
            | Some r => isUncommittedStaged r
            | None => false
            end
    then
      (* If we are at the index (staged), diff staged with HEAD *)
      let* current :=
        if Nat.eqb skip 0 then Ret (Some (fromFile fileName repoPath ref))
        else getPreviousUri repoPath uri None (skip - 1) None firstParent in
      match current with
      | None => Ret None
      | Some c =>
          if opt_eqb (g_sha c) deletedOrMissingSha then Ret None
          else
            let* previous := getPreviousUri repoPath uri None skip None firstParent in
            Ret (Some {| pd_current := c; pd_previous := previous |})
      end
    else at_commit skip.

(** [new GitUri(uri, { repoPath, sha })]. *)
Definition gitUriAt (uri : Uri) (repoPath : string) (sha : string) : GitUri :=
  {| g_fsPath := resolve (fsPath uri) (Some repoPath);
     g_repoPath := Some repoPath;
     g_sha := if isUncommittedStaged sha || negb (isUncommitted sha)
              then Some sha else None |}.

Definition truthy (a : option string) : bool :=
  match a with
  | Some s => negb (Nat.eqb (String.length s) 0)
  | None => false
  end.

Definition getPreviousLineDiffUris (repoPath : string) (uri : Uri)
    (editorLine : Z) (ref : option string) (skip : nat)
    : Prog (option PreviousDiffUris) :=
  if opt_eqb ref deletedOrMissingSha then Ret None
  else
    let fileName := relativeTo uri repoPath in
    (* the statements after the outer [if] *)
    let finish (fileName : string) (uri : Uri) (editorLine : Z)
        (ref : option string) (skip : nat) (previous : option GitUri)
        : Prog (option PreviousDiffUris) :=
      let* current :=
        if Nat.eqb skip 0 then Ret (Some (fromFile fileName repoPath ref))
        else getPreviousUri repoPath uri ref (skip - 1) (Some editorLine) false in
      match current with
      | None => Throw "TypeError"
      | Some c =>
          if opt_eqb (g_sha c) deletedOrMissingSha then Ret None
          else
            match previous with
            | Some _ =>
                Ret (Some {| pd_current := c; pd_previous := previous |})
            | None =>
                let* p := getPreviousUri repoPath uri ref skip (Some editorLine) false in
                Ret (Some {| pd_current := c; pd_previous := p |})
            end
      end in
    (* Diff with line ref with previous *)
    let from_blame (blameLine : GitBlameLine) : Prog (option PreviousDiffUris) :=
      let ref := Some (commit_sha blameLine) in
      let fileName :=
        or_else (commit_fileName blameLine)
          (or_else (commit_originalFileName blameLine) fileName) in
      let uri := resolveToUri fileName repoPath in
      let editorLine := (line_originalLine blameLine - 1)%Z in
      let previous :=
        if Nat.eqb skip 0 && truthy (commit_previousSha blameLine)
        then Some (fromFile fileName repoPath (commit_previousSha blameLine))
        else None in
      finish fileName uri editorLine ref skip previous in
    if match ref with
       | None => true
       | Some r => Nat.eqb (String.length r) 0
       end
    then
      let gitUri := {| g_fsPath := fsPath uri; g_repoPath := Some repoPath;
                       g_sha := None |} in
      let* document := await (openTextDocument uri) in
      let* blameLine :=
        if isDirty document
        then await (getBlameForLineContents gitUri editorLine (getText document))
        else await (getBlameForLine gitUri editorLine) in
      match blameLine with
      | None => Ret None
      | Some blameLine =>
          if commit_isUncommitted blameLine then
            if isDirty document then
              let* status := getStatusForFile repoPath fileName in
              match status with
              | Some {| indexStatus := Some _ |} =>
                  Ret (Some {| pd_current := fromFile fileName repoPath None;
                               pd_previous :=
                                 Some (fromFile fileName repoPath
                                         (Some uncommittedStagedSha)) |})
              | _ =>
                  let* previous :=
                    getPreviousUri repoPath uri None skip (Some editorLine) false in
                  Ret (Some {| pd_current := fromFile fileName repoPath None;
                               pd_previous := previous |})
              end
            else
              Vis (getDiffForLine gitUri editorLine None None)
                (fun hunkLine =>
                   match hunkLine with
                   | Some _ => finish fileName uri editorLine ref skip None
                   | None =>
                       Vis (getDiffForLine gitUri editorLine None
                              (Some uncommittedStagedSha))
                         (fun hunkLine =>
                            match hunkLine with
                            | Some _ =>
                                finish fileName uri editorLine
                                  (Some uncommittedStagedSha) skip None
                            | None =>
                                finish fileName uri editorLine ref (S skip) None
                            end)
                   end)
          else from_blame blameLine
      end
    else
      let r := default "" ref in
      if isUncommittedStaged r then
        let* current :=
          if Nat.eqb skip 0 then Ret (Some (fromFile fileName repoPath ref))
          else getPreviousUri repoPath uri None (skip - 1) (Some editorLine) false in
        match current with
        | None => Throw "TypeError"
        | Some c =>
            if opt_eqb (g_sha c) deletedOrMissingSha then Ret None
            else
              let* previous :=
                getPreviousUri repoPath uri None skip (Some editorLine) false in
              Ret (Some {| pd_current := c; pd_previous := previous |})
        end
      else
        let gitUri := gitUriAt uri repoPath r in
        let* blameLine := await (getBlameForLine gitUri editorLine) in
        match blameLine with
        | None => Ret None
        | Some blameLine => from_blame blameLine
        end.

End Navigation.
End Nav.

(** ** Logs and their pagination: [getLog], [getLogMoreFn],
    [getLogForFileMoreFn] *)

Module Log.
Import Model Async.

Record GitLogCommit := {
  lc_sha : string;
  lc_ref : string;
  lc_author : string
}.

(** The options of [getLog] and of [getLogForFile]. *)
Record LogOptions := {
  o_authors : option (list string);
  o_limit : option nat;
  o_merges : option bool;
  o_ref : option string;
  o_reverse : option bool
}.

Record FileOptions := {
  f_limit : option nat;
  f_range : option Range;
  f_ref : option string;
  f_renames : option bool;
  f_reverse : option bool
}.

(** [log.query]: the call the closure makes when given a limit. *)
Inductive Query :=
| QueryLog (repoPath : string) (options : LogOptions)
| QueryLogForFile (repoPath : option string) (fileName : string)
    (options : FileOptions).

(** The fields of a [GitLog] other than [more]. *)
Record LogData := {
  repoPath : string;
  authors : JsMap.t GitAuthor;
  commits : JsMap.t GitLogCommit;
  sha : option string;
  range : option Range;
  count : nat;
  limit : option nat;
  hasMore : bool;
  query : option Query
}.

(** [log.more] is a closure over the log it was made for and the options in
    force: [getLogMoreFn(log, options)] or
    [getLogForFileMoreFn(log, fileName, options)].  In both places where such
    a closure is made it is stored in that very log, so the log a closure is
    bound to has the closure as its [more]. *)
Inductive More :=
| MoreLog (bound : LogData) (options : LogOptions)
| MoreLogForFile (bound : LogData) (fileName : string) (options : FileOptions).

Record GitLog := {
  data : LogData;
  more : option More
}.

(** The argument of [more]: a number, [{ until }] or [undefined]. *)
Inductive MoreArg :=
| Limit (n : nat)
| Until (until : string)
| Undefined.

Definition set_hasMore (d : LogData) (b : bool) : LogData :=
  {| repoPath := repoPath d; authors := authors d; commits := commits d;
     sha := sha d; range := range d; count := count d; limit := limit d;
     hasMore := b; query := query d |}.

Definition set_query (d : LogData) (q : Query) : LogData :=
  {| repoPath := repoPath d; authors := authors d; commits := commits d;
     sha := sha d; range := range d; count := count d; limit := limit d;
     hasMore := hasMore d; query := Some q |}.

(** The arguments [Git.log] is given besides the ref. *)
Record GitLogArgs := {
  a_authors : option (list string);
  a_limit : nat;
  a_merges : bool;
  a_reverse : option bool;
  a_similarityThreshold : option nat
}.

Section Pagination.
(** The current user ([getCurrentUser]) and [GitLogParser.parse] are declared
    outside this file; the parser yields the log without its closures. *)
Context {User : Type}.
Variable parse :
  string -> string -> option string -> option User -> nat -> option bool ->
  option LogData.

(** [Container.config.advanced]. *)
Variables maxListItems maxSearchItems similarityThreshold : option nat.

Inductive Eff : Type -> Type :=
| git_log (repoPath : string) (ref : option string) (args : GitLogArgs)
    : Eff (Reply string)
| getCurrentUser (repoPath : string) : Eff (Reply (option User))
| getLogForFile (repoPath : option string) (fileName : string)
    (options : FileOptions) : Eff (Reply (option GitLog)).

Abbreviation Prog := (Async.Prog Eff).

Definition with_limit_ref (o : LogOptions) (l : option nat) (r : option string)
    : LogOptions :=
  {| o_authors := o_authors o; o_limit := l; o_merges := o_merges o;
     o_ref := r; o_reverse := o_reverse o |}.

Definition file_with_limit_ref (o : FileOptions) (l : option nat)
    (r : option string) : FileOptions :=
  {| f_limit := l; f_range := f_range o; f_ref := r;
     f_renames := f_renames o; f_reverse := f_reverse o |}.

(** [Iterables.last(log.commits.values())?.ref] inside a template string. *)
Definition oldest_ref (log : LogData) : string :=
  match last (JsMap.values (commits log)) with
  | Some c => lc_ref c
  | None => "undefined"
  end.

Definition until_of (arg : MoreArg) : option string :=
  match arg with
  | Until u => Some u
  | _ => None
  end.

Definition limit_of (arg : MoreArg) : option nat :=
  match arg with
  | Limit n => Some n
  | _ => None
  end.

(** [moreUntil && Iterables.some(log.commits.values(), c => c.ref === moreUntil)] *)
Definition until_present (log : LogData) (moreUntil : option string) : bool :=
  match moreUntil with
  | Some u =>
      negb (Nat.eqb (String.length u) 0)
      && existsb (fun c => String.eqb (lc_ref c) u) (JsMap.values (commits log))
  | None => false
  end.

Definition more_ref (log : LogData) (moreUntil : option string) : string :=
  match moreUntil with
  | None => oldest_ref log ++ "^"
  | Some u => u ++ "^.." ++ oldest_ref log ++ "^"
  end.

(** [getLog]; a failure of anything inside the [try] resolves to undefined. *)
Definition getLog (repoPath : string) (options : LogOptions)
    : Prog (option GitLog) :=
  let ref := o_ref options in
  let limit := default (default 0 maxListItems) (o_limit options) in
  Vis (git_log repoPath ref
         {| a_authors := o_authors options;
            a_limit := limit;
            a_merges := default true (o_merges options);
            a_reverse := o_reverse options;
            a_similarityThreshold := similarityThreshold |})
    (fun reply =>
       match reply with
       | Err _ => Ret None
       | Ok data =>
           Vis (getCurrentUser repoPath)
             (fun user =>
                match user with
                | Err _ => Ret None
                | Ok user =>
                    match parse data repoPath ref user limit (o_reverse options) with
                    | None => Ret None
                    | Some log =>
                        let opts := with_limit_ref options (o_limit options) ref in
                        let log := set_query log (QueryLog repoPath opts) in
                        Ret (Some {| data := log;
                                     more := if hasMore log
                                             then Some (MoreLog log opts)
                                             else None |})
                    end
                end)
       end).

Definition merged (log moreLog : LogData) (moreUntil : option string)
    (moreLimit : nat) (range : option Range) (query : Query) : LogData :=
  {| repoPath := Log.repoPath log;
     authors := JsMap.merge (authors log) (authors moreLog);
     commits := JsMap.merge (commits log) (commits moreLog);
     sha := sha log;
     range := range;
     count := count log + count moreLog;
     limit := match moreUntil with
              | None => Some (default 0 (limit log) + moreLimit)
              | Some _ => None
              end;
     hasMore := match moreUntil with
                | None => hasMore moreLog
                | Some _ => true
                end;
     query := Some query |}.

(** The closure returned by [getLogMoreFn(log, options)], applied to [arg]. *)
Definition getLogMoreFn (log : LogData) (options : LogOptions) (arg : MoreArg)
    : Prog GitLog :=
  let self := Some (MoreLog log options) in
  let moreUntil := until_of arg in
  let moreLimit := limit_of arg in
  if until_present log moreUntil then Ret {| data := log; more := self |}
  else
    let moreLimit := default (default 0 maxSearchItems) moreLimit in
    let* moreLog :=
      getLog (Log.repoPath log)
        (with_limit_ref options
           (Some (match moreUntil with None => moreLimit | Some _ => 0 end))
           (Some (more_ref log moreUntil))) in
    match moreLog with
    | None =>
        (* If we can't find any more, assume we have everything *)
        Ret {| data := set_hasMore log false; more := self |}
    | Some moreLog =>
        let mergedLog :=
          merged log (data moreLog) moreUntil moreLimit None
            (QueryLog (Log.repoPath log) options) in
        Ret {| data := mergedLog; more := Some (MoreLog mergedLog options) |}
    end.

(** The closure returned by [getLogForFileMoreFn(log, fileName, options)]. *)
Definition getLogForFileMoreFn (log : LogData) (fileName : string)
    (options : FileOptions) (arg : MoreArg) : Prog GitLog :=
  let self := Some (MoreLogForFile log fileName options) in
  let moreUntil := until_of arg in
  let moreLimit := limit_of arg in
  if until_present log moreUntil then Ret {| data := log; more := self |}
  else
    let moreLimit := default (default 0 maxSearchItems) moreLimit in
    let* moreLog :=
      await (getLogForFile (Some (Log.repoPath log)) fileName
               (file_with_limit_ref options
                  (Some (match moreUntil with None => moreLimit | Some _ => 0 end))
                  (Some (more_ref log moreUntil)))) in
    match moreLog with
    | None =>
        Ret {| data := set_hasMore log false; more := self |}
    | Some moreLog =>
        let mergedLog :=
          merged log (data moreLog) moreUntil moreLimit (range log)
            (QueryLogForFile (Some (Log.repoPath log)) fileName options) in
        Ret {| data := mergedLog;
               more := Some (MoreLogForFile mergedLog fileName options) |}
    end.

(** Calling [log.more(arg)]. *)
Definition call_more (m : More) (arg : MoreArg) : Prog GitLog :=
  match m with
  | MoreLog bound options => getLogMoreFn bound options arg
  | MoreLogForFile bound fileName options =>
      getLogForFileMoreFn bound fileName options arg
  end.

End Pagination.
End Log.

(** ** The per-document promise cache: [getBlameForFile],
    [getBlameForFileContents], [getDiffForFile], [getLogForFile] and
    their [...Core] methods

    The run-time is single threaded: between two awaits a method runs without
    interleaving.  Every method below first awaits
    [Container.tracker.getOrAdd]; the functions model what it does from there
    to its [return], on the state of the tracked document and of the promises.
    A [...Core] method is started by its caller, runs up to its first await
    and is resumed later by [core_tracked] and [core_settled].  The state is
    that of one tracked document: the entries of different documents are
    kept apart by the tracker. *)

Module DocCache.
Import Model Log.

Definition PromiseId := nat.

(** [emptyPromise = Promise.resolve(undefined)], made when the module loads. *)
Definition emptyPromise : PromiseId := 0.

(** [CachedBlame], [CachedDiff], [CachedLog]. *)
Record Cached := {
  item : PromiseId;
  errorMessage : option string
}.

Section Document.
(** [GitDiff] is declared outside this file. *)
Context {GitDiff : Type}.

Inductive Value :=
| VBlame (blame : GitBlame)
| VDiff (diff : GitDiff)
| VLog (log : GitLog).

Inductive PState :=
| Pending
| Fulfilled (v : option Value).

(** The [...Core] methods with the arguments they were started with. *)
Inductive Core :=
| BlameCore (uri : Nav.GitUri)
| BlameContentsCore (uri : Nav.GitUri) (contents : string)
| DiffCore (repoPath : option string) (fileName : string)
    (ref1 ref2 originalFileName : option string) (encoding : string)
| LogFileCore (repoPath : option string) (fileName : string)
    (options : FileOptions).

Inductive Stage :=
| AwaitTracked   (* suspended on [await this.isTracked(...)] *)
| AwaitGit.      (* its git command is running *)

Record Task := {
  t_promise : PromiseId;
  t_key : string;
  t_core : Core;
  t_stage : Stage
}.

(** [doc.state] (a [GitDocumentState], undefined until first used), the flag
    set by [doc.setBlameFailure()], the promises made so far, the [...Core]
    calls in flight and, in [spawned], the [...Core] calls that have run their
    git command ([Git.blame], [Git.blame__contents], [Git.diff],
    [Git.log__file]), oldest first.  The other commands a [...Core] call
    brings about are not part of this state: the [git ls-files] lookups by
    which [isTracked] finds its answer (module [Tracked]) and the
    configuration lookups of [getCurrentUser] (module [Users]). *)
Record State := {
  docState : option (gmap string Cached);
  blameFailure : bool;
  promises : list PState;
  tasks : list Task;
  spawned : list Core
}.

Definition initial : State :=
  {| docState := None; blameFailure := false;
     promises := [Fulfilled None]; tasks := []; spawned := [] |}.

Definition set_docState (st : State) (d : option (gmap string Cached)) : State :=
  {| docState := d; blameFailure := blameFailure st; promises := promises st;
     tasks := tasks st; spawned := spawned st |}.

(** [doc.state.get(key)] behind [doc.state !== undefined]. *)
Definition state_get (st : State) (key : string) : option Cached :=
  match docState st with
  | Some m => m !! key
  | None => None
  end.

(** [if (doc.state === undefined) doc.state = new GitDocumentState(doc.key)] *)
Definition ensure_state (st : State) : State :=
  match docState st with
  | Some _ => st
  | None => set_docState st (Some ∅)
  end.

(** [if (doc.state !== undefined) doc.state.set(key, { item: promise })] *)
Definition state_add (st : State) (key : string) (promise : PromiseId) : State :=
  match docState st with
  | Some m =>
      set_docState st
        (Some (<[key := {| item := promise; errorMessage := None |}]> m))
  | None => st
  end.

(** Calling a [...Core] method: its promise is made and it runs up to its
    first await.  [getDiffForFileCore] awaits its git command at once, the
    others await [isTracked] first. *)
Definition start_core (core : Core) (key : string) (st : State)
    : PromiseId * State :=
  let promise := length (promises st) in
  let direct := match core with DiffCore _ _ _ _ _ _ => true | _ => false end in
  (promise,
   {| docState := docState st;
      blameFailure := blameFailure st;
      promises := promises st ++ [Pending];
      tasks := tasks st ++
               [{| t_promise := promise; t_key := key; t_core := core;
                   t_stage := if direct then AwaitGit else AwaitTracked |}];
      spawned := if direct then spawned st ++ [core] else spawned st |}).

Fixpoint find_task (p : PromiseId) (ts : list Task) : option Task :=
  match ts with
  | [] => None
  | t :: ts' => if Nat.eqb (t_promise t) p then Some t else find_task p ts'
  end.

Definition remove_task (p : PromiseId) (ts : list Task) : list Task :=
  List.filter (fun t => negb (Nat.eqb (t_promise t) p)) ts.

Definition spawn_task (p : PromiseId) (ts : list Task) : list Task :=
  map (fun t =>
         if Nat.eqb (t_promise t) p
         then {| t_promise := t_promise t; t_key := t_key t;
                 t_core := t_core t; t_stage := AwaitGit |}
         else t) ts.

(** The [...Core] method behind promise [p] returns [v] (or a promise that
    resolves to [v]). *)
Definition finish (p : PromiseId) (v : option Value) (st : State) : State :=
  {| docState := docState st;
     blameFailure := blameFailure st;
     promises := <[p := Fulfilled v]> (promises st);
     tasks := remove_task p (tasks st);
     spawned := spawned st |}.

(** [await this.isTracked(...)] answers [tracked] (how [isTracked] comes to
    its answer is modelled apart, in [Tracked]): an untracked file returns
    [emptyPromise], otherwise the git command of the call is run. *)
Definition core_tracked (p : PromiseId) (tracked : bool) (st : State) : State :=
  match find_task p (tasks st) with
  | Some t =>
      match t_stage t with
      | AwaitTracked =>
          if tracked then
            {| docState := docState st;
               blameFailure := blameFailure st;
               promises := promises st;
               tasks := spawn_task p (tasks st);
               spawned := spawned st ++ [t_core t] |}
          else finish p None st
      | AwaitGit => st
      end
  | None => st
  end.

(** What the [try] block comes to: the parsed result, or an exception. *)
Inductive GitOutcome :=
| Parsed (v : option Value)
| Failed (message : string).

(** [document.state.set(key, { item: emptyPromise, errorMessage: msg })] *)
Definition replace_with_empty (key msg : string) (m : gmap string Cached)
    : gmap string Cached :=
  <[key := {| item := emptyPromise; errorMessage := Some msg |}]> m.

Definition is_true (b : option bool) : bool := default false b.

(** The git command ends and its output is parsed: the [try] block returns,
    or the [catch] block runs. *)
Definition core_settled (p : PromiseId) (o : GitOutcome) (st : State) : State :=
  match find_task p (tasks st) with
  | Some t =>
      match t_stage t with
      | AwaitTracked => st
      | AwaitGit =>
          match o with
          | Parsed v => finish p v st
          | Failed msg =>
              match t_core t, docState st with
              | (BlameCore _ | BlameContentsCore _ _), Some m =>
                  (* Trap and cache expected blame errors *)
                  finish p None
                    {| docState := Some (replace_with_empty (t_key t) msg m);
                       blameFailure := true;
                       promises := promises st;
                       tasks := tasks st;
                       spawned := spawned st |}
              | DiffCore _ _ _ _ _ _, Some m =>
                  (* Trap and cache expected diff errors *)
                  finish p None
                    (set_docState st (Some (replace_with_empty (t_key t) msg m)))
              | LogFileCore _ _ options, Some m =>
                  (* Trap and cache expected log errors *)
                  if match f_range options with None => true | Some _ => false end
                     && negb (is_true (f_reverse options))
                  then
                    finish p None
                      (set_docState st (Some (replace_with_empty (t_key t) msg m)))
                  else finish p None st
              | _, None => finish p None st
              end
          end
      end
  | None => st
  end.

(** How a method leaves the segment that follows [getOrAdd]. *)
Inductive Outcome :=
| Throws (message : string)
| ReturnsPromise (p : PromiseId)
| ReturnsLog (log : GitLog)
| Suspends (p : PromiseId).   (* on [await cachedLog.item] *)

(** The shape shared by the four methods once the key is known and the lookup
    has missed: start the [...Core] call, add its promise, return it. *)
Definition miss (useCaching cacheable : bool) (core : Core) (key : string)
    (st : State) : Outcome * State :=
  let st := if useCaching && cacheable then ensure_state st else st in
  let '(promise, st) := start_core core key st in
  let st := if cacheable then state_add st key promise else st in
  (ReturnsPromise promise, st).

Section Methods.
(** Declared outside this file: [Strings.sha1], [Strings.normalizePath],
    [GitService.getEncoding] on the uri, and
    [Container.config.advanced.{maxListItems, fileHistoryFollowsRenames}]. *)
Variable sha1 : string -> string.
Variable normalizePath : string -> string.
Variable getEncoding : Nav.GitUri -> string.
Variable maxListItems : option nat.
Variable fileHistoryFollowsRenames : bool.

Definition opt_suffix (o : option string) : string :=
  match o with
  | Some s => ":" ++ s
  | None => ""
  end.

Definition blame_key (uri : Nav.GitUri) : string :=
  "blame" ++ opt_suffix (Nav.g_sha uri).

Definition getBlameForFile (useCaching : bool) (uri : Nav.GitUri) (st : State)
    : Outcome * State :=
  let key := blame_key uri in
  match (if useCaching then state_get st key else None) with
  | Some cachedBlame => (ReturnsPromise (item cachedBlame), st)
  | None => miss useCaching true (BlameCore uri) key st
  end.

Definition blame_contents_key (contents : string) : string :=
  "blame:" ++ sha1 contents.

Definition getBlameForFileContents (useCaching : bool) (uri : Nav.GitUri)
    (contents : string) (st : State) : Outcome * State :=
  let key := blame_contents_key contents in
  match (if useCaching then state_get st key else None) with
  | Some cachedBlame => (ReturnsPromise (item cachedBlame), st)
  | None => miss useCaching true (BlameContentsCore uri contents) key st
  end.

Definition diff_key (ref1 ref2 : option string) : string :=
  "diff" ++ opt_suffix ref1 ++ opt_suffix ref2.

Definition getDiffForFile (useCaching : bool) (uri : Nav.GitUri)
    (ref1 ref2 originalFileName : option string) (st : State)
    : Outcome * State :=
  let key := diff_key ref1 ref2 in
  match (if useCaching then state_get st key else None) with
  | Some cachedDiff => (ReturnsPromise (item cachedDiff), st)
  | None =>
      miss useCaching true
        (DiffCore (Nav.g_repoPath uri) (Nav.g_fsPath uri) ref1 ref2
           originalFileName (getEncoding uri))
        key st
  end.

(** [`${n}`] for a non-negative integer. *)
Definition string_of_nat (n : nat) : string :=
  NilZero.string_of_uint (Nat.to_uint n).

(** [options = { reverse: false, ...options }], the default of [renames] and
    [options.limit == null ? maxListItems || 0 : options.limit]. *)
Definition normalize_options (options : FileOptions) : FileOptions :=
  {| f_limit := Some (match f_limit options with
                      | Some l => l
                      | None => default 0 maxListItems
                      end);
     f_range := f_range options;
     f_ref := f_ref options;
     f_renames := Some (default fileHistoryFollowsRenames (f_renames options));
     f_reverse := Some (default false (f_reverse options)) |}.

Definition log_key (options : FileOptions) : string :=
  "log" ++ opt_suffix (f_ref options)
    ++ match f_limit options with
       | Some l => if Nat.eqb l 0 then "" else ":n" ++ string_of_nat l
       | None => ""
       end
    ++ (if is_true (f_renames options) then ":follow" else "")
    ++ (if is_true (f_reverse options) then ":reverse" else "").

(** The key of the log of the whole file. *)
Definition whole_log_key (options : FileOptions) : string :=
  "log" ++ (if is_true (f_renames options) then ":follow" else "")
    ++ (if is_true (f_reverse options) then ":reverse" else "").

(** One entry of [log.commits.entries()] through the [filterMap] callback;
    the state is [skip], [i], [authors] and the entries kept so far.  Every
    commit of a parsed log has its author in [log.authors]. *)
Definition copy_step (ref : string) (limit : option nat)
    (all_authors : JsMap.t GitAuthor)
    (acc : bool * nat * JsMap.t GitAuthor * list (string * GitLogCommit))
    (e : string * GitLogCommit)
    : bool * nat * JsMap.t GitAuthor * list (string * GitLogCommit) :=
  let '(skip, i, authors, kept) := acc in
  if skip && negb (String.eqb (fst e) ref) then acc
  else
    let i := S i in
    if match limit with Some l => Nat.ltb l i | None => false end
    then (false, i, authors, kept)
    else
      let authors :=
        match JsMap.get (lc_author (snd e)) all_authors with
        | Some a => JsMap.set (lc_author (snd e)) a authors
        | None => authors
        end in
      (false, i, authors, kept ++ [e]).

(** Create a copy of the log starting at the requested commit. *)
Definition copy_from (log : GitLog) (ref : string) (options : FileOptions)
    (repoPath : option string) (fileName : string) : GitLog :=
  let d := data log in
  let '(_, _, authors, kept) :=
    fold_left (copy_step ref (f_limit options) (Log.authors d))
      (commits d) (true, 0, [], []) in
  let commits := JsMap.of_entries kept in
  {| data :=
       {| Log.repoPath := Log.repoPath d;
          Log.authors := authors;
          Log.commits := commits;
          Log.sha := Log.sha d;
          Log.range := Log.range d;
          Log.count := length commits;
          Log.limit := f_limit options;
          Log.hasMore := Log.hasMore d;
          Log.query := Some (QueryLogForFile repoPath fileName options) |};
     more := more log |}.

Definition no_range (options : FileOptions) : bool :=
  match f_range options with
  | None => true
  | Some _ => false
  end.

(** [getLogForFile] up to its [return], its [throw] or its
    [await cachedLog.item]. *)
Definition getLogForFile (useCaching : bool) (repoPath : option string)
    (fileName : string) (options : FileOptions) (st : State)
    : Outcome * State :=
  if match repoPath with
     | Some rp => String.eqb rp (normalizePath fileName)
     | None => false
     end
  then
    (Throws ("File name cannot match the repository path; fileName=" ++ fileName),
     st)
  else
    let options := normalize_options options in
    let key := log_key options in
    let core := LogFileCore repoPath fileName options in
    if useCaching && no_range options then
      match state_get st key with
      | Some cachedLog => (ReturnsPromise (item cachedLog), st)
      | None =>
          (* Since we are looking for partial log, see if we have the log of
             the whole file *)
          match state_get st (whole_log_key options) with
          | Some cachedLog =>
              match f_ref options with
              | None => (ReturnsPromise (item cachedLog), st)
              | Some _ => (Suspends (item cachedLog), st)
              end
          | None => miss useCaching (no_range options) core key st
          end
      end
    else miss useCaching (no_range options) core key st.

(** [getLogForFile] from the value of the awaited [cachedLog.item] on. *)
Definition getLogForFile_resume (repoPath : option string) (fileName : string)
    (options : FileOptions) (awaited : option Value) (st : State)
    : Outcome * State :=
  let options := normalize_options options in
  let key := log_key options in
  let core := LogFileCore repoPath fileName options in
  match awaited, f_ref options with
  | Some (VLog log), Some ref =>
      if negb (hasMore (data log)) && JsMap.has ref (commits (data log))
      then (ReturnsLog (copy_from log ref options repoPath fileName), st)
      else miss true true core key st
  | _, _ => miss true true core key st
  end.

(** A call of one of the four methods. *)
Inductive Request :=
| ReqBlame (uri : Nav.GitUri)
| ReqBlameContents (uri : Nav.GitUri) (contents : string)
| ReqDiff (uri : Nav.GitUri) (ref1 ref2 originalFileName : option string)
| ReqLogForFile (repoPath : option string) (fileName : string)
    (options : FileOptions).

Definition call (useCaching : bool) (req : Request) (st : State)
    : Outcome * State :=
  match req with
  | ReqBlame uri => getBlameForFile useCaching uri st
  | ReqBlameContents uri contents =>
      getBlameForFileContents useCaching uri contents st
  | ReqDiff uri ref1 ref2 originalFileName =>
      getDiffForFile useCaching uri ref1 ref2 originalFileName st
  | ReqLogForFile repoPath fileName options =>
      getLogForFile useCaching repoPath fileName options st
  end.

Definition key_of (req : Request) : string :=
  match req with
  | ReqBlame uri => blame_key uri
  | ReqBlameContents _ contents => blame_contents_key contents
  | ReqDiff _ ref1 ref2 _ => diff_key ref1 ref2
  | ReqLogForFile _ _ options => log_key (normalize_options options)
  end.

Definition core_of (req : Request) : Core :=
  match req with
  | ReqBlame uri => BlameCore uri
  | ReqBlameContents uri contents => BlameContentsCore uri contents
  | ReqDiff uri ref1 ref2 originalFileName =>
      DiffCore (Nav.g_repoPath uri) (Nav.g_fsPath uri) ref1 ref2
        originalFileName (getEncoding uri)
  | ReqLogForFile repoPath fileName options =>
      LogFileCore repoPath fileName (normalize_options options)
  end.

(** [n] calls of the same request, one after the other, none of the promises
    settling in between: the outcomes in order and the final state. *)
Fixpoint calls (useCaching : bool) (req : Request) (n : nat) (st : State)
    : list Outcome * State :=
  match n with
  | 0 => ([], st)
  | S n' =>
      let '(o, st) := call useCaching req st in
      let '(os, st) := calls useCaching req n' st in
      (o :: os, st)
  end.

End Methods.
End Document.
Arguments Value : clear implicits.
Arguments State : clear implicits.

End DocCache.

(** * The vocabulary of the statements, and samples *)

(** ** Measures of expressions *)

Module RegexSpec.
Import Regex.

(** Expressions every match of which takes at least one code unit. *)
Fixpoint consumes (r : re) : bool :=
  match r with
  | Chr _ => true
  | Lit l => negb (Nat.eqb (length l) 0)
  | Seq r1 r2 => consumes r1 || consumes r2
  | Alt r1 r2 => consumes r1 && consumes r2
  | PlusGreedy _ => true
  | Grp _ r1 => consumes r1
  | _ => false
  end.

(** The numbers of the groups of an expression. *)
Fixpoint groups (r : re) : list nat :=
  match r with
  | Seq r1 r2 | Alt r1 r2 => groups r1 ++ groups r2
  | Opt r1 | Look r1 => groups r1
  | Grp n r1 => n :: groups r1
  | _ => []
  end.

(** Expressions that match one of finitely many literal texts. *)
Definition one_of (r : re) (ls : list (list ascii)) : Prop :=
  forall s c k x, m r s c k = Some x ->
    exists l s', In l ls /\ s = l ++ s' /\ k s' c = Some x.

End RegexSpec.

(** ** The long forms of the operators *)

Module SearchSpec.
Import Search.

Definition longForms : list string :=
  ["message:"; "author:"; "commit:"; "file:"; "change:"].

Definition long_keys (operations : Ops) : Prop :=
  forall k, In k (JsMap.keys operations) -> In k longForms.

End SearchSpec.

(** ** Queries made of words and operators *)

Module SearchTerms.
Import Regex Search.

(** A character of a plain word: no white space, no backspace, no colon and
    no double quote. *)
Definition plain (a : ascii) : bool :=
  not_backspace_or_white a && negb (Ascii.eqb a ":")
  && negb (Ascii.eqb a (ascii_of_nat 34)).

(** A word: at least one character, all plain. *)
Definition word (w : string) : bool :=
  match list_ascii_of_string w with
  | [] => false
  | l => forallb plain l
  end.

(** Words separated by single spaces. *)
Fixpoint unwords (ws : list string) : list ascii :=
  match ws with
  | [] => []
  | w :: ws' =>
      match ws' with
      | [] => list_ascii_of_string w
      | _ :: _ => list_ascii_of_string w ++ " "%char :: unwords ws'
      end
  end.

(** An operator followed by its value, one word or more. *)
Record Term := { t_op : string; t_words : list string }.

Definition term (t : Term) : bool :=
  existsb (String.eqb (t_op t)) operatorPrefixes
  && match t_words t with
     | [] => false
     | ws => forallb word ws
     end.

(** The terms after the first piece of a query, each after a space. *)
Fixpoint terms_text (ts : list Term) : list ascii :=
  match ts with
  | [] => []
  | t :: ts' =>
      " "%char :: list_ascii_of_string (t_op t) ++ unwords (t_words t)
      ++ terms_text ts'
  end.

(** The query: the leading words, if any, then the terms, all separated by
    single spaces. *)
Definition query (lead : list string) (ts : list Term) : string :=
  string_of_list_ascii
    match lead, ts with
    | [], [] => []
    | [], t :: ts' =>
        list_ascii_of_string (t_op t) ++ unwords (t_words t) ++ terms_text ts'
    | _ :: _, _ => unwords lead ++ terms_text ts
    end.

(** The long form of an operator, as the specification names them. *)
Definition long_form (op : string) : string :=
  if String.eqb op "=:" || String.eqb op "message:" then "message:"
  else if String.eqb op "@:" || String.eqb op "author:" then "author:"
  else if String.eqb op "#:" || String.eqb op "commit:" then "commit:"
  else if String.eqb op "?:" || String.eqb op "file:" then "file:"
  else if String.eqb op "~:" || String.eqb op "change:" then "change:"
  else op.

(** The values that the leading words give to the operator [op]: the whole
    text to [commit:] when it is a sha, its words to [message:] otherwise. *)
Definition lead_values (isSha : string -> bool) (op : string)
    (lead : list string) : list string :=
  match lead with
  | [] => []
  | _ :: _ =>
      let text := string_of_list_ascii (unwords lead) in
      if isSha text then (if String.eqb op "commit:" then [text] else [])
      else if String.eqb op "message:" then lead else []
  end.

(** The values that a term gives to the operator [op]: under [message:] its
    words, under another operator its whole value. *)
Definition term_values (op : string) (t : Term) : list string :=
  if String.eqb op (long_form (t_op t)) then
    if String.eqb op "message:" then t_words t
    else [string_of_list_ascii (unwords (t_words t))]
  else [].

(** The values of a query under the operator [op], in the order of the
    query. *)
Definition values_under (isSha : string -> bool) (op : string)
    (lead : list string) (ts : list Term) : list string :=
  lead_values isSha op lead ++ flat_map (term_values op) ts.

(** An operator is in the map when it has a value. *)
Definition entry (values : list string) : option (list string) :=
  match values with
  | [] => None
  | _ :: _ => Some values
  end.

(** *** The shape of the text, and what the loops do with it *)

(** The operator prefixes as code units. *)
Definition prefix_chars : list (list ascii) := map list_ascii_of_string operatorPrefixes.

(** The text after a value: the end, or a space. *)
Definition ends (rest : list ascii) : Prop :=
  rest = [] \/ exists r, rest = " "%char :: r.

(** The text after a value: the end, or a space and an operator. *)
Definition ends_value (rest : list ascii) : Prop :=
  rest = []
  \/ exists op more, In op operatorPrefixes
                     /\ rest = " "%char :: list_ascii_of_string op ++ more.

(** A value: no colon, no line terminator, no white space at its end. *)
Fixpoint texty (v : list ascii) : Prop :=
  match v with
  | [] => True
  | a :: v' =>
      a <> ":"%char /\ dot a = true /\ (white a = true -> v' <> [])
      /\ texty v'
  end.

Definition colonless (v : list ascii) : Prop :=
  Forall (fun a => a <> ":"%char) v.

(** What the loop does with a term. *)
Definition push_all (op : string) (values : list string) (operations : Ops)
    : Ops :=
  fold_left (fun o v => push_value op v o) values operations.

Definition apply_term (operations : Ops) (t : Term) : Ops :=
  if String.eqb (long_form (t_op t)) "message:"
  then push_all "message:" (t_words t) operations
  else push_value (long_form (t_op t))
         (string_of_list_ascii (unwords (t_words t))) operations.

(** The map holds the values that [f] gives to each operator. *)
Definition holds (operations : Ops) (f : string -> list string) : Prop :=
  forall op, JsMap.get op operations = entry (f op).

End SearchTerms.

(** ** A sample of the service caches *)

Module ServiceSample.
Import Service.

(** A stand-in for [RepositoryChangeEvent]: the list of changes it carries,
    [changed(change, solely)] asking for exactly that change or for its
    presence. *)
Inductive Change := Config | Closed | Remotes | Repository | Stashes | Tags.

Definition change_eqb (a b : Change) : bool :=
  match a, b with
  | Config, Config | Closed, Closed | Remotes, Remotes
  | Repository, Repository | Stashes, Stashes | Tags, Tags => true
  | _, _ => false
  end.

Definition changed (e : list Change) (change : Change) (solely : bool) : bool :=
  if solely then
    match e with
    | [c] => change_eqb c change
    | _ => false
    end
  else existsb (fun c => change_eqb c change) e.

Definition sample : Caches string string bool string :=
  {| branchesCache := {["/repo" := ["master"]; "/other" := ["main"]]};
     tagsCache := {["/repo" := ["v1.0"]; "/other" := ["v0.1"]]};
     trackedCache := {["/repo/a.txt" := true]};
     userMapCache := {["/repo" := "user"]};
     notifications := 0 |}.

Definition no_caches : Caches string string bool string :=
  {| branchesCache := ∅; tagsCache := ∅; trackedCache := ∅;
     userMapCache := ∅; notifications := 0 |}.

Definition plain {A} : Options A := {| filter_ := None; sort_ := false |}.

(** Stand-ins for the parsers: one branch or tag per output. *)
Definition parseBranches1 (data repoPath : string) : list string := [data].

Definition parseTags1 (data repoPath : string) : option (list string) :=
  Some [data].

End ServiceSample.

(** ** The invariant of a blame result *)

Module BlameSpec.
Import Model Blame.

(** The invariant of a blame result: every line's sha has a commit; the
    commits' line lists partition the lines, each line in the list of the
    commit of its sha; line [i] of the sequence (from zero) has number
    [i + 1]; and the authors' counts add up to the number of lines. *)
Record invariant (b : GitBlame) : Prop := {
  sha_has_commit :
    forall l, In l (b_lines b) ->
      exists c, JsMap.get (l_sha l) (b_commits b) = Some c;
  lines_partitioned :
    Permutation (concat (map c_lines (JsMap.values (b_commits b)))) (b_lines b);
  lines_in_their_commit :
    forall c l, In c (JsMap.values (b_commits b)) -> In l (c_lines c) ->
      l_sha l = c_sha c;
  lines_numbered :
    forall (i : nat) l, b_lines b !! i = Some l -> l_line l = S i;
  authors_aggregated :
    total_lineCount (b_authors b) = length (b_lines b)
}.

Definition old_count (k : string) (m : JsMap.t GitAuthor) : nat :=
  match JsMap.get k m with
  | Some a => lineCount a
  | None => 0
  end.

(** What one commit adds to the total. *)
Definition contributes (shas : gset string) (startLine endLine : nat)
    (c : GitBlameCommit) : nat :=
  if bool_decide (c_sha c ∈ shas)
  then length (List.filter (in_lines startLine endLine) (c_lines c))
  else 0.

(** The invariant in the words of C8: every line's sha has a commit, and the
    commits' line lists partition the lines, each line in the list of the
    commit of its sha. *)
Record partitioned (b : GitBlame) : Prop := {
  p_sha_has_commit :
    forall l, In l (b_lines b) ->
      exists c, JsMap.get (l_sha l) (b_commits b) = Some c;
  p_lines_partitioned :
    Permutation (concat (map c_lines (JsMap.values (b_commits b)))) (b_lines b);
  p_lines_in_their_commit :
    forall c l, In c (JsMap.values (b_commits b)) -> In l (c_lines c) ->
      l_sha l = c_sha c
}.

(** Whether the commit of a line, found by its sha, is by the author. *)
Definition by_author (commits : JsMap.t GitBlameCommit) (author : string)
    (l : GitCommitLine) : bool :=
  match JsMap.get (l_sha l) commits with
  | Some c => String.eqb (c_author c) author
  | None => false
  end.

(** The number of the lines that are of the author's commits. *)
Definition lines_of (commits : JsMap.t GitBlameCommit) (author : string)
    (lines : list GitCommitLine) : nat :=
  length (List.filter (by_author commits author) lines).

(** The authors hold, for every author, the number of the lines of that
    author's commits (an author of no line is absent or has the count 0). *)
Definition aggregated_by_author (authors : JsMap.t GitAuthor)
    (commits : JsMap.t GitBlameCommit) (lines : list GitCommitLine) : Prop :=
  forall author, old_count author authors = lines_of commits author lines.

(** What one commit adds to the count of an author. *)
Definition contributes_to (author : string) (shas : gset string)
    (startLine endLine : nat) (c : GitBlameCommit) : nat :=
  if String.eqb (c_author c) author
  then contributes shas startLine endLine c
  else 0.

End BlameSpec.

(** ** A sample blame *)

Module BlameSample.
Import Model.

(** A three-line file: lines 1 and 3 from commit [a1], line 2 from [b2]. *)
Definition l1 := {| l_sha := "a1"; l_line := 1; l_originalLine := 1 |}.

Definition l2 := {| l_sha := "b2"; l_line := 2; l_originalLine := 1 |}.

Definition l3 := {| l_sha := "a1"; l_line := 3; l_originalLine := 2 |}.

Definition blame : GitBlame :=
  {| b_repoPath := Some "/repo";
     b_authors := [("Ann", {| name := "Ann"; lineCount := 2 |});
                   ("Bob", {| name := "Bob"; lineCount := 1 |})];
     b_commits :=
       [("a1", {| c_sha := "a1"; c_author := "Ann"; c_lines := [l1; l3] |});
        ("b2", {| c_sha := "b2"; c_author := "Bob"; c_lines := [l2] |})];
     b_lines := [l1; l2; l3] |}.

(** Lines 2 and 3 (zero-based 1 to 2). *)
Definition range : Range :=
  {| start := {| line := 1; character := 0 |};
     end_ := {| line := 2; character := 0 |} |}.

(** Two lines that carry the numbers 10 and 11, and their blame. *)
Definition m1 := {| l_sha := "a1"; l_line := 10; l_originalLine := 10 |}.

Definition m2 := {| l_sha := "b2"; l_line := 11; l_originalLine := 11 |}.

Definition excerpt : GitBlame :=
  {| b_repoPath := Some "/repo";
     b_authors := [("Ann", {| name := "Ann"; lineCount := 1 |});
                   ("Bob", {| name := "Bob"; lineCount := 1 |})];
     b_commits :=
       [("a1", {| c_sha := "a1"; c_author := "Ann"; c_lines := [m1] |});
        ("b2", {| c_sha := "b2"; c_author := "Bob"; c_lines := [m2] |})];
     b_lines := [m1; m2] |}.

(** The first line only. *)
Definition first_line : Range :=
  {| start := {| line := 0; character := 0 |};
     end_ := {| line := 0; character := 0 |} |}.

(** The blame of one line whose author is credited with five. *)
Definition miscounted : GitBlame :=
  {| b_repoPath := Some "/repo";
     b_authors := [("Ann", {| name := "Ann"; lineCount := 5 |})];
     b_commits :=
       [("a1", {| c_sha := "a1"; c_author := "Ann"; c_lines := [l1] |})];
     b_lines := [l1] |}.

End BlameSample.

(** ** Stand-ins for the navigation *)

Module NavSample.
Import Async Nav.

(** Stand-ins for what [Git] declares outside this file.  Of the sentinels
    only this is used: they differ, the deleted-or-missing one is not empty
    and is not a staged ref. *)
Definition deletedOrMissingSha := "ffffffffffffffffffffffffffffffffffffffff".

Definition uncommittedSha := "0000000000000000000000000000000000000000".

Definition uncommittedStagedSha := "0000000000000000000000000000000000000000:".

Definition isUncommittedStaged (ref : string) : bool :=
  String.eqb ref uncommittedStagedSha.

Definition isUncommitted (ref : string) : bool :=
  String.eqb ref uncommittedSha || isUncommittedStaged ref.

Definition relativeTo (uri : Uri) (repoPath : string) : string := fsPath uri.

Definition resolve (fileName : string) (repoPath : option string) : string :=
  fileName.

(** The simple log format read as: the whole output is the ref. *)
Definition parseSimple (data : string) (skip : nat) (ref : option string)
    : option string * option string * option string :=
  (Some data, None, None).

Definition parseSimpleRenamed (data fileName : string)
    : option string * option string := (None, None).

Definition parseStatus (data repoPath : string) (version : nat)
    : option (list GitStatusFile) := None.

Definition validateVersion (major minor : nat) : bool := true.

Definition invalidLineCount (message : string) : bool := false.

Definition nextUri :=
  getNextUri deletedOrMissingSha isUncommitted isUncommittedStaged relativeTo
    resolve parseSimple parseSimpleRenamed.

Definition nextDiffUris :=
  getNextDiffUris deletedOrMissingSha uncommittedStagedSha isUncommitted
    isUncommittedStaged relativeTo resolve parseSimple parseSimpleRenamed
    parseStatus validateVersion.

(** The tool answers the log of the file with the commit that added it. *)
Definition answer (X : Type) (e : Eff X) : X :=
  match e in Eff X return X with
  | log__file _ _ _ _ => Ok (Some "1a2b3c4")
  | log__file_recent _ _ => Ok None
  | status__file _ _ _ => Ok ""
  | openTextDocument _ => Ok {| isDirty := false; getText := "" |}
  | getBlameForLine _ _ => Ok None
  | getBlameForLineContents _ _ _ => Ok None
  | getDiffForLine _ _ _ _ => None
  end.

Definition file : Uri := {| fsPath := "a.txt" |}.

Definition first_commit_query (skip : nat) : Eff (Reply (option string)) :=
  log__file "/repo" "a.txt" None
    {| filters := Some ["A"]; limit := Some (skip + 1); reverse := Some true;
       simple := Some true; firstParent := None; startLine := None |}.

End NavSample.

(** ** The pages a [more] closure asks for and what it makes of them *)

Module LogSpec.
Import Model Async Log.

(** The limit passed on by a [more] closure. *)
Definition requested_limit (maxSearchItems : option nat) (arg : MoreArg) : nat :=
  match arg with
  | Limit n => n
  | Until _ => 0
  | Undefined => default 0 maxSearchItems
  end.

(** What the [more] closure of [log] makes of the page [moreLog]. *)
Definition extends (log moreLog : LogData) (arg : MoreArg) (result : GitLog)
    : Prop :=
  commits (data result) = JsMap.merge (commits log) (commits moreLog)
  /\ (exists rest,
        JsMap.keys (commits (data result)) = JsMap.keys (commits log) ++ rest
        /\ forall k, In k rest ->
             In k (JsMap.keys (commits moreLog))
             /\ ~ In k (JsMap.keys (commits log)))
  /\ (forall k, In k (JsMap.keys (commits (data result)))
        <-> In k (JsMap.keys (commits log))
            \/ In k (JsMap.keys (commits moreLog)))
  /\ (NoDup (JsMap.keys (commits log ++ commits moreLog)) ->
      commits (data result) = commits log ++ commits moreLog)
  /\ count (data result) = count log + count moreLog
  /\ hasMore (data result)
     = match arg with Until _ => true | _ => hasMore moreLog end.

Section Queries.
Context {User : Type}.
Variables maxListItems maxSearchItems similarityThreshold : option nat.

Definition requery (log : LogData) (options : LogOptions) (arg : MoreArg)
    : LogOptions :=
  with_limit_ref options (Some (requested_limit maxSearchItems arg))
    (Some (more_ref log (until_of arg))).

Definition file_requery (log : LogData) (options : FileOptions) (arg : MoreArg)
    : FileOptions :=
  file_with_limit_ref options (Some (requested_limit maxSearchItems arg))
    (Some (more_ref log (until_of arg))).

Definition git_log_of (repoPath : string) (options : LogOptions)
    : @Eff User (Reply string) :=
  git_log repoPath (o_ref options)
    {| a_authors := o_authors options;
       a_limit := default (default 0 maxListItems) (o_limit options);
       a_merges := default true (o_merges options);
       a_reverse := o_reverse options;
       a_similarityThreshold := similarityThreshold |}.

End Queries.

End LogSpec.

(** ** A sample history *)

Module LogSample.
Import Model Async Log.

(** A history [c1 <- c2 <- c3] read one commit a page.  The stand-in for the
    parser makes a log of the one commit the tool printed, with more to come
    when the page was full, and no log of an empty output. *)

Definition commit (sha : string) : GitLogCommit :=
  {| lc_sha := sha; lc_ref := sha; lc_author := "Ann" |}.

Definition parse (data repoPath : string) (ref : option string)
    (user : option unit) (limit : nat) (reverse : option bool)
    : option LogData :=
  if Nat.eqb (String.length data) 0 then None
  else
    Some {| repoPath := repoPath;
            authors := [("Ann", {| name := "Ann"; lineCount := 1 |})];
            commits := [(data, commit data)];
            sha := ref;
            range := None;
            count := 1;
            limit := Some limit;
            hasMore := Nat.eqb limit 1;
            query := None |}.

Definition getLog := Log.getLog parse (Some 1) None.

Definition call_more := Log.call_more parse (Some 1) (Some 5) None.

Definition options : LogOptions :=
  {| o_authors := None; o_limit := None; o_merges := None; o_ref := None;
     o_reverse := None |}.

(** A shallow clone that stops at [c2] ... *)
Definition shallow (X : Type) (e : @Eff unit X) : X :=
  match e in Eff X return X with
  | git_log _ None _ => Ok "c3"
  | git_log _ (Some ref) _ =>
      if String.eqb ref "c3^" then Ok "c2" else Err "bad revision"
  | getCurrentUser _ => Ok None
  | getLogForFile _ _ _ => Ok None
  end.

(** ... and the same repository once the rest of the history was fetched. *)
Definition deepened (X : Type) (e : @Eff unit X) : X :=
  match e in Eff X return X with
  | git_log _ None _ => Ok "c3"
  | git_log _ (Some ref) _ =>
      if String.eqb ref "c3^" then Ok "c2"
      else if String.eqb ref "c2^" then Ok "c1"
      else Err "bad revision"
  | getCurrentUser _ => Ok None
  | getLogForFile _ _ _ => Ok None
  end.

(** A repository of the one commit [c3]: the first page is full, and there
    is nothing after it. *)
Definition single (X : Type) (e : @Eff unit X) : X :=
  match e in Eff X return X with
  | git_log _ None _ => Ok "c3"
  | git_log _ (Some _) _ => Ok ""
  | getCurrentUser _ => Ok None
  | getLogForFile _ _ _ => Ok None
  end.

(** The result of a program that resolves. *)
Definition resolved {A} (r : Result A * list (Awaited (@Eff unit)))
    : option A :=
  match fst r with
  | Resolved a => Some a
  | Rejected _ => None
  end.

(** The first page, its [more(5)], and the [more(5)] of that. *)
Definition page1 : option GitLog :=
  match resolved (run shallow (getLog "/repo" options)) with
  | Some log => log
  | None => None
  end.

Definition more_of (answer : forall X, @Eff unit X -> X) (log : option GitLog)
    (arg : MoreArg) : option GitLog :=
  match log with
  | Some {| more := Some m |} => resolved (run answer (call_more m arg))
  | _ => None
  end.

Definition page2 : option GitLog := more_of shallow page1 (Limit 5).

Definition page3 : option GitLog := more_of deepened page2 (Limit 5).

(** The data of the first page and of the two-commit log of the sample. *)
Definition first : LogData :=
  match page1 with
  | Some l => data l
  | None =>
      {| repoPath := ""; authors := []; commits := []; sha := None;
         range := None; count := 0; limit := None; hasMore := false;
         query := None |}
  end.

Definition second : LogData :=
  match page2 with
  | Some l => data l
  | None => first
  end.

Definition fileOptions : FileOptions :=
  {| f_limit := None; f_range := None; f_ref := None; f_renames := None;
     f_reverse := None |}.

End LogSample.

(** ** Well-formed states, cached requests and what a miss leaves *)

Module DocSpec.
Import Model Log DocCache.

Section Spec.
Context {GitDiff : Type}.
Variable normalizePath : string -> string.
Variable maxListItems : option nat.
Variable fileHistoryFollowsRenames : bool.

Abbreviation St := (State GitDiff).
Abbreviation normalize :=
  (DocCache.normalize_options maxListItems fileHistoryFollowsRenames).

(** [emptyPromise] is resolved to undefined, and the [...Core] calls in flight
    have promises of their own among those made. *)
Definition wf (st : St) : Prop :=
  promises st !! emptyPromise = Some (Fulfilled None)
  /\ forall t, In t (tasks st) ->
       0 < t_promise t /\ t_promise t < length (promises st).

(** The requests the cache serves: for [getLogForFile], those that do not
    throw and have no range. *)
Definition cached_request (req : Request) : Prop :=
  match req with
  | ReqLogForFile repoPath fileName options =>
      match repoPath with
      | Some rp => String.eqb rp (normalizePath fileName) = false
      | None => True
      end
      /\ f_range options = None
  | _ => True
  end.

(** For [getLogForFile]: no log of the whole file is cached either. *)
Definition whole_log_absent (req : Request) (st : St) : Prop :=
  match req with
  | ReqLogForFile _ _ options =>
      state_get st (whole_log_key (normalize options)) = None
  | _ => True
  end.

(** The state a miss leaves. *)
Definition after_miss (core : Core) (key : string) (st : St) : St :=
  let direct := match core with DiffCore _ _ _ _ _ _ => true | _ => false end in
  {| docState :=
       Some (<[key := {| item := length (promises st); errorMessage := None |}]>
               (default ∅ (docState st)));
     blameFailure := blameFailure st;
     promises := promises st ++ [Pending];
     tasks := tasks st ++
              [{| t_promise := length (promises st); t_key := key;
                  t_core := core;
                  t_stage := if direct then AwaitGit else AwaitTracked |}];
     spawned := if direct then spawned st ++ [core] else spawned st |}.

(** The promise a miss returned, once its file is found tracked and its
    git command has ended with [v]: one git command more, and the promise
    resolved to [v]. *)
Definition complete (p : PromiseId) (v : option (Value GitDiff)) (st : St) : St :=
  core_settled p (Parsed v) (core_tracked p true st).

(** The [...Core] calls whose [catch] block replaces the cache entry. *)
Definition caches_failure (core : Core) : bool :=
  match core with
  | LogFileCore _ _ options => no_range options && negb (is_true (f_reverse options))
  | _ => true
  end.

(** The requests that go past the cache: [getLogForFile] with a range (and
    not throwing). *)
Definition ranged_request (req : Request) : Prop :=
  match req with
  | ReqLogForFile repoPath fileName options =>
      match repoPath with
      | Some rp => String.eqb rp (normalizePath fileName) = false
      | None => True
      end
      /\ f_range options <> None
  | _ => False
  end.

(** The [i]-th of the [...Core] calls started on [st] one after the other,
    suspended on [isTracked]. *)
Definition started_task (core : Core) (key : string) (st : St) (i : nat)
    : Task :=
  {| t_promise := length (promises st) + i; t_key := key; t_core := core;
     t_stage := AwaitTracked |}.

(** The state after [n] such calls, none of them stored. *)
Definition started (core : Core) (key : string) (n : nat) (st : St) : St :=
  {| docState := docState st;
     blameFailure := blameFailure st;
     promises := promises st ++ repeat Pending n;
     tasks := tasks st ++ map (started_task core key st) (seq 0 n);
     spawned := spawned st |}.

End Spec.

End DocSpec.

(** ** A sample document *)

Module DocSample.
Import Model Log DocCache.

(** Stand-ins for what the document cache takes from outside this file: the
    hash of the contents, the normalization of paths and the encoding, with
    the two settings read from the configuration left unset. *)

Definition sha1 (contents : string) : string := contents.

Definition normalizePath (path : string) : string := path.

Definition getEncoding (uri : Nav.GitUri) : string := "utf8".

Definition maxListItems : option nat := None.

Definition fileHistoryFollowsRenames : bool := false.

Definition call :=
  @DocCache.call string sha1 normalizePath getEncoding maxListItems
    fileHistoryFollowsRenames.

Definition calls :=
  @DocCache.calls string sha1 normalizePath getEncoding maxListItems
    fileHistoryFollowsRenames.

Definition key_of :=
  DocCache.key_of sha1 maxListItems fileHistoryFollowsRenames.

Definition uri : Nav.GitUri :=
  {| Nav.g_fsPath := "/repo/a.txt"; Nav.g_repoPath := Some "/repo";
     Nav.g_sha := None |}.

Definition plain : FileOptions :=
  {| f_limit := None; f_range := None; f_ref := None; f_renames := None;
     f_reverse := None |}.

Definition ranged : FileOptions :=
  {| f_limit := None;
     f_range := Some {| start := {| line := 0; character := 0 |};
                        end_ := {| line := 1; character := 0 |} |};
     f_ref := None; f_renames := None; f_reverse := None |}.

Definition reversed : FileOptions :=
  {| f_limit := None; f_range := None; f_ref := None; f_renames := None;
     f_reverse := Some true |}.

Definition at_ref (ref : string) : FileOptions :=
  {| f_limit := None; f_range := None; f_ref := Some ref; f_renames := None;
     f_reverse := None |}.

Definition file_log (options : FileOptions) : Request :=
  ReqLogForFile (Some "/repo") "/repo/a.txt" options.

(** The document after a first [getBlameForFile] whose file was found tracked:
    the git command of promise 1 is running. *)
Definition blaming : State string :=
  core_tracked 1 true (snd (call true (ReqBlame uri) initial)).

Definition blame_task : Task :=
  {| t_promise := 1; t_key := "blame"; t_core := BlameCore uri;
     t_stage := AwaitGit |}.

End DocSample.

(** * Further methods of the service *)

(** ** Blames keyed by sha, and authors in order *)

Module BlameKeyed.
Import Model Blame.

(** The commits of a blame are kept under their sha, no sha twice. *)
Definition keyed_by_sha (commits : JsMap.t GitBlameCommit) : Prop :=
  NoDup (JsMap.keys commits)
  /\ forall k c, In (k, c) commits -> k = c_sha c.

(** Authors in decreasing order of their line counts. *)
Definition decreasing (authors : JsMap.t GitAuthor) : Prop :=
  StronglySorted (fun a b => lineCount (snd b) <= lineCount (snd a)) authors.

(** The commits the loop of [getBlameForRangeSync] keeps, when no sha comes
    twice. *)
Definition kept (shas : gset string) (startLine endLine : nat)
    (cs : list GitBlameCommit) : JsMap.t GitBlameCommit :=
  map (fun c => (c_sha c,
                 with_lines c (List.filter (in_lines startLine endLine) (c_lines c))))
      (List.filter (fun c => bool_decide (c_sha c ∈ shas)) cs).

End BlameKeyed.

(** ** The blame of one line: [getBlameForLine], [getBlameForLineContents] *)

Module BlameLine.
Import Model Async.

(** [{ ...author, lineCount }]: without the name when [author] is undefined. *)
Record LineAuthor := { la_name : option string; la_lineCount : nat }.

Record GitBlameLine := {
  author : option LineAuthor;
  commit : option GitBlameCommit;
  line : option GitCommitLine
}.

(** [array[i]] for an integer [i]. *)
Definition at_index {A} (l : list A) (i : Z) : option A :=
  if (i <? 0)%Z then None else l !! Z.to_nat i.

Section Lines.
(** Declared outside this file: the current user, the type of
    [advanced.blame.customArguments] and [GitBlameParser.parse]. *)
Context {User Arguments : Type}.
Variable parse :
  string -> option string -> string -> option User -> option GitBlame.

(** [Container.config]. *)
Variable customArguments : Arguments.
Variable ignoreWhitespace : bool.

Record BlameOptions := {
  args : Arguments;
  o_ignoreWhitespace : bool;
  startLine : Z;
  endLine : Z
}.

Inductive Eff : Type -> Type :=
| getBlameForFile (uri : Nav.GitUri) : Eff (Reply (option GitBlame))
| getBlameForFileContents (uri : Nav.GitUri) (contents : string)
    : Eff (Reply (option GitBlame))
| blame (repoPath : option string) (fileName : string) (sha : option string)
    (options : BlameOptions) : Eff (Reply string)
| blame__contents (repoPath : option string) (fileName contents : string)
    (options : BlameOptions) : Eff (Reply string)
| getCurrentUser (repoPath : option string) : Eff (Reply (option User)).

Abbreviation Prog := (Async.Prog Eff).

(** From [let blameLine = blame.lines[editorLine]] to the [return] of the
    cached branch.  Reading [blameLine.sha] of an undefined line throws. *)
Definition line_of_blame (blame : GitBlame) (editorLine : Z)
    : Prog (option GitBlameLine) :=
  let found (blameLine : GitCommitLine) : Prog (option GitBlameLine) :=
    match JsMap.get (l_sha blameLine) (b_commits blame) with
    | None => Ret None
    | Some commit =>
        let author := JsMap.get (c_author commit) (b_authors blame) in
        Ret (Some {| author := Some {| la_name := option_map name author;
                                       la_lineCount := length (c_lines commit) |};
                     commit := Some commit;
                     line := Some blameLine |})
    end in
  match at_index (b_lines blame) editorLine with
  | Some blameLine => found blameLine
  | None =>
      if negb (Z.of_nat (length (b_lines blame)) =? editorLine)%Z then Ret None
      else
        match at_index (b_lines blame) (editorLine - 1) with
        | Some blameLine => found blameLine
        | None => Throw "TypeError: Cannot read property 'sha' of undefined"
        end
  end.

(** The [return] of the other branch, on the blame of the one line. *)
Definition first_of_blame (blame : GitBlame) (editorLine : Z) : GitBlameLine :=
  {| author :=
       option_map (fun a => {| la_name := Some (name a);
                               la_lineCount := lineCount a |})
                  (head (JsMap.values (b_authors blame)));
     commit := head (JsMap.values (b_commits blame));
     line := at_index (b_lines blame) editorLine |}.

Definition line_options (editorLine : Z) : BlameOptions :=
  let lineToBlame := (editorLine + 1)%Z in
  {| args := customArguments; o_ignoreWhitespace := ignoreWhitespace;
     startLine := lineToBlame; endLine := lineToBlame |}.

(** The [try] block of the other branch from the output of the tool on; the
    [catch] block returns undefined. *)
Definition parsed_line (uri : Nav.GitUri) (editorLine : Z)
    (reply : Reply string) : Prog (option GitBlameLine) :=
  match reply with
  | Err _ => Ret None
  | Ok data =>
      Vis (getCurrentUser (Nav.g_repoPath uri))
        (fun user =>
           match user with
           | Err _ => Ret None
           | Ok user =>
               match parse data (Nav.g_repoPath uri) (Nav.g_fsPath uri) user with
               | None => Ret None
               | Some b => Ret (Some (first_of_blame b editorLine))
               end
           end)
  end.

Definition getBlameForLine (useCaching : bool) (uri : Nav.GitUri)
    (editorLine : Z) (skipCache : bool) : Prog (option GitBlameLine) :=
  if negb skipCache && useCaching then
    let* cached := await (getBlameForFile uri) in
    match cached with
    | None => Ret None
    | Some b => line_of_blame b editorLine
    end
  else
    Vis (blame (Nav.g_repoPath uri) (Nav.g_fsPath uri) (Nav.g_sha uri)
           (line_options editorLine))
      (parsed_line uri editorLine).

Definition getBlameForLineContents (useCaching : bool) (uri : Nav.GitUri)
    (editorLine : Z) (contents : string) (skipCache : bool)
    : Prog (option GitBlameLine) :=
  if negb skipCache && useCaching then
    let* cached := await (getBlameForFileContents uri contents) in
    match cached with
    | None => Ret None
    | Some b => line_of_blame b editorLine
    end
  else
    Vis (blame__contents (Nav.g_repoPath uri) (Nav.g_fsPath uri) contents
           (line_options editorLine))
      (parsed_line uri editorLine).

End Lines.
End BlameLine.

(** ** What [getBlameForLine] returns, and a sample *)

Module BlameLineSpec.
Import Model BlameLine.

(** What the cached branch makes of the line [l] of a commit [c]. *)
Definition blamed (blame : GitBlame) (c : GitBlameCommit) (l : GitCommitLine)
    : GitBlameLine :=
  {| author :=
       Some {| la_name :=
                 option_map name (JsMap.get (c_author c) (b_authors blame));
               la_lineCount := length (c_lines c) |};
     commit := Some c;
     line := Some l |}.

End BlameLineSpec.

Module BlameLineSample.
Import Model Async BlameLine.

Definition uri : Nav.GitUri :=
  {| Nav.g_fsPath := "/repo/a.txt"; Nav.g_repoPath := Some "/repo";
     Nav.g_sha := None |}.

(** A stand-in for the parser: nothing is parsed. *)
Definition parse (data : string) (repoPath : option string) (fileName : string)
    (user : option unit) : option GitBlame := None.

(** [getBlameForFile] answers with the sample blame. *)
Definition answer (X : Type) (e : @Eff unit unit X) : X :=
  match e in Eff X return X with
  | getBlameForFile _ => Ok (Some BlameSample.blame)
  | getBlameForFileContents _ _ => Ok None
  | blame _ _ _ _ => Ok ""
  | blame__contents _ _ _ _ => Ok ""
  | getCurrentUser _ => Ok None
  end.

End BlameLineSample.

(** ** What a filter leaves of a list of branches or tags *)

Module ServiceSpec.
Import Service.

(** [options.filter] applied, when there is one. *)
Definition filtered {A} (options : Options A) (l : list A) : list A :=
  match filter_ options with
  | Some f => List.filter f l
  | None => l
  end.

(** The caches with [branches] stored for [repoPath]. *)
Definition with_branches {GitBranch GitTag Tracked User}
    (s : Caches GitBranch GitTag Tracked User) (repoPath : string)
    (branches : list GitBranch) : Caches GitBranch GitTag Tracked User :=
  {| branchesCache := <[repoPath := branches]> (branchesCache s);
     tagsCache := tagsCache s; trackedCache := trackedCache s;
     userMapCache := userMapCache s; notifications := notifications s |}.

End ServiceSpec.

Module BranchesSample.
Import Service.

(** The tool prints one branch, and the repository supports change events. *)
Definition answering : BranchesEnv (GitBranch := string) :=
  {| be_data := Returns (Some "master"); be_current := None;
     be_repo := Some true |}.

(** The tool fails. *)
Definition failing : BranchesEnv (GitBranch := string) :=
  {| be_data := Throws; be_current := None; be_repo := Some true |}.

End BranchesSample.

(** ** Tracked files: [isTrackable], [isTracked], [isTrackedCore]

    [isTracked] is run to its end, no other call of it in between: the
    promise it puts in [_trackedCache] while [isTrackedCore] runs is replaced
    by the boolean before the method returns, and the cache of the model
    holds booleans only. *)

Module Tracked.
Import Async.

Inductive Eff : Type -> Type :=
| ls_files (repoPath fileName : string) (ref : option string)
    : Eff (Reply (option string)).

Abbreviation Prog := (Async.Prog Eff).

(** [Boolean(data)] for [data: string | undefined]. *)
Definition truthy (data : option string) : bool :=
  match data with
  | Some d => negb (Nat.eqb (String.length d) 0)
  | None => false
  end.

(** The two ways of calling [isTracked]: with a file name and a repository
    path, or with a [GitUri] (of which the scheme is read as well). *)
Inductive Target :=
| OfFile (fileName : string) (repoPath : option string)
| OfUri (scheme : string) (uri : Nav.GitUri).

Section IsTracked.
(** Declared outside this file: the sentinel sha, the schemes of
    [DocumentSchemes], [Git.splitPath] and [Strings.normalizePath] (behind
    [GitUri.toKey]). *)
Variable deletedOrMissingSha : string.
Variables File Git GitLens PRs Vsls : string.
Variable splitPath : string -> option string -> string * string.
Variable normalizePath : string -> string.

Definition isTrackable (scheme : string) : bool :=
  String.eqb scheme File || String.eqb scheme Git || String.eqb scheme GitLens
  || String.eqb scheme PRs || String.eqb scheme Vsls.

Definition toKey (fileName : string) : string := normalizePath fileName.

(** [isTrackedCore]: the [catch] block returns false. *)
Definition isTrackedCore (fileName repoPath : string) (ref : option string)
    : Prog bool :=
  if Nav.opt_eqb ref deletedOrMissingSha then Ret false
  else
    Vis (ls_files repoPath fileName None)
      (fun reply =>
         match reply with
         | Err _ => Ret false
         | Ok data =>
             if truthy data then Ret true
             else
               match ref with
               | None => Ret false
               | Some r =>
                   Vis (ls_files repoPath fileName (Some r))
                     (fun reply =>
                        match reply with
                        | Err _ => Ret false
                        | Ok data =>
                            if truthy data then Ret true
                            else
                              (* make sure it wasn't deleted in that ref *)
                              Vis (ls_files repoPath fileName (Some (r ++ "^")%string))
                                (fun reply =>
                                   match reply with
                                   | Err _ => Ret false
                                   | Ok data => Ret (truthy data)
                                   end)
                        end)
               end
         end).

(** The file name, repository path, ref and cache key [isTracked] works
    with, or nothing for a uri that is not trackable. *)
Definition resolve_target (target : Target) (ref : option string)
    : option (string * string * option string * string) :=
  let keyed (fileName repoPath : string) (ref : option string) (key : string) :=
    (fileName, repoPath, ref,
     match ref with
     | Some r => (key ++ ":" ++ r)%string
     | None => key
     end) in
  match target with
  | OfFile fileNameOrUri repoPath =>
      let '(fileName, repoPath) := splitPath fileNameOrUri repoPath in
      Some (keyed fileName repoPath ref (toKey fileNameOrUri))
  | OfUri scheme uri =>
      if negb (isTrackable scheme) then None
      else
        Some (keyed (Nav.g_fsPath uri) (default "" (Nav.g_repoPath uri))
                (Nav.g_sha uri) (toKey (Nav.g_fsPath uri)))
  end.

(** [isTracked] on [_trackedCache]: the answer and the cache it leaves. *)
Definition isTracked (cache : gmap string bool) (target : Target)
    (ref : option string) (skipCacheUpdate : bool)
    : Prog (bool * gmap string bool) :=
  if Nav.opt_eqb ref deletedOrMissingSha then Ret (false, cache)
  else
    match resolve_target target ref with
    | None => Ret (false, cache)
    | Some (fileName, repoPath, ref, cacheKey) =>
        match cache !! cacheKey with
        | Some tracked => Ret (tracked, cache)
        | None =>
            let* tracked := isTrackedCore fileName repoPath ref in
            if skipCacheUpdate then Ret (tracked, cache)
            else Ret (tracked, <[cacheKey := tracked]> cache)
        end
    end.

End IsTracked.
End Tracked.

(** ** The lookups of [isTrackedCore], and a sample *)

Module TrackedSpec.
Import Async Tracked.

(** The calls [isTrackedCore] can make, in their order: the file in the
    working tree, then at the ref, then at its parent. *)
Definition lookups (fileName repoPath : string) (ref : option string)
    : list (Awaited Eff) :=
  awaited (ls_files repoPath fileName None)
  :: match ref with
     | Some r =>
         [awaited (ls_files repoPath fileName (Some r));
          awaited (ls_files repoPath fileName (Some (r ++ "^")%string))]
     | None => []
     end.

(** The refs of these calls. *)
Definition looked_up (ref : option string) : list (option string) :=
  None
  :: match ref with
     | Some r => [Some r; Some (r ++ "^")%string]
     | None => []
     end.

End TrackedSpec.

Module TrackedSample.
Import Async Tracked.

Definition deletedOrMissingSha := "ffffffffffffffffffffffffffffffffffffffff".

Definition splitPath (fileName : string) (repoPath : option string)
    : string * string := (fileName, default "" repoPath).

Definition normalizePath (path : string) : string := path.

Definition isTracked :=
  Tracked.isTracked deletedOrMissingSha "file" "git" "gitlens" "pr" "vsls"
    splitPath normalizePath.

Definition isTrackedCore := Tracked.isTrackedCore deletedOrMissingSha.

(** The file is in the working tree. *)
Definition listed (X : Type) (e : Eff X) : X :=
  match e in Eff X return X with
  | ls_files _ fileName _ => Ok (Some fileName)
  end.

(** The tool fails. *)
Definition failing (X : Type) (e : Eff X) : X :=
  match e in Eff X return X with
  | ls_files _ _ _ => Err "fatal: not a git repository"
  end.

Definition target : Target := OfFile "a.txt" (Some "/repo").

End TrackedSample.

(** ** The current user: [getCurrentUser] on [_userMapCache] *)

Module Users.
Import Async Regex.

(** [{ name?: string; email?: string }]. *)
Record User := { name : option string; email : option string }.

Inductive Eff : Type -> Type :=
| config__get_regex (pattern repoPath : string) (local : bool)
    : Eff (Reply (option string))
| check_mailmap (repoPath author : string) : Eff (Reply (option string)).

Abbreviation Prog := (Async.Prog Eff).

(** [$] under the flag [m]: the end of the input, or before a line
    terminator. *)
Definition eol : re := Alt EOI (Look (Chr is_line_terminator)).

(** [userConfigRegex], the expression [^user\.(name|email) (V)$] with the
    flags [g] and [m], where [V] is any run of characters of a line, the
    longest first.  The [^] is left to [exec_bol]; [V] is written as an
    optional greedy run of one character or more, which tries the same
    matches in the same order. *)
Definition userConfigRegex : re :=
  Seq (Lit (list_ascii_of_string "user."))
    (Seq (Grp 1 (Alt (Lit (list_ascii_of_string "name"))
                     (Lit (list_ascii_of_string "email"))))
       (Seq (Lit (list_ascii_of_string " "))
          (Seq (Grp 2 (Opt (PlusGreedy dot))) eol))).

(** [mappedAuthorRegex = /(.+)\s<(.+)>/]. *)
Definition mappedAuthorRegex : re :=
  Seq (Grp 1 (PlusGreedy dot))
    (Seq (Chr white)
       (Seq (Lit (list_ascii_of_string "<"))
          (Seq (Grp 2 (PlusGreedy dot)) (Lit (list_ascii_of_string ">"))))).

(** [exec] of an expression that starts with [^] under the flag [m]: a match
    starts only at the beginning of the input or after a line terminator;
    [bol] tells whether the current position is such a place.  The result is
    the remaining input where the match started, where it ended, and the
    groups. *)
Fixpoint exec_bol (r : re) (bol : bool) (s : list ascii)
    : option (list ascii * list ascii * caps) :=
  match (if bol then match_here r s else None) with
  | Some (s', c) => Some (s, s', c)
  | None =>
      match s with
      | a :: s' => exec_bol r (is_line_terminator a) s'
      | [] => None
      end
  end.

(** Whether the position where a match ended is the beginning of a line. *)
Definition bol_after (bol : bool) (s s' : list ascii) : bool :=
  match last (matched s s') with
  | Some a => is_line_terminator a
  | None => bol
  end.

(** [user[key] = value], [key] being [name] or [email]. *)
Definition set_field (key value : string) (user : User) : User :=
  if String.eqb key "name"
  then {| name := Some value; email := email user |}
  else {| name := name user; email := Some value |}.

(** The [do ... while (true)] loop over the matches of [userConfigRegex]. *)
Fixpoint user_config_loop (fuel : nat) (bol : bool) (rest : list ascii)
    (user : User) : option User :=
  match fuel with
  | 0 => None
  | S fuel' =>
      match exec_bol userConfigRegex bol rest with
      | None => Some user
      | Some (s, rest', c) =>
          user_config_loop fuel' (bol_after bol s rest') rest'
            (set_field (Search.group 1 c) (Search.group 2 c) user)
      end
  end.

Definition parse_user (data : string) : option User :=
  let s := list_ascii_of_string data in
  user_config_loop (S (length s)) true s {| name := None; email := None |}.

(** [`${x}`] for [x: string | undefined]. *)
Definition show (x : option string) : string := default "undefined" x.

Definition author_of (user : User) : string :=
  (show (name user) ++ " <" ++ show (email user) ++ ">")%string.

(** The user after the answer of [Git.check_mailmap]. *)
Definition mapped (user : User) (mappedAuthor : option string) : User :=
  match mappedAuthor with
  | Some mappedAuthor =>
      if negb (Nat.eqb (String.length mappedAuthor) 0)
         && negb (String.eqb (author_of user) mappedAuthor)
      then
        match exec mappedAuthorRegex (list_ascii_of_string mappedAuthor) with
        | Some (_, c) =>
            {| name := Some (Search.group 1 c);
               email := Some (Search.group 2 c) |}
        | None => user
        end
      else user
  | None => user
  end.

(** [!data] for [data: string | undefined]. *)
Definition falsy (data : option string) : bool :=
  match data with
  | Some d => Nat.eqb (String.length d) 0
  | None => true
  end.

(** [getCurrentUser] on [_userMapCache], in which [None] is [null]: the
    repository was looked at and has no user data.  The loop over the
    matches ends ([UsersFacts.parse_user_total]). *)
Definition getCurrentUser (cache : gmap string (option User))
    (repoPath : string) : Prog (option User * gmap string (option User)) :=
  match cache !! repoPath with
  | Some (Some user) => Ret (Some user, cache)
  | Some None => Ret (None, cache)
  | None =>
      let* data := await (config__get_regex "user.(name|email)" repoPath true) in
      if falsy data then
        (* If we found no user data, mark it so we won't bother trying again *)
        Ret (None, <[repoPath := None]> cache)
      else
        let user :=
          default {| name := None; email := None |}
                  (parse_user (default "" data)) in
        (* Check if there is a mailmap for the current user *)
        let* mappedAuthor := await (check_mailmap repoPath (author_of user)) in
        let user := mapped user mappedAuthor in
        Ret (Some user, <[repoPath := Some user]> cache)
  end.

End Users.

(** ** The output of [git config --get-regexp] for the user, and a sample *)

Module UsersSpec.
Import Regex Users.

Inductive Key := Name | Email.

Definition key_text (k : Key) : string :=
  match k with
  | Name => "name"
  | Email => "email"
  end.

Definition nl : list ascii := [ascii_of_nat 10].

(** One line of the output: [user.name VALUE] or [user.email VALUE]. *)
Definition config_line (e : Key * list ascii) : list ascii :=
  list_ascii_of_string "user." ++ list_ascii_of_string (key_text (fst e))
    ++ list_ascii_of_string " " ++ snd e.

(** What follows a line: nothing, or a line feed and the next lines. *)
Fixpoint following (es : list (Key * list ascii)) : list ascii :=
  match es with
  | [] => []
  | e :: es' => nl ++ config_line e ++ following es'
  end.

(** The lines, separated by line feeds. *)
Definition config_output (es : list (Key * list ascii)) : list ascii :=
  match es with
  | [] => []
  | e :: es' => config_line e ++ following es'
  end.

(** The values are texts of one line. *)
Definition one_line (es : list (Key * list ascii)) : Prop :=
  forall e, In e es -> forall a, In a (snd e) -> dot a = true.

Definition assign (user : User) (e : Key * list ascii) : User :=
  set_field (key_text (fst e)) (string_of_list_ascii (snd e)) user.

Definition blank : User := {| name := None; email := None |}.

End UsersSpec.

Module UsersSample.
Import Async Users.

Definition line_feed : string := String (ascii_of_nat 10) "".

(** The repository has a user, and no mailmap entry for it. *)
Definition configured (X : Type) (e : Eff X) : X :=
  match e in Eff X return X with
  | config__get_regex _ _ _ =>
      Ok (Some ("user.name Ann" ++ line_feed ++ "user.email ann@example.org")%string)
  | check_mailmap _ author => Ok (Some author)
  end.

(** The tool fails. *)
Definition failing (X : Type) (e : Eff X) : X :=
  match e in Eff X return X with
  | config__get_regex _ _ _ => Err "fatal"
  | check_mailmap _ _ => Err "fatal"
  end.

Definition ann : User :=
  {| name := Some "Ann"; email := Some "ann@example.org" |}.

End UsersSample.

(** ** Requests that do not throw, and the copy of a log from a commit on *)

Module DocSpec2.
Import Model Log DocCache.

Section Spec.
Variable normalizePath : string -> string.

(** The requests [getLogForFile] does not throw on; the other methods never
    throw before they return their promise. *)
Definition returns (req : Request) : Prop :=
  match req with
  | ReqLogForFile (Some rp) fileName _ =>
      String.eqb rp (normalizePath fileName) = false
  | _ => True
  end.

(** The requests whose [...Core] method asks [isTracked] first. *)
Definition asks_tracked (req : Request) : Prop :=
  match req with
  | ReqDiff _ _ _ _ => False
  | _ => True
  end.

End Spec.

(** The entries of a log from the one under [ref] on. *)
Fixpoint from_ref (ref : string) (es : list (string * GitLogCommit))
    : list (string * GitLogCommit) :=
  match es with
  | [] => []
  | e :: es' => if String.eqb (fst e) ref then e :: es' else from_ref ref es'
  end.

(** At most [limit] entries, [i] of which are counted already. *)
Definition upto {A} (limit : option nat) (i : nat) (l : list A) : list A :=
  match limit with
  | Some n => firstn (n - i) l
  | None => l
  end.

End DocSpec2.

(** ** Searching the log: [SearchPattern.toKey], [getLogForSearch],
    [getLogForSearchMoreFn] *)

Module SearchLog.
Import Model Async.

(** [SearchPattern]; the three flags are optional. *)
Record SearchPattern := {
  pattern : string;
  matchAll : option bool;
  matchCase : option bool;
  matchRegex : option bool
}.

Definition is_true (b : option bool) : bool := default false b.

(** [SearchPattern.toKey]. *)
Definition toKey (search : SearchPattern) : string :=
  (pattern search ++ "|"
   ++ (if is_true (matchAll search) then "A" else "")
   ++ (if is_true (matchCase search) then "C" else "")
   ++ (if is_true (matchRegex search) then "R" else ""))%string.

(** [{ matchAll: false, matchCase: false, matchRegex: true, ...search }] *)
Definition with_defaults (search : SearchPattern) : SearchPattern :=
  {| pattern := pattern search;
     matchAll := Some (default false (matchAll search));
     matchCase := Some (default false (matchCase search));
     matchRegex := Some (default true (matchRegex search)) |}.

(** [value.replace(doubleQuoteRegex, by)]: every double quote replaced. *)
Fixpoint replace_quotes (by_ : string) (value : string) : string :=
  match value with
  | EmptyString => EmptyString
  | String a rest =>
      if Ascii.eqb a (ascii_of_nat 34)
      then (by_ ++ replace_quotes by_ rest)%string
      else String a (replace_quotes by_ rest)
  end.

(** [Set.prototype.add] on a set of strings in insertion order. *)
Definition add (x : string) (set : list string) : list string :=
  if existsb (String.eqb x) set then set else set ++ [x].

Definition add_all (f : string -> string) (values : list string)
    (set : list string) : list string :=
  fold_left (fun set value => add (f value) set) values set.

(** [`-M${similarityThreshold == null ? '' : `${similarityThreshold}%`}`] *)
Definition similarity (similarityThreshold : option nat) : string :=
  match similarityThreshold with
  | None => "-M"
  | Some n => ("-M" ++ NilZero.string_of_uint (Nat.to_uint n) ++ "%")%string
  end.

(** One turn of [for ([op, values] of operations.entries())]: the state is
    [searchArgs] and [files]. *)
Definition operation_step (search : SearchPattern)
    (acc : list string * list string) (e : string * list string)
    : list string * list string :=
  let '(searchArgs, files) := acc in
  let '(op, values) := e in
  if String.eqb op "message:" then
    let searchArgs := add "-m" searchArgs in
    let searchArgs :=
      if is_true (matchAll search) then add "--all-match" searchArgs
      else searchArgs in
    (add_all (fun value => ("--grep=" ++ replace_quotes "\b" value)%string)
       values searchArgs,
     files)
  else if String.eqb op "author:" then
    (add_all (fun value => ("--author=" ++ replace_quotes "\b" value)%string)
       values (add "-m" searchArgs),
     files)
  else if String.eqb op "change:" then
    (add_all (fun value => ("-G" ++ value)%string) values searchArgs, files)
  else if String.eqb op "file:" then
    (searchArgs, files ++ map (replace_quotes "") values)
  else acc.

(** From [const searchArgs = new Set<string>()] to the arguments given to
    [Git.log__search], with [useShow]; [search] has its defaults. *)
Definition search_args (similarityThreshold : option nat)
    (search : SearchPattern) (operations : Search.Ops)
    : list string * bool :=
  match JsMap.get "commit:" operations with
  | Some values =>
      let searchArgs := add "-m" [] in
      let searchArgs := add (similarity similarityThreshold) searchArgs in
      let searchArgs := add_all (replace_quotes "") values searchArgs in
      (searchArgs ++ ["--"], true)
  | None =>
      let searchArgs := add (similarity similarityThreshold) [] in
      let searchArgs := add "--all" searchArgs in
      let searchArgs := add "--full-history" searchArgs in
      let searchArgs :=
        add (if is_true (matchRegex search) then "--extended-regexp"
             else "--fixed-strings") searchArgs in
      let searchArgs :=
        if is_true (matchRegex search) && negb (is_true (matchCase search))
        then add "--regexp-ignore-case" searchArgs
        else searchArgs in
      let '(searchArgs, files) :=
        fold_left (operation_step search) operations (searchArgs, []) in
      (searchArgs ++ ["--"] ++ files, false)
  end.

(** The options of [getLogForSearch]. *)
Record Options := { o_limit : option nat; o_skip : option nat }.

(** [log.query] and [log.more]: closures over what they were made with. *)
Inductive Query :=
| QuerySearch (repoPath : string) (search : SearchPattern) (options : Options).

Record LogData := {
  repoPath : string;
  authors : JsMap.t GitAuthor;
  commits : JsMap.t Log.GitLogCommit;
  sha : option string;
  range : option Range;
  count : nat;
  limit : option nat;
  hasMore : bool;
  query : option Query
}.

Inductive More :=
| MoreSearch (bound : LogData) (search : SearchPattern) (options : Options).

Record GitLog := { data : LogData; more : option More }.

(** What [Git.log__search] is given besides the arguments. *)
Record SearchOptions := {
  s_limit : nat;
  s_skip : option nat;
  s_useShow : bool
}.

Section Searching.
(** Declared outside this file: the current user, [Git.isSha] and
    [GitLogParser.parse], which yields the log without its closures. *)
Context {User : Type}.
Variable isSha : string -> bool.
Variable parse :
  string -> string -> option User -> nat -> option Log.LogData.

(** [Container.config.advanced]. *)
Variables maxSearchItems similarityThreshold : option nat.

Inductive Eff : Type -> Type :=
| log__search (repoPath : string) (args : list string)
    (options : SearchOptions) : Eff (Reply string)
| getCurrentUser (repoPath : string) : Eff (Reply (option User)).

Abbreviation Prog := (Async.Prog Eff).

Definition of_parsed (log : Log.LogData) (q : Query) : LogData :=
  {| repoPath := Log.repoPath log; authors := Log.authors log;
     commits := Log.commits log; sha := Log.sha log; range := Log.range log;
     count := Log.count log; limit := Log.limit log;
     hasMore := Log.hasMore log; query := Some q |}.

(** [getLogForSearch]; a failure of anything inside the [try] resolves to
    undefined.  The parse of the pattern ends
    ([SearchFacts.parse_total]). *)
Definition getLogForSearch (repoPath : string) (search : SearchPattern)
    (options : Options) : Prog (option GitLog) :=
  let search := with_defaults search in
  let limit := default (default 0 maxSearchItems) (o_limit options) in
  match Search.parseSearchOperations isSha (pattern search) with
  | None => Ret None
  | Some operations =>
      let '(args, useShow) := search_args similarityThreshold search operations in
      Vis (log__search repoPath args
             {| s_limit := limit; s_skip := o_skip options;
                s_useShow := useShow |})
        (fun reply =>
           match reply with
           | Err _ => Ret None
           | Ok data =>
               Vis (getCurrentUser repoPath)
                 (fun user =>
                    match user with
                    | Err _ => Ret None
                    | Ok user =>
                        match parse data repoPath user limit with
                        | None => Ret None
                        | Some log =>
                            let log :=
                              of_parsed log
                                (QuerySearch repoPath search options) in
                            Ret (Some {| data := log;
                                         more :=
                                           if hasMore log
                                           then Some (MoreSearch log search options)
                                           else None |})
                        end
                    end)
           end)
  end.

Definition set_hasMore (d : LogData) (b : bool) : LogData :=
  {| repoPath := repoPath d; authors := authors d; commits := commits d;
     sha := sha d; range := range d; count := count d; limit := limit d;
     hasMore := b; query := query d |}.

(** The closure returned by [getLogForSearchMoreFn(log, search, options)],
    applied to [limit]. *)
Definition getLogForSearchMoreFn (log : LogData) (search : SearchPattern)
    (options : Options) (limit : option nat) : Prog GitLog :=
  let self := Some (MoreSearch log search options) in
  let limit := default (default 0 maxSearchItems) limit in
  let* moreLog :=
    getLogForSearch (repoPath log) search
      {| o_limit := Some limit; o_skip := Some (count log) |} in
  match moreLog with
  | None =>
      (* If we can't find any more, assume we have everything *)
      Ret {| data := set_hasMore log false; more := self |}
  | Some moreLog =>
      let moreLog := data moreLog in
      let mergedLog :=
        {| repoPath := repoPath log;
           authors := JsMap.merge (authors log) (authors moreLog);
           commits := JsMap.merge (commits log) (commits moreLog);
           sha := sha log;
           range := range log;
           count := count log + count moreLog;
           limit := Some (default 0 (SearchLog.limit log) + limit);
           hasMore := hasMore moreLog;
           query := Some (QuerySearch (repoPath log) search options) |} in
      Ret {| data := mergedLog;
             more := Some (MoreSearch mergedLog search options) |}
  end.

End Searching.
End SearchLog.

(** ** The arguments of a search, and a sample *)

Module SearchLogSpec.
Import SearchLog.

(** The values of the [file:] operations, without their double quotes. *)
Definition files_of (operations : Search.Ops) : list string :=
  flat_map (fun e : string * list string =>
              if String.eqb (fst e) "file:"
              then map (replace_quotes "") (snd e)
              else [])
           operations.

(** No double quote in a text. *)
Fixpoint unquoted (s : string) : bool :=
  match s with
  | EmptyString => true
  | String a rest => negb (Ascii.eqb a (ascii_of_nat 34)) && unquoted rest
  end.

Definition bar : ascii := "|"%char.

(** No [|] in a text. *)
Fixpoint barless (s : string) : bool :=
  match s with
  | EmptyString => true
  | String a rest => negb (Ascii.eqb a bar) && barless rest
  end.

(** The part of a key after the pattern and its [|]. *)
Definition flags (search : SearchPattern) : string :=
  ((if is_true (matchAll search) then "A" else "")
   ++ (if is_true (matchCase search) then "C" else "")
   ++ (if is_true (matchRegex search) then "R" else ""))%string.

(** The page [more] asks for. *)
Definition next_page (log : LogData) (limit : nat) : Options :=
  {| o_limit := Some limit; o_skip := Some (count log) |}.

End SearchLogSpec.

Module SearchLogSample.
Import Model Async SearchLog.

Definition isSha (ref : string) : bool := false.

(** A stand-in for the parser: one commit named by the output, more to
    come when the page is full. *)
Definition parse (data repoPath : string) (user : option unit) (limit : nat)
    : option Log.LogData :=
  if Nat.eqb (String.length data) 0 then None
  else
    Some {| Log.repoPath := repoPath;
            Log.authors := [("Ann", {| name := "Ann"; lineCount := 1 |})];
            Log.commits := [(data, LogSample.commit data)];
            Log.sha := None;
            Log.range := None;
            Log.count := 1;
            Log.limit := Some limit;
            Log.hasMore := Nat.eqb limit 1;
            Log.query := None |}.

Definition search : SearchPattern :=
  {| pattern := "@:ann"; matchAll := None; matchCase := None;
     matchRegex := None |}.

Definition options : Options := {| o_limit := Some 1; o_skip := None |}.

(** The tool prints the commit [c3] first and [c2] after one skipped. *)
Definition answer (X : Type) (e : @Eff unit X) : X :=
  match e in Eff X return X with
  | log__search _ _ o =>
      match s_skip o with
      | None => Ok "c3"
      | Some _ => Ok "c2"
      end
  | getCurrentUser _ => Ok None
  end.

Definition getLogForSearch :=
  SearchLog.getLogForSearch isSha parse (Some 1) None.

Definition getLogForSearchMoreFn :=
  SearchLog.getLogForSearchMoreFn isSha parse (Some 1) None.

(** The first page of the sample. *)
Definition page1 : LogData :=
  of_parsed
    {| Log.repoPath := "/repo";
       Log.authors := [("Ann", {| name := "Ann"; lineCount := 1 |})];
       Log.commits := [("c3", LogSample.commit "c3")];
       Log.sha := None; Log.range := None; Log.count := 1;
       Log.limit := Some 1; Log.hasMore := true; Log.query := None |}
    (QuerySearch "/repo" (with_defaults search) options).

End SearchLogSample.

(** ** The uris of revisions (gitUri.ts) *)

Module Uris.

Definition emptyStr : string := "".
Definition slash : string := "/".

Record UriComponents := {
  scheme : string;
  authority : string;
  path : string;
  query : string;
  fragment : string
}.

Record GitCommitish := {
  fileName : option string;
  repoPath : string;
  sha : option string;
  versionedPath : option string
}.

Record UriRevisionData := {
  d_path : string;
  d_ref : option string;
  d_repoPath : string
}.

Record GitUri := {
  components : UriComponents;
  g_repoPath : option string;
  g_sha : option string;
  g_versionedPath : option string
}.

Inductive CommitOrRepoPath :=
| OfCommit (commit : GitCommitish)
| OfRepoPath (repoPath : string).

(** [s.substring(start)] and [s.substring(start, end)], for [start <= end]. *)
Definition substring_from (start : nat) (s : string) : string :=
  String.substring start (String.length s - start) s.

Definition substring_to (start end_ : nat) (s : string) : string :=
  String.substring start (end_ - start) s.

(** [s.indexOf(x)]: -1 when [x] does not occur. *)
Definition indexOf (x s : string) : Z :=
  match String.index 0 x s with
  | Some i => Z.of_nat i
  | None => (-1)%Z
  end.

(** [s.substr(start)]: a negative start counts from the end. *)
Definition substr (start : Z) (s : string) : string :=
  let len := Z.of_nat (String.length s) in
  let from := Z.to_nat (if (start <? 0)%Z then Z.max (len + start) 0 else start) in
  substring_from from s.

Definition ensureValidUNCPath (authority fsPath : string) : string * string :=
  (* check for authority as used in UNC shares or use the path as given *)
  if String.prefix slash fsPath
     && bool_decide (String.get 1 fsPath = Some "/"%char)
  then
    match String.index 2 slash fsPath with
    | None => (substring_from 2 fsPath, slash)
    | Some index =>
        (substring_to 2 index fsPath,
         Nav.or_else (Some (substring_from index fsPath)) slash)
    end
  else (authority, fsPath).

Section Construct.
(** Declared outside this file: the scheme [DocumentSchemes.GitLens], the
    predicates of [GitService] on a ref that may be undefined,
    [Strings.normalizePath], [paths.join], the [fsPath] of a [Uri], and
    [JSON.parse] (nothing when it throws) and [JSON.stringify] on the data of
    a revision. *)
Variable GitLens : string.
Variables isUncommitted isUncommittedStaged : option string -> bool.
Variable normalizePath : string -> string.
Variable join : string -> string -> string.
Variable fsPath : UriComponents -> string.
Variable parse : string -> option UriRevisionData.
Variable stringify : UriRevisionData -> string.

Definition resolve (fileName : string) (repoPath : option string) : string :=
  let normalizedFileName := normalizePath fileName in
  match repoPath with
  | None => normalizedFileName
  | Some repoPath =>
      let normalizedRepoPath := normalizePath repoPath in
      if Nat.eqb (String.length normalizedFileName) 0 then normalizedRepoPath
      else if String.prefix normalizedRepoPath normalizedFileName
      then normalizedFileName
      else normalizePath (join normalizedRepoPath normalizedFileName)
  end.

Definition kept_sha (sha : option string) : option string :=
  if isUncommittedStaged sha || negb (isUncommitted sha) then sha else None.

Definition plain (uri : UriComponents) : GitUri :=
  {| components := uri; g_repoPath := None; g_sha := None;
     g_versionedPath := None |}.

(** [new GitUri(uri, commitOrRepoPath)]; nothing when [JSON.parse] throws. *)
Definition constructor (uri : option UriComponents)
    (commitOrRepoPath : option CommitOrRepoPath) : option GitUri :=
  match uri with
  | None =>
      Some (plain {| scheme := "unknown"; authority := emptyStr;
                     path := emptyStr; query := emptyStr;
                     fragment := emptyStr |})
  | Some uri =>
      if String.eqb (scheme uri) GitLens then
        match parse (query uri) with
        | None => None
        | Some data =>
            (* When Uri's come from the FileSystemProvider, the uri.query only
               contains the root repo info (not the actual file path), so fix
               that here *)
            let index := indexOf (d_path data) (path uri) in
            let data :=
              if (index + Z.of_nat (String.length (d_path data))
                  <? Z.of_nat (String.length (path uri)))%Z
              then
                {| d_path := if (index =? 0)%Z then path uri
                             else substr index (path uri);
                   d_ref := d_ref data;
                   d_repoPath := d_repoPath data |}
              else data in
            Some {| components :=
                      {| scheme := scheme uri; authority := authority uri;
                         path := path uri; query := stringify data;
                         fragment := fragment uri |};
                    g_repoPath := Some (d_repoPath data);
                    g_sha := kept_sha (d_ref data);
                    g_versionedPath := None |}
        end
      else
        match commitOrRepoPath with
        | None => Some (plain uri)
        | Some (OfRepoPath repoPath) =>
            Some {| components := uri; g_repoPath := Some repoPath;
                    g_sha := None; g_versionedPath := None |}
        | Some (OfCommit commit) =>
            let '(authority, fsPath) :=
              ensureValidUNCPath (authority uri)
                (resolve (Nav.or_else (fileName commit) (fsPath uri))
                   (Some (repoPath commit))) in
            let path :=
              if String.eqb (scheme uri) "https"
                 || String.eqb (scheme uri) "http"
                 || String.eqb (scheme uri) "file"
              then
                if Nat.eqb (String.length fsPath) 0 then slash
                else if negb (String.prefix slash fsPath)
                then ("/" ++ fsPath)%string
                else fsPath
              else fsPath in
            Some {| components :=
                      {| scheme := scheme uri; authority := authority;
                         path := path; query := query uri;
                         fragment := fragment uri |};
                    g_repoPath := Some (repoPath commit);
                    g_sha := kept_sha (sha commit);
                    g_versionedPath := versionedPath commit |}
        end
  end.

End Construct.
End Uris.

Module UrisSample.
Import Uris.

Definition isUncommittedStaged (ref : option string) : bool :=
  match ref with
  | Some r => NavSample.isUncommittedStaged r
  | None => false
  end.

Definition isUncommitted (ref : option string) : bool :=
  match ref with
  | Some r => NavSample.isUncommitted r
  | None => false
  end.

Definition normalizePath (path : string) : string := path.

Definition join (a b : string) : string := (a ++ "/" ++ b)%string.

Definition fsPath (uri : UriComponents) : string := path uri.

(** The query read as the path, of the repository [/repo] at [1a2b3c4]. *)
Definition parse (query : string) : option UriRevisionData :=
  Some {| d_path := query; d_ref := Some "1a2b3c4"; d_repoPath := "/repo" |}.

Definition stringify (data : UriRevisionData) : string := d_path data.

Definition constructor :=
  Uris.constructor "gitlens" isUncommitted isUncommittedStaged normalizePath
    join fsPath parse stringify.

Definition share : UriComponents :=
  {| scheme := "file"; authority := ""; path := "//server/share/a.txt";
     query := ""; fragment := "" |}.

Definition revision : UriComponents :=
  {| scheme := "gitlens"; authority := "1a2b3c4"; path := "/repo/src/a.txt";
     query := "/repo"; fragment := "" |}.

Definition commit : GitCommitish :=
  {| fileName := None; repoPath := "//server/share"; sha := Some "1a2b3c4";
     versionedPath := None |}.

End UrisSample.

(** ** The branches that contain a commit *)

Module CommitBranches.
Import Async.

Inductive Eff : Type -> Type :=
| branch__contains (repoPath ref : string) (remotes : option bool)
    : Eff (Reply (option string)).

Abbreviation Prog := (Async.Prog Eff).

(** [s.split(sep)] for a separator of one character. *)
Fixpoint split (sep : ascii) (s : string) : list string :=
  match s with
  | EmptyString => [""]
  | String a s' =>
      if Ascii.eqb a sep then "" :: split sep s'
      else
        match split sep s' with
        | h :: t => String a h :: t
        | [] => [String a ""]
        end
  end.

(** [s.trim()], for the white space among the first 256 characters. *)
Fixpoint trimStart (s : string) : string :=
  match s with
  | EmptyString => ""
  | String a s' => if Regex.white a then trimStart s' else s
  end.

Fixpoint trimEnd (s : string) : string :=
  match s with
  | EmptyString => ""
  | String a s' =>
      match trimEnd s' with
      | EmptyString => if Regex.white a then "" else String a ""
      | t => String a t
      end
  end.

Definition trim (s : string) : string := trimEnd (trimStart s).

(** [Boolean] on a string. *)
Definition Boolean (s : string) : bool := negb (Nat.eqb (String.length s) 0).

Definition getCommitBranches (repoPath ref : string) (remotes : option bool)
    : Prog (list string) :=
  let* data := await (branch__contains repoPath ref remotes) in
  if Nav.is_empty data then Ret []
  else
    Ret (List.filter Boolean
           (map (fun b => trim (Uris.substr 2 b))
              (split (ascii_of_nat 10) (default "" data)))).

End CommitBranches.

Module CommitBranchesSpec.
Import CommitBranches.

Definition nl : ascii := ascii_of_nat 10.

(** A line of [git branch --contains]: two characters (a star and a space
    before the current branch, two spaces otherwise), then the name. *)
Definition line (e : string * string) : string :=
  (fst e ++ snd e ++ String nl "")%string.

Definition listing (es : list (string * string)) : string :=
  List.fold_right (fun e rest => (line e ++ rest)%string) "" es.

Fixpoint one_line (s : string) : bool :=
  match s with
  | EmptyString => true
  | String a s' => negb (Ascii.eqb a nl) && one_line s'
  end.

(** A mark of two characters and a name that is not empty and has no white
    space around it, both on one line. *)
Definition well_formed (e : string * string) : Prop :=
  String.length (fst e) = 2
  /\ one_line (fst e) = true
  /\ one_line (snd e) = true
  /\ snd e <> ""
  /\ trim (snd e) = snd e.

End CommitBranchesSpec.

Module CommitBranchesSample.
Import Async CommitBranches.

Definition answer (X : Type) (e : Eff X) : X :=
  match e in Eff X return X with
  | branch__contains _ _ _ =>
      Ok (Some (CommitBranchesSpec.listing
                  [("* ", "main"); ("  ", "feature/next")]))
  end.

End CommitBranchesSample.

(** ** Incoming activity (the reflog) *)

Module Reflog.
Import Async.

Definition reflogCommands : list string := ["merge"; "pull"].

Record Options := {
  all : option bool;
  branch : option string;
  o_limit : option nat;
  o_skip : option nat
}.

Inductive Eff : Type -> Type :=
| reflog (repoPath : string) (options : Options) : Eff (Reply (option string)).

Section Activity.
(** [GitReflogRecord], [GitReflogParser.parse] and the settings
    [advanced.maxListItems] and [advanced.maxSearchItems] are declared
    outside this file. *)
Context {GitReflogRecord : Type}.

(** The fields of a [GitReflog] other than [more]. *)
Record ReflogData := {
  repoPath : string;
  records : list GitReflogRecord;
  count : nat;
  total : nat;
  limit : option nat;
  hasMore : bool
}.

(** [reflog.more] is a closure over the reflog it was made for and the
    options in force; where it is made it is stored in that very reflog. *)
Inductive More :=
| MoreReflog (bound : ReflogData) (options : Options).

Record GitReflog := {
  data : ReflogData;
  more : option More
}.

Variable parse :
  string -> string -> list string -> nat -> nat -> option ReflogData.
Variables maxListItems maxSearchItems : option nat.

Definition set_hasMore (r : ReflogData) (b : bool) : ReflogData :=
  {| repoPath := repoPath r; records := records r; count := count r;
     total := total r; limit := limit r; hasMore := b |}.

Definition getIncomingActivity (repoPath : string) (options : Options)
    : Prog Eff (option GitReflog) :=
  let limit := default (default 0 maxListItems) (o_limit options) in
  let options :=
    {| all := all options; branch := branch options; o_limit := None;
       o_skip := o_skip options |} in
  (* Pass a much larger limit to reflog, because we aggregate the data and we
     won't know how many lines we'll need *)
  Vis (reflog repoPath
         {| all := all options; branch := branch options;
            o_limit := Some (limit * 100); o_skip := o_skip options |})
    (fun reply =>
       match reply with
       | Err _ => Ret None
       | Ok None => Ret None
       | Ok (Some data) =>
           match parse data repoPath reflogCommands limit (limit * 100) with
           | None => Ret None
           | Some parsed =>
               Ret (Some {| data := parsed;
                            more := if hasMore parsed
                                    then Some (MoreReflog parsed options)
                                    else None |})
           end
       end).

(** The closure returned by [getReflogMoreFn(reflog, options)], called with
    the limit [arg]. *)
Definition getReflogMoreFn (reflog : ReflogData) (options : Options)
    (arg : option nat) : Prog Eff GitReflog :=
  let self := Some (MoreReflog reflog options) in
  let moreLimit := default (default 0 maxSearchItems) arg in
  let* moreLog :=
    getIncomingActivity (repoPath reflog)
      {| all := all options; branch := branch options;
         o_limit := Some moreLimit; o_skip := Some (total reflog) |} in
  match moreLog with
  | None =>
      (* If we can't find any more, assume we have everything *)
      Ret {| data := set_hasMore reflog false; more := self |}
  | Some moreLog =>
      let mergedLog :=
        {| repoPath := repoPath reflog;
           records := records reflog ++ records (data moreLog);
           count := count reflog + count (data moreLog);
           total := total reflog + total (data moreLog);
           limit := Some (default 0 (limit reflog) + moreLimit);
           hasMore := hasMore (data moreLog) |} in
      Ret {| data := mergedLog; more := Some (MoreReflog mergedLog options) |}
  end.

End Activity.
End Reflog.

(** ** The search for repositories below a folder *)

Module RepoSearch.
Import Async.

(** [fs.Dirent]. *)
Record Dirent := { name : string; isDirectory : bool }.

Section Search.
(** What [fs.readdir] answers for each directory while the search runs, and
    [paths.resolve]. *)
Variable readdir : string -> Reply (list Dirent).
Variable resolve : string -> string -> string.

(** [excludes[name] === true]. *)
Definition excluded (excludes : gmap string bool) (name : string) : bool :=
  match excludes !! name with
  | Some true => true
  | _ => false
  end.

(** [depth] is a count of levels; the array [repositories] is shared with the
    nested searches, and a nested search that rejects has pushed nothing. *)
Fixpoint repositorySearchCore (root : string) (depth : nat)
    (excludes : gmap string bool) (repositories : list string) {struct depth}
    : Reply (list string) :=
  match readdir root with
  | Err err => Err err
  | Ok files =>
      if Nat.eqb (List.length files) 0 then Ok repositories
      else
        Ok (fold_left
              (fun repositories f =>
                 if negb (isDirectory f) then repositories
                 else if String.eqb (name f) ".git"
                 then repositories ++ [resolve root (name f)]
                 else
                   match depth with
                   | S depth =>
                       if negb (excluded excludes (name f)) then
                         match repositorySearchCore (resolve root (name f))
                                 depth excludes repositories with
                         | Ok found => found
                         | Err _ => repositories
                         end
                       else repositories
                   | 0 => repositories
                   end)
              files repositories)
  end.

End Search.
End RepoSearch.

Module RepoSearchSpec.
Import Async RepoSearch.

Section Spec.
Variable readdir : string -> Reply (list Dirent).
Variable resolve : string -> string -> string.
Variable excludes : gmap string bool.

(** [below dir k target]: [target] lies [k] levels below [dir], through
    directories that are listed, are not named [.git] and are not excluded. *)
Inductive below : string -> nat -> string -> Prop :=
| below_here dir : below dir 0 dir
| below_child dir files f k target :
    readdir dir = Ok files ->
    In f files ->
    isDirectory f = true ->
    name f <> ".git" ->
    excluded excludes (name f) = false ->
    below (resolve dir (name f)) k target ->
    below dir (S k) target.

(** The listing of [dir] has a directory named [.git]. *)
Definition holds_git (dir : string) : Prop :=
  exists files f,
    readdir dir = Ok files /\ In f files /\ isDirectory f = true
    /\ name f = ".git".

(** [p] is the [.git] of a directory at most [depth] levels below [root]. *)
Definition found (root : string) (depth : nat) (p : string) : Prop :=
  exists k dir,
    k <= depth /\ below root k dir /\ holds_git dir /\ p = resolve dir ".git".

(** What the loop of [repositorySearchCore] makes of one entry of the
    listing of [root]. *)
Definition visit (root : string) (depth : nat) (repositories : list string)
    (f : Dirent) : list string :=
  if negb (isDirectory f) then repositories
  else if String.eqb (name f) ".git"
  then repositories ++ [resolve root (name f)]
  else
    match depth with
    | S depth =>
        if negb (excluded excludes (name f)) then
          match repositorySearchCore readdir resolve (resolve root (name f))
                  depth excludes repositories with
          | Ok r => r
          | Err _ => repositories
          end
        else repositories
    | 0 => repositories
    end.

(** [p] comes with the entry [f] of the listing of [root]. *)
Definition via (root : string) (depth : nat) (f : Dirent) (p : string) : Prop :=
  isDirectory f = true
  /\ (name f = ".git" /\ p = resolve root ".git"
      \/ name f <> ".git" /\ excluded excludes (name f) = false
         /\ exists d, depth = S d /\ found (resolve root (name f)) d p).

(** The search at [depth] finds what [found] tells, for every folder. *)
Definition searched (depth : nat) : Prop :=
  forall root repositories,
    match repositorySearchCore readdir resolve root depth excludes
            repositories with
    | Ok result =>
        forall p, In p result <-> In p repositories \/ found root depth p
    | Err err => readdir root = Err err
    end.

End Spec.
End RepoSearchSpec.

Module RepoSearchSample.
Import Async RepoSearch.

Definition resolve (root name : string) : string := (root ++ "/" ++ name)%string.

Definition dir (name : string) : Dirent := {| name := name; isDirectory := true |}.

Definition readdir (path : string) : Reply (list Dirent) :=
  if String.eqb path "/w" then
    Ok [dir ".git"; dir "a"; dir "node_modules";
        {| name := "b.txt"; isDirectory := false |}]
  else if String.eqb path "/w/a" then Ok [dir "c"; dir ".git"]
  else if String.eqb path "/w/a/c" then Ok [dir ".git"]
  else if String.eqb path "/w/node_modules" then Ok [dir ".git"]
  else Err "ENOENT".

Definition excludes : gmap string bool := {[ "node_modules" := true ]}.

End RepoSearchSample.

(** ** What every result of an asynchronous method satisfies *)

Module AsyncSpec.
Import Async.

(** [always P p]: whatever the awaited calls answer, a result of [p]
    satisfies [P]. *)
Fixpoint always {Eff : Type -> Type} {A} (P : A -> Prop) (p : Prog Eff A)
    : Prop :=
  match p with
  | Ret a => P a
  | Throw _ => True
  | Vis e k => forall x, always P (k x)
  end.

End AsyncSpec.

(** ** The current side of a previous diff *)

Module NavSpec.
Import Nav.

(** The current side of the pair, if there is one, is not at the
    deleted-or-missing revision. *)
Definition present (deletedOrMissingSha : string)
    (r : option PreviousDiffUris) : Prop :=
  match r with
  | Some d => g_sha (pd_current d) <> Some deletedOrMissingSha
  | None => True
  end.

(** The ref of the next side when there is no next commit: the staged
    version if the status of the file has an index status, else the working
    file. *)
Definition staged_or_working (uncommittedStagedSha : string)
    (status : option GitStatusFile) : option string :=
  match status with
  | Some st =>
      match indexStatus st with
      | Some _ => Some uncommittedStagedSha
      | None => None
      end
  | None => None
  end.

End NavSpec.

(** ** The working file of a uri: [getWorkingUri] *)

Module WorkingUri.
Import Async.

Inductive Eff : Type -> Type :=
| ls_files (repoPath fileName : string) : Eff (Reply (option string))
| log__file_recent (repoPath fileName : string)
    (similarityThreshold : option nat) : Eff (Reply (option string))
| log__file (repoPath fileName : string) (ref : option string)
    (options : Nav.LogFileOptions) : Eff (Reply (option string)).

Abbreviation Prog := (Async.Prog Eff).

Section Working.
(** Declared outside this file: the path helpers behind [GitUri.relativeTo]
    and [GitUri.resolve], [Strings.splitSingle(data, '\n')[0]],
    [GitLogParser.parseSimpleRenamed] and the setting
    [advanced.similarityThreshold]. *)
Variable relativeTo : Nav.Uri -> string -> string.
Variable resolve : string -> option string -> string.
Variable first_line : string -> string.
Variable parseSimpleRenamed :
  string -> string -> option string * option string.
Variable similarityThreshold : option nat.

(** The loop of [getWorkingUri], at most [fuel] times around; the outer
    [None] tells that the loop has not returned by then. *)
Fixpoint working_loop (fuel : nat) (repoPath fileName : string)
    : Prog (option (option Nav.Uri)) :=
  match fuel with
  | 0 => Ret None
  | S fuel =>
      let* data := await (ls_files repoPath fileName) in
      match data with
      | Some data =>
          Ret (Some (Some (Nav.resolveToUri resolve (first_line data) repoPath)))
      | None =>
          (* Get the most recent commit for this file name *)
          let* ref :=
            await (log__file_recent repoPath fileName similarityThreshold) in
          match ref with
          | None => Ret (Some None)
          | Some ref =>
              (* Now check if that commit had any renames *)
              let* data :=
                await (log__file repoPath "." (Some ref)
                         {| Nav.filters := Some ["R"]; Nav.limit := Some 1;
                            Nav.reverse := None; Nav.simple := Some true;
                            Nav.firstParent := None;
                            Nav.startLine := None |}) in
              if Nav.is_empty data
              then Ret (Some (Some (Nav.resolveToUri resolve fileName repoPath)))
              else
                match parseSimpleRenamed (default "" data) fileName with
                | (Some _, Some renamedFile) =>
                    working_loop fuel repoPath renamedFile
                | _ =>
                    Ret (Some (Some (Nav.resolveToUri resolve fileName repoPath)))
                end
          end
      end
  end.

Definition getWorkingUri (fuel : nat) (repoPath : string) (uri : Nav.Uri)
    : Prog (option (option Nav.Uri)) :=
  working_loop fuel repoPath (relativeTo uri repoPath).

End Working.
End WorkingUri.

Module WorkingUriSpec.
Import Async WorkingUri.

Section Spec.
Variable parseSimpleRenamed :
  string -> string -> option string * option string.
Variable similarityThreshold : option nat.
Variable answer : forall X, Eff X -> X.
Variable repoPath : string.

(** [renamed f n g]: [n] renames in a row lead from the name [f] to the name
    [g]; each time the name is not listed and its most recent commit renames
    it. *)
Inductive renamed : string -> nat -> string -> Prop :=
| renamed_here f : renamed f 0 f
| renamed_step f ref data ref' f' n g :
    answer _ (ls_files repoPath f) = Ok None ->
    answer _ (log__file_recent repoPath f similarityThreshold) = Ok (Some ref) ->
    answer _ (log__file repoPath "." (Some ref)
                {| Nav.filters := Some ["R"]; Nav.limit := Some 1;
                   Nav.reverse := None; Nav.simple := Some true;
                   Nav.firstParent := None; Nav.startLine := None |})
    = Ok data ->
    Nav.is_empty data = false ->
    parseSimpleRenamed (default "" data) f = (Some ref', Some f') ->
    renamed f' n g ->
    renamed f (S n) g.

End Spec.
End WorkingUriSpec.

Module WorkingUriSample.
Import Async WorkingUri.

(** The renames of a commit read as: the whole output is the new name. *)
Definition parseSimpleRenamed (data fileName : string)
    : option string * option string := (Some "1a2b3c4", Some data).

Definition first_line (data : string) : string := data.

(** [old.txt] was renamed to [new.txt], which is listed. *)
Definition answer (X : Type) (e : Eff X) : X :=
  match e in Eff X return X with
  | ls_files _ fileName =>
      if String.eqb fileName "new.txt" then Ok (Some "new.txt") else Ok None
  | log__file_recent _ _ _ => Ok (Some "1a2b3c4")
  | log__file _ _ _ _ => Ok (Some "new.txt")
  end.

Definition getWorkingUri :=
  WorkingUri.getWorkingUri NavSample.relativeTo NavSample.resolve first_line
    parseSimpleRenamed None.

End WorkingUriSample.

(** * Properties *)

(** ** Maps in insertion order *)

Module JsMapFacts.

Lemma set_keys {V} (k op : string) (v : V) (m : JsMap.t V) :
  In k (JsMap.keys (JsMap.set op v m)) -> k = op \/ In k (JsMap.keys m).
Proof.
  unfold JsMap.keys. induction m as [|[k' v'] m IH]; simpl.
  - intros [H|[]]; auto.
  - destruct (String.eqb op k') eqn:E; simpl; intros [H|H]; auto.
    destruct (IH H); auto.
Qed.

Lemma get_set_same {V} k (v : V) m : JsMap.get k (JsMap.set k v m) = Some v.
Proof.
  induction m as [|[k' v'] m IH]; simpl.
  - rewrite String.eqb_refl. reflexivity.
  - destruct (String.eqb k k') eqn:E; simpl; rewrite E; auto.
Qed.

(** The keys of a map built by [set] stay distinct. *)
Lemma set_keys_fresh {V} k (v : V) m :
  ~ In k (JsMap.keys m) -> JsMap.set k v m = m ++ [(k, v)].
Proof.
  unfold JsMap.keys. induction m as [|[k' v'] m IH]; simpl; intros H; auto.
  destruct (String.eqb k k') eqn:E.
  - apply String.eqb_eq in E. subst. tauto.
  - f_equal. apply IH. tauto.
Qed.

Lemma set_keys_same {V} k (v : V) m :
  In k (JsMap.keys m) -> JsMap.keys (JsMap.set k v m) = JsMap.keys m.
Proof.
  unfold JsMap.keys. induction m as [|[k' v'] m IH]; simpl; intros H; [tauto|].
  destruct (String.eqb k k') eqn:E; simpl; auto.
  f_equal. apply IH. destruct H as [H|H]; auto.
  subst. rewrite String.eqb_refl in E. discriminate.
Qed.

Lemma set_NoDup {V} k (v : V) m :
  NoDup (JsMap.keys m) -> NoDup (JsMap.keys (JsMap.set k v m)).
Proof.
  intros H. destruct (in_dec string_dec k (JsMap.keys m)) as [Hin|Hin].
  - rewrite set_keys_same; auto.
  - rewrite set_keys_fresh; auto. unfold JsMap.keys in *.
    rewrite map_app. simpl.
    apply NoDup_app. split; [exact H|]. split.
    + intros x Hx Hk. apply list_elem_of_In in Hx.
      apply list_elem_of_In in Hk. destruct Hk as [<-|[]]. tauto.
    + apply NoDup_singleton.
Qed.

Lemma of_entries_from {V} (l : list (string * V)) : forall acc,
  NoDup (JsMap.keys (acc ++ l)) ->
  fold_left (fun m e => JsMap.set (fst e) (snd e) m) l acc = acc ++ l.
Proof.
  induction l as [|[k v] l IH]; intros acc H; simpl.
  - rewrite app_nil_r. reflexivity.
  - rewrite set_keys_fresh.
    + rewrite IH; rewrite <- app_assoc; simpl; auto.
    + unfold JsMap.keys in *. rewrite map_app in H. simpl in H.
      apply NoDup_app in H as (_ & H & _). intros Hin.
      apply list_elem_of_In in Hin. apply (H k Hin). left.
Qed.

Lemma of_entries_id {V} (l : list (string * V)) :
  NoDup (JsMap.keys l) -> JsMap.of_entries l = l.
Proof. intros H. unfold JsMap.of_entries. rewrite of_entries_from; auto. Qed.

Lemma get_set_other {V} k k' (v : V) m :
  k <> k' -> JsMap.get k' (JsMap.set k v m) = JsMap.get k' m.
Proof.
  intros Hne. induction m as [|[k0 v0] m IH]; simpl.
  - destruct (String.eqb k' k) eqn:E; auto.
    apply String.eqb_eq in E. congruence.
  - destruct (String.eqb k k0) eqn:E; simpl.
    + apply String.eqb_eq in E. subst k0.
      destruct (String.eqb k' k) eqn:E'; auto.
      apply String.eqb_eq in E'. congruence.
    + rewrite IH. reflexivity.
Qed.

(** [set] keeps the keys that were there, in their order, and puts a new key
    last. *)
Lemma set_keys_shape {V} k (v : V) m :
  JsMap.keys (JsMap.set k v m)
  = JsMap.keys m ++ (if bool_decide (k ∈ JsMap.keys m) then [] else [k]).
Proof.
  destruct (bool_decide (k ∈ JsMap.keys m)) eqn:E.
  - apply bool_decide_eq_true in E. apply list_elem_of_In in E.
    rewrite set_keys_same by auto. rewrite app_nil_r. reflexivity.
  - apply bool_decide_eq_false in E. rewrite list_elem_of_In in E.
    rewrite set_keys_fresh by auto.
    unfold JsMap.keys. rewrite map_app. reflexivity.
Qed.

(** The keys of [new Map([...a, ...b])]: those of [a] in their order, then
    keys of [b] that [a] does not have. *)
Lemma merge_keys {V} (b : JsMap.t V) : forall a : JsMap.t V,
  exists rest,
    JsMap.keys (JsMap.merge a b) = JsMap.keys a ++ rest
    /\ forall k, In k rest -> In k (JsMap.keys b) /\ ~ In k (JsMap.keys a).
Proof.
  unfold JsMap.merge. induction b as [|[k v] b IH]; intros a; simpl.
  - exists []. rewrite app_nil_r. split; [reflexivity|intros k []].
  - destruct (IH (JsMap.set k v a)) as (rest & Hk & Hrest).
    rewrite Hk, set_keys_shape.
    destruct (bool_decide (k ∈ JsMap.keys a)) eqn:E.
    + apply bool_decide_eq_true in E. apply list_elem_of_In in E.
      rewrite app_nil_r in *.
      exists rest. split; [reflexivity|].
      intros k0 H0. destruct (Hrest k0 H0) as [Hb Ha]. split; [right; auto|].
      intros Hin. apply Ha. rewrite set_keys_shape. apply in_or_app. auto.
    + apply bool_decide_eq_false in E. rewrite list_elem_of_In in E.
      exists (k :: rest). split; [rewrite <- app_assoc; reflexivity|].
      intros k0 [<-|H0]; [split; [left; reflexivity|exact E]|].
      destruct (Hrest k0 H0) as [Hb Ha]. split; [right; auto|].
      intros Hin. apply Ha. rewrite set_keys_shape. apply in_or_app. auto.
Qed.

Lemma merge_keys_all {V} (b : JsMap.t V) : forall (a : JsMap.t V) k,
  In k (JsMap.keys (JsMap.merge a b))
  <-> In k (JsMap.keys a) \/ In k (JsMap.keys b).
Proof.
  unfold JsMap.merge. induction b as [|[k0 v0] b IH]; intros a k; simpl.
  - tauto.
  - rewrite IH, set_keys_shape, in_app_iff.
    destruct (bool_decide (k0 ∈ JsMap.keys a)) eqn:E; simpl.
    + apply bool_decide_eq_true in E. apply list_elem_of_In in E.
      split; [tauto|].
      intros [H|[<-|H]]; auto.
    + tauto.
Qed.

(** The merge of two maps is the map of the entries of both. *)
Lemma merge_of_entries {V} (a b : JsMap.t V) :
  NoDup (JsMap.keys a) -> JsMap.of_entries (a ++ b) = JsMap.merge a b.
Proof.
  intros H. unfold JsMap.merge.
  rewrite <- (of_entries_id a H) at 2.
  unfold JsMap.of_entries. apply fold_left_app.
Qed.

(** When no key occurs twice the merge is the concatenation. *)
Lemma merge_disjoint {V} (a b : JsMap.t V) :
  NoDup (JsMap.keys (a ++ b)) -> JsMap.merge a b = a ++ b.
Proof. apply of_entries_from. Qed.

End JsMapFacts.

(** ** The matcher *)

Module RegexFacts.
Import Regex RegexSpec.

Lemma strip_prefix_app l s s' :
  strip_prefix l s = Some s' -> s = l ++ s'.
Proof.
  revert s. induction l as [|a l IH]; intros [|b s] H; simpl in *;
    try congruence.
  destruct (Ascii.eqb a b) eqn:E; [|discriminate].
  apply Ascii.eqb_eq in E. subst. f_equal. auto.
Qed.

Lemma lazy_star_len {R} p (k : list ascii -> option R) s x :
  lazy_star p k s = Some x ->
  exists s', k s' = Some x /\ length s' <= length s.
Proof.
  induction s as [|a s IH]; simpl; intros H.
  - destruct (k []) eqn:E; [|discriminate]. exists []. split; [congruence|simpl; lia].
  - destruct (k (a :: s)) eqn:E.
    + exists (a :: s). split; [congruence|simpl; lia].
    + destruct (p a); [|discriminate].
      destruct (IH H) as (s' & Hk & Hl). exists s'. split; [auto|simpl; lia].
Qed.

Lemma greedy_star_len {R} p (k : list ascii -> option R) s x :
  greedy_star p k s = Some x ->
  exists s', k s' = Some x /\ length s' <= length s.
Proof.
  induction s as [|a s IH]; simpl; intros H.
  - exists []. split; [auto|simpl; lia].
  - destruct (p a).
    + destruct (greedy_star p k s) eqn:E.
      * destruct (IH H) as (s' & Hk & Hl).
        exists s'. split; [congruence|simpl; lia].
      * exists (a :: s). split; [auto|simpl; lia].
    + exists (a :: s). split; [auto|simpl; lia].
Qed.

(** Whatever a match answers was answered by its continuation, at a position
    not before the start (after it, for a consuming expression), with the
    groups outside the expression as they were. *)
Lemma m_inv r : forall s c k x,
  m r s c k = Some x ->
  exists s' c',
    k s' c' = Some x
    /\ length s' + (if consumes r then 1 else 0) <= length s
    /\ forall n, ~ In n (groups r) -> cap n c' = cap n c.
Proof.
  induction r as [p|l|r1 IH1 r2 IH2|r1 IH1 r2 IH2|r1 IH1|p|p|g r1 IH1|r1 IH1|];
    intros s c k x H; simpl in H.
  - destruct s as [|a s]; [discriminate|]. destruct (p a); [|discriminate].
    exists s, c. simpl. repeat split; auto; lia.
  - destruct (strip_prefix l s) as [s'|] eqn:E; [|discriminate].
    exists s', c. apply strip_prefix_app in E. subst s.
    rewrite length_app. simpl. repeat split; auto.
    destruct l; simpl; lia.
  - apply IH1 in H as (s1 & c1 & H1 & L1 & G1).
    apply IH2 in H1 as (s2 & c2 & H2 & L2 & G2).
    exists s2, c2. simpl. repeat split; auto.
    + destruct (consumes r1), (consumes r2); simpl in *; lia.
    + intros n Hn. rewrite G2, G1; auto; intros Hin; apply Hn;
        apply in_or_app; auto.
  - destruct (m r1 s c k) eqn:E.
    + inversion H; subst. apply IH1 in E as (s1 & c1 & H1 & L1 & G1).
      exists s1, c1. simpl. repeat split; auto.
      * destruct (consumes r1), (consumes r2); simpl in *; lia.
      * intros n Hn. apply G1. intros Hin; apply Hn; apply in_or_app; auto.
    + apply IH2 in H as (s1 & c1 & H1 & L1 & G1).
      exists s1, c1. simpl. repeat split; auto.
      * destruct (consumes r1), (consumes r2); simpl in *; lia.
      * intros n Hn. apply G1. intros Hin; apply Hn; apply in_or_app; auto.
  - destruct (m r1 s c k) eqn:E.
    + inversion H; subst. apply IH1 in E as (s1 & c1 & H1 & L1 & G1).
      exists s1, c1. simpl. repeat split; auto. lia.
    + exists s, c. simpl. repeat split; auto. lia.
  - apply lazy_star_len in H as (s' & Hk & Hl).
    exists s', c. simpl. repeat split; auto. lia.
  - destruct s as [|a s]; [discriminate|]. destruct (p a); [|discriminate].
    apply greedy_star_len in H as (s' & Hk & Hl).
    exists s', c. simpl. repeat split; auto. lia.
  - apply IH1 in H as (s1 & c1 & H1 & L1 & G1).
    exists s1, ((g, matched s s1) :: c1). simpl. repeat split; auto.
    intros n Hn. destruct (Nat.eqb n g) eqn:E.
    + apply Nat.eqb_eq in E. subst. exfalso. apply Hn. simpl. auto.
    + apply G1. intros Hin. apply Hn. simpl. auto.
  - destruct (m r1 s c (fun s' c' => Some (s', c'))) as [[s0 c0]|] eqn:E;
      [|discriminate].
    apply IH1 in E as (s1 & c1 & H1 & L1 & G1).
    assert (c1 = c0) by congruence. subst c1.
    exists s, c0. simpl. repeat split; auto. lia.
  - destruct s; [|discriminate]. exists [], c. simpl. repeat split; auto.
Qed.

Lemma match_here_len r s s' c :
  consumes r = true -> match_here r s = Some (s', c) -> length s' < length s.
Proof.
  intros Hc H. apply m_inv in H as (s1 & c1 & H1 & L & _).
  inversion H1; subst. rewrite Hc in L. lia.
Qed.

(** A global expression that consumes input moves [lastIndex] forward. *)
Lemma exec_len r s s' c :
  consumes r = true -> exec r s = Some (s', c) -> length s' < length s.
Proof.
  intros Hc. induction s as [|a s IH]; simpl; intros H.
  - destruct (match_here r []) as [[s0 c0]|] eqn:E; [|discriminate].
    inversion H; subst. apply match_here_len in E; auto.
  - destruct (match_here r (a :: s)) as [[s0 c0]|] eqn:E.
    + inversion H; subst. apply match_here_len in E; auto.
    + apply IH in H. simpl. lia.
Qed.

(** Where [exec] matched: at some position of the input. *)
Lemma exec_match_here r s x :
  exec r s = Some x -> exists s0, match_here r s0 = Some x.
Proof.
  induction s as [|a s IH]; simpl; intros H.
  - destruct (match_here r []) eqn:E; [|discriminate]. exists []. congruence.
  - destruct (match_here r (a :: s)) eqn:E.
    + exists (a :: s). congruence.
    + auto.
Qed.

Lemma one_of_lit l : one_of (Lit l) [l].
Proof.
  intros s c k x H. simpl in H.
  destruct (strip_prefix l s) as [s'|] eqn:E; [|discriminate].
  exists l, s'. split; [left; auto|]. split; auto using strip_prefix_app.
Qed.

Lemma one_of_alt r1 r2 ls1 ls2 :
  one_of r1 ls1 -> one_of r2 ls2 -> one_of (Alt r1 r2) (ls1 ++ ls2).
Proof.
  intros H1 H2 s c k x H. simpl in H.
  destruct (m r1 s c k) eqn:E.
  - inversion H; subst. apply H1 in E as (l & s' & Hin & Hs & Hk).
    exists l, s'. split; [apply in_or_app; auto|auto].
  - apply H2 in H as (l & s' & Hin & Hs & Hk).
    exists l, s'. split; [apply in_or_app; auto|auto].
Qed.

Lemma one_of_seq_lit r ls l :
  one_of r ls -> one_of (Seq r (Lit l)) (map (fun x => x ++ l) ls).
Proof.
  intros H1 s c k x H. simpl in H.
  apply H1 in H as (l1 & s1 & Hin & Hs & Hk).
  destruct (strip_prefix l s1) as [s2|] eqn:E; [|discriminate].
  apply strip_prefix_app in E. subst.
  exists (l1 ++ l), s2. split; [apply in_map_iff; eauto|].
  split; [apply app_assoc|auto].
Qed.

Lemma matched_app (l s' : list ascii) : matched (l ++ s') s' = l.
Proof.
  unfold matched. rewrite length_app.
  replace (length l + length s' - length s') with (length l) by lia.
  rewrite firstn_app, firstn_all, Nat.sub_diag. simpl. apply app_nil_r.
Qed.

End RegexFacts.

(** ** [parseSearchOperations] *)

Module SearchFacts.
Import Regex RegexSpec RegexFacts Search SearchSpec JsMapFacts.

Lemma push_value_long op value operations :
  In op longForms -> long_keys operations ->
  long_keys (push_value op value operations).
Proof.
  intros Hop Hl k Hk. unfold push_value in Hk.
  destruct (JsMap.get op operations); apply set_keys in Hk as [->|Hk]; auto.
Qed.

Lemma values_consumes : consumes searchMessageValuesRegex = true.
Proof. reflexivity. Qed.

Lemma operation_consumes : consumes searchOperationRegex = true.
Proof. reflexivity. Qed.

Lemma message_values_loop_total fuel : forall rest operations,
  length rest < fuel ->
  exists operations', message_values_loop fuel rest operations = Some operations'.
Proof.
  induction fuel as [|fuel IH]; intros rest operations Hlt; [lia|].
  simpl. destruct (exec searchMessageValuesRegex rest) as [[rest' c]|] eqn:E.
  - apply exec_len in E; [|apply values_consumes]. apply IH. lia.
  - eauto.
Qed.

Lemma message_values_loop_long fuel : forall rest operations operations',
  message_values_loop fuel rest operations = Some operations' ->
  long_keys operations -> long_keys operations'.
Proof.
  induction fuel as [|fuel IH]; intros rest operations operations' H Hl;
    [discriminate|].
  simpl in H. destruct (exec searchMessageValuesRegex rest) as [[rest' c]|].
  - eapply IH; [exact H|]. apply push_value_long; [simpl; auto|auto].
  - inversion H; subst. exact Hl.
Qed.

Lemma message_operations_total message operations :
  exists operations',
    parseSearchMessageOperations message operations = Some operations'.
Proof.
  unfold parseSearchMessageOperations. destruct (String.eqb message ""); eauto.
  apply message_values_loop_total. lia.
Qed.

Lemma message_operations_long message operations operations' :
  parseSearchMessageOperations message operations = Some operations' ->
  long_keys operations -> long_keys operations'.
Proof.
  unfold parseSearchMessageOperations.
  destruct (String.eqb message ""); intros H Hl.
  - inversion H; subst. apply push_value_long; [simpl; auto|auto].
  - eapply message_values_loop_long; eauto.
Qed.

Lemma normalize_long op op' :
  JsMap.get op normalizeSearchOperatorsMap = Some op' -> In op' longForms.
Proof.
  unfold normalizeSearchOperatorsMap. simpl.
  repeat match goal with
         | |- context [String.eqb ?a ?b] => destruct (String.eqb a b)
         end;
    intros H; inversion H; subst; simpl; auto 10.
Qed.

Section WithSha.
Variable isSha : string -> bool.

Lemma operations_loop_S fuel rest operations :
  operations_loop (S fuel) rest operations =
  match exec searchOperationRegex rest with
  | None => Some operations
  | Some (rest', c) =>
      match JsMap.get (group 1 c) normalizeSearchOperatorsMap with
      | Some op' =>
          if String.eqb op' "message:" then
            match parseSearchMessageOperations (group 2 c) operations with
            | Some operations' => operations_loop fuel rest' operations'
            | None => None
            end
          else operations_loop fuel rest'
                 (push_value op' (group 2 c) operations)
      | None => operations_loop fuel rest' operations
      end
  end.
Proof. reflexivity. Qed.

Lemma operations_loop_total fuel : forall rest operations,
  length rest < fuel ->
  exists operations',
    operations_loop fuel rest operations = Some operations'.
Proof.
  induction fuel as [|fuel IH]; intros rest operations Hlt; [lia|].
  rewrite operations_loop_S.
  destruct (exec searchOperationRegex rest) as [[rest' c]|] eqn:E; [|eauto].
  apply exec_len in E; [|apply operation_consumes].
  destruct (JsMap.get (group 1 c) normalizeSearchOperatorsMap) as [op'|].
  - destruct (String.eqb op' "message:").
    + destruct (message_operations_total (group 2 c) operations) as [o' ->].
      apply IH. lia.
    + apply IH. lia.
  - apply IH. lia.
Qed.

Lemma operations_loop_long fuel : forall rest operations operations',
  operations_loop fuel rest operations = Some operations' ->
  long_keys operations -> long_keys operations'.
Proof.
  induction fuel as [|fuel IH]; intros rest operations operations' H Hl;
    [discriminate|].
  rewrite operations_loop_S in H.
  destruct (exec searchOperationRegex rest) as [[rest' c]|];
    [|inversion H; subst; exact Hl].
  destruct (JsMap.get (group 1 c) normalizeSearchOperatorsMap) as [op'|] eqn:G.
  - destruct (String.eqb op' "message:").
    + destruct (parseSearchMessageOperations (group 2 c) operations)
        as [o'|] eqn:M; [|discriminate].
      eapply IH; [exact H|]. eapply message_operations_long; eauto.
    + eapply IH; [exact H|]. apply push_value_long; auto.
      eapply normalize_long; eauto.
  - eapply IH; eauto.
Qed.

Lemma parse_total search :
  exists operations, parseSearchOperations isSha search = Some operations.
Proof.
  unfold parseSearchOperations. cbv zeta.
  destruct (exec searchMessageOperationRegex (list_ascii_of_string search))
    as [[? c]|]; [|apply operations_loop_total; lia].
  destruct (negb (String.eqb (group 1 c) ""));
    [|apply operations_loop_total; lia].
  destruct (isSha (group 1 c)); [apply operations_loop_total; lia|].
  destruct (message_operations_total (group 1 c) []) as [o ->].
  apply operations_loop_total. lia.
Qed.

Lemma parse_long search operations :
  parseSearchOperations isSha search = Some operations -> long_keys operations.
Proof.
  unfold parseSearchOperations. cbv zeta.
  destruct (exec searchMessageOperationRegex (list_ascii_of_string search))
    as [[? c]|].
  - destruct (negb (String.eqb (group 1 c) "")).
    + destruct (isSha (group 1 c)).
      * intros H. eapply operations_loop_long; [exact H|].
        apply push_value_long; [simpl; auto|]. intros k [].
      * destruct (parseSearchMessageOperations (group 1 c) []) as [o|] eqn:M;
          [|discriminate].
        intros H. eapply operations_loop_long; [exact H|].
        eapply message_operations_long; [exact M|]. intros k [].
    + intros H. eapply operations_loop_long; [exact H|]. intros k [].
  - intros H. eapply operations_loop_long; [exact H|]. intros k [].
Qed.

End WithSha.

(** The first group of [searchOperationRegex] is a key of
    [normalizeSearchOperatorsMap]: the lookup in the loop is always defined. *)
Lemma operation_names_one_of :
  exists ls,
    one_of (Seq (alts operatorNames) (Lit [":"%char])) ls
    /\ forall l, In l ls ->
         JsMap.get (string_of_list_ascii l) normalizeSearchOperatorsMap <> None.
Proof.
  eexists. split.
  - apply one_of_seq_lit. unfold alts, operatorNames. simpl.
    repeat apply one_of_alt; apply one_of_lit.
  - simpl. intros l Hl.
    repeat (destruct Hl as [<-|Hl]; [vm_compute; discriminate|]).
    destruct Hl.
Qed.

Lemma operation_group_normalized rest rest' c :
  exec searchOperationRegex rest = Some (rest', c) ->
  JsMap.get (group 1 c) normalizeSearchOperatorsMap <> None.
Proof.
  destruct operation_names_one_of as (ls & Hone & Hkeys).
  intros H. apply exec_match_here in H as [s0 H].
  unfold match_here, searchOperationRegex in H.
  change (m (Seq (alts operatorNames) (Lit [":"%char])) s0 []
            (fun s' c' =>
               m (Seq (Opt (Chr white)) (Look (valueTail 2))) s'
                 ((1, matched s0 s') :: c')
                 (fun s'' c'' => Some (s'', c''))) = Some (rest', c)) in H.
  apply Hone in H as (l & s1 & Hin & Hs & H). subst s0.
  apply m_inv in H as (s2 & c2 & Hk & _ & Hg).
  inversion Hk; subst.
  unfold group. rewrite (Hg 1).
  - cbn [cap Nat.eqb]. rewrite matched_app. apply Hkeys, Hin.
  - unfold valueTail, alts, operatorPrefixes. simpl. intros [E|[]]. discriminate.
Qed.

End SearchFacts.

(** ** [parseSearchOperations] on queries made of words and operators *)

Module SearchTermFacts.
Import Regex RegexSpec RegexFacts Search SearchSpec SearchTerms JsMapFacts.

Abbreviation chars := list_ascii_of_string.
Abbreviation k0 := (fun (s : list ascii) (c : caps) => Some (s, c)).

(** *** Characters *)

Lemma plain_inv a :
  plain a = true ->
  a <> ":"%char /\ a <> ascii_of_nat 34 /\ white a = false
  /\ not_backspace_or_white a = true /\ dot a = true.
Proof.
  unfold plain. intros H.
  apply andb_true_iff in H as [H Hq]. apply andb_true_iff in H as [Hn Hc].
  apply negb_true_iff in Hq, Hc. apply Ascii.eqb_neq in Hq, Hc.
  assert (Hw : white a = false).
  { unfold not_backspace_or_white in Hn. apply negb_true_iff in Hn.
    apply orb_false_iff in Hn as [_ Hn]. exact Hn. }
  repeat split; auto.
  unfold dot, is_line_terminator. unfold white in Hw.
  destruct (Nat.eqb_spec (nat_of_ascii a) 10) as [E|_];
    [rewrite E in Hw; discriminate|].
  destruct (Nat.eqb_spec (nat_of_ascii a) 13) as [E|_];
    [rewrite E in Hw; discriminate|].
  reflexivity.
Qed.

Lemma word_inv w :
  word w = true ->
  exists a l, chars w = a :: l /\ forallb plain (a :: l) = true.
Proof.
  unfold word. destruct (chars w) as [|a l]; [discriminate|]. eauto.
Qed.

Lemma texty_app_plain l : forall v,
  forallb plain l = true -> texty v -> texty (l ++ v).
Proof.
  induction l as [|a l IH]; intros v H Hv; [exact Hv|].
  cbn [forallb] in H. apply andb_true_iff in H as [Ha Hl].
  destruct (plain_inv a Ha) as (Hc & _ & Hw & _ & Hd).
  cbn [app texty]. repeat split; auto; intros E; congruence.
Qed.

Lemma texty_space v : texty v -> v <> [] -> texty (" "%char :: v).
Proof.
  intros H Hne. cbn [texty]. repeat split; auto; discriminate.
Qed.

Lemma unwords_nonempty ws :
  ws <> [] -> forallb word ws = true -> unwords ws <> [].
Proof.
  destruct ws as [|w ws]; [congruence|]. intros _ H.
  cbn [forallb] in H. apply andb_true_iff in H as [Hw _].
  destruct (word_inv w Hw) as (a & l & E & _).
  cbn [unwords]. rewrite E. destruct ws; discriminate.
Qed.

Lemma unwords_texty ws : forallb word ws = true -> texty (unwords ws).
Proof.
  induction ws as [|w ws IH]; intros H; [exact I|].
  cbn [forallb] in H. apply andb_true_iff in H as [Hw Hws].
  destruct (word_inv w Hw) as (a & l & E & Hp).
  cbn [unwords]. destruct ws as [|w' ws'].
  - rewrite <- (app_nil_r (chars w)), E. apply texty_app_plain; [exact Hp|exact I].
  - rewrite E. apply texty_app_plain; [exact Hp|].
    apply texty_space; [apply IH, Hws|].
    apply unwords_nonempty; [discriminate|exact Hws].
Qed.

Lemma colonless_nil : colonless [].
Proof. constructor. Qed.

Lemma texty_colonless v : texty v -> colonless v.
Proof.
  induction v as [|a v IH]; intros H; [constructor|].
  destruct H as (Hc & _ & _ & Hv). constructor; [exact Hc|apply IH, Hv].
Qed.

Lemma unwords_head ws :
  ws <> [] -> forallb word ws = true ->
  exists a v, unwords ws = a :: v /\ plain a = true.
Proof.
  destruct ws as [|w ws]; [congruence|]. intros _ H.
  cbn [forallb] in H. apply andb_true_iff in H as [Hw _].
  destruct (word_inv w Hw) as (a & l & E & Hp).
  cbn [forallb] in Hp. apply andb_true_iff in Hp as [Ha _].
  cbn [unwords]. rewrite E. destruct ws; cbn [app]; eauto.
Qed.

(** *** No operator inside a value *)

Lemma no_prefix_gen l :
  In ":"%char l -> ~ In " "%char l ->
  forall v rest s', colonless v -> ends rest -> v ++ rest = l ++ s' -> False.
Proof.
  induction l as [|a l IH]; intros Hc Hs v rest s' Hv Hrest E; [destruct Hc|].
  destruct v as [|b v].
  - cbn [app] in E. destruct Hrest as [->|[r ->]]; [discriminate|].
    injection E as E _. apply Hs. left. auto.
  - cbn [app] in E. injection E as E1 E2. subst b.
    apply Forall_cons in Hv as [Ha Hv].
    apply (IH) with (v := v) (rest := rest) (s' := s'); auto.
    + destruct Hc as [Hc|Hc]; [congruence|exact Hc].
    + intros Hin. apply Hs. right. exact Hin.
Qed.

Lemma prefix_chars_shape l :
  In l prefix_chars -> In ":"%char l /\ ~ In " "%char l.
Proof.
  unfold prefix_chars, operatorPrefixes. cbn [map list_ascii_of_string].
  intros H.
  repeat (destruct H as [<-|H];
          [split; [cbn [In]; auto 20
                  |cbn [In]; intros Hs;
                   repeat (destruct Hs as [Hs|Hs]; [discriminate|]);
                   exact Hs]|]).
  destruct H.
Qed.

Lemma no_prefix l v rest s' :
  In l prefix_chars -> colonless v -> ends rest -> v ++ rest = l ++ s' -> False.
Proof.
  intros Hl. destruct (prefix_chars_shape l Hl) as [Hc Hs].
  apply no_prefix_gen; assumption.
Qed.

Lemma prefixes_one_of : one_of (alts operatorPrefixes) prefix_chars.
Proof.
  unfold alts, operatorPrefixes, prefix_chars. cbn [map fold_left].
  exact (one_of_alt _ _ _ _
    (one_of_alt _ _ _ _
      (one_of_alt _ _ _ _
        (one_of_alt _ _ _ _
          (one_of_alt _ _ _ _
            (one_of_alt _ _ _ _
              (one_of_alt _ _ _ _
                (one_of_alt _ _ _ _
                  (one_of_alt _ _ _ _ (one_of_lit _) (one_of_lit _))
                  (one_of_lit _))
                (one_of_lit _))
              (one_of_lit _))
            (one_of_lit _))
          (one_of_lit _))
        (one_of_lit _))
      (one_of_lit _))
    (one_of_lit _)).
Qed.

Lemma names_one_of :
  one_of (Seq (alts operatorNames) (Lit [":"%char])) prefix_chars.
Proof.
  assert (H : one_of (alts operatorNames) (map chars operatorNames)).
  { unfold alts, operatorNames. cbn [map fold_left].
    exact (one_of_alt _ _ _ _
      (one_of_alt _ _ _ _
        (one_of_alt _ _ _ _
          (one_of_alt _ _ _ _
            (one_of_alt _ _ _ _
              (one_of_alt _ _ _ _
                (one_of_alt _ _ _ _
                  (one_of_alt _ _ _ _
                    (one_of_alt _ _ _ _ (one_of_lit _) (one_of_lit _))
                    (one_of_lit _))
                  (one_of_lit _))
                (one_of_lit _))
              (one_of_lit _))
            (one_of_lit _))
          (one_of_lit _))
        (one_of_lit _))
      (one_of_lit _)). }
  exact (one_of_seq_lit _ _ [":"%char] H).
Qed.

(** No operator prefix starts inside a value or at the space after it. *)
Lemma prefixes_fail v rest c k :
  colonless v -> ends rest -> m (alts operatorPrefixes) (v ++ rest) c k = None.
Proof.
  intros Hv Hrest.
  destruct (m (alts operatorPrefixes) (v ++ rest) c k) as [x|] eqn:E;
    [|reflexivity].
  exfalso. apply prefixes_one_of in E as (l & s' & Hl & Hs & _).
  apply (no_prefix l v rest s' Hl Hv Hrest Hs).
Qed.

Lemma names_fail v rest c k :
  colonless v -> ends rest ->
  m (Seq (alts operatorNames) (Lit [":"%char])) (v ++ rest) c k = None.
Proof.
  intros Hv Hrest.
  destruct (m (Seq (alts operatorNames) (Lit [":"%char])) (v ++ rest) c k)
    as [x|] eqn:E; [|reflexivity].
  exfalso. apply names_one_of in E as (l & s' & Hl & Hs & _).
  apply (no_prefix l v rest s' Hl Hv Hrest Hs).
Qed.

Lemma ends_value_ends rest : ends_value rest -> ends rest.
Proof. intros [->|(op & more & _ & ->)]; [left; auto|right; eauto]. Qed.


(** *** The pieces of the expressions *)

Lemma opt_white_unfold r s c k :
  m (Seq (Opt (Chr white)) r) s c k
  = match
      match s with
      | a :: s' => if white a then m r s' c k else None
      | [] => None
      end
    with
    | Some x => Some x
    | None => m r s c k
    end.
Proof. destruct s; reflexivity. Qed.

Lemma value_tail_unfold g s c k :
  m (valueTail g) s c k
  = lazy_star dot
      (fun s' =>
         m (Seq (Opt (Chr white)) (Alt (alts operatorPrefixes) EOI)) s'
           ((g, matched s s') :: c) k) s.
Proof. reflexivity. Qed.

Lemma group_seq_unfold g r1 r2 s c k :
  m (Seq (Grp g r1) r2) s c k
  = m r1 s c (fun s' c' => m r2 s' ((g, matched s s') :: c') k).
Proof. reflexivity. Qed.

Lemma alt_end_unfold r s c k :
  m (Alt r EOI) s c k
  = match m r s c k with
    | Some x => Some x
    | None => match s with [] => k s c | _ :: _ => None end
    end.
Proof. reflexivity. Qed.

Lemma exec_here r s x : match_here r s = Some x -> exec r s = Some x.
Proof. intros H. destruct s; cbn [exec]; rewrite H; reflexivity. Qed.

Lemma exec_next r a s :
  match_here r (a :: s) = None -> exec r (a :: s) = exec r s.
Proof. intros H. cbn [exec]. rewrite H. reflexivity. Qed.

Lemma lazy_star_here {R} p (F : list ascii -> option R) s x :
  F s = Some x -> lazy_star p F s = Some x.
Proof. intros H. destruct s; cbn [lazy_star]; rewrite H; reflexivity. Qed.

(** The lazy star passes over a value. *)
Lemma lazy_value {R} (F : list ascii -> option R) rest : forall v,
  texty v ->
  (forall v2, texty v2 -> v2 <> [] -> F (v2 ++ rest) = None) ->
  lazy_star dot F (v ++ rest) = lazy_star dot F rest.
Proof.
  induction v as [|a v IH]; intros Hv HF; [reflexivity|].
  cbn [app lazy_star].
  assert (H1 : F (a :: v ++ rest) = None)
    by (apply (HF (a :: v) Hv); discriminate).
  rewrite H1.
  destruct Hv as (_ & Hd & _ & Hv). rewrite Hd. apply IH; assumption.
Qed.

(** The greedy star takes a whole word. *)
Lemma greedy_word {R} p (k : list ascii -> option R) rest x : forall l,
  forallb p l = true ->
  (rest = [] \/ exists b r, rest = b :: r /\ p b = false) ->
  k rest = Some x ->
  greedy_star p k (l ++ rest) = Some x.
Proof.
  induction l as [|a l IH]; intros Hl Hrest Hk.
  - cbn [app]. destruct Hrest as [->|(b & r & -> & Hb)]; cbn [greedy_star].
    + exact Hk.
    + rewrite Hb. exact Hk.
  - cbn [forallb] in Hl. apply andb_true_iff in Hl as [Ha Hl].
    cbn [app greedy_star]. rewrite Ha, (IH Hl Hrest Hk). reflexivity.
Qed.

(** After a value nothing but an operator or the end follows. *)
Lemma tail_fails v rest c k :
  texty v -> v <> [] -> ends rest ->
  m (Seq (Opt (Chr white)) (Alt (alts operatorPrefixes) EOI)) (v ++ rest) c k
  = None.
Proof.
  intros Hv Hne Hrest. destruct v as [|a v]; [congruence|].
  destruct Hv as (Hc & _ & Hw & Hv).
  assert (Hall : colonless (a :: v))
    by (constructor; [exact Hc|apply texty_colonless, Hv]).
  assert (Hhere :
    m (Alt (alts operatorPrefixes) EOI) ((a :: v) ++ rest) c k = None).
  { rewrite alt_end_unfold, (prefixes_fail _ _ _ _ Hall Hrest). reflexivity. }
  rewrite opt_white_unfold, Hhere. cbn [app].
  destruct (white a); [|reflexivity].
  rewrite alt_end_unfold,
    (prefixes_fail _ _ _ _ (texty_colonless v Hv) Hrest).
  destruct v as [|b v]; [exfalso; apply Hw; reflexivity|reflexivity].
Qed.

Lemma prefix_at_head op more c :
  In op operatorPrefixes ->
  exists s', m (alts operatorPrefixes) (chars op ++ more) c k0 = Some (s', c).
Proof.
  unfold operatorPrefixes. cbn [In]. intros H.
  repeat (destruct H as [<-|H]; [eexists; reflexivity|]).
  destruct H.
Qed.

Lemma names_at_head op t c (K : K) :
  In op operatorPrefixes ->
  m (Seq (alts operatorNames) (Lit [":"%char])) (chars op ++ t) c K = K t c.
Proof.
  unfold operatorPrefixes. cbn [In]. intros H.
  repeat (destruct H as [<-|H]; [cbn; destruct (K t c); reflexivity|]).
  destruct H.
Qed.

Lemma prefix_head op :
  In op operatorPrefixes ->
  exists a l, chars op = a :: l /\ white a = false.
Proof.
  unfold operatorPrefixes. cbn [In]. intros H.
  repeat (destruct H as [<-|H]; [do 2 eexists; split; reflexivity|]).
  destruct H.
Qed.

Lemma normalize_long_form op :
  In op operatorPrefixes ->
  JsMap.get op normalizeSearchOperatorsMap = Some (long_form op).
Proof.
  unfold operatorPrefixes. cbn [In]. intros H.
  repeat (destruct H as [<-|H]; [reflexivity|]).
  destruct H.
Qed.

(** *** The value of an operator *)

Lemma value_tail g v rest c :
  texty v -> ends_value rest ->
  exists s', m (valueTail g) (v ++ rest) c k0 = Some (s', (g, v) :: c).
Proof.
  intros Hv Hrest. rewrite value_tail_unfold.
  rewrite lazy_value; [|exact Hv|].
  2:{ intros v2 H2 Hne. apply tail_fails; auto using ends_value_ends. }
  destruct Hrest as [->|(op & more & Hop & ->)].
  - exists []. apply lazy_star_here.
    rewrite opt_white_unfold, alt_end_unfold.
    rewrite (prefixes_fail [] [] _ _ colonless_nil (or_introl eq_refl)).
    rewrite app_nil_r. unfold matched. cbn [length].
    rewrite Nat.sub_0_r, firstn_all. reflexivity.
  - destruct (prefix_at_head op more
                ((g, matched (v ++ " "%char :: chars op ++ more)
                       (" "%char :: chars op ++ more)) :: c) Hop)
      as [s' Hs].
    exists s'. apply lazy_star_here.
    rewrite opt_white_unfold.
    change (white " "%char) with true. cbv iota.
    rewrite alt_end_unfold, Hs, matched_app. reflexivity.
Qed.

(** At the start of a query that begins with an operator, the leading text
    is empty. *)
Lemma lead_at_operator op more :
  In op operatorPrefixes ->
  match_here searchMessageOperationRegex (chars op ++ more)
  = Some (chars op ++ more, [(1, [])]).
Proof.
  intros Hop. unfold match_here, searchMessageOperationRegex.
  cbn [m]. fold (valueTail 1).
  set (s := chars op ++ more).
  assert (H : exists s', m (valueTail 1) s [] k0 = Some (s', [(1, [])])).
  { rewrite value_tail_unfold.
    destruct (prefix_at_head op more [(1, matched s s)] Hop) as [s' Hs].
    exists s'. apply lazy_star_here.
    rewrite opt_white_unfold. fold s in Hs.
    destruct (prefix_head op Hop) as (a & l & E & Hw).
    assert (Es : s = a :: l ++ more) by (subst s; rewrite E; reflexivity).
    rewrite alt_end_unfold, Hs.
    rewrite Es at 1. rewrite Hw.
    unfold matched. rewrite Nat.sub_diag. reflexivity. }
  destruct H as [s' ->]. reflexivity.
Qed.

(** The leading text of a query is taken up to the first operator. *)
Lemma lead_value v rest :
  texty v -> ends_value rest ->
  match_here searchMessageOperationRegex (v ++ rest)
  = Some (v ++ rest, [(1, v)]).
Proof.
  intros Hv Hrest. unfold match_here, searchMessageOperationRegex.
  cbn [m]. fold (valueTail 1).
  destruct (value_tail 1 v rest [] Hv Hrest) as [s' ->]. reflexivity.
Qed.

(** An operator and its value. *)
Lemma operation_at_term op v rest :
  In op operatorPrefixes -> texty v ->
  (exists a v', v = a :: v' /\ plain a = true) ->
  ends_value rest ->
  match_here searchOperationRegex (chars op ++ v ++ rest)
  = Some (v ++ rest, [(2, v); (1, chars op)]).
Proof.
  intros Hop Hv (a & v' & Ev & Ha) Hrest.
  unfold match_here, searchOperationRegex.
  rewrite group_seq_unfold, (names_at_head op _ _ _ Hop), matched_app.
  rewrite opt_white_unfold.
  destruct (plain_inv a Ha) as (_ & _ & Hw & _).
  assert (Hhead : match v ++ rest with
                  | b :: s' =>
                      if white b
                      then m (Look (valueTail 2)) s' [(1, chars op)] k0
                      else None
                  | [] => None
                  end = None).
  { rewrite Ev. cbn [app]. rewrite Hw. reflexivity. }
  rewrite Hhead. cbn [m]. fold (valueTail 2).
  destruct (value_tail 2 v rest [(1, chars op)] Hv Hrest) as [s' ->].
  reflexivity.
Qed.

(** No operator is found in a value, nor at the space after it. *)
Lemma operation_fails v rest :
  colonless v -> ends rest ->
  match_here searchOperationRegex (v ++ rest) = None.
Proof.
  intros Hv Hrest. unfold match_here, searchOperationRegex.
  rewrite group_seq_unfold. apply names_fail; assumption.
Qed.

Lemma operation_skip rest : forall v,
  colonless v -> ends rest ->
  exec searchOperationRegex (v ++ rest) = exec searchOperationRegex rest.
Proof.
  induction v as [|a v IH]; intros Hv Hrest; [reflexivity|].
  cbn [app]. rewrite exec_next.
  - apply IH; [|exact Hrest]. apply Forall_cons in Hv as [_ Hv]. exact Hv.
  - apply (operation_fails (a :: v) rest Hv Hrest).
Qed.

Lemma operation_end : exec searchOperationRegex [] = None.
Proof.
  pose proof (operation_fails [] [] colonless_nil (or_introl eq_refl)) as H.
  cbn [app] in H. cbn [exec]. rewrite H. reflexivity.
Qed.

Lemma operation_space s :
  exec searchOperationRegex (" "%char :: s) = exec searchOperationRegex s.
Proof.
  apply exec_next.
  apply (operation_fails [] (" "%char :: s) colonless_nil).
  right. eauto.
Qed.


(** *** The words of a message *)

Lemma values_at_word a l rest :
  forallb plain (a :: l) = true -> ends rest ->
  match_here searchMessageValuesRegex ((a :: l) ++ rest)
  = Some (rest, [(1, a :: l)]).
Proof.
  intros Hp Hrest. pose proof Hp as Hal.
  cbn [forallb] in Hp. apply andb_true_iff in Hp as [Ha Hl].
  destruct (plain_inv a Ha) as (_ & Hq & _ & Hn & _).
  unfold match_here, searchMessageValuesRegex. cbn [m app strip_prefix dquote].
  assert (Eq : Ascii.eqb (ascii_of_nat 34) a = false)
    by (apply Ascii.eqb_neq; congruence).
  unfold dquote. cbn [strip_prefix]. rewrite Eq, Hn.
  rewrite (greedy_word not_backspace_or_white _ rest
             (rest, [(1, matched (a :: l ++ rest) rest)]) l).
  - change (a :: l ++ rest) with ((a :: l) ++ rest).
    rewrite matched_app. reflexivity.
  - apply forallb_forall. intros b Hb.
    rewrite forallb_forall in Hl. apply (plain_inv b (Hl b Hb)).
  - destruct Hrest as [->|[r ->]]; [left; reflexivity|].
    right. exists " "%char, r. split; reflexivity.
  - reflexivity.
Qed.

Lemma values_end : exec searchMessageValuesRegex [] = None.
Proof. reflexivity. Qed.

Lemma values_space s :
  exec searchMessageValuesRegex (" "%char :: s)
  = exec searchMessageValuesRegex s.
Proof. apply exec_next. reflexivity. Qed.

Lemma values_loop_space fuel s operations :
  message_values_loop fuel (" "%char :: s) operations
  = message_values_loop fuel s operations.
Proof.
  destruct fuel; [reflexivity|].
  cbn [message_values_loop]. rewrite values_space. reflexivity.
Qed.

Lemma unwords_cons w ws :
  unwords (w :: ws)
  = chars w ++ match ws with [] => [] | _ :: _ => " "%char :: unwords ws end.
Proof. destruct ws; cbn [unwords]; [rewrite app_nil_r|]; reflexivity. Qed.

Lemma message_words : forall ws fuel operations,
  forallb word ws = true -> length (unwords ws) < fuel ->
  message_values_loop fuel (unwords ws) operations
  = Some (push_all "message:" ws operations).
Proof.
  induction ws as [|w ws IH]; intros fuel operations Hws Hfuel;
    (destruct fuel as [|fuel]; [lia|]).
  - reflexivity.
  - cbn [forallb] in Hws. apply andb_true_iff in Hws as [Hw Hws].
    destruct (word_inv w Hw) as (a & l & E & Hp).
    rewrite unwords_cons in Hfuel |- *. rewrite E in Hfuel |- *.
    rewrite length_app in Hfuel.
    set (rest := match ws with [] => [] | _ :: _ => " "%char :: unwords ws end)
      in *.
    assert (Hrest : ends rest)
      by (subst rest; destruct ws; [left; reflexivity|right; eauto]).
    cbn [message_values_loop].
    rewrite (exec_here _ _ _ (values_at_word a l rest Hp Hrest)).
    unfold group. cbn [cap Nat.eqb]. rewrite <- E.
    rewrite string_of_list_ascii_of_string.
    unfold push_all. cbn [fold_left]. fold (push_all "message:" ws).
    subst rest. destruct ws as [|w' ws'].
    + apply (IH fuel); [reflexivity|]. cbn [unwords length] in *. lia.
    + rewrite values_loop_space. apply IH; [exact Hws|].
      cbn [length] in Hfuel. lia.
Qed.

Lemma message_operations_words ws operations :
  ws <> [] -> forallb word ws = true ->
  parseSearchMessageOperations (string_of_list_ascii (unwords ws)) operations
  = Some (push_all "message:" ws operations).
Proof.
  intros Hne Hws. unfold parseSearchMessageOperations.
  destruct (unwords_head ws Hne Hws) as (a & v & E & _).
  rewrite list_ascii_of_string_of_list_ascii.
  assert (Ee : String.eqb (string_of_list_ascii (unwords ws)) "" = false)
    by (rewrite E; reflexivity).
  rewrite Ee. apply message_words; [exact Hws|lia].
Qed.

(** *** The values held under an operator *)

Lemma holds_ext operations f g :
  holds operations f -> (forall op, f op = g op) -> holds operations g.
Proof. intros H E op. rewrite <- E. apply H. Qed.

Lemma holds_push operations f op v :
  holds operations f ->
  holds (push_value op v operations)
    (fun o => if String.eqb o op then f o ++ [v] else f o).
Proof.
  intros H o. unfold push_value. rewrite (H op).
  destruct (String.eqb_spec o op) as [->|Hne].
  - destruct (f op); cbn [entry]; rewrite get_set_same; reflexivity.
  - destruct (f op); cbn [entry]; rewrite get_set_other by congruence;
      apply H.
Qed.

Lemma holds_push_all op : forall vs operations f,
  holds operations f ->
  holds (push_all op vs operations)
    (fun o => if String.eqb o op then f o ++ vs else f o).
Proof.
  induction vs as [|v vs IH]; intros operations f H.
  - apply (holds_ext _ _ _ H). intros o.
    destruct (String.eqb o op); [rewrite app_nil_r|]; reflexivity.
  - unfold push_all. cbn [fold_left]. fold (push_all op vs).
    apply (holds_ext _ _ _ (IH _ _ (holds_push _ _ op v H))).
    intros o. destruct (String.eqb o op); [|reflexivity].
    rewrite <- app_assoc. reflexivity.
Qed.

Lemma holds_apply_term operations f t :
  holds operations f ->
  holds (apply_term operations t) (fun o => f o ++ term_values o t).
Proof.
  intros H. unfold apply_term.
  destruct (String.eqb_spec (long_form (t_op t)) "message:") as [E|E].
  - apply (holds_ext _ _ _ (holds_push_all "message:" (t_words t) _ _ H)).
    intros o. unfold term_values. rewrite E.
    destruct (String.eqb o "message:"); [reflexivity|].
    rewrite app_nil_r. reflexivity.
  - apply (holds_ext _ _ _ (holds_push _ _ (long_form (t_op t)) _ H)).
    intros o. unfold term_values.
    destruct (String.eqb_spec o (long_form (t_op t))) as [->|Hne].
    + apply String.eqb_neq in E. rewrite E. reflexivity.
    + rewrite app_nil_r. reflexivity.
Qed.

Lemma holds_terms : forall ts operations f,
  holds operations f ->
  holds (fold_left apply_term ts operations)
    (fun o => f o ++ flat_map (term_values o) ts).
Proof.
  induction ts as [|t ts IH]; intros operations f H.
  - apply (holds_ext _ _ _ H). intros o. cbn [flat_map].
    rewrite app_nil_r. reflexivity.
  - cbn [fold_left].
    apply (holds_ext _ _ _ (IH _ _ (holds_apply_term _ _ t H))).
    intros o. cbn [flat_map]. rewrite <- app_assoc. reflexivity.
Qed.

(** *** The loop over the operators *)

Lemma term_inv t :
  term t = true ->
  In (t_op t) operatorPrefixes
  /\ t_words t <> [] /\ forallb word (t_words t) = true.
Proof.
  unfold term. intros H. apply andb_true_iff in H as [Hop Hws]. split.
  - apply existsb_exists in Hop as (op & Hin & E).
    apply String.eqb_eq in E. subst op. exact Hin.
  - destruct (t_words t); [discriminate|]. split; [discriminate|exact Hws].
Qed.

Lemma terms_text_ends ts :
  forallb term ts = true -> ends_value (terms_text ts).
Proof.
  destruct ts as [|t ts]; intros H; [left; reflexivity|].
  cbn [forallb] in H. apply andb_true_iff in H as [Ht _].
  destruct (term_inv t Ht) as (Hop & _).
  right. exists (t_op t), (unwords (t_words t) ++ terms_text ts).
  split; [exact Hop|reflexivity].
Qed.

Section Loop.
Variable isSha : string -> bool.

(** One turn of the loop, at an operator. *)
Lemma loop_at_term fuel s t ts operations :
  term t = true -> forallb term ts = true ->
  exec searchOperationRegex s
  = exec searchOperationRegex
      (chars (t_op t) ++ unwords (t_words t) ++ terms_text ts) ->
  operations_loop (S fuel) s operations
  = operations_loop fuel (unwords (t_words t) ++ terms_text ts)
      (apply_term operations t).
Proof.
  intros Ht Hts Hs. destruct (term_inv t Ht) as (Hop & Hne & Hws).
  rewrite SearchFacts.operations_loop_S, Hs.
  rewrite (exec_here _ _ _
             (operation_at_term (t_op t) (unwords (t_words t)) (terms_text ts)
                Hop (unwords_texty _ Hws)
                ltac:(destruct (unwords_head _ Hne Hws) as (a & v & E & Ha);
                      eauto)
                (terms_text_ends ts Hts))).
  unfold group. cbn [cap Nat.eqb].
  rewrite string_of_list_ascii_of_string, (normalize_long_form _ Hop).
  unfold apply_term.
  destruct (String.eqb (long_form (t_op t)) "message:"); [|reflexivity].
  rewrite (message_operations_words _ _ Hne Hws). reflexivity.
Qed.

Lemma loop_terms : forall ts v fuel operations,
  colonless v -> forallb term ts = true ->
  length (v ++ terms_text ts) < fuel ->
  operations_loop fuel (v ++ terms_text ts) operations
  = Some (fold_left apply_term ts operations).
Proof.
  induction ts as [|t ts IH]; intros v fuel operations Hv Hts Hfuel;
    (destruct fuel as [|fuel]; [lia|]).
  - cbn [terms_text fold_left]. rewrite SearchFacts.operations_loop_S.
    rewrite (operation_skip [] v Hv (or_introl eq_refl)), operation_end.
    reflexivity.
  - pose proof Hts as Hall.
    cbn [forallb] in Hts. apply andb_true_iff in Hts as [Ht Hts].
    destruct (term_inv t Ht) as (Hop & Hne & Hws).
    cbn [fold_left].
    rewrite (loop_at_term fuel _ t ts operations Ht Hts).
    + apply IH; [apply texty_colonless, unwords_texty, Hws|exact Hts|].
      cbn [terms_text] in Hfuel. rewrite !length_app in Hfuel |- *.
      cbn [length] in Hfuel. rewrite !length_app in Hfuel. lia.
    + cbn [terms_text].
      rewrite (operation_skip _ v Hv) by (right; eauto).
      apply operation_space.
Qed.

(** The operations of a query made of words and operators. *)
Lemma parse_terms lead ts :
  forallb word lead = true -> forallb term ts = true ->
  exists operations,
    parseSearchOperations isSha (query lead ts) = Some operations
    /\ holds operations (fun op => values_under isSha op lead ts).
Proof.
  intros Hlead Hts. unfold parseSearchOperations, query. cbv zeta.
  rewrite list_ascii_of_string_of_list_ascii.
  assert (Hnil : holds [] (fun _ => [])) by (intros op; reflexivity).
  destruct lead as [|w lead'].
  - destruct ts as [|t ts'].
    + exists []. split; [reflexivity|exact Hnil].
    + pose proof Hts as Hall. cbv beta iota.
      cbn [forallb] in Hts. apply andb_true_iff in Hts as [Ht Hts].
      destruct (term_inv t Ht) as (Hop & Hne & Hws).
      rewrite (exec_here _ _ _ (lead_at_operator (t_op t) _ Hop)).
      unfold group at 1. cbn [cap Nat.eqb string_of_list_ascii].
      change (negb (String.eqb "" "")) with false. cbv iota.
      rewrite (loop_at_term _ _ t ts' [] Ht Hts eq_refl).
      rewrite (loop_terms ts' (unwords (t_words t)));
        [|apply texty_colonless, unwords_texty, Hws|exact Hts|].
      * eexists. split; [reflexivity|].
        apply (holds_ext _ _ _
                 (holds_terms ts' _ _ (holds_apply_term _ _ t Hnil))).
        intros op. unfold values_under. cbn [lead_values flat_map app].
        reflexivity.
      * destruct (prefix_head _ Hop) as (a & l & E & _).
        rewrite E. cbn [app length]. rewrite !length_app. lia.
  - cbv beta iota. set (lead := w :: lead') in *.
    assert (Hne : lead <> []) by discriminate.
    destruct (unwords_head lead Hne Hlead) as (a & v & E & Ha).
    rewrite (exec_here _ _ _
               (lead_value (unwords lead) (terms_text ts)
                  (unwords_texty _ Hlead) (terms_text_ends ts Hts))).
    unfold group. cbn [cap Nat.eqb].
    assert (Ee : String.eqb (string_of_list_ascii (unwords lead)) "" = false)
      by (rewrite E; reflexivity).
    rewrite Ee. cbn [negb].
    assert (Hcolon : colonless (unwords lead))
      by apply texty_colonless, unwords_texty, Hlead.
    destruct (isSha (string_of_list_ascii (unwords lead))) eqn:Hsha;
      cbv beta iota.
    + rewrite (loop_terms ts (unwords lead)); [|exact Hcolon|exact Hts|lia].
      eexists. split; [reflexivity|].
      apply (holds_ext _ _ _
               (holds_terms ts _ _ (holds_push _ _ "commit:" _ Hnil))).
      intros op. unfold values_under, lead_values. subst lead.
      cbv beta iota zeta. rewrite Hsha.
      destruct (String.eqb op "commit:"); reflexivity.
    + rewrite (message_operations_words _ _ Hne Hlead).
      rewrite (loop_terms ts (unwords lead)); [|exact Hcolon|exact Hts|lia].
      eexists. split; [reflexivity|].
      apply (holds_ext _ _ _
               (holds_terms ts _ _ (holds_push_all "message:" lead _ _ Hnil))).
      intros op. unfold values_under, lead_values. subst lead.
      cbv beta iota zeta. rewrite Hsha.
      destruct (String.eqb op "message:"); reflexivity.
Qed.

End Loop.

End SearchTermFacts.

(** C7. Whatever the query and [Git.isSha], [parseSearchOperations] returns a
    map whose operators are among [message:], [author:], [commit:], [file:]
    and [change:].  A query made of leading words and of operators followed
    by their values (one of the ten prefixes, then one word or more), all
    separated by single spaces, is decomposed as follows: each of its
    operators is normalized to its long form ([=:], [@:], [#:], [?:], [~:]
    to [message:], [author:], [commit:], [file:], [change:]); the map holds
    under every long form the values the query gives it, in the order of the
    query, and has no entry for a long form without a value; under
    [message:] these are the words of the leading text (when it is not a
    sha) and of the [message:] values, under another operator the whole
    values, and under [commit:] also the leading text when it is a sha.
    The query [@:alice #:deadbeef123] yields exactly [author:] with [alice]
    and [commit:] with [deadbeef123], and no [message:] entry. *)
Theorem parseSearchOperations_typed_operations :
  (forall isSha search,
     exists operations,
       Search.parseSearchOperations isSha search = Some operations
       /\ forall op, In op (JsMap.keys operations) ->
            In op ["message:"; "author:"; "commit:"; "file:"; "change:"])
  /\ (forall isSha lead ts,
        forallb SearchTerms.word lead = true ->
        forallb SearchTerms.term ts = true ->
        exists operations,
          Search.parseSearchOperations isSha (SearchTerms.query lead ts)
          = Some operations
          /\ forall op,
               JsMap.get op operations
               = SearchTerms.entry
                   (SearchTerms.values_under isSha op lead ts))
  /\ (forall isSha,
        Search.parseSearchOperations isSha "@:alice #:deadbeef123"
        = Some [("author:", ["alice"]); ("commit:", ["deadbeef123"])])
  /\ (forall isSha,
        Search.parseSearchOperations isSha "=:a @:b #:c ?:d ~:e"
        = Some [("message:", ["a"]); ("author:", ["b"]); ("commit:", ["c"]);
                ("file:", ["d"]); ("change:", ["e"])])
  /\ (forall isSha,
        Search.parseSearchOperations isSha "@:alice author:bob @:carol"
        = Some [("author:", ["alice"; "bob"; "carol"])]).
Proof.
  split; [|split; [|split; [|split]]].
  - intros isSha search.
    destruct (SearchFacts.parse_total isSha search) as [operations H].
    exists operations. split; [exact H|].
    exact (SearchFacts.parse_long isSha search operations H).
  - intros isSha lead ts Hlead Hts.
    exact (SearchTermFacts.parse_terms isSha lead ts Hlead Hts).
  - intros isSha. vm_compute. reflexivity.
  - intros isSha. vm_compute. reflexivity.
  - intros isSha. vm_compute. reflexivity.
Qed.

Lemma parseSearchOperations_typed_operations_witness :
  SearchTerms.query ["fix"; "crash"]
    [{| SearchTerms.t_op := "@:"; SearchTerms.t_words := ["alice"] |};
     {| SearchTerms.t_op := "message:";
        SearchTerms.t_words := ["on"; "start"] |};
     {| SearchTerms.t_op := "author:";
        SearchTerms.t_words := ["bob"; "stone"] |};
     {| SearchTerms.t_op := "#:"; SearchTerms.t_words := ["deadbeef123"] |}]
  = "fix crash @:alice message:on start author:bob stone #:deadbeef123"
  /\ exists operations,
       Search.parseSearchOperations (fun _ => false)
         "fix crash @:alice message:on start author:bob stone #:deadbeef123"
       = Some operations
       /\ JsMap.get "message:" operations
          = Some ["fix"; "crash"; "on"; "start"]
       /\ JsMap.get "author:" operations = Some ["alice"; "bob stone"]
       /\ JsMap.get "commit:" operations = Some ["deadbeef123"]
       /\ JsMap.get "file:" operations = None
       /\ JsMap.get "change:" operations = None.
Proof.
  split; [reflexivity|].
  destruct (proj1 (proj2 parseSearchOperations_typed_operations)
              (fun _ => false) ["fix"; "crash"]
              [{| SearchTerms.t_op := "@:"; SearchTerms.t_words := ["alice"] |};
               {| SearchTerms.t_op := "message:";
                  SearchTerms.t_words := ["on"; "start"] |};
               {| SearchTerms.t_op := "author:";
                  SearchTerms.t_words := ["bob"; "stone"] |};
               {| SearchTerms.t_op := "#:";
                  SearchTerms.t_words := ["deadbeef123"] |}]
              eq_refl eq_refl) as (operations & Hparse & Hget).
  exists operations. split; [exact Hparse|].
  rewrite !Hget. repeat split; reflexivity.
Defined.

(** ** The service-level caches *)

Module ServiceFacts.
Import Service.

Lemma caches_eta {B T K U} (s : Caches B T K U) :
  {| branchesCache := branchesCache s; tagsCache := tagsCache s;
     trackedCache := trackedCache s; userMapCache := userMapCache s;
     notifications := notifications s |} = s.
Proof. destruct s; reflexivity. Qed.

Section Refs.
Context {GitBranch GitTag Tracked User : Type}.
Variable parseBranches : string -> string -> list GitBranch.
Variable parseTags : string -> string -> option (list GitTag).
Variable sortBranches : list GitBranch -> list GitBranch.
Variable sortTags : list GitTag -> list GitTag.

Abbreviation St := (Caches GitBranch GitTag Tracked User).

(** The [finally] block leaves alone a cache that does not hold its array. *)
Lemma finally_not_held {A} (sort : list A -> list A) options arr cache repoPath :
  snd (finally_ sort options false arr cache repoPath) = cache.
Proof.
  unfold finally_. destruct (filter_ options), (sort_ options); reflexivity.
Qed.

(** With the switch off [getBranches] leaves the caches as they were. *)
Lemma getBranches_switch_off (s : St) repoPath options env :
  snd (fst (getBranches parseBranches sortBranches false s repoPath options env))
  = s.
Proof.
  unfold getBranches. destruct repoPath as [repoPath|]; [|reflexivity].
  destruct (be_data env) as [data|]; [|reflexivity].
  match goal with
  | |- context [finally_ ?f ?o false ?a ?c ?r] =>
      pose proof (finally_not_held f o a c r) as H;
      destruct (finally_ f o false a c r) as [r0 c0]
  end.
  simpl in H. subst c0. simpl. apply caches_eta.
Qed.

(** [getTags] does not read the switch ... *)
Lemma getTags_switch_unread useCaching (s : St) repoPath options env :
  getTags parseTags sortTags useCaching s repoPath options env
  = getTags parseTags sortTags true s repoPath options env.
Proof. reflexivity. Qed.

(** ... so that a cached array is returned whatever the switch, no call made. *)
Lemma getTags_served_from_cache useCaching (s : St) repoPath options env tags :
  tagsCache s !! repoPath = Some tags ->
  filter_ options = None -> sort_ options = false ->
  getTags parseTags sortTags useCaching s (Some repoPath) options env
  = (Returns tags, s, []).
Proof.
  intros Hc Hf Hs. unfold getTags, finally_. rewrite Hc, Hf, Hs.
  rewrite caches_eta. reflexivity.
Qed.

(** ... and the result of a miss is stored whatever the switch. *)
Lemma getTags_stores useCaching (s : St) repoPath options env data :
  tagsCache s !! repoPath = None ->
  te_data env = Returns data -> te_repo env = Some true ->
  filter_ options = None -> sort_ options = false ->
  tagsCache (snd (fst (getTags parseTags sortTags useCaching s (Some repoPath)
                         options env))) !! repoPath
  = Some (default [] (parseTags data repoPath)).
Proof.
  intros Hc Hd Hr Hf Hs. unfold getTags, finally_.
  rewrite Hc, Hd, Hr, Hf, Hs. simpl. apply lookup_insert_eq.
Qed.

End Refs.

End ServiceFacts.

(** C9. A change event that [changed(Stashes, true)] reports as stash-only
    leaves the four caches as they were; any other event removes the
    repository's entries from the branches and tags caches (and the entries of
    other repositories in these two caches stay). *)
Theorem onAnyRepositoryChanged_stash_only_excluded :
  forall (GitBranch GitTag Tracked User RepositoryChange Event : Type)
         (Stashes Config Closed : RepositoryChange)
         (changed : Event -> RepositoryChange -> bool -> bool)
         (s : Service.Caches GitBranch GitTag Tracked User)
         (repo_path : string) (e : Event),
    let s' := Service.onAnyRepositoryChanged Stashes Config Closed changed
                s repo_path e in
    (changed e Stashes true = true -> s' = s)
    /\ (changed e Stashes true = false ->
        Service.branchesCache s' !! repo_path = None
        /\ Service.tagsCache s' !! repo_path = None
        /\ forall other, other <> repo_path ->
             Service.branchesCache s' !! other = Service.branchesCache s !! other
             /\ Service.tagsCache s' !! other = Service.tagsCache s !! other).
Proof.
  intros. subst s'. unfold Service.onAnyRepositoryChanged. split; intros H.
  - rewrite H. reflexivity.
  - rewrite H. simpl. split; [apply lookup_delete_eq|].
    split; [apply lookup_delete_eq|].
    intros other Hne. split; apply lookup_delete_ne; congruence.
Qed.

Lemma onAnyRepositoryChanged_stash_only_excluded_witness :
  Service.onAnyRepositoryChanged ServiceSample.Stashes ServiceSample.Config
    ServiceSample.Closed ServiceSample.changed ServiceSample.sample "/repo"
    [ServiceSample.Stashes] = ServiceSample.sample
  /\ Service.branchesCache
       (Service.onAnyRepositoryChanged ServiceSample.Stashes ServiceSample.Config
          ServiceSample.Closed ServiceSample.changed ServiceSample.sample "/repo"
          [ServiceSample.Stashes; ServiceSample.Config]) !! "/repo" = None.
Proof.
  split.
  - apply (onAnyRepositoryChanged_stash_only_excluded
             string string bool string ServiceSample.Change (list ServiceSample.Change)
             ServiceSample.Stashes ServiceSample.Config ServiceSample.Closed
             ServiceSample.changed ServiceSample.sample "/repo"
             [ServiceSample.Stashes]).
    reflexivity.
  - apply (onAnyRepositoryChanged_stash_only_excluded
             string string bool string ServiceSample.Change (list ServiceSample.Change)
             ServiceSample.Stashes ServiceSample.Config ServiceSample.Closed
             ServiceSample.changed ServiceSample.sample "/repo"
             [ServiceSample.Stashes; ServiceSample.Config]).
    reflexivity.
Defined.

(** C6 (at the failing input). With [advanced.caching.enabled] false, a first
    [getTags] for a repository that supports change events stores its result
    in [_tagsCache], and a second [getTags] is served from it without calling
    [Git.tag]; [getBranches] in the same situation stores nothing and asks the
    tool again. *)
Theorem getTags_ignores_caching_switch :
  let tags_env data := {| Service.te_data := Service.Returns data;
                          Service.te_repo := Some true |} in
  let branches_env data := {| Service.be_data := Service.Returns (Some data);
                              Service.be_current := None;
                              Service.be_repo := Some true |} in
  let '(r1, s1, _) :=
    Service.getTags ServiceSample.parseTags1 id false ServiceSample.no_caches
      (Some "/repo") ServiceSample.plain (tags_env "v1.0") in
  let '(r2, s2, calls2) :=
    Service.getTags ServiceSample.parseTags1 id false s1
      (Some "/repo") ServiceSample.plain (tags_env "v2.0") in
  let '(b1, t1, _) :=
    Service.getBranches ServiceSample.parseBranches1 id false ServiceSample.no_caches
      (Some "/repo") ServiceSample.plain (branches_env "master") in
  let '(b2, t2, bcalls2) :=
    Service.getBranches ServiceSample.parseBranches1 id false t1
      (Some "/repo") ServiceSample.plain (branches_env "develop") in
  Service.tagsCache s1 !! "/repo" = Some ["v1.0"]
  /\ r2 = Service.Returns ["v1.0"]
  /\ calls2 = []
  /\ Service.branchesCache t1 !! "/repo" = None
  /\ b2 = Service.Returns ["develop"]
  /\ bcalls2 = [Service.for_each_ref__branch "/repo"].
Proof.
  vm_compute. repeat split; reflexivity.
Qed.

(** ** [getBlameForRangeSync] *)

Module BlameFacts.
Import Model Blame BlameSpec JsMapFacts.

Lemma total_set k a m :
  total_lineCount (JsMap.set k a m) + old_count k m
  = total_lineCount m + lineCount a.
Proof.
  unfold total_lineCount, old_count, JsMap.values.
  induction m as [|[k' v'] m IH]; simpl.
  - lia.
  - destruct (String.eqb k k'); simpl; lia.
Qed.

Lemma range_step_total shas startLine endLine authors commits c :
  total_lineCount (fst (range_step shas startLine endLine (authors, commits) c))
  = total_lineCount authors + contributes shas startLine endLine c.
Proof.
  unfold range_step, contributes.
  destruct (bool_decide (c_sha c ∈ shas)); simpl; [|lia].
  set (n := length (List.filter (in_lines startLine endLine) (c_lines c))).
  destruct (JsMap.get (c_author c) authors) as [a|] eqn:G; simpl.
  - pose proof (total_set (c_author c)
                  {| name := name a; lineCount := lineCount a + n |} authors) as H.
    unfold old_count in H. rewrite G in H. simpl in H. lia.
  - pose proof (total_set (c_author c)
                  {| name := c_author c; lineCount := 0 |} authors) as H1.
    unfold old_count in H1. rewrite G in H1.
    pose proof (total_set (c_author c)
                  {| name := c_author c; lineCount := 0 + n |}
                  (JsMap.set (c_author c)
                     {| name := c_author c; lineCount := 0 |} authors)) as H2.
    unfold old_count in H2. rewrite get_set_same in H2. simpl in *. lia.
Qed.

Lemma range_fold_total shas startLine endLine cs : forall authors commits,
  total_lineCount
    (fst (fold_left (range_step shas startLine endLine) cs (authors, commits)))
  = total_lineCount authors
    + list_sum (map (contributes shas startLine endLine) cs).
Proof.
  induction cs as [|c cs IH]; intros authors commits.
  - simpl. lia.
  - cbn [fold_left].
    destruct (range_step shas startLine endLine (authors, commits) c)
      as [authors' commits'] eqn:E.
    rewrite IH.
    pose proof (range_step_total shas startLine endLine authors commits c) as H.
    rewrite E in H. cbn [fst] in H. rewrite H.
    change (map (contributes shas startLine endLine) (c :: cs))
      with (contributes shas startLine endLine c
            :: map (contributes shas startLine endLine) cs).
    change (list_sum (contributes shas startLine endLine c
                      :: map (contributes shas startLine endLine) cs))
      with (contributes shas startLine endLine c
            + list_sum (map (contributes shas startLine endLine) cs)).
    lia.
Qed.

Lemma range_step_NoDup shas startLine endLine authors commits c :
  NoDup (JsMap.keys authors) ->
  NoDup
    (JsMap.keys (fst (range_step shas startLine endLine (authors, commits) c))).
Proof.
  intros H. unfold range_step.
  destruct (bool_decide (c_sha c ∈ shas)); simpl; auto.
  destruct (JsMap.get (c_author c) authors); simpl; auto using set_NoDup.
Qed.

Lemma range_fold_NoDup shas startLine endLine cs : forall authors commits,
  NoDup (JsMap.keys authors) ->
  NoDup
    (JsMap.keys
       (fst (fold_left (range_step shas startLine endLine) cs (authors, commits)))).
Proof.
  induction cs as [|c cs IH]; intros authors commits H; cbn [fold_left fst]; auto.
  destruct (range_step shas startLine endLine (authors, commits) c)
    as [authors' commits'] eqn:E.
  apply IH.
  pose proof (range_step_NoDup shas startLine endLine authors commits c H) as H'.
  rewrite E in H'. exact H'.
Qed.

(** Sorting and rebuilding the map keeps the entries, hence the total. *)
Lemma insert_author_perm x l : Permutation (insert_author x l) (x :: l).
Proof.
  induction l as [|y l IH]; simpl; auto.
  destruct (Nat.ltb (lineCount (snd x)) (lineCount (snd y))); auto.
  rewrite IH. apply perm_swap.
Qed.

Lemma sort_authors_perm l : Permutation (sort_authors l) l.
Proof.
  induction l as [|x l IH]; simpl; auto.
  rewrite insert_author_perm. auto.
Qed.

Lemma total_perm (m m' : JsMap.t GitAuthor) :
  Permutation m m' -> total_lineCount m = total_lineCount m'.
Proof.
  unfold total_lineCount, JsMap.values.
  induction 1; simpl; lia.
Qed.

(** Filtering by line number is slicing by index when lines are numbered. *)
Lemma filter_none {A} (f : A -> bool) l :
  (forall x, In x l -> f x = false) -> List.filter f l = [].
Proof.
  induction l as [|a l IH]; simpl; intros H; auto.
  rewrite (H a) by auto. auto.
Qed.

Lemma filter_all {A} (f : A -> bool) l :
  (forall x, In x l -> f x = true) -> List.filter f l = l.
Proof.
  induction l as [|a l IH]; simpl; intros H; auto.
  rewrite (H a) by auto. f_equal. auto.
Qed.

Lemma in_lookup {A} (x : A) l : In x l -> exists i : nat, l !! i = Some x.
Proof. intros H. apply list_elem_of_In in H. apply list_elem_of_lookup; auto. Qed.

Lemma filter_numbered (lines : list GitCommitLine) (a b : nat) :
  (forall (i : nat) l, lines !! i = Some l -> l_line l = S i) ->
  List.filter (in_lines (a + 1) (b + 1)) lines = slice a (b + 1) lines.
Proof.
  intros Hnum. unfold slice.
  rewrite <- (take_drop a lines) at 1.
  rewrite <- (take_drop (b + 1 - a) (drop a lines)) at 1.
  rewrite !List.filter_app.
  rewrite (filter_none _ (take a lines)).
  - rewrite (filter_all _ (take (b + 1 - a) (drop a lines))).
    + rewrite (filter_none _ (drop (b + 1 - a) (drop a lines))).
      * simpl. apply app_nil_r.
      * intros l Hl. apply in_lookup in Hl as [j Hj].
        rewrite !lookup_drop in Hj. apply Hnum in Hj.
        unfold in_lines. rewrite Hj.
        apply andb_false_iff. right. apply Nat.leb_gt. lia.
    + intros l Hl. apply in_lookup in Hl as [j Hj].
      apply lookup_take_Some in Hj as [Hj Hlt].
      rewrite lookup_drop in Hj. apply Hnum in Hj.
      unfold in_lines. rewrite Hj.
      apply andb_true_iff. split; apply Nat.leb_le; lia.
  - intros l Hl. apply in_lookup in Hl as [j Hj].
    apply lookup_take_Some in Hj as [Hj Hlt]. apply Hnum in Hj.
    unfold in_lines. rewrite Hj.
    apply andb_false_iff. left. apply Nat.leb_gt. lia.
Qed.

Lemma filter_perm_length {A} (f : A -> bool) l l' :
  Permutation l l' -> length (List.filter f l) = length (List.filter f l').
Proof.
  induction 1; simpl; auto.
  - destruct (f x); simpl; auto.
  - destruct (f x), (f y); simpl; auto.
  - congruence.
Qed.

Lemma filter_concat_length {A} (f : A -> bool) (ls : list (list A)) :
  length (List.filter f (concat ls))
  = list_sum (map (fun l => length (List.filter f l)) ls).
Proof.
  induction ls as [|l ls IH]; simpl; auto.
  rewrite List.filter_app, length_app, IH. reflexivity.
Qed.

(** A commit none of whose lines is in the slice contributes nothing, so
    skipping the commits outside [shas] changes no sum. *)
Lemma contributes_all (b : GitBlame) (x y : nat) :
  invariant b ->
  let shas : gset string :=
    list_to_set (map l_sha (slice x (y + 1) (b_lines b))) in
  forall c, In c (JsMap.values (b_commits b)) ->
    contributes shas (x + 1) (y + 1) c
    = length (List.filter (in_lines (x + 1) (y + 1)) (c_lines c)).
Proof.
  intros Inv shas c Hc. unfold contributes.
  destruct (bool_decide (c_sha c ∈ shas)) eqn:E; auto.
  apply bool_decide_eq_false in E.
  rewrite filter_none; auto.
  intros l Hl. destruct (in_lines (x + 1) (y + 1) l) eqn:P; auto.
  exfalso. apply E. subst shas.
  apply elem_of_list_to_set, list_elem_of_In, in_map_iff.
  exists l. split; [apply (lines_in_their_commit b Inv c l Hc Hl)|].
  rewrite <- (filter_numbered (b_lines b) x y (lines_numbered b Inv)).
  apply filter_In. split; auto.
  apply (Permutation_in l (lines_partitioned b Inv)).
  apply in_concat. exists (c_lines c). split; auto.
  apply in_map. exact Hc.
Qed.

Lemma sum_contributes (b : GitBlame) (x y : nat) :
  invariant b ->
  let shas : gset string :=
    list_to_set (map l_sha (slice x (y + 1) (b_lines b))) in
  list_sum (map (contributes shas (x + 1) (y + 1)) (JsMap.values (b_commits b)))
  = length (slice x (y + 1) (b_lines b)).
Proof.
  intros Inv shas.
  rewrite <- (filter_numbered (b_lines b) x y (lines_numbered b Inv)).
  rewrite <- (filter_perm_length _ _ _ (lines_partitioned b Inv)).
  rewrite filter_concat_length, map_map.
  f_equal. apply map_ext_in. intros c Hc.
  apply (contributes_all b x y Inv c Hc).
Qed.

End BlameFacts.

Lemma blame_sample_invariant : BlameSpec.invariant BlameSample.blame.
Proof.
  constructor.
  - intros l [<-|[<-|[<-|[]]]]; simpl; eauto.
  - simpl. apply perm_skip. apply perm_swap.
  - simpl. intros c l [<-|[<-|[]]]; simpl.
    + intros [<-|[<-|[]]]; reflexivity.
    + intros [<-|[]]; reflexivity.
  - intros [|[|[|i]]] l; simpl; intros H; inversion H; reflexivity.
  - reflexivity.
Qed.

Example getBlameForRangeSync_sample :
  let r := Blame.getBlameForRangeSync BlameSample.blame (Some "/repo")
             BlameSample.range in
  Model.bl_authors r
  = [("Ann", {| Model.name := "Ann"; Model.lineCount := 1 |});
     ("Bob", {| Model.name := "Bob"; Model.lineCount := 1 |})]
  /\ Model.bl_lines r = [BlameSample.l2; BlameSample.l3].
Proof. vm_compute. split; reflexivity. Qed.

(** C3 as stated fails for [getNextUri]: from the sentinel it asks the tool
    for the commit that added the file and resolves to that revision. *)
Lemma getNextUri_sentinel_queries_first_commit :
  Async.run NavSample.answer
    (NavSample.nextUri "/repo" NavSample.file (Some NavSample.deletedOrMissingSha) 0)
  = (Async.Resolved
       (Some {| Nav.g_fsPath := "a.txt"; Nav.g_repoPath := Some "/repo";
                Nav.g_sha := Some "1a2b3c4" |}),
     [Async.awaited (NavSample.first_commit_query 0)]).
Proof. vm_compute. reflexivity. Qed.

(** C3 (amended). With the deleted-or-missing sentinel as ref, [getPreviousUri],
    [getPreviousDiffUris] and [getPreviousLineDiffUris] resolve to undefined
    having awaited nothing.  [getNextUri] with that ref (which is not empty
    and not a staged ref) instead awaits [Git.log__file] with no ref, the
    filter [A], the limit [skip + 1], reversed; and [getNextDiffUris] begins
    with that same call. *)
Theorem sentinel_navigation :
  forall (deletedOrMissingSha uncommittedSha uncommittedStagedSha : string)
         (isUncommitted isUncommittedStaged : string -> bool)
         (relativeTo : Nav.Uri -> string -> string)
         (resolve : string -> option string -> string)
         (parseSimple : string -> nat -> option string ->
                        option string * option string * option string)
         (parseSimpleRenamed : string -> string -> option string * option string)
         (parseStatus : string -> string -> nat -> option (list Nav.GitStatusFile))
         (validateVersion : nat -> nat -> bool)
         (invalidLineCount : string -> bool)
         (repoPath : string) (uri : Nav.Uri) (skip : nat)
         (editorLine : Z) (line : option Z) (firstParent : bool),
    let sentinel := Some deletedOrMissingSha in
    let first_commit :=
      Nav.log__file repoPath (relativeTo uri repoPath) None
        {| Nav.filters := Some ["A"]; Nav.limit := Some (skip + 1);
           Nav.reverse := Some true; Nav.simple := Some true;
           Nav.firstParent := None; Nav.startLine := None |} in
    Nav.getPreviousUri deletedOrMissingSha uncommittedSha uncommittedStagedSha
      isUncommitted isUncommittedStaged relativeTo resolve parseSimple
      parseStatus validateVersion invalidLineCount
      repoPath uri sentinel skip line firstParent = Async.Ret None
    /\ Nav.getPreviousDiffUris deletedOrMissingSha uncommittedSha
         uncommittedStagedSha isUncommitted isUncommittedStaged relativeTo
         resolve parseSimple parseStatus validateVersion invalidLineCount
         repoPath uri sentinel skip firstParent = Async.Ret None
    /\ Nav.getPreviousLineDiffUris deletedOrMissingSha uncommittedSha
         uncommittedStagedSha isUncommitted isUncommittedStaged relativeTo
         resolve parseSimple parseStatus validateVersion invalidLineCount
         repoPath uri editorLine sentinel skip = Async.Ret None
    /\ (String.length deletedOrMissingSha <> 0 ->
        isUncommittedStaged deletedOrMissingSha = false ->
        (exists k,
           Nav.getNextUri deletedOrMissingSha isUncommitted isUncommittedStaged
             relativeTo resolve parseSimple parseSimpleRenamed
             repoPath uri sentinel skip = Async.Vis first_commit k)
        /\ (exists k,
              Nav.getNextDiffUris deletedOrMissingSha uncommittedStagedSha
                isUncommitted isUncommittedStaged relativeTo resolve
                parseSimple parseSimpleRenamed parseStatus validateVersion
                repoPath uri sentinel skip = Async.Vis first_commit k)).
Proof.
  intros. subst sentinel first_commit.
  split; [|split; [|split]].
  - unfold Nav.getPreviousUri. simpl. rewrite String.eqb_refl. reflexivity.
  - unfold Nav.getPreviousDiffUris. simpl. rewrite String.eqb_refl. reflexivity.
  - unfold Nav.getPreviousLineDiffUris. simpl. rewrite String.eqb_refl.
    reflexivity.
  - intros Hlen Hstaged.
    assert (Hnz : Nat.eqb (String.length deletedOrMissingSha) 0 = false)
      by (apply Nat.eqb_neq; exact Hlen).
    split.
    + unfold Nav.getNextUri. rewrite Hnz, Hstaged. simpl.
      rewrite String.eqb_refl. simpl. eexists. reflexivity.
    + unfold Nav.getNextDiffUris. rewrite Hnz, Hstaged.
      unfold Nav.getNextUri. rewrite Hnz, Hstaged. simpl.
      rewrite String.eqb_refl. simpl. eexists. reflexivity.
Qed.

Lemma sentinel_navigation_witness :
  String.length NavSample.deletedOrMissingSha <> 0
  /\ NavSample.isUncommittedStaged NavSample.deletedOrMissingSha = false
  /\ exists k,
       NavSample.nextUri "/repo" NavSample.file
         (Some NavSample.deletedOrMissingSha) 0
       = Async.Vis (NavSample.first_commit_query 0) k.
Proof.
  split; [vm_compute; discriminate|]. split; [reflexivity|].
  apply (sentinel_navigation
           NavSample.deletedOrMissingSha NavSample.uncommittedSha
           NavSample.uncommittedStagedSha NavSample.isUncommitted
           NavSample.isUncommittedStaged NavSample.relativeTo NavSample.resolve
           NavSample.parseSimple NavSample.parseSimpleRenamed NavSample.parseStatus
           NavSample.validateVersion NavSample.invalidLineCount
           "/repo" NavSample.file 0 0%Z None false).
  - vm_compute. discriminate.
  - reflexivity.
Defined.

(** ** Programs *)

Module AsyncFacts.
Import Async.

Lemma run_bind {Eff A B} (answer : forall X, Eff X -> X)
    (p : Prog Eff A) (f : A -> Prog Eff B) :
  run answer (bind p f)
  = match run answer p with
    | (Resolved a, t) =>
        let '(r, t') := run answer (f a) in (r, t ++ t')
    | (Rejected ex, t) => (Rejected ex, t)
    end.
Proof.
  induction p as [a|ex|X e k IH]; simpl.
  - destruct (run answer (f a)); reflexivity.
  - reflexivity.
  - rewrite IH. destruct (run answer (k (answer X e))) as [[a|ex] t].
    + destruct (run answer (f a)); reflexivity.
    + reflexivity.
Qed.

Lemma run_bind_resolved {Eff A B} (answer : forall X, Eff X -> X)
    (p : Prog Eff A) (f : A -> Prog Eff B) a :
  fst (run answer p) = Resolved a ->
  fst (run answer (bind p f)) = fst (run answer (f a)).
Proof.
  intros H. rewrite run_bind. destruct (run answer p) as [r t].
  simpl in H. subst r. destruct (run answer (f a)); reflexivity.
Qed.

End AsyncFacts.

(** ** Pagination of logs *)

Module LogFacts.
Import Model Async Log LogSpec.

Lemma merged_extends log moreLog arg moreLimit range query more :
  extends log moreLog arg
    {| data := merged log moreLog (until_of arg) moreLimit range query;
       more := more |}.
Proof.
  unfold extends. simpl. split; [reflexivity|].
  split; [apply JsMapFacts.merge_keys|].
  split; [apply JsMapFacts.merge_keys_all|].
  split; [apply JsMapFacts.merge_disjoint|].
  split; [reflexivity|]. destruct arg; reflexivity.
Qed.

Section Facts.
Context {User : Type}.
Variable parse :
  string -> string -> option string -> option User -> nat -> option bool ->
  option LogData.
Variables maxListItems maxSearchItems similarityThreshold : option nat.

Let getLog := Log.getLog parse maxListItems similarityThreshold.
Let moreFn :=
  Log.getLogMoreFn parse maxListItems maxSearchItems similarityThreshold.
Let fileMoreFn := @Log.getLogForFileMoreFn User maxSearchItems.

Abbreviation requery := (LogSpec.requery maxSearchItems).
Abbreviation file_requery := (LogSpec.file_requery maxSearchItems).
Abbreviation git_log_of :=
  (@LogSpec.git_log_of User maxListItems similarityThreshold).

Lemma getLog_first repoPath options :
  exists k, getLog repoPath options = Vis (git_log_of repoPath options) k.
Proof. eexists. reflexivity. Qed.

Lemma moreFn_bind log options arg :
  until_present log (until_of arg) = false ->
  moreFn log options arg
  = bind (getLog (Log.repoPath log) (requery log options arg))
      (fun moreLog =>
         match moreLog with
         | None => Ret {| data := set_hasMore log false;
                          more := Some (MoreLog log options) |}
         | Some moreLog =>
             let mergedLog :=
               merged log (data moreLog) (until_of arg)
                 (default (default 0 maxSearchItems) (limit_of arg)) None
                 (QueryLog (Log.repoPath log) options) in
             Ret {| data := mergedLog;
                    more := Some (MoreLog mergedLog options) |}
         end).
Proof.
  intros H. unfold moreFn, Log.getLogMoreFn. rewrite H.
  destruct arg; reflexivity.
Qed.

Lemma fileMoreFn_bind log fileName options arg :
  until_present log (until_of arg) = false ->
  fileMoreFn log fileName options arg
  = bind (await (getLogForFile (Some (Log.repoPath log)) fileName
                   (file_requery log options arg)))
      (fun moreLog =>
         match moreLog with
         | None => Ret {| data := set_hasMore log false;
                          more := Some (MoreLogForFile log fileName options) |}
         | Some moreLog =>
             let mergedLog :=
               merged log (data moreLog) (until_of arg)
                 (default (default 0 maxSearchItems) (limit_of arg))
                 (range log)
                 (QueryLogForFile (Some (Log.repoPath log)) fileName options) in
             Ret {| data := mergedLog;
                    more := Some (MoreLogForFile mergedLog fileName options) |}
         end).
Proof.
  intros H. unfold fileMoreFn, Log.getLogForFileMoreFn. rewrite H.
  destruct arg; reflexivity.
Qed.

(** The query a [more] closure makes. *)
Lemma moreFn_first log options arg :
  until_present log (until_of arg) = false ->
  exists k,
    moreFn log options arg
    = Vis (git_log_of (Log.repoPath log) (requery log options arg)) k.
Proof.
  intros H. rewrite (moreFn_bind log options arg H). eexists. reflexivity.
Qed.

Lemma fileMoreFn_first log fileName options arg :
  until_present log (until_of arg) = false ->
  exists k,
    fileMoreFn log fileName options arg
    = Vis (getLogForFile (Some (Log.repoPath log)) fileName
             (file_requery log options arg)) k.
Proof.
  intros H. rewrite (fileMoreFn_bind log fileName options arg H).
  eexists. reflexivity.
Qed.

(** A page was found: the merged log, with a closure bound to it. *)
Lemma moreFn_merges answer log options arg moreLog :
  until_present log (until_of arg) = false ->
  fst (run answer (getLog (Log.repoPath log) (requery log options arg)))
  = Resolved (Some moreLog) ->
  exists result,
    fst (run answer (moreFn log options arg)) = Resolved result
    /\ extends log (data moreLog) arg result
    /\ more result = Some (MoreLog (data result) options).
Proof.
  intros H Hq. rewrite (moreFn_bind log options arg H).
  rewrite (AsyncFacts.run_bind_resolved _ _ _ _ Hq). simpl.
  eexists. split; [reflexivity|]. split; [apply merged_extends|reflexivity].
Qed.

Lemma fileMoreFn_merges (answer : forall X, Eff X -> X)
    log fileName options arg moreLog :
  until_present log (until_of arg) = false ->
  answer _ (getLogForFile (Some (Log.repoPath log)) fileName
              (file_requery log options arg)) = Ok (Some moreLog) ->
  exists result,
    fst (run answer (fileMoreFn log fileName options arg)) = Resolved result
    /\ extends log (data moreLog) arg result
    /\ more result = Some (MoreLogForFile (data result) fileName options).
Proof.
  intros H Hq. rewrite (fileMoreFn_bind log fileName options arg H).
  simpl. rewrite Hq. simpl.
  eexists. split; [reflexivity|]. split; [apply merged_extends|reflexivity].
Qed.

(** No page was found: the log as it was, marked as having no more. *)
Lemma moreFn_nothing answer log options arg :
  until_present log (until_of arg) = false ->
  fst (run answer (getLog (Log.repoPath log) (requery log options arg)))
  = Resolved None ->
  fst (run answer (moreFn log options arg))
  = Resolved {| data := set_hasMore log false;
                more := Some (MoreLog log options) |}.
Proof.
  intros H Hq. rewrite (moreFn_bind log options arg H).
  rewrite (AsyncFacts.run_bind_resolved _ _ _ _ Hq). reflexivity.
Qed.

Lemma fileMoreFn_nothing (answer : forall X, Eff X -> X)
    log fileName options arg :
  until_present log (until_of arg) = false ->
  answer _ (getLogForFile (Some (Log.repoPath log)) fileName
              (file_requery log options arg)) = Ok None ->
  fst (run answer (fileMoreFn log fileName options arg))
  = Resolved {| data := set_hasMore log false;
                more := Some (MoreLogForFile log fileName options) |}.
Proof.
  intros H Hq. rewrite (fileMoreFn_bind log fileName options arg H).
  simpl. rewrite Hq. reflexivity.
Qed.

(** The sha asked for is already there: the log itself. *)
Lemma moreFn_present log options until :
  until_present log (Some until) = true ->
  moreFn log options (Until until)
  = Ret {| data := log; more := Some (MoreLog log options) |}.
Proof.
  intros H. unfold moreFn, Log.getLogMoreFn. simpl until_of. rewrite H.
  reflexivity.
Qed.

Lemma fileMoreFn_present log fileName options until :
  until_present log (Some until) = true ->
  fileMoreFn log fileName options (Until until)
  = Ret {| data := log; more := Some (MoreLogForFile log fileName options) |}.
Proof.
  intros H. unfold fileMoreFn, Log.getLogForFileMoreFn. simpl until_of.
  rewrite H. reflexivity.
Qed.

(** [getLog] attaches [more] exactly to the logs that have more. *)
Lemma getLog_more answer repoPath options log :
  fst (run answer (getLog repoPath options)) = Resolved (Some log) ->
  more log = if hasMore (data log)
             then Some (MoreLog (data log)
                          (with_limit_ref options (o_limit options)
                             (o_ref options)))
             else None.
Proof.
  unfold getLog, Log.getLog. simpl.
  destruct (answer _ (git_log _ _ _)) as [d|ex]; simpl; [|discriminate].
  destruct (answer _ (getCurrentUser repoPath)) as [u|ex]; simpl;
    [|discriminate].
  destruct (parse d repoPath (o_ref options) u _ (o_reverse options)) as [l|];
    simpl; [|discriminate].
  intros H. inversion H; subst. simpl. reflexivity.
Qed.

End Facts.
End LogFacts.

(** C5 as stated fails: the log [page2] has [hasMore] false and two commits;
    its [more] continuation, called after the history was deepened, returns a
    log of three commits. *)
Lemma more_after_hasMore_false_refetches :
  exists log2 log3,
    LogSample.page2 = Some log2
    /\ LogSample.page3 = Some log3
    /\ Log.hasMore (Log.data log2) = false
    /\ Log.count (Log.data log2) = 2
    /\ JsMap.keys (Log.commits (Log.data log2)) = ["c3"; "c2"]
    /\ Log.count (Log.data log3) = 3
    /\ JsMap.keys (Log.commits (Log.data log3)) = ["c3"; "c2"; "c1"].
Proof.
  vm_compute. do 2 eexists. repeat split; reflexivity.
Qed.

Section MoreContinuation.
Context {User : Type}.
Variable parse :
  string -> string -> option string -> option User -> nat -> option bool ->
  option Log.LogData.
Variables maxListItems maxSearchItems similarityThreshold : option nat.
Variables (log : Log.LogData) (options : Log.LogOptions).
Variables (fileName : string) (fileOptions : Log.FileOptions).

Let getLog := Log.getLog parse maxListItems similarityThreshold.
Let moreFn :=
  Log.getLogMoreFn parse maxListItems maxSearchItems similarityThreshold
    log options.
Let fileMoreFn :=
  @Log.getLogForFileMoreFn User maxSearchItems log fileName fileOptions.

(** C5 (amended).  The [more] continuation does not look at [hasMore]: it
    queries again.  When that query finds no log, the result is the log with
    [hasMore] false and the same commits and count.  A log that [getLog]
    returns with [hasMore] false has no [more] continuation. *)
Theorem more_with_nothing_more :
  forall arg answer,
    Log.until_present log (Log.until_of arg) = false ->
    (fst (Async.run answer
            (getLog (Log.repoPath log)
               (LogSpec.requery maxSearchItems log options arg)))
     = Async.Resolved None ->
     exists result,
       fst (Async.run answer (moreFn arg)) = Async.Resolved result
       /\ Log.hasMore (Log.data result) = false
       /\ Log.count (Log.data result) = Log.count log
       /\ Log.commits (Log.data result) = Log.commits log)
    /\ (answer _ (Log.getLogForFile (Some (Log.repoPath log)) fileName
                    (LogSpec.file_requery maxSearchItems log fileOptions arg))
        = Async.Ok None ->
        exists result,
          fst (Async.run answer (fileMoreFn arg)) = Async.Resolved result
          /\ Log.hasMore (Log.data result) = false
          /\ Log.count (Log.data result) = Log.count log
          /\ Log.commits (Log.data result) = Log.commits log)
    /\ (forall repoPath opts fresh,
          fst (Async.run answer (getLog repoPath opts))
          = Async.Resolved (Some fresh) ->
          Log.hasMore (Log.data fresh) = false ->
          Log.more fresh = None).
Proof.
  intros arg answer H. split; [|split].
  - intros Hq. eexists. split.
    + apply LogFacts.moreFn_nothing; assumption.
    + simpl. auto.
  - intros Hq. eexists. split.
    + apply LogFacts.fileMoreFn_nothing; assumption.
    + simpl. auto.
  - intros repoPath opts fresh Hq Hm.
    rewrite (LogFacts.getLog_more parse maxListItems similarityThreshold
               answer repoPath opts fresh Hq).
    rewrite Hm. reflexivity.
Qed.

End MoreContinuation.

Lemma more_with_nothing_more_witness :
  Log.until_present LogSample.second (Log.until_of (Log.Limit 5)) = false
  /\ exists result,
       fst (Async.run LogSample.shallow
              (Log.getLogMoreFn LogSample.parse (Some 1) (Some 5) None
                 LogSample.second LogSample.options (Log.Limit 5)))
       = Async.Resolved result
       /\ Log.hasMore (Log.data result) = false
       /\ Log.count (Log.data result) = Log.count LogSample.second
       /\ Log.commits (Log.data result) = Log.commits LogSample.second.
Proof.
  split; [reflexivity|].
  destruct (more_with_nothing_more LogSample.parse (Some 1) (Some 5) None
              LogSample.second LogSample.options
              "a.txt" LogSample.fileOptions
              (Log.Limit 5) LogSample.shallow) as (H & _).
  - reflexivity.
  - apply H. vm_compute. reflexivity.
Defined.

(** ** The per-document promise cache *)

Module DocFacts.
Import Model Log DocCache DocSpec.

Section Facts.
Context {GitDiff : Type}.
Variable sha1 : string -> string.
Variable normalizePath : string -> string.
Variable getEncoding : Nav.GitUri -> string.
Variable maxListItems : option nat.
Variable fileHistoryFollowsRenames : bool.

Abbreviation St := (State GitDiff).
Abbreviation call :=
  (@DocCache.call GitDiff sha1 normalizePath getEncoding maxListItems
     fileHistoryFollowsRenames).
Abbreviation calls :=
  (@DocCache.calls GitDiff sha1 normalizePath getEncoding maxListItems
     fileHistoryFollowsRenames).
Abbreviation key_of := (DocCache.key_of sha1 maxListItems
                          fileHistoryFollowsRenames).
Abbreviation core_of := (DocCache.core_of getEncoding maxListItems
                           fileHistoryFollowsRenames).
Abbreviation normalize :=
  (DocCache.normalize_options maxListItems fileHistoryFollowsRenames).
Abbreviation cached_request := (DocSpec.cached_request normalizePath).
Abbreviation whole_log_absent :=
  (@DocSpec.whole_log_absent GitDiff maxListItems fileHistoryFollowsRenames).

Lemma miss_spec core key (st : St) :
  miss true true core key st
  = (ReturnsPromise (length (promises st)), after_miss core key st).
Proof.
  unfold miss, after_miss, start_core, state_add, ensure_state, set_docState.
  destruct st as [[m|] b ps ts sp]; reflexivity.
Qed.

Lemma call_hit req (st : St) cached :
  cached_request req ->
  state_get st (key_of req) = Some cached ->
  call true req st = (ReturnsPromise (item cached), st).
Proof.
  intros Hreq Hget. destruct req as [uri|uri contents|uri r1 r2 o|rp f o];
    simpl in *.
  - unfold getBlameForFile. rewrite Hget. reflexivity.
  - unfold getBlameForFileContents. rewrite Hget. reflexivity.
  - unfold getDiffForFile. rewrite Hget. reflexivity.
  - destruct Hreq as [Hguard Hrange]. unfold getLogForFile.
    assert (G : match rp with
                | Some rp0 => String.eqb rp0 (normalizePath f)
                | None => false
                end = false) by (destruct rp; auto).
    rewrite G. unfold no_range. simpl. rewrite Hrange. simpl.
    rewrite Hget. reflexivity.
Qed.

Lemma call_miss req (st : St) :
  cached_request req ->
  state_get st (key_of req) = None ->
  whole_log_absent req st ->
  call true req st
  = (ReturnsPromise (length (promises st)),
     after_miss (core_of req) (key_of req) st).
Proof.
  intros Hreq Hget Hwhole.
  destruct req as [uri|uri contents|uri r1 r2 o|rp f o]; simpl in *.
  - unfold getBlameForFile. rewrite Hget. apply miss_spec.
  - unfold getBlameForFileContents. rewrite Hget. apply miss_spec.
  - unfold getDiffForFile. rewrite Hget. apply miss_spec.
  - destruct Hreq as [Hguard Hrange]. unfold getLogForFile.
    assert (G : match rp with
                | Some rp0 => String.eqb rp0 (normalizePath f)
                | None => false
                end = false) by (destruct rp; auto).
    rewrite G. unfold no_range. simpl. rewrite Hrange. simpl.
    rewrite Hget, Hwhole. apply miss_spec.
Qed.

Lemma after_miss_get core key (st : St) :
  state_get (after_miss core key st) key
  = Some {| item := length (promises st); errorMessage := None |}.
Proof. unfold state_get, after_miss. simpl. apply lookup_insert_eq. Qed.

(** After the first call every further call is a hit on its promise. *)
Lemma calls_after_first req n : forall (st : St) cached,
  cached_request req ->
  state_get st (key_of req) = Some cached ->
  calls true req n st = (repeat (ReturnsPromise (item cached)) n, st).
Proof.
  induction n as [|n IH]; intros st cached Hreq Hget; simpl; auto.
  rewrite (call_hit req st cached Hreq Hget).
  rewrite (IH st cached Hreq Hget). reflexivity.
Qed.

Lemma calls_coalesce req n (st : St) :
  cached_request req ->
  state_get st (key_of req) = None ->
  whole_log_absent req st ->
  calls true req (S n) st
  = (repeat (ReturnsPromise (length (promises st))) (S n),
     after_miss (core_of req) (key_of req) st).
Proof.
  intros Hreq Hget Hwhole. simpl.
  rewrite (call_miss req st Hreq Hget Hwhole).
  rewrite (calls_after_first req n _ _ Hreq (after_miss_get _ _ st)).
  reflexivity.
Qed.

(** *** Running the [...Core] call a miss has started *)

Lemma find_task_new p (ts : list Task) t :
  (forall t0, In t0 ts -> t_promise t0 <> p) ->
  t_promise t = p ->
  find_task p (ts ++ [t]) = Some t.
Proof.
  intros Hold Hp. induction ts as [|t0 ts IH]; simpl.
  - rewrite Hp, Nat.eqb_refl. reflexivity.
  - destruct (Nat.eqb (t_promise t0) p) eqn:E.
    + apply Nat.eqb_eq in E. exfalso. apply (Hold t0); simpl; auto.
    + apply IH. intros t1 H1. apply Hold. simpl. auto.
Qed.

Lemma find_task_spawn p (ts : list Task) t :
  find_task p ts = Some t ->
  find_task p (spawn_task p ts)
  = Some {| t_promise := t_promise t; t_key := t_key t; t_core := t_core t;
            t_stage := AwaitGit |}.
Proof.
  induction ts as [|t0 ts IH]; simpl; [discriminate|].
  destruct (Nat.eqb (t_promise t0) p) eqn:E; simpl.
  - rewrite E. intros H. inversion H; subst. reflexivity.
  - rewrite E. exact IH.
Qed.

Lemma find_task_in p (ts : list Task) t :
  find_task p ts = Some t -> In t ts /\ t_promise t = p.
Proof.
  induction ts as [|t0 ts IH]; simpl; [discriminate|].
  destruct (Nat.eqb (t_promise t0) p) eqn:E.
  - intros H. inversion H; subst. apply Nat.eqb_eq in E. auto.
  - intros H. destruct (IH H). auto.
Qed.

Lemma wf_fresh (st : St) :
  wf st -> forall t0, In t0 (tasks st) -> t_promise t0 <> length (promises st).
Proof. intros [_ H] t0 H0. destruct (H t0 H0). lia. Qed.

Lemma miss_then_complete core key (st : St) v :
  wf st ->
  let p := length (promises st) in
  let st' := complete p v (after_miss core key st) in
  spawned st' = spawned st ++ [core]
  /\ promises st' !! p = Some (Fulfilled v)
  /\ state_get st' key = Some {| item := p; errorMessage := None |}.
Proof.
  intros Hwf p st'. subst st'. unfold complete.
  pose proof (wf_fresh st Hwf) as Hfresh. fold p in Hfresh.
  assert (Hlook : <[p := Fulfilled v]> (promises st ++ [Pending]) !! p
                  = Some (Fulfilled v)).
  { apply list_lookup_insert_eq. rewrite length_app. simpl. lia. }
  destruct core as [uri|uri contents|rp f r1 r2 o e|rp f o];
    unfold after_miss; cbn [tasks];
    match goal with
    | |- context [tasks st ++ [?t]] =>
        assert (Hfind : find_task p (tasks st ++ [t]) = Some t)
          by (apply find_task_new; [exact Hfresh|reflexivity])
    end;
    unfold core_tracked; cbn [tasks]; rewrite Hfind; cbn [t_stage];
    unfold core_settled; cbn [tasks];
    first [ rewrite Hfind
          | rewrite (find_task_spawn p _ _ Hfind) ];
    cbn [t_stage t_promise t_key t_core finish spawned promises docState];
    (split; [reflexivity|]); (split; [exact Hlook|]);
    unfold state_get; cbn [docState]; apply lookup_insert_eq.
Qed.

(** *** A failing retrieval *)

Lemma failure_cached p (t : Task) msg m (st : St) :
  find_task p (tasks st) = Some t ->
  t_stage t = AwaitGit ->
  docState st = Some m ->
  caches_failure (t_core t) = true ->
  docState (core_settled p (Failed msg) st)
  = Some (<[t_key t := {| item := emptyPromise; errorMessage := Some msg |}]> m)
  /\ promises (core_settled p (Failed msg) st)
     = <[p := Fulfilled None]> (promises st)
  /\ spawned (core_settled p (Failed msg) st) = spawned st.
Proof.
  intros Hfind Hstage Hdoc Hc. unfold core_settled.
  rewrite Hfind, Hstage, Hdoc.
  destruct (t_core t) as [uri|uri contents|rp f r1 r2 o e|rp f o]; simpl in *;
    try (repeat split; reflexivity).
  unfold no_range in Hc. rewrite Hc. simpl. repeat split; reflexivity.
Qed.

Lemma failure_not_cached p (t : Task) msg (st : St) rp f options :
  find_task p (tasks st) = Some t ->
  t_stage t = AwaitGit ->
  t_core t = LogFileCore rp f options ->
  caches_failure (t_core t) = false ->
  docState (core_settled p (Failed msg) st) = docState st
  /\ promises (core_settled p (Failed msg) st)
     = <[p := Fulfilled None]> (promises st).
Proof.
  intros Hfind Hstage Hcore Hc. unfold core_settled.
  rewrite Hfind, Hstage. rewrite Hcore in *. simpl in Hc.
  destruct (docState st) eqn:D; simpl.
  - unfold no_range in Hc. rewrite Hc. simpl. rewrite D. auto.
  - rewrite D. auto.
Qed.

(** *** An untracked file *)

Lemma untracked_resolves_empty p (t : Task) (st : St) :
  find_task p (tasks st) = Some t ->
  t_stage t = AwaitTracked ->
  promises (core_tracked p false st) = <[p := Fulfilled None]> (promises st)
  /\ spawned (core_tracked p false st) = spawned st
  /\ docState (core_tracked p false st) = docState st.
Proof.
  intros Hfind Hstage. unfold core_tracked. rewrite Hfind, Hstage.
  simpl. auto.
Qed.

(** *** The states the methods reach are well formed *)

Lemma wf_initial : wf (initial : St).
Proof. split; [reflexivity|intros t []]. Qed.

Lemma wf_set_docState (st : St) d : wf st -> wf (set_docState st d).
Proof. intros H. exact H. Qed.

Lemma wf_start_core core key (st : St) :
  wf st -> wf (snd (start_core core key st)).
Proof.
  intros [H0 Ht]. unfold start_core, wf. cbn [snd promises tasks]. split.
  - apply lookup_app_l_Some. exact H0.
  - intros t Hin. rewrite length_app. simpl. apply in_app_or in Hin as [Hin|Hin].
    + destruct (Ht t Hin). lia.
    + destruct Hin as [<-|[]]. simpl.
      apply lookup_lt_Some in H0. unfold emptyPromise in H0. lia.
Qed.

Lemma wf_miss useCaching cacheable core key (st : St) :
  wf st -> wf (snd (miss useCaching cacheable core key st)).
Proof.
  intros H. unfold miss.
  assert (H1 : wf (if useCaching && cacheable then ensure_state st else st)).
  { destruct (useCaching && cacheable); auto.
    unfold ensure_state. destruct (docState st); auto. }
  pose proof (wf_start_core core key _ H1) as H2.
  destruct (start_core core key _) as [p st1]. simpl in *.
  destruct cacheable; auto. unfold state_add. destruct (docState st1); auto.
Qed.

Lemma wf_call useCaching req (st : St) :
  wf st -> wf (snd (call useCaching req st)).
Proof.
  intros H. destruct req as [uri|uri contents|uri r1 r2 o|rp f o]; simpl.
  - unfold getBlameForFile.
    destruct (if useCaching then _ else _); auto using wf_miss.
  - unfold getBlameForFileContents.
    destruct (if useCaching then _ else _); auto using wf_miss.
  - unfold getDiffForFile.
    destruct (if useCaching then _ else _); auto using wf_miss.
  - unfold getLogForFile.
    destruct (match rp with Some _ => _ | None => _ end); auto.
    destruct (useCaching && _); auto using wf_miss.
    destruct (state_get st _); auto.
    destruct (state_get st _); auto using wf_miss.
    destruct (f_ref _); auto.
Qed.

Lemma wf_finish p v (st : St) :
  wf st -> 0 < p -> wf (finish p v st).
Proof.
  intros [H0 Ht] Hp. unfold finish, wf. cbn [promises tasks]. split.
  - rewrite list_lookup_insert_ne; [exact H0|unfold emptyPromise; lia].
  - intros t Hin. unfold remove_task in Hin. apply filter_In in Hin as [Hin _].
    rewrite length_insert. auto.
Qed.

Lemma wf_core_tracked p tracked (st : St) :
  wf st -> wf (core_tracked p tracked st).
Proof.
  intros H. unfold core_tracked.
  destruct (find_task p (tasks st)) as [t|] eqn:F; auto.
  destruct (t_stage t); auto.
  apply find_task_in in F as [Hin Hp].
  destruct tracked.
  - destruct H as [H0 Ht]. split; [exact H0|]. cbn [tasks promises].
    intros t' Hin'. unfold spawn_task in Hin'.
    apply in_map_iff in Hin' as (t0 & <- & Hin0).
    destruct (Nat.eqb (t_promise t0) p); simpl; auto.
  - apply wf_finish; auto. destruct H as [_ Ht]. destruct (Ht t Hin). lia.
Qed.

Lemma wf_core_settled p o (st : St) :
  wf st -> wf (core_settled p o st).
Proof.
  intros H. unfold core_settled.
  destruct (find_task p (tasks st)) as [t|] eqn:F; auto.
  destruct (t_stage t); auto.
  apply find_task_in in F as [Hin Hp].
  assert (Hpos : 0 < p) by (destruct H as [_ Ht]; destruct (Ht t Hin); lia).
  destruct o as [v|msg]; [apply wf_finish; auto|].
  destruct (t_core t), (docState st);
    try (apply wf_finish; auto; exact H).
  destruct (_ && _); apply wf_finish; auto; exact H.
Qed.


(** *** Calls that go past the cache *)

Lemma started_0 core key (st : St) : started core key 0 st = st.
Proof.
  unfold started. destruct st as [d b ps ts sp].
  cbn [docState blameFailure promises tasks spawned repeat seq map].
  rewrite !app_nil_r. reflexivity.
Qed.

Lemma started_more core key n (st : St) :
  started core key n (started core key 1 st) = started core key (S n) st.
Proof.
  unfold started. cbn [docState blameFailure promises tasks spawned].
  f_equal.
  - rewrite <- app_assoc. reflexivity.
  - rewrite <- app_assoc. f_equal. cbn [seq map]. f_equal.
    rewrite <- seq_shift, map_map. apply map_ext. intros i.
    unfold started_task. cbn [promises]. rewrite length_app. simpl.
    f_equal. lia.
Qed.

Lemma call_ranged req (st : St) :
  ranged_request normalizePath req ->
  call true req st
  = (ReturnsPromise (length (promises st)),
     started (core_of req) (key_of req) 1 st).
Proof.
  destruct req as [uri|uri contents|uri r1 r2 o|rp f o]; try contradiction.
  intros [Hguard Hrange]. cbn [DocCache.call]. unfold getLogForFile.
  assert (G : match rp with
              | Some rp0 => String.eqb rp0 (normalizePath f)
              | None => false
              end = false) by (destruct rp; auto).
  rewrite G. unfold no_range. cbn [normalize_options f_range].
  destruct (f_range o) as [r|]; [|contradiction]. cbn [andb].
  unfold miss, start_core, started, started_task.
  cbn [andb repeat seq map DocCache.core_of DocCache.key_of].
  rewrite Nat.add_0_r. reflexivity.
Qed.

Lemma calls_ranged req n : forall st : St,
  ranged_request normalizePath req ->
  calls true req n st
  = (map (fun i => ReturnsPromise (length (promises st) + i)) (seq 0 n),
     started (core_of req) (key_of req) n st).
Proof.
  induction n as [|n IH]; intros st Hreq.
  - cbn [DocCache.calls seq map]. rewrite started_0. reflexivity.
  - cbn [DocCache.calls]. rewrite (call_ranged req st Hreq).
    rewrite (IH _ Hreq), started_more. f_equal.
    cbn [seq map]. rewrite Nat.add_0_r. f_equal.
    rewrite <- seq_shift, map_map. apply map_ext. intros i.
    unfold started. cbn [promises]. rewrite length_app. simpl.
    f_equal. lia.
Qed.

Lemma find_task_old p (ts l : list Task) :
  (forall t0, In t0 ts -> t_promise t0 <> p) ->
  find_task p (ts ++ l) = find_task p l.
Proof.
  intros Hold. induction ts as [|t0 ts IH]; [reflexivity|].
  cbn [app find_task].
  destruct (Nat.eqb (t_promise t0) p) eqn:E.
  - apply Nat.eqb_eq in E. exfalso. apply (Hold t0); simpl; auto.
  - apply IH. intros t1 H1. apply Hold. simpl. auto.
Qed.

Lemma find_task_seq core key (st : St) n : forall a i,
  a <= i -> i < a + n ->
  find_task (length (promises st) + i)
    (map (started_task core key st) (seq a n))
  = Some (started_task core key st i).
Proof.
  induction n as [|n IH]; intros a i Ha Hi; [lia|].
  cbn [seq map find_task started_task t_promise].
  destruct (Nat.eqb_spec (length (promises st) + a) (length (promises st) + i))
    as [E|E].
  - assert (a = i) as -> by lia. reflexivity.
  - apply IH; lia.
Qed.

(** Each of the calls, once its file is found tracked, runs a git command of
    its own. *)
Lemma started_tracked core key n i (st : St) :
  wf st -> i < n ->
  spawned (core_tracked (length (promises st) + i) true
             (started core key n st))
  = spawned st ++ [core].
Proof.
  intros Hwf Hi. unfold core_tracked, started. cbn [tasks].
  rewrite find_task_old.
  - rewrite (find_task_seq core key st n 0 i) by lia. reflexivity.
  - intros t0 H0. destruct Hwf as [_ Ht]. destruct (Ht t0 H0). lia.
Qed.

End Facts.
End DocFacts.

(** C1 as stated fails for [getLogForFile] with a range: two calls in a row
    return two promises, nothing is stored, and each of the two
    [getLogForFileCore] calls runs [Git.log__file] once the file is found
    tracked. *)
Lemma getLogForFile_range_not_coalesced :
  let '(outcomes, st) :=
    DocSample.calls true
      (DocSample.file_log DocSample.ranged) 2 DocCache.initial in
  outcomes = [DocCache.ReturnsPromise 1; DocCache.ReturnsPromise 2]
  /\ DocCache.docState st = None
  /\ length (DocCache.spawned
               (DocCache.core_tracked 2 true
                  (DocCache.core_tracked 1 true st))) = 2.
Proof. vm_compute. repeat split; reflexivity. Qed.

(** C2 as stated fails for a reversed file log: after the failure the entry
    still holds the promise of the call and no error text. *)
Lemma getLogForFile_reverse_failure_not_replaced :
  let req := DocSample.file_log DocSample.reversed in
  let '(outcome, st) := DocSample.call true req DocCache.initial in
  let st' :=
    DocCache.core_settled 1 (DocCache.Failed "fatal: bad revision")
      (DocCache.core_tracked 1 true st) in
  outcome = DocCache.ReturnsPromise 1
  /\ DocCache.state_get st' (DocSample.key_of req)
     = Some {| DocCache.item := 1; DocCache.errorMessage := None |}
  /\ DocCache.promises st' !! 1 = Some (DocCache.Fulfilled None).
Proof. vm_compute. repeat split; reflexivity. Qed.

Section DocumentCache.
Context {GitDiff : Type}.
Variable sha1 : string -> string.
Variable normalizePath : string -> string.
Variable getEncoding : Nav.GitUri -> string.
Variable maxListItems : option nat.
Variable fileHistoryFollowsRenames : bool.

Let call :=
  @DocCache.call GitDiff sha1 normalizePath getEncoding maxListItems
    fileHistoryFollowsRenames.
Let calls :=
  @DocCache.calls GitDiff sha1 normalizePath getEncoding maxListItems
    fileHistoryFollowsRenames.
Let key_of := DocCache.key_of sha1 maxListItems fileHistoryFollowsRenames.
Let core_of := DocCache.core_of getEncoding maxListItems fileHistoryFollowsRenames.
Let getLogForFile :=
  @DocCache.getLogForFile GitDiff normalizePath maxListItems
    fileHistoryFollowsRenames.
Let getLogForFile_resume :=
  @DocCache.getLogForFile_resume GitDiff maxListItems fileHistoryFollowsRenames.

(** C1 (amended). With caching enabled, for [getBlameForFile],
    [getBlameForFileContents], [getDiffForFile] and for [getLogForFile]
    without a range (and not throwing): a call that finds an entry under its
    key returns the stored promise and changes nothing (no [...Core] call is
    started); a call that finds none (nor, for [getLogForFile], a log of the
    whole file) stores its pending promise under the key before it returns;
    hence any number of calls in a row return that one promise and start one
    [...Core] call, which runs its git command once, when its file is found
    tracked, and whose result is what the promise resolves to.
    [getLogForFile] with a range (and not throwing) neither reads nor writes
    the document state, whatever it holds: [n] calls in a row return [n] new
    promises and start [n] [getLogForFileCore] calls, each of which runs a
    git command of its own once its file is found tracked. *)
Theorem cached_calls_coalesce :
  forall (req : DocCache.Request) (st : DocCache.State GitDiff),
    (DocSpec.cached_request normalizePath req ->
     (forall cached,
        DocCache.state_get st (key_of req) = Some cached ->
        call true req st = (DocCache.ReturnsPromise (DocCache.item cached), st))
     /\ (DocCache.state_get st (key_of req) = None ->
         DocSpec.whole_log_absent maxListItems fileHistoryFollowsRenames req st ->
         let p := length (DocCache.promises st) in
         forall n,
           exists st1,
             calls true req (S n) st
             = (repeat (DocCache.ReturnsPromise p) (S n), st1)
             /\ st1 = snd (call true req st)
             /\ DocCache.state_get st1 (key_of req)
                = Some {| DocCache.item := p; DocCache.errorMessage := None |}
             /\ DocCache.promises st1 !! p = Some DocCache.Pending
             /\ length (DocCache.tasks st1) = S (length (DocCache.tasks st))
             /\ (DocSpec.wf st ->
                 forall v,
                   let st2 := DocSpec.complete p v st1 in
                   DocCache.spawned st2 = DocCache.spawned st ++ [core_of req]
                   /\ DocCache.promises st2 !! p = Some (DocCache.Fulfilled v))))
    /\ (DocSpec.ranged_request normalizePath req ->
        forall n,
          let p := length (DocCache.promises st) in
          let st1 := DocSpec.started (core_of req) (key_of req) n st in
          calls true req n st
          = (map (fun i => DocCache.ReturnsPromise (p + i)) (seq 0 n), st1)
          /\ DocCache.docState st1 = DocCache.docState st
          /\ DocCache.promises st1
             = DocCache.promises st ++ repeat DocCache.Pending n
          /\ DocCache.tasks st1
             = DocCache.tasks st
               ++ map (DocSpec.started_task (core_of req) (key_of req) st)
                    (seq 0 n)
          /\ (DocSpec.wf st ->
              forall i,
                i < n ->
                DocCache.spawned (DocCache.core_tracked (p + i) true st1)
                = DocCache.spawned st ++ [core_of req])).
Proof.
  intros req st. split.
  - intros Hreq. split.
    + intros cached Hget. apply DocFacts.call_hit; assumption.
    + intros Hget Hwhole p n.
      exists (DocSpec.after_miss (core_of req) (key_of req) st).
      split; [apply DocFacts.calls_coalesce; assumption|].
      split.
      { unfold call. rewrite (DocFacts.call_miss sha1 normalizePath getEncoding
                                maxListItems fileHistoryFollowsRenames req st
                                Hreq Hget Hwhole). reflexivity. }
      split; [apply DocFacts.after_miss_get|].
      split.
      { unfold DocSpec.after_miss. cbn [DocCache.promises].
        rewrite lookup_app_r by reflexivity.
        subst p. rewrite Nat.sub_diag. reflexivity. }
      split.
      { unfold DocSpec.after_miss. cbn [DocCache.tasks].
        rewrite length_app. simpl. lia. }
      intros Hwf v st2. subst st2.
      destruct (DocFacts.miss_then_complete (core_of req) (key_of req) st v Hwf)
        as (Hs & Hp & _).
      split; assumption.
  - intros Hreq n p st1.
    split; [apply DocFacts.calls_ranged; exact Hreq|].
    split; [reflexivity|]. split; [reflexivity|]. split; [reflexivity|].
    intros Hwf i Hi. apply DocFacts.started_tracked; assumption.
Qed.

(** C2 (amended). When the subprocess of a [...Core] call fails and the
    document has cache state: for blame and diff, and for a file log with
    neither range nor reverse, the entry of the key becomes the resolved
    empty promise with the error text, the promise of the call resolves to
    undefined, and a later request under that key returns the empty promise
    and changes nothing (no subprocess); for a file log with a range or
    reversed the document state is left as it is and the promise of the call
    resolves to undefined. *)
Theorem failure_cached_as_empty :
  forall (p : DocCache.PromiseId) (t : DocCache.Task) (msg : string)
         (m : gmap string DocCache.Cached) (st : DocCache.State GitDiff),
    DocSpec.wf st ->
    DocCache.find_task p (DocCache.tasks st) = Some t ->
    DocCache.t_stage t = DocCache.AwaitGit ->
    DocCache.docState st = Some m ->
    let st' := DocCache.core_settled p (DocCache.Failed msg) st in
    DocCache.promises st' !! p = Some (DocCache.Fulfilled None)
    /\ DocCache.promises st' !! DocCache.emptyPromise
       = Some (DocCache.Fulfilled None)
    /\ (DocSpec.caches_failure (DocCache.t_core t) = true ->
        DocCache.state_get st' (DocCache.t_key t)
        = Some {| DocCache.item := DocCache.emptyPromise;
                  DocCache.errorMessage := Some msg |}
        /\ DocCache.spawned st' = DocCache.spawned st
        /\ forall req,
             DocSpec.cached_request normalizePath req ->
             key_of req = DocCache.t_key t ->
             call true req st'
             = (DocCache.ReturnsPromise DocCache.emptyPromise, st'))
    /\ (DocSpec.caches_failure (DocCache.t_core t) = false ->
        DocCache.docState st' = DocCache.docState st).
Proof.
  intros p t msg m st Hwf Hfind Hstage Hdoc st'.
  pose proof (DocFacts.wf_core_settled p (DocCache.Failed msg) st Hwf) as Hwf'.
  fold st' in Hwf'.
  destruct (DocFacts.find_task_in p _ t Hfind) as [Hin Hp].
  assert (Hlt : p < length (DocCache.promises st))
    by (destruct Hwf as [_ Ht]; destruct (Ht t Hin); lia).
  assert (Hprom : DocCache.promises st'
                  = <[p := DocCache.Fulfilled None]> (DocCache.promises st)).
  { destruct (DocSpec.caches_failure (DocCache.t_core t)) eqn:C.
    - apply (DocFacts.failure_cached p t msg m st Hfind Hstage Hdoc C).
    - destruct (DocCache.t_core t) as [| | |rp f o] eqn:K;
        try discriminate C.
      apply (DocFacts.failure_not_cached p t msg st rp f o Hfind Hstage K).
      rewrite K. exact C. }
  split; [rewrite Hprom; apply list_lookup_insert_eq; exact Hlt|].
  split; [apply Hwf'|].
  split.
  - intros C.
    destruct (DocFacts.failure_cached p t msg m st Hfind Hstage Hdoc C)
      as (Hd & _ & Hs).
    fold st' in Hd, Hs.
    assert (Hget : DocCache.state_get st' (DocCache.t_key t)
                   = Some {| DocCache.item := DocCache.emptyPromise;
                             DocCache.errorMessage := Some msg |}).
    { unfold DocCache.state_get. rewrite Hd. apply lookup_insert_eq. }
    split; [exact Hget|]. split; [exact Hs|].
    intros req Hreq Hkey. rewrite <- Hkey in Hget.
    apply (DocFacts.call_hit sha1 normalizePath getEncoding maxListItems
             fileHistoryFollowsRenames req st' _ Hreq Hget).
  - intros C.
    destruct (DocCache.t_core t) as [| | |rp f o] eqn:K; try discriminate C.
    apply (DocFacts.failure_not_cached p t msg st rp f o Hfind Hstage K).
    rewrite K. exact C.
Qed.

End DocumentCache.

Section LogForFile.
Context {GitDiff : Type}.
Variable normalizePath : string -> string.
Variable maxListItems : option nat.
Variable fileHistoryFollowsRenames : bool.

Let getLogForFile :=
  @DocCache.getLogForFile GitDiff normalizePath maxListItems
    fileHistoryFollowsRenames.
Let getLogForFile_resume :=
  @DocCache.getLogForFile_resume GitDiff maxListItems fileHistoryFollowsRenames.


End LogForFile.

Lemma cached_calls_coalesce_witness :
  DocSpec.cached_request DocSample.normalizePath
    (DocCache.ReqBlame DocSample.uri)
  /\ DocCache.state_get (DocCache.initial (GitDiff := string))
       (DocSample.key_of (DocCache.ReqBlame DocSample.uri)) = None
  /\ (exists st1,
        DocSample.calls true (DocCache.ReqBlame DocSample.uri) 3
          DocCache.initial
        = (repeat (DocCache.ReturnsPromise 1) 3, st1)
        /\ DocCache.spawned (DocSpec.complete 1 None st1)
           = [DocCache.BlameCore DocSample.uri])
  /\ DocSpec.ranged_request DocSample.normalizePath
       (DocSample.file_log DocSample.ranged)
  /\ fst (DocSample.calls true (DocSample.file_log DocSample.ranged) 3
            DocCache.initial)
     = [DocCache.ReturnsPromise 1; DocCache.ReturnsPromise 2;
        DocCache.ReturnsPromise 3].
Proof.
  split; [exact I|]. split; [reflexivity|]. split.
  - destruct (cached_calls_coalesce DocSample.sha1
                DocSample.normalizePath DocSample.getEncoding
                DocSample.maxListItems
                DocSample.fileHistoryFollowsRenames
                (DocCache.ReqBlame DocSample.uri)
                (DocCache.initial (GitDiff := string))) as [H _].
    destruct (H I) as [_ H'].
    destruct (H' eq_refl I 2) as (st1 & Hc & _ & _ & _ & _ & Hw).
    exists st1. split; [exact Hc|].
    apply (Hw DocFacts.wf_initial None).
  - assert (Hr : DocSpec.ranged_request DocSample.normalizePath
                   (DocSample.file_log DocSample.ranged))
      by (split; [reflexivity|discriminate]).
    split; [exact Hr|].
    destruct (cached_calls_coalesce DocSample.sha1
                DocSample.normalizePath DocSample.getEncoding
                DocSample.maxListItems
                DocSample.fileHistoryFollowsRenames
                (DocSample.file_log DocSample.ranged)
                (DocCache.initial (GitDiff := string))) as [_ H].
    destruct (H Hr 3) as [Hc _].
    unfold DocSample.calls. rewrite Hc. reflexivity.
Defined.

Lemma failure_cached_as_empty_witness :
  DocSpec.wf DocSample.blaming
  /\ DocCache.find_task 1 (DocCache.tasks DocSample.blaming)
     = Some DocSample.blame_task
  /\ DocCache.docState DocSample.blaming
     = Some (<["blame" := {| DocCache.item := 1;
                            DocCache.errorMessage := None |}]> ∅)
  /\ DocCache.state_get
       (DocCache.core_settled 1 (DocCache.Failed "fatal: no such path")
          DocSample.blaming) "blame"
     = Some {| DocCache.item := DocCache.emptyPromise;
               DocCache.errorMessage := Some "fatal: no such path" |}.
Proof.
  assert (Hwf : DocSpec.wf DocSample.blaming).
  { unfold DocSample.blaming, DocSample.call.
    apply DocFacts.wf_core_tracked, DocFacts.wf_call, DocFacts.wf_initial. }
  split; [exact Hwf|]. split; [reflexivity|]. split; [reflexivity|].
  destruct (failure_cached_as_empty DocSample.sha1
              DocSample.normalizePath DocSample.getEncoding
              DocSample.maxListItems
              DocSample.fileHistoryFollowsRenames
              1 DocSample.blame_task "fatal: no such path"
              (<["blame" := {| DocCache.item := 1;
                               DocCache.errorMessage := None |}]> ∅)
              DocSample.blaming Hwf eq_refl eq_refl eq_refl)
    as (_ & _ & H & _).
  apply (H eq_refl).
Defined.


(** Outside the amended C1: when the log of the whole file is cached and a
    ref is asked for, [getLogForFile] awaits the cached log before it stores
    anything; two calls made before either resumes both start a
    [getLogForFileCore] call. *)
Example getLogForFile_partial_lookup_not_coalesced :
  let whole := {| Log.data := LogSample.first; Log.more := None |} in
  let resume :=
    DocCache.getLogForFile_resume (GitDiff := string)
      DocSample.maxListItems DocSample.fileHistoryFollowsRenames
      (Some "/repo") "/repo/a.txt" (DocSample.at_ref "c2")
      (Some (DocCache.VLog whole)) in
  let req := DocSample.file_log (DocSample.at_ref "c2") in
  let st0 :=
    DocSpec.complete 1 (Some (DocCache.VLog whole))
      (snd (DocSample.call true
              (DocSample.file_log DocSample.plain)
              DocCache.initial)) in
  let '(o1, st1) := DocSample.call true req st0 in
  let '(o2, st2) := DocSample.call true req st1 in
  let '(r1, st3) := resume st2 in
  let '(r2, st4) := resume st3 in
  o1 = DocCache.Suspends 1 /\ o2 = DocCache.Suspends 1
  /\ r1 = DocCache.ReturnsPromise 2 /\ r2 = DocCache.ReturnsPromise 3
  /\ length (DocCache.tasks st4) = 2.
Proof. vm_compute. repeat split; reflexivity. Qed.

(** * Further properties *)

(** ** [getBlameForRangeSync]: lines, commits and order of the result *)

Module BlameRangeFacts.
Import Model Blame BlameSpec BlameKeyed JsMapFacts.

Lemma slice_whole {A} (l : list A) : slice 0 (length l - 1 + 1) l = l.
Proof.
  unfold slice. simpl. destruct l as [|a l]; [reflexivity|].
  replace (length (a :: l) - 1 + 1 - 0) with (length (a :: l)) by (simpl; lia).
  apply firstn_all.
Qed.

Lemma slice_length {A} (x y : nat) (l : list A) :
  x <= y -> y < length l -> length (slice x (y + 1) l) = y - x + 1.
Proof.
  intros Hxy Hy. unfold slice.
  rewrite length_firstn, length_skipn. lia.
Qed.

Lemma range_step_snd shas startLine endLine authors commits c :
  snd (range_step shas startLine endLine (authors, commits) c)
  = if bool_decide (c_sha c ∈ shas)
    then JsMap.set (c_sha c)
           (with_lines c (List.filter (in_lines startLine endLine) (c_lines c)))
           commits
    else commits.
Proof.
  unfold range_step.
  destruct (bool_decide (c_sha c ∈ shas)); simpl; [|reflexivity].
  destruct (JsMap.get (c_author c) authors); reflexivity.
Qed.

Lemma range_fold_commits shas startLine endLine cs : forall authors commits,
  NoDup (JsMap.keys commits ++ map c_sha cs) ->
  snd (fold_left (range_step shas startLine endLine) cs (authors, commits))
  = commits ++ kept shas startLine endLine cs.
Proof.
  induction cs as [|c cs IH]; intros authors commits H.
  - simpl. unfold kept. simpl. rewrite app_nil_r. reflexivity.
  - cbn [fold_left].
    pose proof (range_step_snd shas startLine endLine authors commits c) as Hs.
    destruct (range_step shas startLine endLine (authors, commits) c)
      as [authors' commits'].
    cbn [snd] in Hs. subst commits'.
    cbn [map] in H.
    apply NoDup_app in H as (Hc & Hd & Hcs).
    apply NoDup_cons in Hcs as [Hnew Hcs].
    unfold kept. cbn [List.filter].
    destruct (bool_decide (c_sha c ∈ shas)).
    + rewrite set_keys_fresh.
      * rewrite IH.
        -- rewrite <- app_assoc. reflexivity.
        -- unfold JsMap.keys. rewrite map_app. cbn [map fst].
           rewrite <- app_assoc. cbn [app].
           apply NoDup_app. split; [exact Hc|]. split.
           ++ intros x Hx. apply Hd. exact Hx.
           ++ apply NoDup_cons. split; assumption.
      * intros Hin. apply (Hd (c_sha c)).
        -- apply list_elem_of_In. exact Hin.
        -- left.
    + apply IH. apply NoDup_app. split; [exact Hc|]. split; [|exact Hcs].
      intros x Hx Hin. apply (Hd x Hx). right. exact Hin.
Qed.

Lemma get_In {V} k (v : V) (m : JsMap.t V) :
  NoDup (JsMap.keys m) -> In (k, v) m -> JsMap.get k m = Some v.
Proof.
  induction m as [|[k' v'] m IH]; intros Hnd Hin; [destruct Hin|].
  cbn [JsMap.keys map fst] in Hnd. apply NoDup_cons in Hnd as [Hk Hnd].
  simpl. destruct Hin as [E|Hin].
  - inversion E; subst. rewrite String.eqb_refl. reflexivity.
  - destruct (String.eqb k k') eqn:E.
    + apply String.eqb_eq in E. subst k'. exfalso. apply Hk.
      apply list_elem_of_In. apply (in_map fst) in Hin. exact Hin.
    + apply IH; assumption.
Qed.

Lemma keyed_values (commits : JsMap.t GitBlameCommit) :
  keyed_by_sha commits ->
  map c_sha (JsMap.values commits) = JsMap.keys commits.
Proof.
  intros [_ Hk]. unfold JsMap.values, JsMap.keys.
  induction commits as [|[k c] m IH]; [reflexivity|].
  simpl. rewrite IH.
  - rewrite (Hk k c) by (left; reflexivity). reflexivity.
  - intros k' c' Hin. apply Hk. right. exact Hin.
Qed.

Lemma keyed_get (commits : JsMap.t GitBlameCommit) c :
  keyed_by_sha commits -> In c (JsMap.values commits) ->
  JsMap.get (c_sha c) commits = Some c.
Proof.
  intros [Hnd Hk] Hin. unfold JsMap.values in Hin.
  apply in_map_iff in Hin as ([k c'] & E & Hin). simpl in E. subst c'.
  rewrite <- (Hk k c Hin). apply get_In; assumption.
Qed.

Lemma kept_keyed shas startLine endLine cs :
  NoDup (map c_sha cs) -> keyed_by_sha (kept shas startLine endLine cs).
Proof.
  intros Hnd. split.
  - unfold kept, JsMap.keys. rewrite map_map. simpl.
    induction cs as [|c cs IH]; simpl; [apply NoDup_nil_2|].
    cbn [map] in Hnd. apply NoDup_cons in Hnd as [Hc Hnd].
    destruct (bool_decide (c_sha c ∈ shas)); [|apply IH, Hnd].
    simpl. apply NoDup_cons. split; [|apply IH, Hnd].
    intros Hin. apply Hc. apply list_elem_of_In in Hin.
    apply list_elem_of_In. apply in_map_iff in Hin as (c' & E & Hin).
    apply filter_In in Hin as [Hin _]. apply in_map_iff. eauto.
  - intros k c Hin. unfold kept in Hin.
    apply in_map_iff in Hin as (c' & E & _). inversion E. reflexivity.
Qed.

Lemma insert_author_decreasing x l :
  decreasing l -> decreasing (insert_author x l).
Proof.
  unfold decreasing. induction l as [|y l IH]; intros H; simpl.
  - constructor; constructor.
  - apply StronglySorted_inv in H as [Hl Hy].
    destruct (Nat.ltb (lineCount (snd x)) (lineCount (snd y))) eqn:E.
    + apply Nat.ltb_lt in E. constructor; [apply IH, Hl|].
      apply Forall_forall. intros z Hz. apply list_elem_of_In in Hz.
      apply (Permutation_in z (BlameFacts.insert_author_perm x l)) in Hz.
      destruct Hz as [<-|Hz]; [lia|].
      rewrite Forall_forall in Hy. apply Hy, list_elem_of_In, Hz.
    + apply Nat.ltb_ge in E. constructor.
      * constructor; assumption.
      * constructor; [exact E|].
        rewrite Forall_forall in Hy |- *. intros z Hz.
        specialize (Hy z Hz). simpl in *. lia.
Qed.

Lemma sort_authors_decreasing l : decreasing (sort_authors l).
Proof.
  induction l as [|x l IH]; simpl.
  - constructor.
  - apply insert_author_decreasing, IH.
Qed.

(** The lines of the range, on numbered lines. *)
Lemma in_slice (lines : list GitCommitLine) (x y : nat) l :
  (forall (i : nat) l, lines !! i = Some l -> l_line l = S i) ->
  In l (slice x (y + 1) lines)
  <-> In l lines /\ in_lines (x + 1) (y + 1) l = true.
Proof.
  intros Hnum. rewrite <- (BlameFacts.filter_numbered lines x y Hnum).
  apply filter_In.
Qed.

End BlameRangeFacts.

(** X1. Whatever the blame and the range, the lines of the result of
    [getBlameForRangeSync] are [blame.lines.slice(start, end + 1)] (the two
    early returns included) and [allLines] are the lines of the blame; for a
    range inside the file the result has [end - start + 1] lines. *)
Theorem getBlameForRangeSync_lines_are_the_slice :
  forall (blame : Model.GitBlame) (uri_repoPath : option string)
         (range : Model.Range),
    let result := Blame.getBlameForRangeSync blame uri_repoPath range in
    let x := Model.line (Model.start range) in
    let y := Model.line (Model.end_ range) in
    Model.bl_lines result = Model.slice x (y + 1) (Model.b_lines blame)
    /\ Model.bl_allLines result = Model.b_lines blame
    /\ (x <= y -> y < length (Model.b_lines blame) ->
        length (Model.bl_lines result) = y - x + 1).
Proof.
  intros blame uri_repoPath range result x y.
  assert (H : Model.bl_lines result = Model.slice x (y + 1) (Model.b_lines blame)
              /\ Model.bl_allLines result = Model.b_lines blame).
  { subst result x y. unfold Blame.getBlameForRangeSync.
    destruct (Nat.eqb (length (Model.b_lines blame)) 0) eqn:E0.
    - apply Nat.eqb_eq in E0. destruct (Model.b_lines blame) eqn:El;
        [|discriminate].
      simpl. rewrite El. unfold Model.slice.
      rewrite skipn_nil, firstn_nil. auto.
    - destruct (Nat.eqb (Model.line (Model.start range)) 0
                && Nat.eqb (Model.line (Model.end_ range))
                     (length (Model.b_lines blame) - 1)) eqn:E1.
      + apply andb_true_iff in E1 as [Ex Ey].
        apply Nat.eqb_eq in Ex, Ey. rewrite Ex, Ey. simpl.
        rewrite BlameRangeFacts.slice_whole. auto.
      + destruct (fold_left _ _ _) as [authors commits]. simpl. auto. }
  destruct H as [Hl Ha]. split; [exact Hl|]. split; [exact Ha|].
  intros Hxy Hy. rewrite Hl. apply BlameRangeFacts.slice_length; assumption.
Qed.

Lemma getBlameForRangeSync_lines_are_the_slice_witness :
  length (Model.bl_lines
            (Blame.getBlameForRangeSync BlameSample.blame (Some "/repo")
               BlameSample.range)) = 2.
Proof.
  apply (getBlameForRangeSync_lines_are_the_slice BlameSample.blame
           (Some "/repo") BlameSample.range); simpl; lia.
Defined.

(** X2. For a blame that satisfies the blame invariant and whose commits are
    kept under their sha, the result of [getBlameForRangeSync] is consistent
    again: the commit of every returned line is among the returned commits
    and lists that line; the returned commits list returned lines only, each
    under its own sha; and the returned commits are kept under their sha. *)
Theorem getBlameForRangeSync_commits_of_the_lines :
  forall (blame : Model.GitBlame) (uri_repoPath : option string)
         (range : Model.Range),
    BlameSpec.invariant blame ->
    BlameKeyed.keyed_by_sha (Model.b_commits blame) ->
    let result := Blame.getBlameForRangeSync blame uri_repoPath range in
    (forall l, In l (Model.bl_lines result) ->
       exists c, JsMap.get (Model.l_sha l) (Model.bl_commits result) = Some c
                 /\ In l (Model.c_lines c))
    /\ (forall c l, In c (JsMap.values (Model.bl_commits result)) ->
          In l (Model.c_lines c) ->
          In l (Model.bl_lines result) /\ Model.l_sha l = Model.c_sha c)
    /\ BlameKeyed.keyed_by_sha (Model.bl_commits result).
Proof.
  intros blame uri_repoPath range Inv Keyed result.
  assert (Hin_commit : forall l, In l (Model.b_lines blame) ->
            exists c, In c (JsMap.values (Model.b_commits blame))
                      /\ In l (Model.c_lines c)
                      /\ Model.c_sha c = Model.l_sha l).
  { intros l Hl.
    apply (Permutation_in l (Permutation_sym (BlameSpec.lines_partitioned blame Inv)))
      in Hl.
    apply in_concat in Hl as (ls & Hls & Hl).
    apply in_map_iff in Hls as (c & <- & Hc).
    exists c. split; [exact Hc|]. split; [exact Hl|].
    symmetry. apply (BlameSpec.lines_in_their_commit blame Inv c l Hc Hl). }
  assert (Hwhole :
    (forall l, In l (Model.b_lines blame) ->
       exists c, JsMap.get (Model.l_sha l) (Model.b_commits blame) = Some c
                 /\ In l (Model.c_lines c))
    /\ (forall c l, In c (JsMap.values (Model.b_commits blame)) ->
          In l (Model.c_lines c) ->
          In l (Model.b_lines blame) /\ Model.l_sha l = Model.c_sha c)
    /\ BlameKeyed.keyed_by_sha (Model.b_commits blame)).
  { split; [|split; [|exact Keyed]].
    - intros l Hl. destruct (Hin_commit l Hl) as (c & Hc & Hlc & E).
      exists c. split; [|exact Hlc].
      rewrite <- E. apply BlameRangeFacts.keyed_get; assumption.
    - intros c l Hc Hl. split.
      + apply (Permutation_in l (BlameSpec.lines_partitioned blame Inv)).
        apply in_concat. exists (Model.c_lines c). split; [|exact Hl].
        apply in_map. exact Hc.
      + apply (BlameSpec.lines_in_their_commit blame Inv c l Hc Hl). }
  subst result. unfold Blame.getBlameForRangeSync.
  destruct (Nat.eqb (length (Model.b_lines blame)) 0); [exact Hwhole|].
  destruct (Nat.eqb (Model.line (Model.start range)) 0
            && Nat.eqb (Model.line (Model.end_ range))
                 (length (Model.b_lines blame) - 1)); [exact Hwhole|].
  set (x := Model.line (Model.start range)).
  set (y := Model.line (Model.end_ range)).
  set (lines := Model.slice x (y + 1) (Model.b_lines blame)).
  set (shas := (list_to_set (map Model.l_sha lines) : gset string)).
  assert (Hnd : NoDup (map Model.c_sha (JsMap.values (Model.b_commits blame)))).
  { rewrite BlameRangeFacts.keyed_values by exact Keyed. apply Keyed. }
  pose proof (BlameRangeFacts.range_fold_commits shas (x + 1) (y + 1)
                (JsMap.values (Model.b_commits blame)) [] [] Hnd) as Hfold.
  destruct (fold_left _ _ _) as [authors commits].
  cbn [snd app] in Hfold. subst commits.
  cbn [Model.bl_lines Model.bl_commits].
  pose proof (BlameRangeFacts.kept_keyed shas (x + 1) (y + 1)
                (JsMap.values (Model.b_commits blame)) Hnd) as Hkeyed.
  pose proof (BlameRangeFacts.in_slice (Model.b_lines blame) x y) as Hslice.
  split; [|split; [|exact Hkeyed]].
  - intros l Hl.
    pose proof Hl as Hl'.
    apply (Hslice l (BlameSpec.lines_numbered blame Inv)) in Hl' as [Hlb Hrange].
    destruct (Hin_commit l Hlb) as (c & Hc & Hlc & E).
    set (c' := Model.with_lines c
                 (List.filter (Blame.in_lines (x + 1) (y + 1)) (Model.c_lines c))).
    exists c'. split.
    + rewrite <- E. change (Model.c_sha c) with (Model.c_sha c').
      apply BlameRangeFacts.keyed_get; [exact Hkeyed|].
      unfold JsMap.values, BlameKeyed.kept. rewrite map_map. simpl.
      apply in_map_iff. exists c. split; [reflexivity|].
      apply filter_In. split; [exact Hc|].
      apply bool_decide_eq_true. subst shas.
      apply elem_of_list_to_set. apply list_elem_of_In.
      rewrite E. apply in_map. exact Hl.
    + subst c'. simpl. apply filter_In. split; assumption.
  - intros c l Hc Hl.
    unfold JsMap.values, BlameKeyed.kept in Hc. rewrite map_map in Hc.
    simpl in Hc. apply in_map_iff in Hc as (c0 & <- & Hc0).
    apply filter_In in Hc0 as [Hc0 _].
    simpl in Hl. apply filter_In in Hl as [Hl Hrange].
    destruct Hwhole as (_ & Hw & _).
    destruct (Hw c0 l Hc0 Hl) as [Hlb E].
    split; [|exact E].
    apply (Hslice l (BlameSpec.lines_numbered blame Inv)). split; assumption.
Qed.

Lemma blame_sample_keyed :
  BlameKeyed.keyed_by_sha (Model.b_commits BlameSample.blame).
Proof.
  split.
  - simpl.
    repeat (apply NoDup_cons; split;
            [intros H%list_elem_of_In; simpl in H; intuition discriminate|]).
    apply NoDup_nil_2.
  - simpl. intros k c [E|[E|[]]]; inversion E; reflexivity.
Qed.

Lemma getBlameForRangeSync_commits_of_the_lines_witness :
  BlameKeyed.keyed_by_sha
    (Model.bl_commits
       (Blame.getBlameForRangeSync BlameSample.blame (Some "/repo")
          BlameSample.range)).
Proof.
  apply (getBlameForRangeSync_commits_of_the_lines BlameSample.blame
           (Some "/repo") BlameSample.range).
  - exact blame_sample_invariant.
  - exact blame_sample_keyed.
Defined.

(** X3. The authors of the result of [getBlameForRangeSync] come in
    decreasing order of their line counts, unless the blame is returned whole
    (no lines, or a range that is the whole file): then they are the authors
    of the blame as they were. *)
Theorem getBlameForRangeSync_authors_decreasing :
  forall (blame : Model.GitBlame) (uri_repoPath : option string)
         (range : Model.Range),
    let result := Blame.getBlameForRangeSync blame uri_repoPath range in
    (Model.b_lines blame <> []
     /\ ~ (Model.line (Model.start range) = 0
           /\ Model.line (Model.end_ range) = length (Model.b_lines blame) - 1)
     /\ BlameKeyed.decreasing (Model.bl_authors result))
    \/ ((Model.b_lines blame = []
         \/ (Model.line (Model.start range) = 0
             /\ Model.line (Model.end_ range) = length (Model.b_lines blame) - 1))
        /\ Model.bl_authors result = Model.b_authors blame).
Proof.
  intros blame uri_repoPath range result. subst result.
  unfold Blame.getBlameForRangeSync.
  destruct (Nat.eqb (length (Model.b_lines blame)) 0) eqn:E0.
  { right. apply Nat.eqb_eq in E0. split; [|reflexivity].
    left. destruct (Model.b_lines blame); [reflexivity|discriminate]. }
  apply Nat.eqb_neq in E0.
  destruct (Nat.eqb (Model.line (Model.start range)) 0
            && Nat.eqb (Model.line (Model.end_ range))
                 (length (Model.b_lines blame) - 1)) eqn:E1.
  { right. apply andb_true_iff in E1 as [Ex Ey].
    apply Nat.eqb_eq in Ex, Ey. split; [|reflexivity]. right. auto. }
  left. split; [intros E; rewrite E in E0; apply E0; reflexivity|].
  split.
  { intros [Ex Ey]. apply andb_false_iff in E1 as [E1|E1];
      apply Nat.eqb_neq in E1; contradiction. }
  match goal with
  | |- context [fold_left ?f ?l ?a] => set (r := fold_left f l a)
  end.
  assert (Hnodup : NoDup (JsMap.keys (fst r))).
  { subst r. apply BlameFacts.range_fold_NoDup. apply NoDup_nil_2. }
  destruct r as [authors commits]. cbn [fst] in Hnodup.
  cbn [Model.bl_authors].
  rewrite JsMapFacts.of_entries_id.
  - apply BlameRangeFacts.sort_authors_decreasing.
  - unfold JsMap.keys in *.
    assert (P : Permutation (map fst (Blame.sort_authors authors))
                            (map fst authors))
      by apply Permutation_map, BlameFacts.sort_authors_perm.
    rewrite P. exact Hnodup.
Qed.

(** ** [getBlameForLine] *)

Section BlameOfALine.
Import Model Async BlameLine BlameLineSpec.
Context {User Arguments : Type}.
Variable parse :
  string -> option string -> string -> option User -> option GitBlame.
Variable customArguments : Arguments.
Variable ignoreWhitespace : bool.

Let Eff := (@BlameLine.Eff User Arguments).
Let getBlameForLine :=
  BlameLine.getBlameForLine parse customArguments ignoreWhitespace.

Lemma line_of_blame_at (blame : GitBlame) (editorLine : Z) (i : nat) l :
  BlameSpec.invariant blame ->
  BlameKeyed.keyed_by_sha (b_commits blame) ->
  b_lines blame !! i = Some l ->
  (editorLine = Z.of_nat i
   \/ (editorLine = Z.of_nat (length (b_lines blame))
       /\ S i = length (b_lines blame))) ->
  exists c,
    @line_of_blame User Arguments blame editorLine = Ret (Some (blamed blame c l))
    /\ c_sha c = l_sha l /\ In l (c_lines c) /\ l_line l = S i.
Proof.
  intros Inv Keyed Hl He.
  assert (Hin : In l (b_lines blame)).
  { apply list_elem_of_In. apply list_elem_of_lookup. eauto. }
  pose proof Hin as Hin'.
  apply (Permutation_in l
           (Permutation_sym (BlameSpec.lines_partitioned blame Inv))) in Hin'.
  apply in_concat in Hin' as (ls & Hls & Hlc).
  apply in_map_iff in Hls as (c & <- & Hc).
  pose proof (BlameSpec.lines_in_their_commit blame Inv c l Hc Hlc) as E.
  pose proof (BlameRangeFacts.keyed_get _ c Keyed Hc) as Hget.
  rewrite <- E in Hget.
  exists c. split; [|split; [auto|split; [exact Hlc|]]].
  - unfold line_of_blame, at_index.
    destruct He as [->|[-> Hlast]].
    + destruct (Z.of_nat i <? 0)%Z eqn:Ei; [apply Z.ltb_lt in Ei; lia|].
      rewrite Nat2Z.id, Hl, Hget. reflexivity.
    + destruct (Z.of_nat (length (b_lines blame)) <? 0)%Z eqn:Ei;
        [apply Z.ltb_lt in Ei; lia|].
      rewrite Nat2Z.id.
      rewrite (proj2 (lookup_ge_None (b_lines blame) (length (b_lines blame))))
        by lia.
      rewrite Z.eqb_refl. simpl.
      destruct (Z.of_nat (length (b_lines blame)) - 1 <? 0)%Z eqn:Ej;
        [apply Z.ltb_lt in Ej; lia|].
      replace (Z.to_nat (Z.of_nat (length (b_lines blame)) - 1)) with i by lia.
      rewrite Hl, Hget. reflexivity.
  - apply (BlameSpec.lines_numbered blame Inv i l Hl).
Qed.

(** X4. With caching on and [skipCache] unset, [getBlameForLine] awaits
    [getBlameForFile] and nothing else.  On a blame that satisfies the blame
    invariant, with commits kept under their sha: for an editor line of the
    file it resolves to that line, its commit (which lists the line) and the
    commit's author with [lineCount] the number of lines of that commit; for
    the editor line just past the last line it resolves to the blame of the
    last line; for any other line it resolves to undefined; and for line 0 of
    a blame without lines it is rejected. *)
Theorem getBlameForLine_from_the_cached_blame :
  forall (uri : Nav.GitUri) (blame : GitBlame) (editorLine : Z)
         (answer : forall X, Eff X -> X),
    BlameSpec.invariant blame ->
    BlameKeyed.keyed_by_sha (b_commits blame) ->
    answer _ (getBlameForFile uri) = Ok (Some blame) ->
    let n := length (b_lines blame) in
    let result := run answer (getBlameForLine true uri editorLine false) in
    snd result = [awaited (getBlameForFile uri)]
    /\ (forall (i : nat) l,
          b_lines blame !! i = Some l ->
          editorLine = Z.of_nat i \/ (editorLine = Z.of_nat n /\ S i = n) ->
          exists c,
            fst result = Resolved (Some (blamed blame c l))
            /\ c_sha c = l_sha l /\ In l (c_lines c) /\ l_line l = S i)
    /\ ((editorLine < 0 \/ Z.of_nat n < editorLine)%Z ->
        fst result = Resolved None)
    /\ (n = 0 -> editorLine = 0%Z -> exists message, fst result = Rejected message).
Proof.
  intros uri blame editorLine answer Inv Keyed Hanswer n result.
  assert (Hrun : result
                 = let '(r, t) := run answer (@line_of_blame User Arguments
                                                blame editorLine) in
                   (r, awaited (getBlameForFile uri) :: t)).
  { subst result getBlameForLine. unfold BlameLine.getBlameForLine.
    cbn [negb andb bind await run]. rewrite Hanswer. reflexivity. }
  assert (Hshape : forall v, @line_of_blame User Arguments blame editorLine = Ret v ->
            result = (Resolved v, [awaited (getBlameForFile uri)])).
  { intros v E. rewrite Hrun, E. reflexivity. }
  split; [|split; [|split]].
  - assert (Hnone : exists r,
              run answer (@line_of_blame User Arguments blame editorLine)
              = (r, [])).
    { unfold line_of_blame.
      destruct (at_index (b_lines blame) editorLine) as [l|].
      - destruct (JsMap.get (l_sha l) (b_commits blame)); eexists; reflexivity.
      - destruct (negb (Z.of_nat (length (b_lines blame)) =? editorLine)%Z);
          [eexists; reflexivity|].
        destruct (at_index (b_lines blame) (editorLine - 1)) as [l|];
          [|eexists; reflexivity].
        destruct (JsMap.get (l_sha l) (b_commits blame)); eexists; reflexivity. }
    destruct Hnone as [r Hr]. rewrite Hrun, Hr. reflexivity.
  - intros i l Hl He.
    destruct (line_of_blame_at blame editorLine i l Inv Keyed Hl He)
      as (c & E & H).
    exists c. split; [|exact H]. rewrite (Hshape _ E). reflexivity.
  - intros Hout. rewrite (Hshape None); [reflexivity|].
    unfold line_of_blame, at_index. fold n.
    destruct (editorLine <? 0)%Z eqn:E.
    + destruct (Z.of_nat n =? editorLine)%Z eqn:E'; [|reflexivity].
      apply Z.eqb_eq in E'. apply Z.ltb_lt in E. lia.
    + apply Z.ltb_ge in E.
      rewrite (proj2 (lookup_ge_None (b_lines blame) (Z.to_nat editorLine)))
        by (fold n; lia).
      destruct (Z.of_nat n =? editorLine)%Z eqn:E'; [|reflexivity].
      apply Z.eqb_eq in E'. lia.
  - intros Hn He. subst editorLine n. rewrite Hrun.
    unfold line_of_blame, at_index.
    destruct (b_lines blame) eqn:El; [|discriminate].
    simpl. eexists. reflexivity.
Qed.

End BlameOfALine.

Lemma getBlameForLine_from_the_cached_blame_witness :
  exists c,
    fst (Async.run BlameLineSample.answer
           (BlameLine.getBlameForLine BlameLineSample.parse tt false true
              BlameLineSample.uri 1 false))
    = Async.Resolved
        (Some (BlameLineSpec.blamed BlameSample.blame c BlameSample.l2))
    /\ Model.c_sha c = Model.l_sha BlameSample.l2
    /\ In BlameSample.l2 (Model.c_lines c)
    /\ Model.l_line BlameSample.l2 = 2.
Proof.
  pose proof (getBlameForLine_from_the_cached_blame BlameLineSample.parse tt
                false BlameLineSample.uri BlameSample.blame 1
                BlameLineSample.answer blame_sample_invariant
                blame_sample_keyed eq_refl) as H.
  cbv zeta in H. destruct H as (_ & H & _).
  apply (H 1 BlameSample.l2 eq_refl). left. reflexivity.
Defined.

(** ** [getBranches]: the cache and its invalidation *)

Section BranchesCache.
Import Service ServiceSpec.
Context {GitBranch GitTag Tracked User RepositoryChange Event : Type}.
Variable parseBranches : string -> string -> list GitBranch.
Variable sortBranches : list GitBranch -> list GitBranch.
Variables Stashes Config Closed : RepositoryChange.
Variable changed : Event -> RepositoryChange -> bool -> bool.

Let St := (Caches GitBranch GitTag Tracked User).
Let getBranches := @Service.getBranches GitBranch GitTag Tracked User
                     parseBranches sortBranches.
Let onAnyRepositoryChanged :=
  @Service.onAnyRepositoryChanged GitBranch GitTag Tracked User
    RepositoryChange Event Stashes Config Closed changed.

Lemma getBranches_miss_stores (s : St) repoPath data options env :
  branchesCache s !! repoPath = None ->
  be_data env = Returns (Some data) ->
  String.length data <> 0 ->
  be_repo env = Some true ->
  sort_ options = false ->
  getBranches true s (Some repoPath) options env
  = (Returns (filtered options (parseBranches data repoPath)),
     with_branches s repoPath (parseBranches data repoPath),
     [for_each_ref__branch repoPath; getRepository repoPath]).
Proof.
  intros Hmiss Hdata Hlen Hrepo Hsort. subst getBranches.
  unfold Service.getBranches, finally_, filtered, with_branches.
  rewrite Hmiss, Hdata, Hrepo, Hsort. cbn [default].
  apply Nat.eqb_neq in Hlen. rewrite Hlen.
  destruct (filter_ options); reflexivity.
Qed.

Lemma getBranches_hit (s : St) repoPath branches options env :
  branchesCache s !! repoPath = Some branches ->
  sort_ options = false ->
  getBranches true s (Some repoPath) options env
  = (Returns (filtered options branches), s, []).
Proof.
  intros Hhit Hsort. subst getBranches.
  unfold Service.getBranches, finally_, filtered.
  rewrite Hhit, Hsort.
  destruct (filter_ options); rewrite ServiceFacts.caches_eta; reflexivity.
Qed.

Lemma getBranches_miss_asks (s : St) repoPath options env :
  branchesCache s !! repoPath = None ->
  exists rest,
    snd (getBranches true s (Some repoPath) options env)
    = for_each_ref__branch repoPath :: rest.
Proof.
  intros Hmiss. subst getBranches. unfold Service.getBranches. rewrite Hmiss.
  destruct (be_data env) as [data|]; [|eexists; reflexivity].
  destruct (finally_ _ _ _ _ _ _) as [r c]. eexists. reflexivity.
Qed.

(** X5. With caching on, a [getBranches] that misses the cache, gets output
    from the tool and finds a repository that supports change events stores
    the parsed, unfiltered list: a later call, whatever its filter, is
    answered from the cache without any call; once the repository reports a
    change that is not stash-only, the next call asks the tool again. *)
Theorem getBranches_cached_until_the_repository_changes :
  forall (s : St) (repoPath data : string)
         (options1 options2 options3 : Options GitBranch)
         (env1 env2 env3 : BranchesEnv) (e : Event),
    branchesCache s !! repoPath = None ->
    be_data env1 = Returns (Some data) ->
    String.length data <> 0 ->
    be_repo env1 = Some true ->
    sort_ options1 = false ->
    sort_ options2 = false ->
    changed e Stashes true = false ->
    let branches := parseBranches data repoPath in
    let '(r1, s1, calls1) := getBranches true s (Some repoPath) options1 env1 in
    let '(r2, s2, calls2) := getBranches true s1 (Some repoPath) options2 env2 in
    let s3 := onAnyRepositoryChanged s2 repoPath e in
    let '(r3, s4, calls3) := getBranches true s3 (Some repoPath) options3 env3 in
    r1 = Returns (filtered options1 branches)
    /\ calls1 = [for_each_ref__branch repoPath; getRepository repoPath]
    /\ branchesCache s1 !! repoPath = Some branches
    /\ r2 = Returns (filtered options2 branches)
    /\ calls2 = []
    /\ s2 = s1
    /\ exists rest, calls3 = for_each_ref__branch repoPath :: rest.
Proof.
  intros s repoPath data options1 options2 options3 env1 env2 env3 e
         Hmiss Hdata Hlen Hrepo Hsort1 Hsort2 Hchanged branches.
  rewrite (getBranches_miss_stores s repoPath data options1 env1
             Hmiss Hdata Hlen Hrepo Hsort1).
  fold branches.
  assert (Hs1 : branchesCache (with_branches s repoPath branches) !! repoPath
                = Some branches) by apply lookup_insert_eq.
  rewrite (getBranches_hit _ repoPath branches options2 env2 Hs1 Hsort2).
  cbv zeta.
  set (s3 := onAnyRepositoryChanged (with_branches s repoPath branches)
               repoPath e).
  assert (Hs3 : branchesCache s3 !! repoPath = None).
  { subst s3 onAnyRepositoryChanged. unfold Service.onAnyRepositoryChanged.
    rewrite Hchanged. apply lookup_delete_eq. }
  destruct (getBranches_miss_asks s3 repoPath options3 env3 Hs3) as [rest Hrest].
  destruct (getBranches true s3 (Some repoPath) options3 env3)
    as [[r3 s4] calls3].
  simpl in Hrest. repeat split; try reflexivity; try assumption.
  exists rest. exact Hrest.
Qed.

(** X6. With caching on, a [getBranches] that misses the cache stores
    nothing when the tool fails (the call then throws) or when no repository
    that supports change events is found: the caches stay as they were. *)
Theorem getBranches_stores_only_what_can_be_invalidated :
  forall (s : St) (repoPath : string) (options : Options GitBranch)
         (env : BranchesEnv),
    branchesCache s !! repoPath = None ->
    (be_data env = Throws -> 
     getBranches true s (Some repoPath) options env
     = (Throws, s, [for_each_ref__branch repoPath]))
    /\ (be_repo env <> Some true ->
        snd (fst (getBranches true s (Some repoPath) options env)) = s).
Proof.
  intros s repoPath options env Hmiss. subst getBranches.
  unfold Service.getBranches. rewrite Hmiss. split.
  - intros ->. reflexivity.
  - intros Hrepo. destruct (be_data env) as [data|]; [|reflexivity].
    assert (Hstore : match be_repo env with
                     | Some supportsChangeEvents => supportsChangeEvents
                     | None => false
                     end = false).
    { destruct (be_repo env) as [[|]|]; congruence. }
    rewrite Hstore.
    match goal with
    | |- context [finally_ ?f ?o false ?a ?c ?r] =>
        pose proof (ServiceFacts.finally_not_held f o a c r) as H;
        destruct (finally_ f o false a c r) as [r0 c0]
    end.
    simpl in H. subst c0. simpl. apply ServiceFacts.caches_eta.
Qed.

End BranchesCache.

Lemma getBranches_cached_until_the_repository_changes_witness :
  fst (fst (Service.getBranches ServiceSample.parseBranches1 id true
              (ServiceSpec.with_branches ServiceSample.no_caches "/repo"
                 ["master"])
              (Some "/repo") ServiceSample.plain BranchesSample.failing))
  = Service.Returns ["master"].
Proof.
  pose proof (getBranches_cached_until_the_repository_changes
                (Tracked := bool) (User := string)
                ServiceSample.parseBranches1 id
                ServiceSample.Stashes ServiceSample.Config ServiceSample.Closed
                ServiceSample.changed ServiceSample.no_caches "/repo" "master"
                ServiceSample.plain ServiceSample.plain ServiceSample.plain
                BranchesSample.answering BranchesSample.failing
                BranchesSample.failing [ServiceSample.Config]
                eq_refl eq_refl ltac:(discriminate) eq_refl eq_refl eq_refl
                eq_refl) as H.
  vm_compute in H. destruct H as (_ & _ & _ & H & _).
  vm_compute. exact H.
Defined.

Lemma getBranches_stores_only_what_can_be_invalidated_witness :
  Service.getBranches ServiceSample.parseBranches1 id true
    ServiceSample.no_caches (Some "/repo") ServiceSample.plain
    BranchesSample.failing
  = (Service.Throws, ServiceSample.no_caches,
     [Service.for_each_ref__branch "/repo"]).
Proof.
  apply (getBranches_stores_only_what_can_be_invalidated
           (Tracked := bool) (User := string)
           ServiceSample.parseBranches1 id ServiceSample.no_caches "/repo"
           ServiceSample.plain BranchesSample.failing eq_refl).
  reflexivity.
Defined.

(** ** [isTracked] and [isTrackedCore] *)

Section TrackedFiles.
Import Async Tracked TrackedSpec.
Variable deletedOrMissingSha : string.
Variables File Git GitLens PRs Vsls : string.
Variable splitPath : string -> option string -> string * string.
Variable normalizePath : string -> string.

Let isTrackedCore := Tracked.isTrackedCore deletedOrMissingSha.
Let isTracked :=
  Tracked.isTracked deletedOrMissingSha File Git GitLens PRs Vsls splitPath
    normalizePath.
Let resolve_target :=
  Tracked.resolve_target File Git GitLens PRs Vsls splitPath normalizePath.

Lemma isTrackedCore_never_rejects fileName repoPath ref
    (answer : forall X, Eff X -> X) :
  exists tracked : bool,
    fst (run answer (isTrackedCore fileName repoPath ref)) = Resolved tracked.
Proof.
  subst isTrackedCore. unfold Tracked.isTrackedCore.
  destruct (Nav.opt_eqb ref deletedOrMissingSha); [exists false; reflexivity|].
  cbn [run].
  destruct (answer _ (ls_files repoPath fileName None)) as [d0|ex0];
    [|exists false; reflexivity].
  destruct (truthy d0); [exists true; reflexivity|].
  destruct ref as [r|]; [|exists false; reflexivity].
  cbn [run].
  destruct (answer _ (ls_files repoPath fileName (Some r))) as [d1|ex1];
    [|exists false; reflexivity].
  destruct (truthy d1); [exists true; reflexivity|].
  cbn [run].
  destruct (answer _ (ls_files repoPath fileName (Some (r ++ "^")%string)))
    as [d2|ex2]; [|exists false; reflexivity].
  exists (truthy d2). reflexivity.
Qed.

(** X7. [isTrackedCore] never rejects: whatever the tool answers, a failure
    included, it resolves to a boolean.  Its calls are an initial part of:
    the file in the working tree, the file at the ref, the file at the parent
    of the ref (the first only when there is no ref, none for the
    deleted-or-missing sha, for which it resolves to false); and it resolves
    to true only if one of these calls listed the file. *)
Theorem isTrackedCore_resolves :
  forall (fileName repoPath : string) (ref : option string)
         (answer : forall X, Eff X -> X),
    let result := run answer (isTrackedCore fileName repoPath ref) in
    exists tracked : bool,
      fst result = Resolved tracked
      /\ (exists k, snd result = firstn k (lookups fileName repoPath ref))
      /\ (ref = Some deletedOrMissingSha -> tracked = false /\ snd result = [])
      /\ (tracked = true ->
          exists ref' data,
            In ref' (looked_up ref)
            /\ answer _ (ls_files repoPath fileName ref') = Ok data
            /\ truthy data = true).
Proof.
  intros fileName repoPath ref answer result. subst result isTrackedCore.
  unfold Tracked.isTrackedCore.
  destruct (Nav.opt_eqb ref deletedOrMissingSha) eqn:Es.
  { exists false. cbn. split; [reflexivity|]. split; [exists 0; reflexivity|].
    split; [auto|discriminate]. }
  assert (Hs : ref <> Some deletedOrMissingSha).
  { intros ->. simpl in Es. rewrite String.eqb_refl in Es. discriminate. }
  cbn [run].
  destruct (answer _ (ls_files repoPath fileName None)) as [d0|ex0] eqn:E0.
  2:{ exists false. cbn. split; [reflexivity|]. split; [exists 1; reflexivity|].
      split; [intros; contradiction|discriminate]. }
  destruct (truthy d0) eqn:T0.
  { exists true. cbn. split; [reflexivity|]. split; [exists 1; reflexivity|].
    split; [intros; contradiction|].
    intros _. exists None, d0. split; [left; reflexivity|auto]. }
  destruct ref as [r|].
  2:{ exists false. cbn. split; [reflexivity|]. split; [exists 1; reflexivity|].
      split; [intros; contradiction|discriminate]. }
  cbn [run].
  destruct (answer _ (ls_files repoPath fileName (Some r))) as [d1|ex1] eqn:E1.
  2:{ exists false. cbn. split; [reflexivity|]. split; [exists 2; reflexivity|].
      split; [intros; contradiction|discriminate]. }
  destruct (truthy d1) eqn:T1.
  { exists true. cbn. split; [reflexivity|]. split; [exists 2; reflexivity|].
    split; [intros; contradiction|].
    intros _. exists (Some r), d1. split; [right; left; reflexivity|auto]. }
  cbn [run].
  destruct (answer _ (ls_files repoPath fileName (Some (r ++ "^")%string)))
    as [d2|ex2] eqn:E2.
  2:{ exists false. cbn. split; [reflexivity|]. split; [exists 3; reflexivity|].
      split; [intros; contradiction|discriminate]. }
  exists (truthy d2). cbn. split; [reflexivity|]. split; [exists 3; reflexivity|].
  split; [intros; contradiction|].
  intros T2. exists (Some (r ++ "^")%string), d2.
  split; [right; right; left; reflexivity|auto].
Qed.

(** X8. [isTracked] always resolves.  Called without [skipCacheUpdate] it
    leaves [_trackedCache] such that the same call, repeated, gives the same
    answer without any call of the tool, whatever the tool would say by then;
    called with [skipCacheUpdate] it leaves the cache as it was. *)
Theorem isTracked_answers_again_from_the_cache :
  forall (cache : gmap string bool) (target : Target) (ref : option string)
         (answer : forall X, Eff X -> X),
    (exists (tracked : bool) (cache' : gmap string bool),
       fst (run answer (isTracked cache target ref false))
       = Resolved (tracked, cache')
       /\ forall (answer' : forall X, Eff X -> X) (skipCacheUpdate : bool),
            run answer' (isTracked cache' target ref skipCacheUpdate)
            = (Resolved (tracked, cache'), []))
    /\ (exists tracked : bool,
          fst (run answer (isTracked cache target ref true))
          = Resolved (tracked, cache)).
Proof.
  intros cache target ref answer. subst isTracked. unfold Tracked.isTracked.
  destruct (Nav.opt_eqb ref deletedOrMissingSha).
  { split; [exists false, cache|exists false]; cbn; auto. }
  destruct (Tracked.resolve_target File Git GitLens PRs Vsls splitPath
              normalizePath target ref)
    as [[[[fileName repoPath] ref'] cacheKey]|].
  2:{ split; [exists false, cache|exists false]; cbn; auto. }
  destruct (cache !! cacheKey) as [tracked|] eqn:Hc.
  { split; [exists tracked, cache|exists tracked]; cbn; [|reflexivity].
    split; [reflexivity|]. intros answer' skip. rewrite Hc. reflexivity. }
  destruct (isTrackedCore_never_rejects fileName repoPath ref' answer)
    as (tracked & Hr).
  subst isTrackedCore.
  split.
  - exists tracked, (<[cacheKey := tracked]> cache). split.
    + rewrite (AsyncFacts.run_bind_resolved answer _ _ tracked Hr). reflexivity.
    + intros answer' skip. rewrite lookup_insert_eq. reflexivity.
  - exists tracked.
    rewrite (AsyncFacts.run_bind_resolved answer _ _ tracked Hr). reflexivity.
Qed.

End TrackedFiles.

Lemma isTrackedCore_resolves_witness :
  exists ref' data,
    In ref' (TrackedSpec.looked_up None)
    /\ TrackedSample.listed _ (Tracked.ls_files "/repo" "a.txt" ref') = Async.Ok data
    /\ Tracked.truthy data = true.
Proof.
  destruct (isTrackedCore_resolves TrackedSample.deletedOrMissingSha
              "a.txt" "/repo" None TrackedSample.listed)
    as (tracked & Hr & _ & _ & Ht).
  apply Ht. vm_compute in Hr. inversion Hr. reflexivity.
Defined.

Section TrackedInvalidation.
Import Async Service Tracked.
Context {GitBranch GitTag User RepositoryChange Event : Type}.
Variables Stashes Config Closed : RepositoryChange.
Variable changed : Event -> RepositoryChange -> bool -> bool.
Variable deletedOrMissingSha : string.
Variables File Git GitLens PRs Vsls : string.
Variable splitPath : string -> option string -> string * string.
Variable normalizePath : string -> string.

Let isTracked :=
  Tracked.isTracked deletedOrMissingSha File Git GitLens PRs Vsls splitPath
    normalizePath.
Let resolve_target :=
  Tracked.resolve_target File Git GitLens PRs Vsls splitPath normalizePath.
Let onAnyRepositoryChanged :=
  @Service.onAnyRepositoryChanged GitBranch GitTag bool User
    RepositoryChange Event Stashes Config Closed changed.

(** X9. A change of any repository that is not stash-only empties
    [_trackedCache] altogether, so that the next [isTracked] of any trackable
    file, of whatever repository, asks the tool again; the cached user of the
    repository is dropped only when its configuration changed, and the
    cached users of other repositories stay. *)
Theorem repository_change_forgets_tracked_files :
  forall (s : Caches GitBranch GitTag bool User) (repo_path : string)
         (e : Event) (target : Target) (ref : option string)
         (skipCacheUpdate : bool) (answer : forall X, Eff X -> X)
         (fileName repoPath cacheKey : string) (ref' : option string),
    changed e Stashes true = false ->
    resolve_target target ref = Some (fileName, repoPath, ref', cacheKey) ->
    ref <> Some deletedOrMissingSha ->
    ref' <> Some deletedOrMissingSha ->
    let s' := onAnyRepositoryChanged s repo_path e in
    trackedCache s' = ∅
    /\ (exists rest,
          snd (run answer
                 (isTracked (trackedCache s') target ref skipCacheUpdate))
          = awaited (ls_files repoPath fileName None) :: rest)
    /\ (forall other, other <> repo_path ->
          userMapCache s' !! other = userMapCache s !! other)
    /\ userMapCache s' !! repo_path
       = if changed e Config false then None else userMapCache s !! repo_path.
Proof.
  intros s repo_path e target ref skip answer fileName repoPath cacheKey ref'
         Hchanged Htarget Href Href' s'.
  assert (Hs : forall r, r <> Some deletedOrMissingSha ->
                 Nav.opt_eqb r deletedOrMissingSha = false).
  { intros [r|] Hr; [|reflexivity]. simpl.
    apply String.eqb_neq. congruence. }
  assert (Ht : trackedCache s' = ∅).
  { subst s' onAnyRepositoryChanged. unfold Service.onAnyRepositoryChanged.
    rewrite Hchanged. reflexivity. }
  split; [exact Ht|]. split; [|split].
  - rewrite Ht. subst isTracked. unfold Tracked.isTracked.
    rewrite (Hs ref Href). fold resolve_target. rewrite Htarget.
    rewrite lookup_empty. rewrite AsyncFacts.run_bind.
    unfold Tracked.isTrackedCore. rewrite (Hs ref' Href'). cbn [run].
    destruct (run answer _) as [[tracked|ex] t]; cbn.
    + destruct skip; eexists; reflexivity.
    + eexists; reflexivity.
  - intros other Hother. subst s' onAnyRepositoryChanged.
    unfold Service.onAnyRepositoryChanged. rewrite Hchanged. simpl.
    destruct (changed e Config false); [|reflexivity].
    apply lookup_delete_ne. congruence.
  - subst s' onAnyRepositoryChanged.
    unfold Service.onAnyRepositoryChanged. rewrite Hchanged. simpl.
    destruct (changed e Config false); [|reflexivity].
    apply lookup_delete_eq.
Qed.

End TrackedInvalidation.

Lemma repository_change_forgets_tracked_files_witness :
  Service.trackedCache
    (Service.onAnyRepositoryChanged ServiceSample.Stashes ServiceSample.Config
       ServiceSample.Closed ServiceSample.changed ServiceSample.sample
       "/other" [ServiceSample.Tags])
  = ∅.
Proof.
  apply (repository_change_forgets_tracked_files
           ServiceSample.Stashes ServiceSample.Config ServiceSample.Closed
           ServiceSample.changed TrackedSample.deletedOrMissingSha
           "file" "git" "gitlens" "pr" "vsls"
           TrackedSample.splitPath TrackedSample.normalizePath
           ServiceSample.sample "/other" [ServiceSample.Tags]
           TrackedSample.target None false TrackedSample.listed
           "a.txt" "/repo" "a.txt" None eq_refl eq_refl);
    discriminate.
Defined.

(** ** Awaited calls *)

Module AwaitFacts.
Import Async.

Lemma run_await {Eff A B} (answer : forall X, Eff X -> X)
    (e : Eff (Reply A)) (f : A -> Prog Eff B) a :
  answer _ e = Ok a ->
  run answer (bind (await e) f)
  = let '(r, t) := run answer (f a) in (r, awaited e :: t).
Proof. intros H. cbn [bind await run]. rewrite H. reflexivity. Qed.

Lemma run_await_rejected {Eff A B} (answer : forall X, Eff X -> X)
    (e : Eff (Reply A)) (f : A -> Prog Eff B) ex :
  answer _ e = Err ex ->
  run answer (bind (await e) f) = (Rejected ex, [awaited e]).
Proof. intros H. cbn [bind await run]. rewrite H. reflexivity. Qed.

Lemma fst_run_bind {Eff A B} (answer : forall X, Eff X -> X)
    (p : Prog Eff A) (f : A -> Prog Eff B) :
  fst (run answer (bind p f))
  = match fst (run answer p) with
    | Resolved a => fst (run answer (f a))
    | Rejected ex => Rejected ex
    end.
Proof.
  rewrite AsyncFacts.run_bind.
  destruct (run answer p) as [[a|ex] t]; cbn [fst]; [|reflexivity].
  destruct (run answer (f a)); reflexivity.
Qed.

End AwaitFacts.

(** ** [getCurrentUser] *)

Module UsersFacts.
Import Async Regex RegexFacts Users UsersSpec.

Lemma exec_bol_len r : forall s bol s0 s' c,
  RegexSpec.consumes r = true ->
  exec_bol r bol s = Some (s0, s', c) -> length s' < length s.
Proof.
  induction s as [|a s IH]; intros bol s0 s' c Hc H; simpl in H.
  - destruct bol; [|discriminate].
    destruct (match_here r []) as [[s1 c1]|] eqn:E; [|discriminate].
    inversion H; subst. apply match_here_len in E; auto.
  - destruct (if bol then match_here r (a :: s) else None) as [[s1 c1]|] eqn:E.
    + inversion H; subst. destruct bol; [|discriminate].
      apply match_here_len in E; auto.
    + apply IH in H; auto. simpl. lia.
Qed.

(** The loop over the matches ends. *)
Lemma user_config_loop_total : forall fuel bol rest user,
  length rest < fuel ->
  exists user', user_config_loop fuel bol rest user = Some user'.
Proof.
  induction fuel as [|fuel IH]; intros bol rest user Hlt; [lia|].
  simpl. destruct (exec_bol userConfigRegex bol rest) as [[[s0 s'] c]|] eqn:E.
  - apply IH. apply exec_bol_len in E; [lia|reflexivity].
  - eauto.
Qed.

Lemma parse_user_total data : exists user, parse_user data = Some user.
Proof. apply user_config_loop_total. lia. Qed.

(** A greedy run takes all of a text of one line. *)
Lemma greedy_star_all {R} (k : list ascii -> option R) v tail x :
  (forall a, In a v -> dot a = true) ->
  k tail = Some x ->
  match tail with
  | [] => True
  | a :: _ => dot a = false
  end ->
  greedy_star dot k (v ++ tail) = Some x.
Proof.
  intros Hv Hk Htail. induction v as [|a v IH]; cbn [app greedy_star].
  - destruct tail as [|b tail]; [exact Hk|].
    cbn [greedy_star]. rewrite Htail. exact Hk.
  - rewrite (Hv a) by (left; reflexivity).
    rewrite IH; [reflexivity|]. intros b Hb. apply Hv. right. exact Hb.
Qed.

Lemma following_head es :
  match following es with
  | [] => True
  | a :: _ => dot a = false
  end.
Proof. destruct es; simpl; auto. Qed.

Lemma eol_following es (c : caps) :
  m eol (following es) c (fun s' c' => Some (s', c')) = Some (following es, c).
Proof. destruct es; reflexivity. Qed.

Lemma strip_prefix_same l s : strip_prefix l (l ++ s) = Some s.
Proof.
  induction l as [|a l IH]; simpl; [reflexivity|].
  rewrite Ascii.eqb_refl. exact IH.
Qed.

Lemma m_lit l s c k : m (Lit l) (l ++ s) c k = k s c.
Proof. simpl. rewrite strip_prefix_same. reflexivity. Qed.

Lemma m_seq r1 r2 s c k :
  m (Seq r1 r2) s c k = m r1 s c (fun s' c' => m r2 s' c' k).
Proof. reflexivity. Qed.

Lemma m_grp n r s c k :
  m (Grp n r) s c k = m r s c (fun s' c' => k s' ((n, matched s s') :: c')).
Proof. reflexivity. Qed.

Lemma m_alt r1 r2 s c k :
  m (Alt r1 r2) s c k
  = match m r1 s c k with
    | Some x => Some x
    | None => m r2 s c k
    end.
Proof. reflexivity. Qed.

(** The value of a line and the end of the line. *)
Lemma match_value v es c :
  (forall a, In a v -> dot a = true) ->
  m (Seq (Grp 2 (Opt (PlusGreedy dot))) eol) (v ++ following es) c
    (fun s' c' => Some (s', c'))
  = Some (following es, (2, v) :: c).
Proof.
  intros Hv. rewrite m_seq, m_grp.
  destruct v as [|a v].
  - cbn [app]. change (m (Opt (PlusGreedy dot)) ?s ?c ?k)
      with (match m (PlusGreedy dot) s c k with
            | Some x => Some x
            | None => k s c
            end).
    assert (E : matched (following es) (following es) = [])
      by apply (matched_app [] (following es)).
    cbv beta. rewrite E, eol_following.
    pose proof (following_head es) as Hh.
    cbn [m]. destruct (following es) as [|b f]; [reflexivity|].
    rewrite Hh. reflexivity.
  - change (m (Opt (PlusGreedy dot)) ?s ?c ?k)
      with (match m (PlusGreedy dot) s c k with
            | Some x => Some x
            | None => k s c
            end).
    cbn [m app]. rewrite (Hv a) by (left; reflexivity).
    rewrite (greedy_star_all _ v (following es)
               (following es, (2, a :: v) :: c)).
    + reflexivity.
    + intros b Hb. apply Hv. right. exact Hb.
    + change (a :: v ++ following es) with ((a :: v) ++ following es).
      rewrite matched_app. apply eol_following.
    + apply following_head.
Qed.

(** A line of the output is matched whole, with its key and its value. *)
Lemma match_config_line e es :
  (forall a, In a (snd e) -> dot a = true) ->
  match_here userConfigRegex (config_line e ++ following es)
  = Some (following es,
          [(2, snd e); (1, list_ascii_of_string (key_text (fst e)))]).
Proof.
  intros Hv. destruct e as [key v]. cbn [fst snd] in *.
  unfold match_here, userConfigRegex, config_line. cbn [fst snd].
  rewrite <- !app_assoc.
  rewrite m_seq, m_lit. cbv beta.
  rewrite m_seq, m_grp, m_alt.
  destruct key; cbn [key_text].
  - rewrite m_lit. cbv beta. rewrite matched_app.
    rewrite m_seq, m_lit. cbv beta.
    rewrite match_value by exact Hv. reflexivity.
  - assert (E : forall s c k,
               m (Lit (list_ascii_of_string "name"))
                 (list_ascii_of_string "email" ++ s) c k = None)
      by reflexivity.
    rewrite E. rewrite m_lit. cbv beta. rewrite matched_app.
    rewrite m_seq, m_lit. cbv beta.
    rewrite match_value by exact Hv. reflexivity.
Qed.

Lemma config_line_last e a :
  (forall b, In b (snd e) -> dot b = true) ->
  last (config_line e) = Some a -> is_line_terminator a = false.
Proof.
  intros Hv Hlast. apply last_Some_elem_of in Hlast.
  apply list_elem_of_In in Hlast. unfold config_line in Hlast.
  rewrite !in_app_iff in Hlast.
  destruct Hlast as [H|[H|[H|H]]].
  - simpl in H. repeat (destruct H as [<-|H]; [reflexivity|]). destruct H.
  - destruct (fst e); simpl in H;
      repeat (destruct H as [<-|H]; [reflexivity|]); destruct H.
  - simpl in H. destruct H as [<-|[]]. reflexivity.
  - apply Hv in H. unfold dot in H. apply negb_true_iff in H. exact H.
Qed.

Lemma group_1 (k v : list ascii) :
  Search.group 1 [(2, v); (1, k)] = string_of_list_ascii k.
Proof. reflexivity. Qed.

Lemma group_2 (k v : list ascii) :
  Search.group 2 [(2, v); (1, k)] = string_of_list_ascii v.
Proof. reflexivity. Qed.

(** [exec] at the beginning of a line of the output, and at the line feed
    before it. *)
Lemma exec_bol_line e es :
  (forall b, In b (snd e) -> dot b = true) ->
  exec_bol userConfigRegex true (config_line e ++ following es)
  = Some (config_line e ++ following es, following es,
          [(2, snd e); (1, list_ascii_of_string (key_text (fst e)))]).
Proof.
  intros Hv.
  destruct (config_line e ++ following es) eqn:El;
    cbn [exec_bol]; rewrite <- El, (match_config_line e es Hv); reflexivity.
Qed.

Lemma exec_bol_next_line e es :
  (forall b, In b (snd e) -> dot b = true) ->
  exec_bol userConfigRegex false (nl ++ config_line e ++ following es)
  = Some (config_line e ++ following es, following es,
          [(2, snd e); (1, list_ascii_of_string (key_text (fst e)))]).
Proof.
  intros Hv. cbn [nl app exec_bol].
  change (is_line_terminator (ascii_of_nat 10)) with true.
  apply exec_bol_line, Hv.
Qed.

Lemma bol_after_line bol e es :
  (forall b, In b (snd e) -> dot b = true) ->
  bol_after bol (config_line e ++ following es) (following es) = false.
Proof.
  intros Hv. unfold bol_after. rewrite matched_app.
  destruct (last (config_line e)) as [a|] eqn:El.
  - apply (config_line_last e a Hv El).
  - apply last_None in El. unfold config_line in El.
    apply (f_equal (@length ascii)) in El.
    rewrite !length_app in El. simpl in El. lia.
Qed.

Lemma user_config_loop_following : forall es fuel user,
  one_line es -> length es < fuel ->
  user_config_loop fuel false (following es) user
  = Some (fold_left assign es user).
Proof.
  induction es as [|e es IH]; intros fuel user Hone Hlt.
  - destruct fuel; [lia|]. reflexivity.
  - destruct fuel as [|fuel]; [simpl in Hlt; lia|].
    assert (Hv : forall b, In b (snd e) -> dot b = true)
      by (intros b Hb; apply (Hone e); [left; reflexivity|exact Hb]).
    assert (Hes : one_line es)
      by (intros e' He'; apply Hone; right; exact He').
    cbn [following user_config_loop].
    rewrite (exec_bol_next_line e es Hv), group_1, group_2,
      string_of_list_ascii_of_string, (bol_after_line false e es Hv).
    cbn [fold_left]. apply IH; [exact Hes|simpl in Hlt; lia].
Qed.

Lemma following_length es : length es <= length (following es).
Proof.
  induction es as [|e es IH]; simpl; [lia|].
  rewrite length_app. lia.
Qed.

(** The loop reads the lines of the output in their order. *)
Lemma parse_user_config_output es :
  one_line es ->
  parse_user (string_of_list_ascii (config_output es))
  = Some (fold_left assign es blank).
Proof.
  intros Hone. unfold parse_user.
  rewrite list_ascii_of_string_of_list_ascii.
  destruct es as [|e es]; [reflexivity|].
  assert (Hv : forall b, In b (snd e) -> dot b = true)
    by (intros b Hb; apply (Hone e); [left; reflexivity|exact Hb]).
  assert (Hes : one_line es)
    by (intros e' He'; apply Hone; right; exact He').
  cbn [config_output user_config_loop].
  rewrite (exec_bol_line e es Hv), group_1, group_2,
    string_of_list_ascii_of_string, (bol_after_line true e es Hv).
  cbn [fold_left]. apply user_config_loop_following; [exact Hes|].
  rewrite length_app. pose proof (following_length es).
  unfold config_line. rewrite !length_app. simpl. lia.
Qed.

End UsersFacts.

(** X10. On a repository not yet in [_userMapCache] whose configuration
    prints lines [user.name VALUE] and [user.email VALUE] (values of one
    line each), [getCurrentUser] reads them in their order, a later line
    replacing an earlier one of the same key; it asks the mailmap once for
    [NAME <EMAIL>]; when the mailmap gives nothing, or that same text, the
    user read is the result, and it is what the cache keeps. *)
Theorem getCurrentUser_reads_the_configuration :
  forall (cache : gmap string (option Users.User)) (repoPath : string)
         (es : list (UsersSpec.Key * list ascii))
         (mappedAuthor : option string)
         (answer : forall X, Users.Eff X -> X),
    cache !! repoPath = None ->
    es <> [] ->
    UsersSpec.one_line es ->
    let data := string_of_list_ascii (UsersSpec.config_output es) in
    let user := fold_left UsersSpec.assign es UsersSpec.blank in
    answer _ (Users.config__get_regex "user.(name|email)" repoPath true)
    = Async.Ok (Some data) ->
    answer _ (Users.check_mailmap repoPath (Users.author_of user))
    = Async.Ok mappedAuthor ->
    mappedAuthor = None \/ mappedAuthor = Some ""
    \/ mappedAuthor = Some (Users.author_of user) ->
    Users.parse_user data = Some user
    /\ Async.run answer (Users.getCurrentUser cache repoPath)
       = (Async.Resolved (Some user, <[repoPath := Some user]> cache),
          [Async.awaited
             (Users.config__get_regex "user.(name|email)" repoPath true);
           Async.awaited
             (Users.check_mailmap repoPath (Users.author_of user))]).
Proof.
  intros cache repoPath es mappedAuthor answer Hmiss Hne Hone data user
         Hconfig Hmailmap Hsame.
  pose proof (UsersFacts.parse_user_config_output es Hone) as Hparse.
  fold data user in Hparse. split; [exact Hparse|].
  assert (Hfalsy : Users.falsy (Some data) = false).
  { unfold Users.falsy. apply Nat.eqb_neq. subst data.
    destruct es as [|e es]; [contradiction|].
    intros E.
    assert (L : String.length (string_of_list_ascii
                                 (UsersSpec.config_output (e :: es)))
                = length (UsersSpec.config_output (e :: es))).
    { generalize (UsersSpec.config_output (e :: es)).
      induction l; simpl; auto. }
    rewrite L in E. cbn [UsersSpec.config_output] in E.
    unfold UsersSpec.config_line in E. rewrite !length_app in E.
    simpl in E. lia. }
  assert (Hmapped : Users.mapped user mappedAuthor = user).
  { unfold Users.mapped. destruct Hsame as [-> | [-> | ->]]; try reflexivity.
    rewrite String.eqb_refl. rewrite andb_false_r. reflexivity. }
  unfold Users.getCurrentUser. rewrite Hmiss.
  rewrite (AwaitFacts.run_await answer _ _ _ Hconfig).
  rewrite Hfalsy. cbn [default]. change (id data) with data.
  rewrite Hparse. cbn [default]. change (id user) with user.
  rewrite (AwaitFacts.run_await answer _ _ _ Hmailmap).
  rewrite Hmapped. reflexivity.
Qed.

Lemma getCurrentUser_reads_the_configuration_witness :
  fst (Async.run UsersSample.configured (Users.getCurrentUser ∅ "/repo"))
  = Async.Resolved
      (Some UsersSample.ann, <["/repo" := Some UsersSample.ann]> ∅).
Proof.
  pose proof (getCurrentUser_reads_the_configuration ∅ "/repo"
                [(UsersSpec.Name, list_ascii_of_string "Ann");
                 (UsersSpec.Email, list_ascii_of_string "ann@example.org")]
                (Some (Users.author_of UsersSample.ann))
                UsersSample.configured) as H.
  destruct H as [_ H].
  - apply lookup_empty.
  - discriminate.
  - intros e [<-|[<-|[]]] a Ha; simpl in Ha;
      repeat (destruct Ha as [<-|Ha]; [reflexivity|]); destruct Ha.
  - reflexivity.
  - reflexivity.
  - right. right. reflexivity.
  - rewrite H. reflexivity.
Defined.

(** X11. Whatever [getCurrentUser] resolves to, the same call repeated on
    the cache it left resolves to the same without asking the tool.  In
    particular, when the configuration has no user data the repository is
    marked in [_userMapCache] and later calls resolve to undefined at
    once. *)
Theorem getCurrentUser_asks_once :
  forall (cache cache' : gmap string (option Users.User)) (repoPath : string)
         (result : option Users.User)
         (answer : forall X, Users.Eff X -> X),
    fst (Async.run answer (Users.getCurrentUser cache repoPath))
    = Async.Resolved (result, cache') ->
    (forall answer' : forall X, Users.Eff X -> X,
       Async.run answer' (Users.getCurrentUser cache' repoPath)
       = (Async.Resolved (result, cache'), []))
    /\ (cache !! repoPath = None ->
        (exists data,
           answer _ (Users.config__get_regex "user.(name|email)" repoPath true)
           = Async.Ok data /\ Users.falsy data = true) ->
        result = None /\ cache' = <[repoPath := None]> cache).
Proof.
  intros cache cache' repoPath result answer Hrun.
  unfold Users.getCurrentUser in Hrun.
  destruct (cache !! repoPath) as [[user|]|] eqn:Hc.
  - cbn in Hrun. inversion Hrun; subst. split; [|discriminate].
    intros answer'. unfold Users.getCurrentUser. rewrite Hc. reflexivity.
  - cbn in Hrun. inversion Hrun; subst. split; [|discriminate].
    intros answer'. unfold Users.getCurrentUser. rewrite Hc. reflexivity.
  - destruct (answer _ (Users.config__get_regex "user.(name|email)" repoPath true))
      as [data|ex] eqn:Hconfig.
    2:{ rewrite (AwaitFacts.run_await_rejected answer _ _ _ Hconfig) in Hrun.
        discriminate. }
    rewrite (AwaitFacts.run_await answer _ _ _ Hconfig) in Hrun.
    destruct (Users.falsy data) eqn:Hfalsy.
    + cbn in Hrun. inversion Hrun; subst. split.
      * intros answer'. unfold Users.getCurrentUser.
        rewrite lookup_insert_eq. reflexivity.
      * auto.
    + match type of Hrun with
      | context [Users.check_mailmap ?r ?a] =>
          destruct (answer _ (Users.check_mailmap r a)) as [mapped|ex] eqn:Hm
      end.
      2:{ rewrite (AwaitFacts.run_await_rejected answer _ _ _ Hm) in Hrun.
          discriminate. }
      rewrite (AwaitFacts.run_await answer _ _ _ Hm) in Hrun.
      cbn in Hrun. inversion Hrun; subst. split.
      * intros answer'. unfold Users.getCurrentUser.
        rewrite lookup_insert_eq. reflexivity.
      * intros _ (data' & E & F). congruence.
Qed.

Lemma getCurrentUser_asks_once_witness :
  Async.run UsersSample.failing
    (Users.getCurrentUser (<["/repo" := Some UsersSample.ann]> ∅) "/repo")
  = (Async.Resolved
       (Some UsersSample.ann, <["/repo" := Some UsersSample.ann]> ∅), []).
Proof.
  apply (getCurrentUser_asks_once ∅ _ "/repo" (Some UsersSample.ann)
           UsersSample.configured).
  vm_compute. reflexivity.
Defined.

(** ** The document cache with caching off, and for untracked files *)

Section DocumentCacheOff.
Import Model Log DocCache DocSpec DocSpec2.
Context {GitDiff : Type}.
Variable sha1 : string -> string.
Variable normalizePath : string -> string.
Variable getEncoding : Nav.GitUri -> string.
Variable maxListItems : option nat.
Variable fileHistoryFollowsRenames : bool.

Let St := (State GitDiff).
Let call :=
  @DocCache.call GitDiff sha1 normalizePath getEncoding maxListItems
    fileHistoryFollowsRenames.
Let calls :=
  @DocCache.calls GitDiff sha1 normalizePath getEncoding maxListItems
    fileHistoryFollowsRenames.
Let key_of := DocCache.key_of sha1 maxListItems fileHistoryFollowsRenames.
Let core_of := DocCache.core_of getEncoding maxListItems fileHistoryFollowsRenames.

Lemma miss_uncached cacheable core key (st : St) :
  exists st',
    miss false cacheable core key st
    = (ReturnsPromise (length (promises st)), st')
    /\ promises st' = promises st ++ [Pending]
    /\ length (tasks st') = S (length (tasks st))
    /\ (docState st = None -> docState st' = None).
Proof.
  unfold miss, start_core, state_add, set_docState. cbn [andb].
  destruct st as [[m|] b ps ts sp], cacheable;
    cbn [docState blameFailure promises tasks spawned];
    eexists; (split; [reflexivity|]);
    cbn [docState promises tasks]; rewrite length_app; simpl;
    (split; [reflexivity|]); (split; [lia|]); auto; discriminate.
Qed.

Lemma call_uncached req (st : St) :
  returns normalizePath req ->
  exists st',
    call false req st = (ReturnsPromise (length (promises st)), st')
    /\ promises st' = promises st ++ [Pending]
    /\ length (tasks st') = S (length (tasks st))
    /\ (docState st = None -> docState st' = None).
Proof.
  intros Hret. subst call.
  destruct req as [uri|uri contents|uri ref1 ref2 original|rp fileName options];
    cbn [DocCache.call].
  - apply miss_uncached.
  - apply miss_uncached.
  - apply miss_uncached.
  - unfold getLogForFile.
    assert (E : match rp with
                | Some rp0 => String.eqb rp0 (normalizePath fileName)
                | None => false
                end = false).
    { destruct rp; [exact Hret|reflexivity]. }
    rewrite E. cbn [andb]. apply miss_uncached.
Qed.

(** X12. With caching off, the four document methods never answer from the
    document state: [n] calls of one request in a row return [n] new
    promises, each with a [...Core] call of its own; and a document without
    state still has none afterwards. *)
Theorem calls_without_caching_do_not_coalesce :
  forall (req : Request) (n : nat) (st : St),
    returns normalizePath req ->
    exists st',
      calls false req n st
      = (map (fun i => ReturnsPromise (length (promises st) + i)) (seq 0 n), st')
      /\ length (promises st') = length (promises st) + n
      /\ length (tasks st') = length (tasks st) + n
      /\ (docState st = None -> docState st' = None).
Proof.
  intros req n. induction n as [|n IH]; intros st Hret.
  - exists st. simpl. repeat split; auto; lia.
  - destruct (call_uncached req st Hret) as (st1 & E1 & Hp1 & Ht1 & Hd1).
    destruct (IH st1 Hret) as (st2 & E2 & Hp2 & Ht2 & Hd2).
    exists st2. subst calls call. cbn [DocCache.calls].
    rewrite E1, E2. rewrite Hp1, length_app in *. simpl in *.
    split.
    + f_equal. cbn [seq map]. f_equal.
      * f_equal. lia.
      * rewrite <- seq_shift, map_map. apply map_ext. intros i.
        f_equal. lia.
    + repeat split; try lia. auto.
Qed.

End DocumentCacheOff.

Lemma calls_without_caching_do_not_coalesce_witness :
  fst (DocSample.calls false (DocSample.file_log DocSample.plain) 2
         DocCache.initial)
  = [DocCache.ReturnsPromise 1; DocCache.ReturnsPromise 2].
Proof.
  destruct (calls_without_caching_do_not_coalesce
              DocSample.sha1 DocSample.normalizePath DocSample.getEncoding
              DocSample.maxListItems DocSample.fileHistoryFollowsRenames
              (DocSample.file_log DocSample.plain) 2
              (DocCache.initial (GitDiff := string)) eq_refl)
    as (st' & E & _).
  unfold DocSample.calls. rewrite E. reflexivity.
Defined.

Section UntrackedFile.
Import Model Log DocCache DocSpec DocSpec2.
Context {GitDiff : Type}.
Variable sha1 : string -> string.
Variable normalizePath : string -> string.
Variable getEncoding : Nav.GitUri -> string.
Variable maxListItems : option nat.
Variable fileHistoryFollowsRenames : bool.

Let St := (State GitDiff).
Let call :=
  @DocCache.call GitDiff sha1 normalizePath getEncoding maxListItems
    fileHistoryFollowsRenames.
Let key_of := DocCache.key_of sha1 maxListItems fileHistoryFollowsRenames.
Let core_of := DocCache.core_of getEncoding maxListItems fileHistoryFollowsRenames.

(** X13. With caching on, when [getBlameForFile], [getBlameForFileContents]
    or [getLogForFile] (without a range) misses the cache and [isTracked]
    then answers false, the promise resolves to undefined and the git command
    of the [...Core] call ([Git.blame], [Git.blame__contents],
    [Git.log__file]) is not run; nothing is recorded as a failure (no error
    text, no blame failure), and the entry stays: the same request afterwards
    is answered with that resolved promise and starts no [...Core] call, so
    that [isTracked] is not asked again. *)
Theorem untracked_file_is_answered_from_the_cache :
  forall (req : Request) (st : St),
    wf st ->
    cached_request normalizePath req ->
    asks_tracked req ->
    state_get st (key_of req) = None ->
    whole_log_absent maxListItems fileHistoryFollowsRenames req st ->
    let p := length (promises st) in
    let st1 := snd (call true req st) in
    let st2 := core_tracked p false st1 in
    fst (call true req st) = ReturnsPromise p
    /\ promises st2 !! p = Some (Fulfilled None)
    /\ spawned st2 = spawned st
    /\ blameFailure st2 = blameFailure st
    /\ state_get st2 (key_of req)
       = Some {| item := p; errorMessage := None |}
    /\ tasks st2 = tasks st
    /\ call true req st2 = (ReturnsPromise p, st2).
Proof.
  intros req st Hwf Hreq Hasks Hget Hwhole p st1 st2.
  pose proof (DocFacts.call_miss sha1 normalizePath getEncoding maxListItems
                fileHistoryFollowsRenames req st Hreq Hget Hwhole) as Hcall.
  fold call in Hcall.
  assert (Hst1 : st1 = after_miss (core_of req) (key_of req) st)
    by (subst st1; rewrite Hcall; reflexivity).
  assert (Hdirect : match core_of req with
                    | DiffCore _ _ _ _ _ _ => true
                    | _ => false
                    end = false).
  { subst core_of. destruct req; try reflexivity. destruct Hasks. }
  set (t := {| t_promise := p; t_key := key_of req; t_core := core_of req;
               t_stage := AwaitTracked |}).
  assert (Htasks : tasks st1 = tasks st ++ [t]).
  { rewrite Hst1. unfold after_miss. cbn [tasks]. rewrite Hdirect. reflexivity. }
  assert (Hfind : find_task p (tasks st1) = Some t).
  { rewrite Htasks. apply DocFacts.find_task_new; [|reflexivity].
    apply (DocFacts.wf_fresh st Hwf). }
  assert (Hst2 : st2 = finish p None st1).
  { subst st2. unfold core_tracked. rewrite Hfind. reflexivity. }
  assert (Hentry : state_get st2 (key_of req)
                   = Some {| item := p; errorMessage := None |}).
  { rewrite Hst2. unfold state_get, finish. cbn [docState].
    rewrite Hst1. apply (DocFacts.after_miss_get (core_of req) (key_of req) st). }
  split; [rewrite Hcall; reflexivity|].
  split.
  { rewrite Hst2. unfold finish. cbn [promises].
    apply list_lookup_insert_eq. rewrite Hst1. unfold after_miss.
    cbn [promises]. rewrite length_app. simpl. lia. }
  split.
  { rewrite Hst2, Hst1. unfold finish, after_miss. cbn [spawned].
    rewrite Hdirect. reflexivity. }
  split; [rewrite Hst2, Hst1; reflexivity|].
  split; [exact Hentry|].
  split.
  { rewrite Hst2. unfold finish. cbn [tasks]. rewrite Htasks.
    unfold remove_task. rewrite List.filter_app. cbn [List.filter t_promise t].
    rewrite Nat.eqb_refl. cbn [negb]. rewrite app_nil_r.
    apply BlameFacts.filter_all. intros t0 Ht0.
    apply negb_true_iff, Nat.eqb_neq. apply (DocFacts.wf_fresh st Hwf t0 Ht0). }
  apply (DocFacts.call_hit sha1 normalizePath getEncoding maxListItems
           fileHistoryFollowsRenames req st2 _ Hreq Hentry).
Qed.

End UntrackedFile.

Lemma untracked_file_is_answered_from_the_cache_witness :
  DocSample.call true (DocCache.ReqBlame DocSample.uri)
    (DocCache.core_tracked 1 false
       (snd (DocSample.call true (DocCache.ReqBlame DocSample.uri)
               DocCache.initial)))
  = (DocCache.ReturnsPromise 1,
     DocCache.core_tracked 1 false
       (snd (DocSample.call true (DocCache.ReqBlame DocSample.uri)
               DocCache.initial))).
Proof.
  apply (untracked_file_is_answered_from_the_cache
           DocSample.sha1 DocSample.normalizePath DocSample.getEncoding
           DocSample.maxListItems DocSample.fileHistoryFollowsRenames
           (DocCache.ReqBlame DocSample.uri)
           (DocCache.initial (GitDiff := string))
           (DocFacts.wf_initial (GitDiff := string)) I I eq_refl I).
Defined.

(** ** The copy of a cached log from a commit on *)

Module LogCopyFacts.
Import Model Log DocCache DocSpec2 JsMapFacts.

Lemma copy_fold_counting ref limit all : forall es i authors kept,
  snd (fold_left (copy_step ref limit all) es (false, i, authors, kept))
  = kept ++ upto limit i es.
Proof.
  induction es as [|e es IH]; intros i authors kept.
  - simpl. unfold upto. destruct limit; [rewrite firstn_nil|];
      rewrite app_nil_r; reflexivity.
  - cbn [fold_left]. unfold copy_step at 2. cbn [andb].
    destruct limit as [n|].
    + destruct (Nat.ltb n (S i)) eqn:E.
      * rewrite IH. unfold upto. apply Nat.ltb_lt in E.
        replace (n - S i) with 0 by lia. replace (n - i) with 0 by lia.
        reflexivity.
      * rewrite IH. unfold upto. apply Nat.ltb_ge in E.
        replace (n - i) with (S (n - S i)) by lia.
        cbn [firstn]. rewrite <- app_assoc. reflexivity.
    + rewrite IH. unfold upto. rewrite <- app_assoc. reflexivity.
Qed.

Lemma copy_fold_skipping ref limit all : forall es authors,
  snd (fold_left (copy_step ref limit all) es (true, 0, authors, []))
  = upto limit 0 (from_ref ref es).
Proof.
  induction es as [|e es IH]; intros authors.
  - simpl. unfold upto. destruct limit; [rewrite firstn_nil|]; reflexivity.
  - cbn [fold_left from_ref]. unfold copy_step at 2. cbn [andb].
    destruct (String.eqb (fst e) ref) eqn:E; cbn [negb].
    + destruct limit as [n|].
      * destruct (Nat.ltb n 1) eqn:En.
        -- rewrite copy_fold_counting. unfold upto.
           apply Nat.ltb_lt in En. replace (n - 1) with 0 by lia.
           replace (n - 0) with 0 by lia. reflexivity.
        -- rewrite copy_fold_counting. unfold upto.
           apply Nat.ltb_ge in En. replace (n - 0) with (S (n - 1)) by lia.
           reflexivity.
      * rewrite copy_fold_counting. reflexivity.
    + apply IH.
Qed.

Lemma from_ref_suffix ref es : exists pre, es = pre ++ from_ref ref es.
Proof.
  induction es as [|e es [pre IH]]; simpl.
  - exists []. reflexivity.
  - destruct (String.eqb (fst e) ref).
    + exists []. reflexivity.
    + exists (e :: pre). simpl. f_equal. exact IH.
Qed.

Lemma upto_prefix {A} limit i (l : list A) : exists post, l = upto limit i l ++ post.
Proof.
  unfold upto. destruct limit as [n|].
  - exists (skipn (n - i) l). symmetry. apply firstn_skipn.
  - exists []. symmetry. apply app_nil_r.
Qed.

Lemma kept_NoDup ref limit (es : list (string * GitLogCommit)) :
  NoDup (JsMap.keys es) ->
  NoDup (JsMap.keys (upto limit 0 (from_ref ref es))).
Proof.
  intros H. destruct (from_ref_suffix ref es) as [pre Hpre].
  destruct (upto_prefix limit 0 (from_ref ref es)) as [post Hpost].
  rewrite Hpre, Hpost in H. unfold JsMap.keys in *.
  rewrite !map_app in H.
  apply NoDup_app in H as (_ & _ & H). apply NoDup_app in H as (H & _).
  exact H.
Qed.

Lemma from_ref_head ref es :
  In ref (JsMap.keys es) ->
  exists c rest, from_ref ref es = (ref, c) :: rest.
Proof.
  induction es as [|[k c] es IH]; simpl; [intros []|].
  destruct (String.eqb k ref) eqn:E.
  - apply String.eqb_eq in E. subst k. eauto.
  - intros [H|H]; [apply String.eqb_neq in E; contradiction|]. auto.
Qed.

End LogCopyFacts.

(** X14. The copy [getLogForFile] makes of a cached log of the whole file
    holds the commits of that log from the requested ref on, in their order,
    but no more than [options.limit] of them, and [count] is their number;
    with a limit of 0 (which [getLogForFile] sets when no limit is given and
    [maxListItems] is 0) the copy holds no commit at all.  The other fields
    are those of the cached log, with [limit] the limit asked for. *)
Theorem copy_from_starts_at_the_ref :
  forall (log : Log.GitLog) (ref : string) (options : Log.FileOptions)
         (repoPath : option string) (fileName : string),
    NoDup (JsMap.keys (Log.commits (Log.data log))) ->
    let copy := DocCache.copy_from log ref options repoPath fileName in
    let kept := DocSpec2.upto (Log.f_limit options) 0
                  (DocSpec2.from_ref ref (Log.commits (Log.data log))) in
    Log.commits (Log.data copy) = kept
    /\ Log.count (Log.data copy) = length kept
    /\ (Log.f_limit options = Some 0 ->
        Log.commits (Log.data copy) = [] /\ Log.count (Log.data copy) = 0)
    /\ (forall n, Log.f_limit options = Some n ->
        Log.count (Log.data copy) <= n)
    /\ (In ref (JsMap.keys (Log.commits (Log.data log))) ->
        Log.f_limit options <> Some 0 ->
        exists c rest, Log.commits (Log.data copy) = (ref, c) :: rest)
    /\ Log.limit (Log.data copy) = Log.f_limit options
    /\ Log.hasMore (Log.data copy) = Log.hasMore (Log.data log)
    /\ Log.more copy = Log.more log.
Proof.
  intros log ref options repoPath fileName Hnd copy kept.
  assert (Hc : Log.commits (Log.data copy) = kept
               /\ Log.limit (Log.data copy) = Log.f_limit options
               /\ Log.hasMore (Log.data copy) = Log.hasMore (Log.data log)
               /\ Log.more copy = Log.more log
               /\ Log.count (Log.data copy)
                  = length (Log.commits (Log.data copy))).
  { subst copy. unfold DocCache.copy_from.
    pose proof (LogCopyFacts.copy_fold_skipping ref (Log.f_limit options)
                  (Log.authors (Log.data log)) (Log.commits (Log.data log)) [])
      as Hfold.
    destruct (fold_left _ _ _) as [[[skip i] authors] kept'].
    cbn [snd] in Hfold. subst kept'. cbn [Log.data Log.commits Log.more
      Log.limit Log.hasMore Log.count].
    rewrite JsMapFacts.of_entries_id
      by (apply LogCopyFacts.kept_NoDup; exact Hnd).
    repeat split; reflexivity. }
  destruct Hc as (Hc & Hl & Hh & Hm & Hn).
  rewrite Hn, Hc.
  split; [reflexivity|]. split; [reflexivity|].
  split.
  { intros E. subst kept. rewrite E. unfold DocSpec2.upto. simpl. auto. }
  split.
  { intros n E. subst kept. rewrite E. unfold DocSpec2.upto.
    rewrite length_firstn. lia. }
  split.
  { intros Hin Hz.
    destruct (LogCopyFacts.from_ref_head ref _ Hin) as (c & rest & E).
    subst kept. rewrite E. unfold DocSpec2.upto.
    destruct (Log.f_limit options) as [[|n]|]; [congruence| |]; simpl; eauto. }
  auto.
Qed.

Lemma copy_from_starts_at_the_ref_witness :
  Log.commits
    (Log.data
       (DocCache.copy_from
          {| Log.data := LogSample.second; Log.more := None |} "c2"
          (DocSample.at_ref "c2") (Some "/repo") "/repo/a.txt"))
  = [("c2", LogSample.commit "c2")].
Proof.
  destruct (copy_from_starts_at_the_ref
              {| Log.data := LogSample.second; Log.more := None |} "c2"
              (DocSample.at_ref "c2") (Some "/repo") "/repo/a.txt")
    as (H & _).
  - simpl.
    repeat (apply NoDup_cons; split;
            [intros H%list_elem_of_In; simpl in H; intuition discriminate|]).
    apply NoDup_nil_2.
  - rewrite H. reflexivity.
Defined.

(** ** Searching the log *)

Module SearchLogFacts.
Import Async SearchLog SearchLogSpec.

Lemma existsb_eqb_In x (l : list string) :
  existsb (String.eqb x) l = true <-> In x l.
Proof.
  rewrite existsb_exists. split.
  - intros (y & Hy & E). apply String.eqb_eq in E. subst. exact Hy.
  - intros H. exists x. split; [exact H|apply String.eqb_refl].
Qed.

Lemma add_NoDup x l : NoDup l -> NoDup (add x l).
Proof.
  intros H. unfold add. destruct (existsb (String.eqb x) l) eqn:E; [exact H|].
  apply NoDup_app. split; [exact H|]. split; [|apply NoDup_singleton].
  intros y Hy Hx. apply list_elem_of_In in Hy. apply list_elem_of_In in Hx.
  destruct Hx as [<-|[]].
  apply existsb_eqb_In in Hy. congruence.
Qed.

Lemma add_In x y l : In y (add x l) <-> y = x \/ In y l.
Proof.
  unfold add. destruct (existsb (String.eqb x) l) eqn:E.
  - apply existsb_eqb_In in E. split; [auto|]. intros [->|H]; auto.
  - rewrite in_app_iff. simpl. split; intros H; intuition.
Qed.

Lemma add_all_NoDup f values : forall l, NoDup l -> NoDup (add_all f values l).
Proof.
  unfold add_all. induction values as [|v values IH]; intros l H; simpl; auto.
  apply IH, add_NoDup, H.
Qed.

Lemma add_all_In f values : forall l y,
  In y (add_all f values l) <-> In y (map f values) \/ In y l.
Proof.
  unfold add_all. induction values as [|v values IH]; intros l y; simpl.
  - tauto.
  - rewrite IH, add_In. intuition.
Qed.

Lemma operation_step_NoDup search acc e :
  NoDup (fst acc) -> NoDup (fst (operation_step search acc e)).
Proof.
  destruct acc as [searchArgs files], e as [op values]. cbn [fst].
  intros H. unfold operation_step.
  destruct (String.eqb op "message:").
  { cbn [fst]. apply add_all_NoDup.
    destruct (is_true (matchAll search)); repeat apply add_NoDup; exact H. }
  destruct (String.eqb op "author:").
  { cbn [fst]. apply add_all_NoDup, add_NoDup, H. }
  destruct (String.eqb op "change:").
  { cbn [fst]. apply add_all_NoDup, H. }
  destruct (String.eqb op "file:"); exact H.
Qed.

Lemma operation_step_files search acc e :
  snd (operation_step search acc e) = snd acc ++ files_of [e].
Proof.
  destruct acc as [searchArgs files], e as [op values].
  unfold operation_step, files_of. cbn [fst snd flat_map].
  rewrite app_nil_r.
  destruct (String.eqb op "message:") eqn:E1.
  { apply String.eqb_eq in E1. subst op. cbn [snd]. simpl.
    rewrite app_nil_r. reflexivity. }
  destruct (String.eqb op "author:") eqn:E2.
  { apply String.eqb_eq in E2. subst op. cbn [snd]. simpl.
    rewrite app_nil_r. reflexivity. }
  destruct (String.eqb op "change:") eqn:E3.
  { apply String.eqb_eq in E3. subst op. cbn [snd]. simpl.
    rewrite app_nil_r. reflexivity. }
  destruct (String.eqb op "file:"); cbn [snd];
    [reflexivity|rewrite app_nil_r; reflexivity].
Qed.

Lemma operations_fold search : forall operations acc,
  NoDup (fst acc) ->
  NoDup (fst (fold_left (operation_step search) operations acc))
  /\ snd (fold_left (operation_step search) operations acc)
     = snd acc ++ files_of operations.
Proof.
  induction operations as [|e operations IH]; intros acc H.
  - simpl. rewrite app_nil_r. auto.
  - cbn [fold_left].
    destruct (IH (operation_step search acc e)
                 (operation_step_NoDup search acc e H)) as [H1 H2].
    split; [exact H1|]. rewrite H2, operation_step_files.
    rewrite <- app_assoc. unfold files_of. cbn [flat_map].
    rewrite app_nil_r. reflexivity.
Qed.

Lemma replace_quotes_unquoted value :
  unquoted (replace_quotes "" value) = true.
Proof.
  induction value as [|a value IH]; simpl; [reflexivity|].
  destruct (Ascii.eqb a (ascii_of_nat 34)) eqn:E; simpl.
  - exact IH.
  - rewrite E. exact IH.
Qed.

Lemma files_of_unquoted operations f :
  In f (files_of operations) -> unquoted f = true.
Proof.
  unfold files_of. intros H. apply in_flat_map in H as (e & _ & H).
  destruct (String.eqb (fst e) "file:"); [|destruct H].
  apply in_map_iff in H as (v & <- & _). apply replace_quotes_unquoted.
Qed.

End SearchLogFacts.

(** X15. The arguments [getLogForSearch] gives to [Git.log__search] are
    options without repetition, then [--], then file names.  With a
    [commit:] operation [useShow] is set, there are no file names, and the
    options are [-m], the similarity option and the commit values, whatever
    the other operations and the flags of the search; without one, [useShow]
    is unset and the file names are the values of the [file:] operations in
    their order.  File names and commit values are passed without any double
    quote. *)
Theorem search_args_are_options_then_files :
  forall (similarityThreshold : option nat) (search : SearchLog.SearchPattern)
         (operations : Search.Ops),
    let '(args, useShow) :=
      SearchLog.search_args similarityThreshold search operations in
    exists options files,
      args = options ++ ["--"] ++ files
      /\ NoDup options
      /\ In (SearchLog.similarity similarityThreshold) options
      /\ (forall f, In f files -> SearchLogSpec.unquoted f = true)
      /\ match JsMap.get "commit:" operations with
         | Some values =>
             useShow = true /\ files = []
             /\ forall o, In o options <->
                  o = "-m" \/ o = SearchLog.similarity similarityThreshold
                  \/ In o (map (SearchLog.replace_quotes "") values)
         | None =>
             useShow = false
             /\ files = SearchLogSpec.files_of operations
         end.
Proof.
  intros similarityThreshold search operations.
  unfold SearchLog.search_args.
  destruct (JsMap.get "commit:" operations) as [values|].
  - eexists; exists []. split; [reflexivity|].
    split.
    { apply SearchLogFacts.add_all_NoDup.
      repeat apply SearchLogFacts.add_NoDup. apply NoDup_nil_2. }
    split.
    { apply SearchLogFacts.add_all_In. right.
      apply SearchLogFacts.add_In. left. reflexivity. }
    split; [intros f []|].
    split; [reflexivity|]. split; [reflexivity|].
    intros o. rewrite SearchLogFacts.add_all_In, !SearchLogFacts.add_In.
    simpl. tauto.
  - match goal with
    | |- context [fold_left ?f ?l ?a] =>
        pose proof (SearchLogFacts.operations_fold search l a) as Hfold;
        assert (Hin : In (SearchLog.similarity similarityThreshold)
                        (fst (fold_left f l a)));
        [|destruct (fold_left f l a) as [searchArgs files] eqn:E]
    end.
    { assert (Hmono : forall l acc x,
                In x (fst acc) ->
                In x (fst (fold_left (SearchLog.operation_step search) l acc))).
      { induction l as [|e l IH]; intros acc x Hx; [exact Hx|].
        cbn [fold_left]. apply IH.
        destruct acc as [sa fs], e as [op vs]. cbn [fst] in *.
        unfold SearchLog.operation_step.
        destruct (String.eqb op "message:").
        { cbn [fst]. apply SearchLogFacts.add_all_In. right.
          destruct (SearchLog.is_true (SearchLog.matchAll search));
            repeat (apply SearchLogFacts.add_In; right); exact Hx. }
        destruct (String.eqb op "author:").
        { cbn [fst]. apply SearchLogFacts.add_all_In. right.
          apply SearchLogFacts.add_In. right. exact Hx. }
        destruct (String.eqb op "change:").
        { cbn [fst]. apply SearchLogFacts.add_all_In. right. exact Hx. }
        destruct (String.eqb op "file:"); exact Hx. }
      apply Hmono. cbn [fst].
      destruct (SearchLog.is_true (SearchLog.matchRegex search)
                && negb (SearchLog.is_true (SearchLog.matchCase search)));
        rewrite !SearchLogFacts.add_In; auto 10. }
    cbn [fst snd] in Hfold, Hin.
    destruct Hfold as [Hnd Hfiles].
    { destruct (SearchLog.is_true (SearchLog.matchRegex search)
                && negb (SearchLog.is_true (SearchLog.matchCase search)));
        repeat apply SearchLogFacts.add_NoDup; apply NoDup_nil_2. }
    exists searchArgs, files. split; [reflexivity|].
    split; [exact Hnd|]. split; [exact Hin|].
    simpl in Hfiles. subst files.
    split; [apply SearchLogFacts.files_of_unquoted|].
    split; reflexivity.
Qed.

Module SearchKeyFacts.
Import SearchLog SearchLogSpec.

Lemma barless_app p f : barless (p ++ String bar f) = false.
Proof.
  induction p as [|a p IH]; simpl.
  - reflexivity.
  - rewrite IH. apply andb_false_r.
Qed.

(** A text is split in one way at its last [|]. *)
Lemma split_at_last_bar : forall p1 p2 f1 f2,
  barless f1 = true -> barless f2 = true ->
  (p1 ++ String bar f1)%string = (p2 ++ String bar f2)%string ->
  p1 = p2 /\ f1 = f2.
Proof.
  induction p1 as [|a p1 IH]; intros [|b p2] f1 f2 H1 H2 E; simpl in E.
  - inversion E. auto.
  - inversion E; subst. rewrite barless_app in H1. discriminate.
  - inversion E; subst. rewrite barless_app in H2. discriminate.
  - inversion E; subst. destruct (IH p2 f1 f2 H1 H2 H3) as [-> ->]. auto.
Qed.

Lemma toKey_flags search :
  toKey search = (pattern search ++ String bar (flags search))%string.
Proof. reflexivity. Qed.

Lemma flags_barless search : barless (flags search) = true.
Proof.
  unfold flags.
  destruct (is_true (matchAll search)), (is_true (matchCase search)),
    (is_true (matchRegex search)); reflexivity.
Qed.

End SearchKeyFacts.

(** X16. [SearchPattern.toKey] tells searches apart: two searches with the
    same key have the same pattern and agree on whether each of [matchAll],
    [matchCase] and [matchRegex] is set. *)
Theorem toKey_tells_searches_apart :
  forall search1 search2 : SearchLog.SearchPattern,
    SearchLog.toKey search1 = SearchLog.toKey search2 ->
    SearchLog.pattern search1 = SearchLog.pattern search2
    /\ SearchLog.is_true (SearchLog.matchAll search1)
       = SearchLog.is_true (SearchLog.matchAll search2)
    /\ SearchLog.is_true (SearchLog.matchCase search1)
       = SearchLog.is_true (SearchLog.matchCase search2)
    /\ SearchLog.is_true (SearchLog.matchRegex search1)
       = SearchLog.is_true (SearchLog.matchRegex search2).
Proof.
  intros search1 search2 E.
  rewrite !SearchKeyFacts.toKey_flags in E.
  apply SearchKeyFacts.split_at_last_bar in E as [Hp Hf];
    try apply SearchKeyFacts.flags_barless.
  split; [exact Hp|]. unfold SearchLogSpec.flags in Hf.
  destruct (SearchLog.is_true (SearchLog.matchAll search1)),
    (SearchLog.is_true (SearchLog.matchCase search1)),
    (SearchLog.is_true (SearchLog.matchRegex search1)),
    (SearchLog.is_true (SearchLog.matchAll search2)),
    (SearchLog.is_true (SearchLog.matchCase search2)),
    (SearchLog.is_true (SearchLog.matchRegex search2));
    try discriminate; auto.
Qed.

Lemma toKey_tells_searches_apart_witness :
  SearchLog.pattern SearchLogSample.search
  = SearchLog.pattern SearchLogSample.search.
Proof.
  apply (toKey_tells_searches_apart SearchLogSample.search
           SearchLogSample.search eq_refl).
Defined.

Section SearchPages.
Import Model Async SearchLog SearchLogSpec.
Context {User : Type}.
Variable isSha : string -> bool.
Variable parse :
  string -> string -> option User -> nat -> option Log.LogData.
Variables maxSearchItems similarityThreshold : option nat.

Let Eff := (@SearchLog.Eff User).
Let getLogForSearch :=
  SearchLog.getLogForSearch isSha parse maxSearchItems similarityThreshold.
Let getLogForSearchMoreFn :=
  SearchLog.getLogForSearchMoreFn isSha parse maxSearchItems
    similarityThreshold.

(** [getLogForSearch] never rejects, and asks the tool first. *)
Lemma getLogForSearch_resolves repoPath search options
    (answer : forall X, Eff X -> X) :
  exists operations result rest,
    Search.parseSearchOperations isSha (pattern search) = Some operations
    /\ run answer (getLogForSearch repoPath search options)
       = (Resolved result,
          awaited
            (log__search repoPath
               (fst (search_args similarityThreshold (with_defaults search)
                       operations))
               {| s_limit := default (default 0 maxSearchItems) (o_limit options);
                  s_skip := o_skip options;
                  s_useShow :=
                    snd (search_args similarityThreshold (with_defaults search)
                           operations) |})
          :: rest).
Proof.
  destruct (SearchFacts.parse_total isSha (pattern search)) as [operations Hp].
  exists operations. subst getLogForSearch. unfold SearchLog.getLogForSearch.
  cbn [pattern with_defaults]. rewrite Hp.
  destruct (search_args similarityThreshold (with_defaults search) operations)
    as [args useShow].
  cbn [fst snd run].
  destruct (answer _ (log__search repoPath args _)) as [data|ex].
  - cbn [run].
    destruct (answer _ (getCurrentUser repoPath)) as [user|ex].
    + destruct (parse data repoPath user _); cbn [run]; eauto.
    + cbn [run]. eauto.
  - cbn [run]. eauto.
Qed.

(** X17. The [more] continuation of a search log never rejects.  It asks
    [Git.log__search] for the same search with the limit given (or
    [maxSearchItems], or 0) after skipping as many commits as the log
    counts.  When that finds no log, the result is the log with [hasMore]
    false; otherwise it is a new log that keeps the commits of the log in
    their order and adds those of the page that are new, whose count is the
    sum of the two counts, whose [hasMore] is that of the page, whose limit
    is the old limit plus the limit asked for, and whose [more] is bound to
    the new log. *)
Theorem getLogForSearchMoreFn_continues_after_the_count :
  forall (log : LogData) (search : SearchPattern) (options : Options)
         (limit : option nat) (answer : forall X, Eff X -> X),
    let n := default (default 0 maxSearchItems) limit in
    let page :=
      fst (run answer (getLogForSearch (repoPath log) search (next_page log n))) in
    let result :=
      run answer (getLogForSearchMoreFn log search options limit) in
    (exists operations rest,
       Search.parseSearchOperations isSha (pattern search) = Some operations
       /\ snd result
          = awaited
              (log__search (repoPath log)
                 (fst (search_args similarityThreshold (with_defaults search)
                         operations))
                 {| s_limit := n;
                    s_skip := Some (count log);
                    s_useShow :=
                      snd (search_args similarityThreshold
                             (with_defaults search) operations) |})
            :: rest)
    /\ (page = Resolved None ->
        fst result
        = Resolved {| data := set_hasMore log false;
                      more := Some (MoreSearch log search options) |})
    /\ (forall moreLog, page = Resolved (Some moreLog) ->
        exists merged,
          fst result
          = Resolved {| data := merged;
                        more := Some (MoreSearch merged search options) |}
          /\ commits merged
             = JsMap.merge (commits log) (commits (data moreLog))
          /\ (exists new,
                JsMap.keys (commits merged) = JsMap.keys (commits log) ++ new
                /\ forall k, In k new ->
                     In k (JsMap.keys (commits (data moreLog)))
                     /\ ~ In k (JsMap.keys (commits log)))
          /\ count merged = count log + count (data moreLog)
          /\ hasMore merged = hasMore (data moreLog)
          /\ SearchLog.limit merged
             = Some (default 0 (SearchLog.limit log) + n))
    /\ exists r, fst result = Resolved r.
Proof.
  intros log search options limit answer n page result.
  destruct (getLogForSearch_resolves (repoPath log) search (next_page log n)
              answer) as (operations & r & rest & Hp & Hrun).
  assert (Hpage : page = Resolved r) by (subst page; rewrite Hrun; reflexivity).
  assert (Hresult :
    result
    = let '(r', t') :=
        run answer
          (match r with
           | None =>
               Ret {| data := set_hasMore log false;
                      more := Some (MoreSearch log search options) |}
           | Some moreLog =>
               let moreLog := data moreLog in
               let mergedLog :=
                 {| repoPath := repoPath log;
                    authors := JsMap.merge (authors log) (authors moreLog);
                    commits := JsMap.merge (commits log) (commits moreLog);
                    sha := sha log;
                    range := range log;
                    count := count log + count moreLog;
                    limit := Some (default 0 (SearchLog.limit log) + n);
                    hasMore := hasMore moreLog;
                    query := Some (QuerySearch (repoPath log) search options) |} in
               Ret {| data := mergedLog;
                      more := Some (MoreSearch mergedLog search options) |}
           end) in
      (r', (awaited
              (log__search (repoPath log)
                 (fst (search_args similarityThreshold (with_defaults search)
                         operations))
                 {| s_limit := n;
                    s_skip := Some (count log);
                    s_useShow :=
                      snd (search_args similarityThreshold
                             (with_defaults search) operations) |})
            :: rest) ++ t')).
  { subst result getLogForSearchMoreFn.
    unfold SearchLog.getLogForSearchMoreFn.
    rewrite AsyncFacts.run_bind. fold getLogForSearch.
    change {| o_limit := Some (default (default 0 maxSearchItems) limit);
              o_skip := Some (count log) |} with (next_page log n).
    rewrite Hrun. reflexivity. }
  split; [|split; [|split]].
  - exists operations. rewrite Hresult.
    destruct r as [moreLog|]; cbn [run]; eexists; (split; [exact Hp|]);
      reflexivity.
  - intros E. rewrite Hpage in E. inversion E; subst r.
    rewrite Hresult. reflexivity.
  - intros moreLog E. rewrite Hpage in E. inversion E; subst r.
    rewrite Hresult. cbn [run fst]. eexists. split; [reflexivity|].
    cbn [commits count hasMore SearchLog.limit].
    split; [reflexivity|]. split; [apply JsMapFacts.merge_keys|].
    repeat split; reflexivity.
  - rewrite Hresult. destruct r; cbn [run fst]; eexists; reflexivity.
Qed.

End SearchPages.

Lemma getLogForSearchMoreFn_continues_after_the_count_witness :
  exists merged,
    fst (Async.run SearchLogSample.answer
           (SearchLogSample.getLogForSearchMoreFn SearchLogSample.page1
              SearchLogSample.search SearchLogSample.options (Some 1)))
    = Async.Resolved
        {| SearchLog.data := merged;
           SearchLog.more :=
             Some (SearchLog.MoreSearch merged SearchLogSample.search
                     SearchLogSample.options) |}
    /\ SearchLog.count merged = 2.
Proof.
  pose proof (getLogForSearchMoreFn_continues_after_the_count
                SearchLogSample.isSha SearchLogSample.parse (Some 1) None
                SearchLogSample.page1 SearchLogSample.search
                SearchLogSample.options (Some 1) SearchLogSample.answer) as H.
  cbv zeta in H. destruct H as (_ & _ & H & _).
  edestruct H as (merged & Hr & _ & _ & Hc & _); [vm_compute; reflexivity|].
  exists merged. split; [exact Hr|]. rewrite Hc. reflexivity.
Defined.

(** ** Edges of the navigation *)

Section NavigationEdges.
Import Async Nav.
Variables deletedOrMissingSha uncommittedSha uncommittedStagedSha : string.
Variables isUncommitted isUncommittedStaged : string -> bool.
Variable relativeTo : Uri -> string -> string.
Variable resolve : string -> option string -> string.
Variable parseSimple :
  string -> nat -> option string ->
  option string * option string * option string.
Variable parseSimpleRenamed :
  string -> string -> option string * option string.
Variable parseStatus : string -> string -> nat -> option (list GitStatusFile).
Variable validateVersion : nat -> nat -> bool.
Variable invalidLineCount : string -> bool.

Let fromFile := Nav.fromFile isUncommitted isUncommittedStaged resolve.
Let getStatusForFile := Nav.getStatusForFile parseStatus validateVersion.
Let getNextUri :=
  Nav.getNextUri deletedOrMissingSha isUncommitted isUncommittedStaged
    relativeTo resolve parseSimple parseSimpleRenamed.
Let getNextDiffUris :=
  Nav.getNextDiffUris deletedOrMissingSha uncommittedStagedSha isUncommitted
    isUncommittedStaged relativeTo resolve parseSimple parseSimpleRenamed
    parseStatus validateVersion.
Let getPreviousUri :=
  Nav.getPreviousUri deletedOrMissingSha uncommittedSha uncommittedStagedSha
    isUncommitted isUncommittedStaged relativeTo resolve parseSimple
    parseStatus validateVersion invalidLineCount.

(** X18. [getNextDiffUris] for a ref that is not empty, in terms of what
    [getNextUri] and [getStatusForFile] resolve to on the same answers.  For
    a staged ref it resolves at once to the staged file and the working
    file.  Otherwise it rejects when [getNextUri] does; when [getNextUri]
    finds a next commit, that is its [next], and its [current] is the file at
    the ref, or with a skip what [getNextUri] finds one step less far; when
    [getNextUri] finds none, its [current] is the file at the ref and its
    [next] the staged file if the status of the file has an index status,
    else the working file.  So it never resolves to undefined, and what it
    resolves to always has a [next]. *)
Theorem getNextDiffUris_always_has_a_next :
  forall (answer : forall X, Eff X -> X) (repoPath : string) (uri : Uri)
         (r : string) (skip : nat),
    String.length r <> 0 ->
    let fileName := relativeTo uri repoPath in
    let here := fromFile fileName repoPath (Some r) in
    let result := fst (run answer (getNextDiffUris repoPath uri (Some r) skip)) in
    (if isUncommittedStaged r then
       result
       = Resolved (Some {| nd_current := Some here;
                           nd_next := Some (fromFile fileName repoPath None) |})
     else
       match fst (run answer (getNextUri repoPath uri (Some r) skip)) with
       | Rejected ex => result = Rejected ex
       | Resolved (Some next) =>
           if Nat.eqb skip 0 then
             result
             = Resolved (Some {| nd_current := Some here; nd_next := Some next |})
           else
             match fst (run answer
                          (getNextUri repoPath uri (Some r) (skip - 1))) with
             | Rejected ex => result = Rejected ex
             | Resolved current =>
                 result
                 = Resolved (Some {| nd_current := current;
                                     nd_next := Some next |})
             end
       | Resolved None =>
           match fst (run answer (getStatusForFile repoPath fileName)) with
           | Rejected ex => result = Rejected ex
           | Resolved status =>
               result
               = Resolved
                   (Some {| nd_current := Some here;
                            nd_next :=
                              Some (fromFile fileName repoPath
                                      (NavSpec.staged_or_working
                                         uncommittedStagedSha status)) |})
           end
       end)
    /\ match result with
       | Resolved None => False
       | Resolved (Some d) => nd_next d <> None
       | Rejected _ => True
       end.
Proof.
  intros answer repoPath uri r skip Hlen fileName here result.
  apply Nat.eqb_neq in Hlen.
  assert (Hfirst :
    if isUncommittedStaged r then
      result
      = Resolved (Some {| nd_current := Some here;
                          nd_next := Some (fromFile fileName repoPath None) |})
    else
      match fst (run answer (getNextUri repoPath uri (Some r) skip)) with
      | Rejected ex => result = Rejected ex
      | Resolved (Some next) =>
          if Nat.eqb skip 0 then
            result
            = Resolved (Some {| nd_current := Some here; nd_next := Some next |})
          else
            match fst (run answer
                         (getNextUri repoPath uri (Some r) (skip - 1))) with
            | Rejected ex => result = Rejected ex
            | Resolved current =>
                result
                = Resolved (Some {| nd_current := current;
                                    nd_next := Some next |})
            end
      | Resolved None =>
          match fst (run answer (getStatusForFile repoPath fileName)) with
          | Rejected ex => result = Rejected ex
          | Resolved status =>
              result
              = Resolved
                  (Some {| nd_current := Some here;
                           nd_next :=
                             Some (fromFile fileName repoPath
                                     (NavSpec.staged_or_working
                                        uncommittedStagedSha status)) |})
          end
      end).
  { subst result. unfold getNextDiffUris, Nav.getNextDiffUris. rewrite Hlen.
    fold fileName. fold fromFile. fold here.
    destruct (isUncommittedStaged r); [reflexivity|].
    rewrite AwaitFacts.fst_run_bind. fold getNextUri.
    destruct (fst (run answer (getNextUri repoPath uri (Some r) skip)))
      as [[next|]|ex]; [| |reflexivity].
    - destruct (Nat.eqb skip 0); [reflexivity|].
      rewrite AwaitFacts.fst_run_bind.
      destruct (fst (run answer (getNextUri repoPath uri (Some r) (skip - 1))))
        as [current|ex]; reflexivity.
    - rewrite AwaitFacts.fst_run_bind. fold getStatusForFile.
      destruct (fst (run answer (getStatusForFile repoPath fileName)))
        as [[[[i|] w]|]|ex]; reflexivity. }
  split; [exact Hfirst|].
  destruct (isUncommittedStaged r); [rewrite Hfirst; discriminate|].
  destruct (fst (run answer (getNextUri repoPath uri (Some r) skip)))
    as [[next|]|ex].
  - destruct (Nat.eqb skip 0); [rewrite Hfirst; discriminate|].
    destruct (fst (run answer (getNextUri repoPath uri (Some r) (skip - 1))))
      as [current|ex]; rewrite Hfirst; [discriminate|exact I].
  - destruct (fst (run answer (getStatusForFile repoPath fileName)))
      as [status|ex]; rewrite Hfirst; [discriminate|exact I].
  - rewrite Hfirst. exact I.
Qed.

(** X19. [getPreviousUri] for a ref that is neither the deleted-or-missing
    nor the uncommitted sentinel first awaits [Git.log__file] for the file at
    the ref, with the limit [skip + 2].  When that call answers, nothing else
    is awaited and the uri resolved to, if any, never has the asked ref as
    its sha.  When it fails, the failure is thrown again with nothing else
    awaited, unless the ref is a staged ref and the failure an invalid line
    count: then [Git.log__file_recent] is awaited as well, and the result is
    the file at the commit it names, or at the deleted-or-missing revision
    when it names none (or its failure). *)
Theorem getPreviousUri_never_the_asked_commit :
  forall (answer : forall X, Eff X -> X) (repoPath : string) (uri : Uri)
         (r : string) (skip : nat) (editorLine : option Z) (firstParent : bool),
    r <> deletedOrMissingSha ->
    r <> uncommittedSha ->
    let fileName := relativeTo uri repoPath in
    let call :=
      log__file repoPath fileName (Some r)
        {| filters := None; limit := Some (skip + 2); reverse := None;
           simple := Some true; firstParent := Some firstParent;
           startLine := option_map (fun l => (l + 1)%Z) editorLine |} in
    let recent := log__file_recent repoPath fileName in
    let previous :=
      run answer (getPreviousUri repoPath uri (Some r) skip editorLine firstParent) in
    match answer _ call with
    | Ok data =>
        exists res,
          previous = (Resolved res, [awaited call])
          /\ forall g, res = Some g -> g_sha g <> Some r
    | Err ex =>
        if isUncommittedStaged r && invalidLineCount ex then
          match answer _ recent with
          | Ok ref' =>
              previous
              = (Resolved
                   (Some (fromFile fileName repoPath
                            (Some (or_else ref' deletedOrMissingSha)))),
                 [awaited call; awaited recent])
          | Err ex' => previous = (Rejected ex', [awaited call; awaited recent])
          end
        else previous = (Rejected ex, [awaited call])
    end.
Proof.
  intros answer repoPath uri r skip editorLine firstParent Hs Hu
    fileName call recent previous.
  apply String.eqb_neq in Hs, Hu.
  subst previous. unfold getPreviousUri, Nav.getPreviousUri.
  cbn [opt_eqb]. rewrite Hs, Hu. cbn [run]. fold fileName. fold call.
  destruct (answer _ call) as [data|ex].
  - destruct (is_empty data) eqn:He.
    { eexists. split; [reflexivity|]. discriminate. }
    destruct (parseSimple _ _ _) as [[previousRef file] status].
    destruct (opt_eqb previousRef r) eqn:Hp.
    { eexists. split; [reflexivity|]. discriminate. }
    eexists. split; [reflexivity|].
    intros g [= <-]. unfold Nav.fromFile.
    assert (Hx : or_else previousRef deletedOrMissingSha <> r).
    { unfold or_else. destruct previousRef as [p|]; cbn in Hp.
      - apply String.eqb_neq in Hp.
        destruct (Nat.eqb _ _); [apply String.eqb_neq in Hs; congruence|exact Hp].
      - apply String.eqb_neq in Hs. congruence. }
    destruct (Nat.eqb _ _); cbn; [discriminate|].
    destruct (_ || _); [congruence|discriminate].
  - destruct (isUncommittedStaged r && invalidLineCount ex); [|reflexivity].
    cbn [bind await run]. fold recent.
    destruct (answer _ recent) as [ref'|ex']; reflexivity.
Qed.

End NavigationEdges.

Lemma getNextDiffUris_always_has_a_next_witness :
  String.length "1a2b3c4" <> 0
  /\ fst (Async.run NavSample.answer
            (NavSample.nextDiffUris "/repo" NavSample.file (Some "1a2b3c4") 0))
     = Async.Resolved
         (Some {| Nav.nd_current :=
                    Some {| Nav.g_fsPath := "a.txt";
                            Nav.g_repoPath := Some "/repo";
                            Nav.g_sha := Some "1a2b3c4" |};
                  Nav.nd_next :=
                    Some {| Nav.g_fsPath := "a.txt";
                            Nav.g_repoPath := Some "/repo";
                            Nav.g_sha := Some "1a2b3c4" |} |}).
Proof.
  split; [discriminate|].
  pose proof (getNextDiffUris_always_has_a_next
                NavSample.deletedOrMissingSha NavSample.uncommittedStagedSha
                NavSample.isUncommitted NavSample.isUncommittedStaged
                NavSample.relativeTo NavSample.resolve NavSample.parseSimple
                NavSample.parseSimpleRenamed NavSample.parseStatus
                NavSample.validateVersion NavSample.answer
                "/repo" NavSample.file "1a2b3c4" 0 ltac:(discriminate))
    as [H _].
  vm_compute in H. vm_compute. exact H.
Defined.

Lemma getPreviousUri_never_the_asked_commit_witness :
  exists res,
    fst (Async.run NavSample.answer
           (Nav.getPreviousUri NavSample.deletedOrMissingSha
              NavSample.uncommittedSha NavSample.uncommittedStagedSha
              NavSample.isUncommitted NavSample.isUncommittedStaged
              NavSample.relativeTo NavSample.resolve NavSample.parseSimple
              NavSample.parseStatus NavSample.validateVersion
              NavSample.invalidLineCount
              "/repo" NavSample.file (Some "9f8e7d6") 0 None false))
    = Async.Resolved res
    /\ forall g, res = Some g -> Nav.g_sha g <> Some "9f8e7d6".
Proof.
  pose proof (getPreviousUri_never_the_asked_commit
                NavSample.deletedOrMissingSha NavSample.uncommittedSha
                NavSample.uncommittedStagedSha NavSample.isUncommitted
                NavSample.isUncommittedStaged NavSample.relativeTo
                NavSample.resolve NavSample.parseSimple NavSample.parseStatus
                NavSample.validateVersion NavSample.invalidLineCount
                NavSample.answer "/repo" NavSample.file "9f8e7d6" 0 None false
                ltac:(discriminate) ltac:(discriminate)) as H.
  vm_compute in H. destruct H as (res & Hres & Hsha).
  exists res. split; [|exact Hsha].
  vm_compute. injection Hres as <-. reflexivity.
Defined.

(** ** The current side of a previous diff *)

Module AlwaysFacts.
Import Async AsyncSpec.

Lemma always_run {Eff A} (P : A -> Prop) (p : Prog Eff A)
    (answer : forall X, Eff X -> X) :
  always P p ->
  match fst (run answer p) with
  | Resolved a => P a
  | Rejected _ => True
  end.
Proof.
  induction p as [a|ex|X e k IH]; cbn [always run]; intros H.
  - exact H.
  - exact I.
  - specialize (IH _ (H (answer X e))).
    destruct (run answer (k (answer X e))). exact IH.
Qed.

Lemma always_bind {Eff A B} (P : B -> Prop) (p : Prog Eff A)
    (f : A -> Prog Eff B) :
  (forall a, always P (f a)) -> always P (bind p f).
Proof.
  intros Hf. induction p as [a|ex|X e k IH]; cbn [always bind].
  - apply Hf.
  - exact I.
  - intros x. apply IH.
Qed.

End AlwaysFacts.

Section PreviousDiffs.
Import Async AsyncSpec Nav.
Variables deletedOrMissingSha uncommittedSha uncommittedStagedSha : string.
Variables isUncommitted isUncommittedStaged : string -> bool.
Variable relativeTo : Uri -> string -> string.
Variable resolve : string -> option string -> string.
Variable parseSimple :
  string -> nat -> option string ->
  option string * option string * option string.
Variable parseStatus : string -> string -> nat -> option (list GitStatusFile).
Variable validateVersion : nat -> nat -> bool.
Variable invalidLineCount : string -> bool.

Let getPreviousDiffUris :=
  Nav.getPreviousDiffUris deletedOrMissingSha uncommittedSha
    uncommittedStagedSha isUncommitted isUncommittedStaged relativeTo resolve
    parseSimple parseStatus validateVersion invalidLineCount.
Let getPreviousLineDiffUris :=
  Nav.getPreviousLineDiffUris deletedOrMissingSha uncommittedSha
    uncommittedStagedSha isUncommitted isUncommittedStaged relativeTo resolve
    parseSimple parseStatus validateVersion invalidLineCount.

Hypothesis staged_is_not_missing : uncommittedStagedSha <> deletedOrMissingSha.

Abbreviation present := (NavSpec.present deletedOrMissingSha).

Lemma fromFile_working fileName repoPath :
  g_sha (fromFile isUncommitted isUncommittedStaged resolve fileName repoPath None)
  <> Some deletedOrMissingSha.
Proof. discriminate. Qed.

Lemma fromFile_staged fileName repoPath :
  g_sha (fromFile isUncommitted isUncommittedStaged resolve fileName repoPath
           (Some uncommittedStagedSha))
  <> Some deletedOrMissingSha.
Proof.
  unfold fromFile. destruct (Nat.eqb _ _); [discriminate|]. cbn [g_sha].
  destruct (_ || _); [congruence|discriminate].
Qed.

Lemma checked (c : GitUri) :
  opt_eqb (g_sha c) deletedOrMissingSha = false ->
  g_sha c <> Some deletedOrMissingSha.
Proof.
  intros H E. rewrite E in H. cbn in H. rewrite String.eqb_refl in H.
  discriminate.
Qed.

Ltac diff_step :=
  match goal with
  | |- always _ (bind _ _) => apply AlwaysFacts.always_bind; intros ?
  | |- always _ (Vis _ _) => cbn [always]; intros ?
  | |- always _ (Throw _) => exact I
  | |- always _ (Ret None) => exact I
  | |- always _ (Ret (Some _)) =>
      cbn [always NavSpec.present pd_current];
      first [apply fromFile_working | apply fromFile_staged
            | apply checked; assumption]
  | |- always _ (if ?c then _ else _) => destruct c eqn:?
  | |- always _ (match ?x with _ => _ end) => destruct x
  end.

Lemma getPreviousDiffUris_present repoPath uri ref skip firstParent :
  always present (getPreviousDiffUris repoPath uri ref skip firstParent).
Proof.
  unfold getPreviousDiffUris, Nav.getPreviousDiffUris.
  repeat diff_step.
Qed.

Lemma getPreviousLineDiffUris_present repoPath uri editorLine ref skip :
  always present (getPreviousLineDiffUris repoPath uri editorLine ref skip).
Proof.
  unfold getPreviousLineDiffUris, Nav.getPreviousLineDiffUris.
  repeat diff_step.
Qed.

(** X25. Whatever the awaited calls answer, the pair that
    [getPreviousDiffUris] or [getPreviousLineDiffUris] resolves to never has
    the deleted-or-missing revision as its current side (the staged sentinel
    being another sha than the deleted-or-missing one). *)
Theorem previous_diff_current_is_never_missing :
  forall (answer : forall X, Eff X -> X) (repoPath : string) (uri : Uri)
         (ref : option string) (skip : nat) (firstParent : bool)
         (editorLine : Z),
    match fst (run answer (getPreviousDiffUris repoPath uri ref skip firstParent))
    with
    | Resolved (Some d) => g_sha (pd_current d) <> Some deletedOrMissingSha
    | _ => True
    end
    /\ match fst (run answer
                    (getPreviousLineDiffUris repoPath uri editorLine ref skip))
       with
       | Resolved (Some d) => g_sha (pd_current d) <> Some deletedOrMissingSha
       | _ => True
       end.
Proof.
  intros answer repoPath uri ref skip firstParent editorLine. split.
  - pose proof (AlwaysFacts.always_run _ _ answer
                  (getPreviousDiffUris_present repoPath uri ref skip firstParent))
      as H.
    destruct (fst (run answer _)) as [[d|]|ex]; [exact H|exact I|exact I].
  - pose proof (AlwaysFacts.always_run _ _ answer
                  (getPreviousLineDiffUris_present repoPath uri editorLine ref skip))
      as H.
    destruct (fst (run answer _)) as [[d|]|ex]; [exact H|exact I|exact I].
Qed.

End PreviousDiffs.

Lemma previous_diff_current_is_never_missing_witness :
  NavSample.uncommittedStagedSha <> NavSample.deletedOrMissingSha
  /\ match fst (Async.run NavSample.answer
                  (Nav.getPreviousDiffUris NavSample.deletedOrMissingSha
                     NavSample.uncommittedSha NavSample.uncommittedStagedSha
                     NavSample.isUncommitted NavSample.isUncommittedStaged
                     NavSample.relativeTo NavSample.resolve
                     NavSample.parseSimple NavSample.parseStatus
                     NavSample.validateVersion NavSample.invalidLineCount
                     "/repo" NavSample.file (Some "9f8e7d6") 0 false)) with
     | Async.Resolved (Some d) =>
         Nav.g_sha (Nav.pd_current d) <> Some NavSample.deletedOrMissingSha
     | _ => False
     end.
Proof.
  split; [discriminate|].
  pose proof (previous_diff_current_is_never_missing
                NavSample.deletedOrMissingSha NavSample.uncommittedSha
                NavSample.uncommittedStagedSha NavSample.isUncommitted
                NavSample.isUncommittedStaged NavSample.relativeTo
                NavSample.resolve NavSample.parseSimple NavSample.parseStatus
                NavSample.validateVersion NavSample.invalidLineCount
                ltac:(discriminate) NavSample.answer "/repo" NavSample.file
                (Some "9f8e7d6") 0 false 0%Z) as [H _].
  vm_compute in H. vm_compute. exact H.
Defined.

(** ** The working file of a uri *)

Section WorkingFile.
Import Async WorkingUri WorkingUriSpec.
Variable relativeTo : Nav.Uri -> string -> string.
Variable resolve : string -> option string -> string.
Variable first_line : string -> string.
Variable parseSimpleRenamed :
  string -> string -> option string * option string.
Variable similarityThreshold : option nat.
Variable answer : forall X, Eff X -> X.
Variable repoPath : string.

Abbreviation working_loop :=
  (WorkingUri.working_loop resolve first_line parseSimpleRenamed
     similarityThreshold).
Abbreviation renamed :=
  (WorkingUriSpec.renamed parseSimpleRenamed similarityThreshold answer repoPath).

(** After [n] renames the loop goes on from the last name, three calls for
    each rename later. *)
Lemma working_loop_renamed f n g :
  renamed f n g ->
  forall fuel,
    fst (run answer (working_loop (n + fuel) repoPath f))
    = fst (run answer (working_loop fuel repoPath g))
    /\ length (snd (run answer (working_loop (n + fuel) repoPath f)))
       = 3 * n + length (snd (run answer (working_loop fuel repoPath g))).
Proof.
  induction 1 as [f|f ref data ref' f' n g Hls Hrecent Hlog Hne Hparse _ IH];
    intros fuel.
  - split; reflexivity.
  - cbn [Nat.add WorkingUri.working_loop].
    rewrite (AwaitFacts.run_await _ _ _ _ Hls).
    rewrite (AwaitFacts.run_await _ _ _ _ Hrecent).
    rewrite (AwaitFacts.run_await _ _ _ _ Hlog).
    rewrite Hne, Hparse.
    destruct (IH fuel) as [IH1 IH2].
    destruct (run answer (working_loop (n + fuel) repoPath f')) as [r t].
    cbn [fst snd length] in *. split; [exact IH1|]. rewrite IH2. lia.
Qed.

(** X26. [getWorkingUri] follows renames: when the file of the uri is not
    listed and [n] renames in a row, each found in the most recent commit of
    the name before, lead to a name that is listed, it resolves to the uri of
    the first line of that listing, having gone [n + 1] times around its loop
    and awaited [3 * n + 1] calls. *)
Theorem getWorkingUri_follows_renames :
  forall (uri : Nav.Uri) (n : nat) (g data : string) (fuel : nat),
    renamed (relativeTo uri repoPath) n g ->
    answer _ (ls_files repoPath g) = Ok (Some data) ->
    n < fuel ->
    let r :=
      run answer
        (getWorkingUri relativeTo resolve first_line parseSimpleRenamed
           similarityThreshold fuel repoPath uri) in
    fst r = Resolved (Some (Some (Nav.resolveToUri resolve (first_line data)
                                    repoPath)))
    /\ length (snd r) = 3 * n + 1.
Proof.
  intros uri n g data fuel Hrenamed Hls Hfuel r. subst r.
  unfold getWorkingUri.
  replace fuel with (n + S (fuel - n - 1)) by lia.
  destruct (working_loop_renamed _ _ _ Hrenamed (S (fuel - n - 1))) as [H1 H2].
  rewrite H1, H2. cbn [WorkingUri.working_loop].
  rewrite (AwaitFacts.run_await _ _ _ _ Hls). cbn [run fst snd length].
  split; [reflexivity|lia].
Qed.

End WorkingFile.

Lemma getWorkingUri_follows_renames_witness :
  fst (Async.run WorkingUriSample.answer
         (WorkingUriSample.getWorkingUri 2 "/repo" {| Nav.fsPath := "old.txt" |}))
  = Async.Resolved (Some (Some {| Nav.fsPath := "new.txt" |})).
Proof.
  apply (getWorkingUri_follows_renames NavSample.relativeTo NavSample.resolve
           WorkingUriSample.first_line WorkingUriSample.parseSimpleRenamed
           None WorkingUriSample.answer "/repo"
           {| Nav.fsPath := "old.txt" |} 1 "new.txt" "new.txt" 2).
  - eapply (WorkingUriSpec.renamed_step _ _ _ _ "old.txt" "1a2b3c4"
              (Some "new.txt") "1a2b3c4" "new.txt" 0 "new.txt");
      try reflexivity.
    apply WorkingUriSpec.renamed_here.
  - reflexivity.
  - lia.
Defined.

(** ** The uris of revisions *)

Module UrisFacts.
Import Uris.

Lemma substring_all s : String.substring 0 (String.length s) s = s.
Proof. induction s as [|a s IH]; simpl; [reflexivity|]. rewrite IH. reflexivity. Qed.

Lemma append_cons a s t : (String a s ++ t)%string = String a (s ++ t)%string.
Proof. reflexivity. Qed.

Lemma substring_split s i :
  i <= String.length s ->
  s = (String.substring 0 i s ++ substring_from i s)%string.
Proof.
  unfold substring_from. revert i.
  induction s as [|a s IH]; intros [|i] Hi; simpl in *; try lia.
  - reflexivity.
  - rewrite substring_all. reflexivity.
  - rewrite append_cons. f_equal. apply IH. lia.
Qed.

Lemma substring_prefix_length s i :
  i <= String.length s -> String.length (String.substring 0 i s) = i.
Proof.
  revert i. induction s as [|a s IH]; intros [|i] Hi; simpl in *; try lia.
  rewrite IH; lia.
Qed.

Lemma substring_from_length s i :
  String.length (substring_from i s) = String.length s - i.
Proof.
  unfold substring_from. revert i.
  induction s as [|a s IH]; intros [|i]; simpl; try reflexivity.
  - rewrite substring_all. reflexivity.
  - apply IH.
Qed.

Lemma index_bound x s i : String.index 0 x s = Some i -> i <= String.length s.
Proof.
  revert i. induction s as [|a s IH]; intros i; cbn [String.index].
  - destruct x; [intros [= <-]; simpl; lia|discriminate].
  - destruct (String.prefix x (String a s)); [intros [= <-]; lia|].
    destruct (String.index 0 x s) as [n|]; [|discriminate].
    intros [= <-]. specialize (IH n eq_refl). simpl. lia.
Qed.

(** From its first occurrence on, the string begins with what was looked
    for. *)
Lemma index_prefix x s i :
  String.index 0 x s = Some i -> String.prefix x (substring_from i s) = true.
Proof.
  unfold substring_from. revert i.
  induction s as [|a s IH]; intros i; cbn [String.index].
  - destruct x; [intros [= <-]; reflexivity|discriminate].
  - destruct (String.prefix x (String a s)) eqn:Hp.
    + intros [= <-]. rewrite Nat.sub_0_r, substring_all. exact Hp.
    + destruct (String.index 0 x s) as [n|]; [|discriminate].
      intros [= <-]. cbn [String.length Nat.sub String.substring].
      apply IH. reflexivity.
Qed.

Lemma prefix_cons c x a s :
  String.prefix (String c x) (String a s)
  = if ascii_dec c a then String.prefix x s else false.
Proof. reflexivity. Qed.

Lemma prefix_empty s : String.prefix "" s = true.
Proof. destruct s; reflexivity. Qed.

(** Up to the first slash there is no slash. *)
Lemma index_slash_before s i :
  String.index 0 slash s = Some i ->
  String.index 0 slash (String.substring 0 i s) = None.
Proof.
  unfold slash. revert i. induction s as [|a s IH]; intros i; [discriminate|].
  cbn [String.index]. rewrite prefix_cons, prefix_empty.
  destruct (ascii_dec "/" a) as [Ha|Ha].
  - intros [= <-]. reflexivity.
  - destruct (String.index 0 "/" s) as [n|]; [|discriminate].
    intros [= <-]. cbn [String.substring String.index].
    rewrite prefix_cons, (IH n eq_refl).
    destruct (ascii_dec "/" a); [contradiction|reflexivity].
Qed.

Lemma unc_condition fsPath :
  String.prefix slash fsPath
  && bool_decide (String.get 1 fsPath = Some "/"%char)
  = String.prefix "//" fsPath.
Proof.
  unfold slash. destruct fsPath as [|a [|b s]]; [reflexivity| |].
  - rewrite !prefix_cons. destruct (ascii_dec "/" a); reflexivity.
  - rewrite !prefix_cons, !prefix_empty. cbn [String.get].
    destruct (ascii_dec "/" a); [|reflexivity].
    destruct (ascii_dec "/" b) as [<-|Hb].
    + rewrite bool_decide_eq_true_2; reflexivity.
    + rewrite bool_decide_eq_false_2; [reflexivity|congruence].
Qed.

Lemma prefix_unc fsPath :
  String.prefix "//" fsPath = true -> exists rest, fsPath = ("//" ++ rest)%string.
Proof.
  destruct fsPath as [|a [|b s]]; [discriminate| |].
  - rewrite !prefix_cons. destruct (ascii_dec "/" a); discriminate.
  - rewrite !prefix_cons.
    destruct (ascii_dec "/" a) as [<-|]; [|discriminate].
    destruct (ascii_dec "/" b) as [<-|]; [|discriminate].
    intros _. exists s. reflexivity.
Qed.

Lemma unc_prefix rest : String.prefix "//" ("//" ++ rest) = true.
Proof.
  change ("//" ++ rest)%string with (String "/" (String "/" rest)).
  rewrite !prefix_cons, prefix_empty.
  destruct (ascii_dec "/" "/"); [reflexivity|contradiction].
Qed.

Lemma index_from_2 x rest :
  String.index 2 x ("//" ++ rest)
  = match String.index 0 x rest with
    | Some n => Some (S (S n))
    | None => None
    end.
Proof.
  change ("//" ++ rest)%string with (String "/" (String "/" rest)).
  cbn [String.index]. destruct (String.index 0 x rest); reflexivity.
Qed.

Lemma substring_to_2 i rest :
  substring_to 2 (S (S i)) ("//" ++ rest) = String.substring 0 i rest.
Proof.
  unfold substring_to. cbn [Nat.sub]. rewrite Nat.sub_0_r. reflexivity.
Qed.

Lemma substring_from_2 i rest :
  substring_from (S (S i)) ("//" ++ rest) = substring_from i rest.
Proof. reflexivity. Qed.

Lemma prefix_length x s :
  String.prefix x s = true -> String.length x <= String.length s.
Proof.
  revert s. induction x as [|c x IH]; intros [|a s]; simpl; try lia;
    try discriminate.
  destruct (ascii_dec c a); [|discriminate]. intros H. apply IH in H. lia.
Qed.

Lemma prefix_same_length x s :
  String.prefix x s = true -> String.length s <= String.length x -> s = x.
Proof.
  revert s. induction x as [|c x IH]; intros [|a s]; simpl; try lia;
    try discriminate; try reflexivity.
  destruct (ascii_dec c a) as [<-|]; [|discriminate].
  intros H Hl. f_equal. apply IH; [exact H|lia].
Qed.

Lemma unc_prefix_1 rest : String.prefix "/" ("/" ++ rest) = true.
Proof.
  change ("/" ++ rest)%string with (String "/" rest).
  rewrite prefix_cons, prefix_empty.
  destruct (ascii_dec "/" "/"); [reflexivity|contradiction].
Qed.

Lemma ensureValidUNCPath_plain authority fsPath :
  String.prefix "//" fsPath = false ->
  ensureValidUNCPath authority fsPath = (authority, fsPath).
Proof.
  intros H. unfold ensureValidUNCPath. rewrite unc_condition, H. reflexivity.
Qed.

Lemma ensureValidUNCPath_unc authority rest :
  let '(a, p) := ensureValidUNCPath authority ("//" ++ rest) in
  String.index 0 "/" a = None
  /\ String.prefix "/" p = true
  /\ (rest = (a ++ p)%string \/ rest = a /\ p = "/").
Proof.
  unfold ensureValidUNCPath. rewrite unc_condition. unfold slash.
  rewrite unc_prefix.
  rewrite index_from_2.
  destruct (String.index 0 "/" rest) as [i|] eqn:Hi.
  - rewrite substring_to_2, substring_from_2.
    pose proof (index_prefix _ _ _ Hi) as Hp.
    pose proof (index_bound _ _ _ Hi) as Hb.
    assert (Hor : Nav.or_else (Some (substring_from i rest)) "/"
                  = substring_from i rest).
    { unfold Nav.or_else. destruct (substring_from i rest); [discriminate|].
      reflexivity. }
    rewrite Hor. split; [apply index_slash_before; exact Hi|].
    split; [exact Hp|]. left. apply substring_split. exact Hb.
  - rewrite (substring_from_2 0). unfold substring_from. rewrite Nat.sub_0_r, substring_all.
    split; [exact Hi|]. split; [reflexivity|]. right. split; reflexivity.
Qed.

End UrisFacts.


Section UrisOfRevisions.
Import Uris.
Variable GitLens : string.
Variables isUncommitted isUncommittedStaged : option string -> bool.
Variable normalizePath : string -> string.
Variable join : string -> string -> string.
Variable fsPath : UriComponents -> string.
Variable parse : string -> option UriRevisionData.
Variable stringify : UriRevisionData -> string.

Let constructor :=
  Uris.constructor GitLens isUncommitted isUncommittedStaged normalizePath join
    fsPath parse stringify.
Let resolve := Uris.resolve normalizePath join.

Lemma kept_sha_kept sha s :
  kept_sha isUncommitted isUncommittedStaged sha = Some s ->
  sha = Some s
  /\ (isUncommittedStaged (Some s) = true \/ isUncommitted (Some s) = false).
Proof.
  unfold kept_sha.
  destruct (isUncommittedStaged sha) eqn:Hs; cbn.
  - intros ->. auto.
  - destruct (isUncommitted sha) eqn:Hu; cbn; [discriminate|].
    intros ->. auto.
Qed.

(** X20. A GitUri built for a commit (on a uri that is not a revision's):
    its repoPath is the commit's and its sha, if it has one, is the commit's
    and is staged or not uncommitted; with the scheme https, http or file its
    path begins with a slash.  When the resolved file path begins with two
    slashes (a UNC share), the authority holds no slash and the two slashes,
    the authority and the path give back the resolved path (or the path is
    a lone slash when nothing follows the authority); otherwise the authority
    is the uri's and the path is the resolved path, with a slash before it
    where the scheme asks for one. *)
Theorem constructor_of_a_commit_splits_the_path :
  forall (uri : UriComponents) (commit : GitCommitish),
    scheme uri <> GitLens ->
    let resolved :=
      resolve (Nav.or_else (fileName commit) (fsPath uri))
        (Some (repoPath commit)) in
    exists g,
      constructor (Some uri) (Some (OfCommit commit)) = Some g
      /\ g_repoPath g = Some (repoPath commit)
      /\ (forall s,
            g_sha g = Some s ->
            sha commit = Some s
            /\ (isUncommittedStaged (Some s) = true
                \/ isUncommitted (Some s) = false))
      /\ (In (scheme uri) ["https"; "http"; "file"] ->
          String.prefix "/" (path (components g)) = true)
      /\ (if String.prefix "//" resolved
          then
            String.index 0 "/" (authority (components g)) = None
            /\ (resolved
                = ("//" ++ authority (components g) ++ path (components g))%string
                \/ resolved = ("//" ++ authority (components g))%string
                   /\ path (components g) = "/")
          else
            authority (components g) = authority uri
            /\ (path (components g) = resolved
                \/ path (components g) = ("/" ++ resolved)%string)).
Proof.
  intros uri commit Hscheme resolved.
  apply String.eqb_neq in Hscheme.
  unfold constructor, Uris.constructor. rewrite Hscheme.
  fold resolve. fold resolved.
  destruct (String.prefix "//" resolved) eqn:Hunc.
  - destruct (UrisFacts.prefix_unc _ Hunc) as [rest Hrest]. rewrite Hrest.
    pose proof (UrisFacts.ensureValidUNCPath_unc (authority uri) rest) as H.
    destruct (ensureValidUNCPath (authority uri) ("//" ++ rest)) as [a p].
    destruct H as (Ha & Hp & Hsplit).
    assert (Hpath : (if Nat.eqb (String.length p) 0 then slash
                     else if negb (String.prefix slash p)
                          then ("/" ++ p)%string else p) = p).
    { unfold slash. rewrite Hp. destruct p; [discriminate|reflexivity]. }
    rewrite Hpath.
    eexists. split; [reflexivity|]. cbn [g_repoPath g_sha components path authority].
    split; [reflexivity|]. split; [apply kept_sha_kept|].
    split; [destruct (_ || _); intros _; exact Hp|].
    split; [exact Ha|].
    destruct (_ || _); destruct Hsplit as [->| [-> ->]]; auto.
  - rewrite (UrisFacts.ensureValidUNCPath_plain _ _ Hunc).
    eexists. split; [reflexivity|]. cbn [g_repoPath g_sha components path authority].
    split; [reflexivity|]. split; [apply kept_sha_kept|].
    split.
    + intros Hin.
      assert (Hs : String.eqb (scheme uri) "https" || String.eqb (scheme uri) "http"
                   || String.eqb (scheme uri) "file" = true).
      { destruct Hin as [<-|[<-|[<-|[]]]]; reflexivity. }
      rewrite Hs. unfold slash.
      destruct (Nat.eqb _ _); [reflexivity|].
      destruct (String.prefix "/" resolved) eqn:Hp; [exact Hp|].
      apply (UrisFacts.unc_prefix_1 resolved).
    + split; [reflexivity|].
      destruct (_ || _); [|left; reflexivity]. unfold slash.
      destruct (Nat.eqb _ _) eqn:He.
      * right. apply Nat.eqb_eq in He. destruct resolved; [reflexivity|discriminate].
      * destruct (String.prefix "/" resolved); auto.
Qed.

(** X21. A GitUri built on the uri of a revision (the GitLens scheme), whose
    query parses: the uri keeps its path and takes the repoPath of the query's
    data; the query is written again with the data's path fixed.  When the
    data's path occurs in the uri's path, the fixed path is the uri's path
    from the first occurrence on, so it begins with the data's path.  When it
    does not occur and is not longer than the uri's path, the fixed path is
    the last character of the uri's path; when it is longer, it stays. *)
Theorem constructor_of_a_revision_fixes_the_path :
  forall (uri : UriComponents) (commitOrRepoPath : option CommitOrRepoPath)
         (data : UriRevisionData),
    scheme uri = GitLens ->
    parse (query uri) = Some data ->
    exists g fixed,
      constructor (Some uri) commitOrRepoPath = Some g
      /\ path (components g) = path uri
      /\ g_repoPath g = Some (d_repoPath data)
      /\ query (components g)
         = stringify {| d_path := fixed; d_ref := d_ref data;
                        d_repoPath := d_repoPath data |}
      /\ match String.index 0 (d_path data) (path uri) with
         | Some i =>
             String.prefix (d_path data) fixed = true
             /\ exists before,
                  path uri = (before ++ fixed)%string
                  /\ String.length before = i
         | None =>
             if Nat.leb (String.length (d_path data)) (String.length (path uri))
             then exists before c,
                    path uri = (before ++ String c "")%string
                    /\ fixed = String c ""
             else fixed = d_path data
         end.
Proof.
  intros uri c data Hscheme Hparse.
  unfold constructor, Uris.constructor.
  rewrite Hscheme, String.eqb_refl, Hparse.
  unfold indexOf.
  destruct (String.index 0 (d_path data) (path uri)) as [i|] eqn:Hi.
  - pose proof (UrisFacts.index_bound _ _ _ Hi) as Hb.
    pose proof (UrisFacts.index_prefix _ _ _ Hi) as Hp.
    pose proof (UrisFacts.substring_split _ _ Hb) as Hsplit.
    pose proof (UrisFacts.substring_prefix_length _ _ Hb) as Hlen.
    assert (Hsub : substr (Z.of_nat i) (path uri) = substring_from i (path uri)).
    { unfold substr. destruct (Z.ltb_spec (Z.of_nat i) 0); [lia|].
      rewrite Nat2Z.id. reflexivity. }
    exists
      {| components :=
           {| scheme := GitLens; authority := authority uri; path := path uri;
              query := stringify {| d_path := substring_from i (path uri);
                                    d_ref := d_ref data;
                                    d_repoPath := d_repoPath data |};
              fragment := fragment uri |};
         g_repoPath := Some (d_repoPath data);
         g_sha := kept_sha isUncommitted isUncommittedStaged (d_ref data);
         g_versionedPath := None |}, (substring_from i (path uri)).
    split.
    + destruct (Z.ltb_spec (Z.of_nat i + Z.of_nat (String.length (d_path data)))
                  (Z.of_nat (String.length (path uri)))) as [Hlt|Hge].
      * cbn [d_repoPath d_ref d_path]. rewrite Hsub.
        destruct (Z.eqb_spec (Z.of_nat i) 0) as [H0|H0]; [|reflexivity].
        assert (i = 0) as -> by lia.
        unfold substring_from. rewrite Nat.sub_0_r, UrisFacts.substring_all.
        reflexivity.
      * (* the data's path is the end of the uri's path *)
        assert (Hd : substring_from i (path uri) = d_path data).
        { apply UrisFacts.prefix_same_length; [exact Hp|].
          rewrite UrisFacts.substring_from_length.
          pose proof (UrisFacts.prefix_length _ _ Hp) as Hl.
          rewrite UrisFacts.substring_from_length in Hl. lia. }
        rewrite Hd. destruct data; reflexivity.
    + cbn [components path g_repoPath query]. split; [reflexivity|].
      split; [reflexivity|]. split; [reflexivity|]. split; [exact Hp|].
      exists (String.substring 0 i (path uri)). split; [exact Hsplit|exact Hlen].
  - destruct (Nat.leb_spec (String.length (d_path data)) (String.length (path uri)))
      as [Hle|Hgt].
    + destruct (Z.ltb_spec (-1 + Z.of_nat (String.length (d_path data)))
                  (Z.of_nat (String.length (path uri)))) as [Hlt|Hge]; [|lia].
      cbn [Z.eqb].
      assert (Hne : String.length (path uri) <> 0).
      { intros H0. destruct (path uri); [|discriminate].
        destruct (d_path data); [discriminate|]. simpl in Hle. lia. }
      set (n := String.length (path uri) - 1).
      assert (Hsub : substr (-1) (path uri) = substring_from n (path uri)).
      { unfold substr. cbn [Z.ltb Z.compare].
        replace (Z.to_nat (Z.max (Z.of_nat (String.length (path uri)) + -1) 0))
          with n by (subst n; lia).
        reflexivity. }
      rewrite Hsub.
      assert (Hn : n <= String.length (path uri)) by (subst n; lia).
      pose proof (UrisFacts.substring_split _ _ Hn) as Hsplit.
      pose proof (UrisFacts.substring_from_length (path uri) n) as Hl.
      destruct (substring_from n (path uri)) as [|ch [|? ?]] eqn:Hlast;
        simpl in Hl; try (subst n; lia).
      eexists. exists (String ch "").
      split; [reflexivity|]. cbn [components path g_repoPath query d_repoPath d_ref].
      split; [reflexivity|]. split; [reflexivity|]. split; [reflexivity|].
      exists (String.substring 0 n (path uri)), ch. split; [exact Hsplit|reflexivity].
    + destruct (Z.ltb_spec (-1 + Z.of_nat (String.length (d_path data)))
                  (Z.of_nat (String.length (path uri)))) as [Hlt|Hge]; [lia|].
      eexists. exists (d_path data).
      split; [reflexivity|]. cbn [components path g_repoPath query].
      split; [reflexivity|]. split; [reflexivity|].
      split; [destruct data; reflexivity|reflexivity].
Qed.

End UrisOfRevisions.

Lemma constructor_of_a_commit_splits_the_path_witness :
  Uris.scheme UrisSample.share <> "gitlens"
  /\ exists g,
       UrisSample.constructor (Some UrisSample.share)
         (Some (Uris.OfCommit UrisSample.commit)) = Some g
       /\ String.prefix "/" (Uris.path (Uris.components g)) = true
       /\ String.index 0 "/" (Uris.authority (Uris.components g)) = None.
Proof.
  split; [discriminate|].
  destruct (constructor_of_a_commit_splits_the_path
              "gitlens" UrisSample.isUncommitted UrisSample.isUncommittedStaged
              UrisSample.normalizePath UrisSample.join UrisSample.fsPath
              UrisSample.parse UrisSample.stringify
              UrisSample.share UrisSample.commit ltac:(discriminate))
    as (g & Hg & _ & _ & Hslash & Hunc).
  exists g. split; [exact Hg|]. split; [apply Hslash; simpl; auto|].
  apply Hunc.
Defined.

Lemma constructor_of_a_revision_fixes_the_path_witness :
  exists g fixed,
    UrisSample.constructor (Some UrisSample.revision) None = Some g
    /\ Uris.query (Uris.components g) = fixed
    /\ String.prefix "/repo" fixed = true
    /\ exists before,
         "/repo/src/a.txt" = (before ++ fixed)%string
         /\ String.length before = 0.
Proof.
  destruct (constructor_of_a_revision_fixes_the_path
              "gitlens" UrisSample.isUncommitted UrisSample.isUncommittedStaged
              UrisSample.normalizePath UrisSample.join UrisSample.fsPath
              UrisSample.parse UrisSample.stringify
              UrisSample.revision None
              {| Uris.d_path := "/repo"; Uris.d_ref := Some "1a2b3c4";
                 Uris.d_repoPath := "/repo" |} eq_refl eq_refl)
    as (g & fixed & Hg & _ & _ & Hq & Hp & Hb).
  exists g, fixed. split; [exact Hg|]. split; [exact Hq|].
  split; [exact Hp|exact Hb].
Defined.

(** ** The branches that contain a commit *)

Module CommitBranchesFacts.
Import Async CommitBranches CommitBranchesSpec.

Lemma split_line l rest :
  one_line l = true ->
  split nl (l ++ String nl rest) = l :: split nl rest.
Proof.
  induction l as [|a l IH]; intros Hl.
  - change ("" ++ String nl rest)%string with (String nl rest).
    cbn [split]. rewrite Ascii.eqb_refl. reflexivity.
  - rewrite UrisFacts.append_cons. cbn [split one_line] in *.
    apply andb_prop in Hl as [Ha Hl]. apply negb_true_iff in Ha.
    rewrite Ha, (IH Hl). reflexivity.
Qed.

Lemma one_line_app a b :
  one_line a = true -> one_line b = true -> one_line (a ++ b) = true.
Proof.
  induction a as [|c a IH]; intros Ha Hb; [exact Hb|].
  rewrite UrisFacts.append_cons. cbn [one_line] in *.
  apply andb_prop in Ha as [Hc Ha]. rewrite Hc. apply IH; assumption.
Qed.

Lemma substr_mark m n :
  String.length m = 2 -> Uris.substr 2 (m ++ n) = n.
Proof.
  destruct m as [|a [|b [|c m]]]; try discriminate. intros _.
  unfold Uris.substr, Uris.substring_from.
  change (String a (String b "") ++ n)%string with (String a (String b n)).
  change (Z.to_nat (if (2 <? 0)%Z then _ else 2%Z)) with 2.
  cbn [String.length Nat.sub String.substring].
  rewrite Nat.sub_0_r. apply UrisFacts.substring_all.
Qed.

Lemma append_assoc a b c : ((a ++ b) ++ c)%string = (a ++ b ++ c)%string.
Proof.
  induction a as [|x a IH]; [reflexivity|].
  rewrite !UrisFacts.append_cons, IH. reflexivity.
Qed.

Lemma listing_lines es :
  Forall well_formed es ->
  List.filter Boolean
    (map (fun b => trim (Uris.substr 2 b)) (split nl (listing es)))
  = map snd es.
Proof.
  induction 1 as [|[m n] es (Hm & Hlm & Hln & Hne & Htrim) _ IH];
    [reflexivity|].
  cbn [fst snd] in *.
  change (listing ((m, n) :: es))
    with ((m ++ n ++ String nl "") ++ listing es)%string.
  replace ((m ++ n ++ String nl "") ++ listing es)%string
    with ((m ++ n) ++ String nl (listing es))%string
    by (rewrite !append_assoc; reflexivity).
  rewrite split_line by (apply one_line_app; assumption).
  cbn [map List.filter]. rewrite (substr_mark _ _ Hm), Htrim.
  assert (Hb : Boolean n = true) by (destruct n; [contradiction|reflexivity]).
  rewrite Hb, IH. reflexivity.
Qed.

End CommitBranchesFacts.

(** X22. The branches read back from a listing: when the tool prints one line
    per branch, each a mark of two characters and then a name that is not
    empty and has no white space around it, [getCommitBranches] resolves to
    the names, in the order printed, having asked the tool once. *)
Theorem getCommitBranches_reads_the_names :
  forall (answer : forall X, CommitBranches.Eff X -> X)
         (repoPath ref : string) (remotes : option bool)
         (es : list (string * string)),
    Forall CommitBranchesSpec.well_formed es ->
    answer _ (CommitBranches.branch__contains repoPath ref remotes)
    = Async.Ok (Some (CommitBranchesSpec.listing es)) ->
    Async.run answer (CommitBranches.getCommitBranches repoPath ref remotes)
    = (Async.Resolved (map snd es),
       [Async.awaited (CommitBranches.branch__contains repoPath ref remotes)]).
Proof.
  intros answer repoPath ref remotes es Hes Hanswer.
  unfold CommitBranches.getCommitBranches.
  rewrite (AwaitFacts.run_await _ _ _ _ Hanswer).
  destruct es as [|e es].
  - reflexivity.
  - assert (Hne : Nav.is_empty (Some (CommitBranchesSpec.listing (e :: es))) = false).
    { inversion Hes as [|? ? (Hm & _) _]; subst.
      destruct e as [[|a m] n]; [discriminate|]. reflexivity. }
    rewrite Hne. cbn [Async.run default].
    change (id (CommitBranchesSpec.listing (e :: es)))
      with (CommitBranchesSpec.listing (e :: es)).
    fold CommitBranchesSpec.nl.
    rewrite (CommitBranchesFacts.listing_lines _ Hes). reflexivity.
Qed.

Lemma getCommitBranches_reads_the_names_witness :
  Async.run CommitBranchesSample.answer
    (CommitBranches.getCommitBranches "/repo" "1a2b3c4" None)
  = (Async.Resolved ["main"; "feature/next"],
     [Async.awaited (CommitBranches.branch__contains "/repo" "1a2b3c4" None)]).
Proof.
  apply (getCommitBranches_reads_the_names CommitBranchesSample.answer
           "/repo" "1a2b3c4" None [("* ", "main"); ("  ", "feature/next")]).
  - repeat constructor; discriminate.
  - reflexivity.
Defined.

(** ** Incoming activity *)

Section ReflogPages.
Import Async Reflog.
Context {GitReflogRecord : Type}.
Variable parse :
  string -> string -> list string -> nat -> nat
  -> option (@ReflogData GitReflogRecord).
Variables maxListItems maxSearchItems : option nat.

(** X23. The closure [more] of a reflog never rejects and asks the tool once,
    for the reflog of the same repository with a hundred times the limit,
    skipping the [total] of the reflog it is bound to.  When the tool fails
    or prints nothing, or nothing is parsed, the result is the bound reflog
    with [hasMore] false; otherwise the records of the page follow the bound
    records, counts and totals add up, the limit grows by the limit asked for,
    [hasMore] is the page's, and the result's own [more] is bound to the
    result. *)
Theorem getReflogMoreFn_appends_the_page :
  forall (answer : forall X, Eff X -> X) (bound : ReflogData)
         (options : Options) (limit : option nat),
    let asked := default (default 0 maxSearchItems) limit in
    let call :=
      reflog (repoPath bound)
        {| all := all options; branch := branch options;
           o_limit := Some (asked * 100); o_skip := Some (total bound) |} in
    let page :=
      match answer _ call with
      | Ok (Some data) =>
          parse data (repoPath bound) reflogCommands asked (asked * 100)
      | _ => None
      end in
    exists result,
      run answer (getReflogMoreFn parse maxListItems maxSearchItems
                    bound options limit)
      = (Resolved result, [awaited call])
      /\ match page with
         | None =>
             data result = set_hasMore bound false
             /\ more result = Some (MoreReflog bound options)
         | Some page =>
             records (data result) = records bound ++ records page
             /\ count (data result) = count bound + count page
             /\ total (data result) = total bound + total page
             /\ Reflog.limit (data result)
                = Some (default 0 (Reflog.limit bound) + asked)
             /\ hasMore (data result) = hasMore page
             /\ repoPath (data result) = repoPath bound
             /\ more result = Some (MoreReflog (data result) options)
         end.
Proof.
  intros answer bound options limit asked call page.
  subst page call. unfold getReflogMoreFn, getIncomingActivity.
  cbn [bind run o_limit all branch o_skip default]. fold asked.
  change (id asked) with asked.
  destruct (answer _ _) as [[data|]|ex]; cbn [bind run].
  - destruct (parse data (repoPath bound) reflogCommands asked (asked * 100))
      as [page|]; cbn [bind run].
    + eexists. split; [reflexivity|]. cbn. repeat split; reflexivity.
    + eexists. split; [reflexivity|]. split; reflexivity.
  - eexists. split; [reflexivity|]. split; reflexivity.
  - eexists. split; [reflexivity|]. split; reflexivity.
Qed.

End ReflogPages.

(** ** The search for repositories *)

Section RepositorySearch.
Import Async RepoSearch RepoSearchSpec.
Variable readdir : string -> Reply (list Dirent).
Variable resolve : string -> string -> string.
Variable excludes : gmap string bool.

Abbreviation repositorySearchCore :=
  (RepoSearch.repositorySearchCore readdir resolve).
Abbreviation found := (RepoSearchSpec.found readdir resolve excludes).

Abbreviation visit := (RepoSearchSpec.visit readdir resolve excludes).
Abbreviation via := (RepoSearchSpec.via readdir resolve excludes).
Abbreviation searched := (RepoSearchSpec.searched readdir resolve excludes).

Lemma repositorySearchCore_eq root depth repositories :
  repositorySearchCore root depth excludes repositories
  = match readdir root with
    | Err err => Err err
    | Ok files =>
        if Nat.eqb (List.length files) 0 then Ok repositories
        else Ok (fold_left (visit root depth) files repositories)
    end.
Proof. destruct depth; reflexivity. Qed.

Lemma found_listed root depth p :
  found root depth p -> exists files, readdir root = Ok files.
Proof.
  intros (k & dir & _ & Hb & (files & f & Hr & _) & _).
  inversion Hb; subst; eauto.
Qed.

(** What is found below a listed directory is found through its entries. *)
Lemma found_through root depth files p :
  readdir root = Ok files ->
  found root depth p <-> exists f, In f files /\ via root depth f p.
Proof.
  intros Hr. unfold RepoSearchSpec.via. split.
  - intros (k & dir & Hk & Hb & Hg & ->).
    inversion Hb as [|? files' f k' ? Hr' Hin Hd Hn He Hb']; subst.
    + destruct Hg as (files' & f & Hr' & Hin & Hd & Hn).
      rewrite Hr in Hr'. injection Hr' as <-.
      exists f. auto.
    + rewrite Hr in Hr'. injection Hr' as <-.
      exists f. split; [exact Hin|]. split; [exact Hd|]. right.
      split; [exact Hn|]. split; [exact He|].
      destruct depth as [|d]; [lia|]. exists d. split; [reflexivity|].
      exists k', dir. split; [lia|]. auto.
  - intros (f & Hin & Hd & [[Hn ->]|(Hn & He & d & -> & k & dir & Hk & Hb & Hg & ->)]).
    + exists 0, root. split; [lia|]. split; [constructor|].
      split; [|reflexivity]. exists files, f. auto.
    + exists (S k), dir. split; [lia|]. split; [|auto].
      eapply below_child; eauto.
Qed.

Lemma visit_adds root depth acc f p :
  (forall d, depth = S d -> searched d) ->
  In p (visit root depth acc f) <-> In p acc \/ via root depth f p.
Proof.
  intros Hnested. unfold RepoSearchSpec.visit, RepoSearchSpec.via.
  destruct (isDirectory f) eqn:Hd; cbn [negb];
    [|split; [auto|intros [H|[[=] _]]; exact H]].
  destruct (String.eqb_spec (name f) ".git") as [Hn|Hn].
  { rewrite in_app_iff, Hn. cbn [In]. split.
    - intros [H|[<-|[]]]; auto.
    - intros [H|(_ & [[_ ->]|(Hn' & _)])]; [auto|auto|congruence]. }
  destruct depth as [|d].
  { split; [auto|].
    intros [H|(_ & [[Hn' _]|(_ & _ & d & [=] & _)])]; [auto|congruence]. }
  destruct (excluded excludes (name f)) eqn:He; cbn [negb].
  { split; [auto|].
    intros [H|(_ & [[Hn' _]|(_ & [=] & _)])]; [auto|congruence]. }
  pose proof (Hnested d eq_refl (resolve root (name f)) acc) as Hsub.
  clear Hnested. rename Hsub into Hnested.
  destruct (repositorySearchCore (resolve root (name f)) d excludes acc)
    as [r|err].
  - rewrite Hnested. split.
    + intros [H|H]; [auto|]. right. split; [reflexivity|]. right. eauto.
    + intros [H|(_ & [[Hn' _]|(_ & _ & d' & [= <-] & H)])];
        [auto|congruence|auto].
  - split; [auto|].
    intros [H|(_ & [[Hn' _]|(_ & _ & d' & [= <-] & H)])];
      [auto|congruence|].
    apply found_listed in H as [files H]. congruence.
Qed.

Lemma visit_fold root depth :
  (forall d, depth = S d -> searched d) ->
  forall l acc p,
    In p (fold_left (visit root depth) l acc)
    <-> In p acc \/ exists f, In f l /\ via root depth f p.
Proof.
  intros Hnested. induction l as [|f l IH]; intros acc p; cbn [fold_left].
  - split; [auto|intros [H|(f & [] & _)]; exact H].
  - rewrite IH, (visit_adds _ _ _ _ _ Hnested). split.
    + intros [[H|H]|(g & Hg & H)]; [auto| |].
      * right. exists f. simpl. auto.
      * right. exists g. simpl. auto.
    + intros [H|(g & [<-|Hg] & H)]; [auto|auto|].
      right. exists g. auto.
Qed.

(** X24. The search for repositories below a folder rejects only when the
    folder itself cannot be listed.  Otherwise it resolves to the paths it was
    given and, besides, exactly the [.git] directories of the directories at
    most [depth] levels below the folder that are reached through listed
    directories which are not excluded and not themselves named [.git]. *)
Theorem repositorySearchCore_finds_within_depth :
  forall (depth : nat) (root : string) (repositories : list string),
    match RepoSearch.repositorySearchCore readdir resolve root depth excludes
            repositories with
    | Ok result =>
        forall p,
          In p result
          <-> In p repositories
              \/ RepoSearchSpec.found readdir resolve excludes root depth p
    | Err err => readdir root = Err err
    end.
Proof.
  intros depth. change (searched depth).
  induction depth as [depth IH] using lt_wf_ind.
  assert (Hnested : forall d, depth = S d -> searched d)
    by (intros d ->; apply IH; lia).
  intros root repositories. rewrite repositorySearchCore_eq.
  destruct (readdir root) as [files|err] eqn:Hr; [|reflexivity].
  destruct (Nat.eqb (List.length files) 0) eqn:Hlen.
  - apply Nat.eqb_eq in Hlen. destruct files; [|discriminate].
    intros p. rewrite (found_through _ _ _ _ Hr).
    split; [auto|intros [H|(f & [] & _)]; exact H].
  - intros p. rewrite (found_through _ _ _ _ Hr).
    apply visit_fold. exact Hnested.
Qed.

End RepositorySearch.

(** On the sample folder: with one level the repository in [a] is found, the
    one below it is not, and the excluded folder is not entered. *)
Example repositorySearchCore_sample :
  RepoSearch.repositorySearchCore RepoSearchSample.readdir
    RepoSearchSample.resolve "/w" 1 RepoSearchSample.excludes []
  = Async.Ok ["/w/.git"; "/w/a/.git"]
  /\ RepoSearch.repositorySearchCore RepoSearchSample.readdir
       RepoSearchSample.resolve "/w" 2 RepoSearchSample.excludes []
     = Async.Ok ["/w/.git"; "/w/a/c/.git"; "/w/a/.git"].
Proof. split; vm_compute; reflexivity. Qed.

(** ** The [more] continuation of every kind of log *)

(** C4 as stated fails in two ways.  The [more] of a search log with
    [hasMore] true does not query again from a ref: it runs the search again,
    skipping the commits the log counts.  And when the query of a [more]
    finds no log, the result keeps the closure of the log it was called on,
    which is bound to that log and not to the result. *)
Lemma more_without_ref_or_fresh_closure :
  SearchLog.hasMore SearchLogSample.page1 = true
  /\ snd (Async.run SearchLogSample.answer
            (SearchLogSample.getLogForSearchMoreFn SearchLogSample.page1
               SearchLogSample.search SearchLogSample.options (Some 5)))
     = [Async.awaited
          (SearchLog.log__search "/repo"
             ["-M"; "--all"; "--full-history"; "--extended-regexp";
              "--regexp-ignore-case"; "-m"; "--author=ann"; "--"]
             {| SearchLog.s_limit := 5; SearchLog.s_skip := Some 1;
                SearchLog.s_useShow := false |});
        Async.awaited (SearchLog.getCurrentUser "/repo")]
  /\ Log.hasMore LogSample.first = true
  /\ fst (Async.run LogSample.single
            (Log.getLogMoreFn LogSample.parse (Some 1) (Some 5) None
               LogSample.first LogSample.options (Log.Limit 5)))
     = Async.Resolved
         {| Log.data := Log.set_hasMore LogSample.first false;
            Log.more := Some (Log.MoreLog LogSample.first LogSample.options) |}
  /\ Log.set_hasMore LogSample.first false <> LogSample.first.
Proof.
  split; [reflexivity|]. split; [vm_compute; reflexivity|].
  split; [reflexivity|]. split; [vm_compute; reflexivity|].
  vm_compute. discriminate.
Qed.

Section MoreOfEveryLog.
Context {User : Type}.
Variable isSha : string -> bool.
Variable parse :
  string -> string -> option string -> option User -> nat -> option bool ->
  option Log.LogData.
Variable parse_search :
  string -> string -> option User -> nat -> option Log.LogData.
Variables maxListItems maxSearchItems similarityThreshold : option nat.
Variables (log : Log.LogData) (options : Log.LogOptions).
Variables (fileName : string) (fileOptions : Log.FileOptions).
Variables (searched : SearchLog.LogData) (search : SearchLog.SearchPattern)
          (searchOptions : SearchLog.Options).

Let getLog := Log.getLog parse maxListItems similarityThreshold.
Let moreFn :=
  Log.getLogMoreFn parse maxListItems maxSearchItems similarityThreshold
    log options.
Let fileMoreFn :=
  @Log.getLogForFileMoreFn User maxSearchItems log fileName fileOptions.
Let git_log (ref : string) (limit : nat) :=
  @Log.git_log User (Log.repoPath log) (Some ref)
    {| Log.a_authors := Log.o_authors options;
       Log.a_limit := limit;
       Log.a_merges := default true (Log.o_merges options);
       Log.a_reverse := Log.o_reverse options;
       Log.a_similarityThreshold := similarityThreshold |}.
Let getLogForFile (ref : string) (limit : nat) :=
  @Log.getLogForFile User (Some (Log.repoPath log)) fileName
    (Log.file_with_limit_ref fileOptions (Some limit) (Some ref)).
Let getLogForSearch :=
  @SearchLog.getLogForSearch User isSha parse_search maxSearchItems
    similarityThreshold.
Let searchMoreFn :=
  @SearchLog.getLogForSearchMoreFn User isSha parse_search maxSearchItems
    similarityThreshold searched search searchOptions.

(** What the [more] of a search log comes to, given what its search finds. *)
Lemma searchMoreFn_run (limit : option nat)
    (answer : forall X, @SearchLog.Eff User X -> X) :
  let n := default (default 0 maxSearchItems) limit in
  exists operations page rest,
    Search.parseSearchOperations isSha (SearchLog.pattern search)
    = Some operations
    /\ fst (Async.run answer
              (getLogForSearch (SearchLog.repoPath searched) search
                 (SearchLogSpec.next_page searched n)))
       = Async.Resolved page
    /\ Async.run answer (searchMoreFn limit)
       = (Async.Resolved
            match page with
            | None =>
                {| SearchLog.data := SearchLog.set_hasMore searched false;
                   SearchLog.more :=
                     Some (SearchLog.MoreSearch searched search searchOptions) |}
            | Some moreLog =>
                let merged :=
                  {| SearchLog.repoPath := SearchLog.repoPath searched;
                     SearchLog.authors :=
                       JsMap.merge (SearchLog.authors searched)
                         (SearchLog.authors (SearchLog.data moreLog));
                     SearchLog.commits :=
                       JsMap.merge (SearchLog.commits searched)
                         (SearchLog.commits (SearchLog.data moreLog));
                     SearchLog.sha := SearchLog.sha searched;
                     SearchLog.range := SearchLog.range searched;
                     SearchLog.count :=
                       SearchLog.count searched
                       + SearchLog.count (SearchLog.data moreLog);
                     SearchLog.limit :=
                       Some (default 0 (SearchLog.limit searched) + n);
                     SearchLog.hasMore :=
                       SearchLog.hasMore (SearchLog.data moreLog);
                     SearchLog.query :=
                       Some (SearchLog.QuerySearch
                               (SearchLog.repoPath searched) search
                               searchOptions) |} in
                {| SearchLog.data := merged;
                   SearchLog.more :=
                     Some (SearchLog.MoreSearch merged search searchOptions) |}
            end,
          Async.awaited
            (SearchLog.log__search (SearchLog.repoPath searched)
               (fst (SearchLog.search_args similarityThreshold
                       (SearchLog.with_defaults search) operations))
               {| SearchLog.s_limit := n;
                  SearchLog.s_skip := Some (SearchLog.count searched);
                  SearchLog.s_useShow :=
                    snd (SearchLog.search_args similarityThreshold
                           (SearchLog.with_defaults search) operations) |})
          :: rest).
Proof.
  intros n.
  destruct (getLogForSearch_resolves isSha parse_search maxSearchItems
              similarityThreshold (SearchLog.repoPath searched) search
              (SearchLogSpec.next_page searched n) answer)
    as (operations & page & rest & Hp & Hrun).
  exists operations, page, rest. split; [exact Hp|].
  fold getLogForSearch in Hrun. split; [rewrite Hrun; reflexivity|].
  subst searchMoreFn. unfold SearchLog.getLogForSearchMoreFn.
  rewrite AsyncFacts.run_bind. fold getLogForSearch.
  change {| SearchLog.o_limit := Some (default (default 0 maxSearchItems) limit);
            SearchLog.o_skip := Some (SearchLog.count searched) |}
    with (SearchLogSpec.next_page searched n).
  rewrite Hrun. cbn [SearchLogSpec.next_page SearchLog.o_limit SearchLog.o_skip].
  destruct page as [moreLog|]; cbn [Async.run]; rewrite app_nil_r; reflexivity.
Qed.

(** C4 (amended). The [more] continuation of a log does not look at
    [hasMore].  For a log of [getLog] or [getLogForFile], called with a
    number [n] it queries again with the ref [oldest^] and the limit [n];
    called with an [until] sha that the log does not have, it queries the
    range [until^..oldest^] with no limit; called with an [until] sha that
    the log has, it returns the log itself.  For a log of [getLogForSearch],
    called with a number [n] (or [maxSearchItems], or 0) it runs the search
    again with that limit, skipping as many commits as the log counts.  In
    each case, when the query returns a page, the result has the commits of
    the log first, in their order, followed by the new ones of the page, the
    sum of both counts, [hasMore] taken from the page (or true for [until]),
    and a [more] closure bound to that result; when the query returns no log,
    the result is the log with [hasMore] false, and its [more] is the closure
    that was called, bound to the log as it was. *)
Theorem more_extends_the_log :
  (forall n,
     (exists k, moreFn (Log.Limit n)
                = Async.Vis (git_log (Log.oldest_ref log ++ "^") n) k)
     /\ (exists k, fileMoreFn (Log.Limit n)
                   = Async.Vis
                       (getLogForFile (Log.oldest_ref log ++ "^") n) k))
  /\ (forall until,
        Log.until_present log (Some until) = false ->
        (exists k, moreFn (Log.Until until)
                   = Async.Vis
                       (git_log (until ++ "^.." ++ Log.oldest_ref log ++ "^") 0)
                       k)
        /\ (exists k, fileMoreFn (Log.Until until)
                      = Async.Vis
                          (getLogForFile
                             (until ++ "^.." ++ Log.oldest_ref log ++ "^") 0)
                          k))
  /\ (forall arg answer moreLog,
        Log.until_present log (Log.until_of arg) = false ->
        (fst (Async.run answer
                (getLog (Log.repoPath log)
                   (LogSpec.requery maxSearchItems log options arg)))
         = Async.Resolved (Some moreLog) ->
         exists result,
           fst (Async.run answer (moreFn arg)) = Async.Resolved result
           /\ LogSpec.extends log (Log.data moreLog) arg result
           /\ Log.more result = Some (Log.MoreLog (Log.data result) options))
        /\ (answer _ (Log.getLogForFile (Some (Log.repoPath log)) fileName
                        (LogSpec.file_requery maxSearchItems log fileOptions arg))
            = Async.Ok (Some moreLog) ->
            exists result,
              fst (Async.run answer (fileMoreFn arg)) = Async.Resolved result
              /\ LogSpec.extends log (Log.data moreLog) arg result
              /\ Log.more result
                 = Some (Log.MoreLogForFile (Log.data result) fileName
                           fileOptions)))
  /\ (forall arg answer,
        Log.until_present log (Log.until_of arg) = false ->
        (fst (Async.run answer
                (getLog (Log.repoPath log)
                   (LogSpec.requery maxSearchItems log options arg)))
         = Async.Resolved None ->
         fst (Async.run answer (moreFn arg))
         = Async.Resolved
             {| Log.data := Log.set_hasMore log false;
                Log.more := Some (Log.MoreLog log options) |})
        /\ (answer _ (Log.getLogForFile (Some (Log.repoPath log)) fileName
                        (LogSpec.file_requery maxSearchItems log fileOptions arg))
            = Async.Ok None ->
            fst (Async.run answer (fileMoreFn arg))
            = Async.Resolved
                {| Log.data := Log.set_hasMore log false;
                   Log.more := Some (Log.MoreLogForFile log fileName
                                       fileOptions) |}))
  /\ (forall until,
        Log.until_present log (Some until) = true ->
        moreFn (Log.Until until)
        = Async.Ret {| Log.data := log;
                       Log.more := Some (Log.MoreLog log options) |}
        /\ fileMoreFn (Log.Until until)
           = Async.Ret {| Log.data := log;
                          Log.more := Some (Log.MoreLogForFile log fileName
                                              fileOptions) |})
  /\ (forall (limit : option nat)
             (answer : forall X, @SearchLog.Eff User X -> X),
        let n := default (default 0 maxSearchItems) limit in
        let page :=
          fst (Async.run answer
                 (getLogForSearch (SearchLog.repoPath searched) search
                    (SearchLogSpec.next_page searched n))) in
        let result := Async.run answer (searchMoreFn limit) in
        (exists operations rest,
           Search.parseSearchOperations isSha (SearchLog.pattern search)
           = Some operations
           /\ snd result
              = Async.awaited
                  (SearchLog.log__search (SearchLog.repoPath searched)
                     (fst (SearchLog.search_args similarityThreshold
                             (SearchLog.with_defaults search) operations))
                     {| SearchLog.s_limit := n;
                        SearchLog.s_skip := Some (SearchLog.count searched);
                        SearchLog.s_useShow :=
                          snd (SearchLog.search_args similarityThreshold
                                 (SearchLog.with_defaults search)
                                 operations) |})
                :: rest)
        /\ (forall moreLog,
              page = Async.Resolved (Some moreLog) ->
              exists merged,
                fst result
                = Async.Resolved
                    {| SearchLog.data := merged;
                       SearchLog.more :=
                         Some (SearchLog.MoreSearch merged search
                                 searchOptions) |}
                /\ SearchLog.commits merged
                   = JsMap.merge (SearchLog.commits searched)
                       (SearchLog.commits (SearchLog.data moreLog))
                /\ (exists new,
                      JsMap.keys (SearchLog.commits merged)
                      = JsMap.keys (SearchLog.commits searched) ++ new
                      /\ forall k, In k new ->
                           In k (JsMap.keys
                                   (SearchLog.commits (SearchLog.data moreLog)))
                           /\ ~ In k (JsMap.keys (SearchLog.commits searched)))
                /\ SearchLog.count merged
                   = SearchLog.count searched
                     + SearchLog.count (SearchLog.data moreLog)
                /\ SearchLog.hasMore merged
                   = SearchLog.hasMore (SearchLog.data moreLog))
        /\ (page = Async.Resolved None ->
            fst result
            = Async.Resolved
                {| SearchLog.data := SearchLog.set_hasMore searched false;
                   SearchLog.more :=
                     Some (SearchLog.MoreSearch searched search
                             searchOptions) |})).
Proof.
  split; [|split; [|split; [|split; [|split]]]].
  - intros n. split.
    + apply (LogFacts.moreFn_first parse maxListItems maxSearchItems
               similarityThreshold log options (Log.Limit n)).
      reflexivity.
    + apply (LogFacts.fileMoreFn_first (User := User) maxSearchItems log fileName
               fileOptions (Log.Limit n)).
      reflexivity.
  - intros u H. split.
    + apply (LogFacts.moreFn_first parse maxListItems maxSearchItems
               similarityThreshold log options (Log.Until u)).
      exact H.
    + apply (LogFacts.fileMoreFn_first (User := User) maxSearchItems log fileName
               fileOptions (Log.Until u)).
      exact H.
  - intros arg answer moreLog H. split; intros Hq.
    + apply LogFacts.moreFn_merges; assumption.
    + apply LogFacts.fileMoreFn_merges; assumption.
  - intros arg answer H. split; intros Hq.
    + apply LogFacts.moreFn_nothing; assumption.
    + apply LogFacts.fileMoreFn_nothing; assumption.
  - intros u H. split.
    + apply LogFacts.moreFn_present; assumption.
    + apply LogFacts.fileMoreFn_present; assumption.
  - intros limit answer n page result.
    destruct (searchMoreFn_run limit answer)
      as (operations & found & rest & Hp & Hpage & Hrun).
    fold n in Hpage, Hrun. fold page in Hpage. fold result in Hrun.
    split; [|split].
    + exists operations, rest. split; [exact Hp|]. rewrite Hrun. reflexivity.
    + intros moreLog E. rewrite Hpage in E. injection E as ->.
      rewrite Hrun. cbn [fst]. eexists. split; [reflexivity|].
      cbn [SearchLog.commits SearchLog.count SearchLog.hasMore].
      split; [reflexivity|]. split; [apply JsMapFacts.merge_keys|].
      split; reflexivity.
    + intros E. rewrite Hpage in E. injection E as ->.
      rewrite Hrun. reflexivity.
Qed.

End MoreOfEveryLog.

Lemma more_extends_the_log_witness :
  Log.until_present LogSample.first (Some "c3") = true
  /\ Log.getLogMoreFn LogSample.parse (Some 1) (Some 5) None
       LogSample.first LogSample.options (Log.Until "c3")
     = Async.Ret
         {| Log.data := LogSample.first;
            Log.more := Some (Log.MoreLog LogSample.first
                                LogSample.options) |}
  /\ Log.until_present LogSample.first (Log.until_of (Log.Limit 5)) = false
  /\ exists result,
       fst (Async.run LogSample.shallow
              (Log.getLogMoreFn LogSample.parse (Some 1) (Some 5) None
                 LogSample.first LogSample.options (Log.Limit 5)))
       = Async.Resolved result
       /\ JsMap.keys (Log.commits (Log.data result)) = ["c3"; "c2"]
       /\ Log.more result
          = Some (Log.MoreLog (Log.data result) LogSample.options).
Proof.
  destruct (more_extends_the_log SearchLogSample.isSha LogSample.parse
              SearchLogSample.parse (Some 1) (Some 5) None
              LogSample.first LogSample.options
              "a.txt" LogSample.fileOptions
              SearchLogSample.page1 SearchLogSample.search
              SearchLogSample.options) as (_ & _ & Hpage & _ & Hpresent & _).
  split; [reflexivity|]. split; [apply (Hpresent "c3"); reflexivity|].
  split; [reflexivity|].
  edestruct (Hpage (Log.Limit 5) LogSample.shallow) as [H _]; [reflexivity|].
  edestruct H as (result & Hr & Hext & Hmore); [vm_compute; reflexivity|].
  exists result. split; [exact Hr|]. split; [|exact Hmore].
  vm_compute in Hr. injection Hr as <-. reflexivity.
Defined.

(** ** [getBlameForRangeSync]: the authors of the result *)

Module BlameAuthorFacts.
Import Model Blame BlameSpec BlameKeyed JsMapFacts.

Lemma get_Some_In {V} k (v : V) (m : JsMap.t V) :
  JsMap.get k m = Some v -> In (k, v) m.
Proof.
  induction m as [|[k' v'] m IH]; simpl; [discriminate|].
  destruct (String.eqb k k') eqn:E.
  - apply String.eqb_eq in E. intros [= ->]. subst. left. reflexivity.
  - intros H. right. apply IH, H.
Qed.

Lemma get_None_keys {V} k (m : JsMap.t V) :
  JsMap.get k m = None <-> ~ In k (JsMap.keys m).
Proof.
  induction m as [|[k' v'] m IH]; simpl.
  - split; auto.
  - destruct (String.eqb k k') eqn:E.
    + apply String.eqb_eq in E. subst. split; [discriminate|].
      intros H. exfalso. apply H. left. reflexivity.
    + apply String.eqb_neq in E. rewrite IH. split.
      * intros H [Hk|Hk]; [congruence|contradiction].
      * intros H Hk. apply H. right. exact Hk.
Qed.

(** A map read by key does not depend on the order of its entries. *)
Lemma get_perm {V} k (m m' : JsMap.t V) :
  NoDup (JsMap.keys m) -> Permutation m m' -> JsMap.get k m = JsMap.get k m'.
Proof.
  intros Hnd P.
  assert (Hk : Permutation (JsMap.keys m) (JsMap.keys m'))
    by (apply Permutation_map, P).
  destruct (JsMap.get k m) as [v|] eqn:G.
  - symmetry. apply BlameRangeFacts.get_In.
    + rewrite <- Hk. exact Hnd.
    + apply (Permutation_in _ P). apply get_Some_In, G.
  - symmetry. apply get_None_keys. apply get_None_keys in G.
    intros Hin. apply G. apply (Permutation_in _ (Permutation_sym Hk)), Hin.
Qed.

Lemma old_count_set_same k a (m : JsMap.t GitAuthor) :
  old_count k (JsMap.set k a m) = lineCount a.
Proof. unfold old_count. rewrite get_set_same. reflexivity. Qed.

Lemma old_count_set_other k k' a (m : JsMap.t GitAuthor) :
  k <> k' -> old_count k' (JsMap.set k a m) = old_count k' m.
Proof. intros H. unfold old_count. rewrite get_set_other; auto. Qed.

(** One turn of the loop adds the lines of the commit to its author. *)
Lemma range_step_count author shas startLine endLine authors commits c :
  old_count author
    (fst (range_step shas startLine endLine (authors, commits) c))
  = old_count author authors
    + contributes_to author shas startLine endLine c.
Proof.
  unfold range_step, contributes_to, contributes.
  destruct (bool_decide (c_sha c ∈ shas)); cbn [negb fst].
  - set (n := length (List.filter (in_lines startLine endLine) (c_lines c))).
    cbn [with_lines c_author c_lines].
    destruct (String.eqb (c_author c) author) eqn:E.
    + apply String.eqb_eq in E. subst author.
      destruct (JsMap.get (c_author c) authors) as [a|] eqn:G;
        cbn [fst name lineCount]; rewrite old_count_set_same;
        unfold old_count; rewrite G; reflexivity.
    + apply String.eqb_neq in E.
      destruct (JsMap.get (c_author c) authors) as [a|] eqn:G;
        cbn [fst name lineCount];
        rewrite !old_count_set_other by exact E; lia.
  - destruct (String.eqb (c_author c) author); lia.
Qed.

Lemma range_fold_count author shas startLine endLine cs :
  forall authors commits,
    old_count author
      (fst (fold_left (range_step shas startLine endLine) cs
              (authors, commits)))
    = old_count author authors
      + list_sum (map (contributes_to author shas startLine endLine) cs).
Proof.
  induction cs as [|c cs IH]; intros authors commits.
  - simpl. lia.
  - cbn [fold_left].
    pose proof (range_step_count author shas startLine endLine authors
                  commits c) as H.
    destruct (range_step shas startLine endLine (authors, commits) c)
      as [authors' commits'].
    rewrite IH. cbn [fst] in H. rewrite H. cbn [map list_sum]. simpl. lia.
Qed.

Lemma filter_both {A} (f g : A -> bool) l :
  List.filter g (List.filter f l) = List.filter (fun x => f x && g x) l.
Proof.
  induction l as [|a l IH]; simpl; auto.
  destruct (f a); simpl; [destruct (g a)|]; rewrite IH; reflexivity.
Qed.

(** On a blame whose commits are kept under their sha, the lines of a
    commit are by its author. *)
Lemma by_author_in_commit (b : GitBlame) author c l :
  invariant b -> keyed_by_sha (b_commits b) ->
  In c (JsMap.values (b_commits b)) -> In l (c_lines c) ->
  by_author (b_commits b) author l = String.eqb (c_author c) author.
Proof.
  intros Inv Keyed Hc Hl. unfold by_author.
  rewrite (lines_in_their_commit b Inv c l Hc Hl).
  rewrite (BlameRangeFacts.keyed_get (b_commits b) c Keyed Hc). reflexivity.
Qed.

(** What the commits add to an author is the number of the author's lines
    in the slice. *)
Lemma sum_contributes_to (b : GitBlame) (x y : nat) author :
  invariant b -> keyed_by_sha (b_commits b) ->
  let shas : gset string :=
    list_to_set (map l_sha (slice x (y + 1) (b_lines b))) in
  list_sum (map (contributes_to author shas (x + 1) (y + 1))
              (JsMap.values (b_commits b)))
  = lines_of (b_commits b) author (slice x (y + 1) (b_lines b)).
Proof.
  intros Inv Keyed shas. unfold lines_of.
  rewrite <- (BlameFacts.filter_numbered (b_lines b) x y (lines_numbered b Inv)).
  rewrite filter_both.
  rewrite <- (BlameFacts.filter_perm_length _ _ _ (lines_partitioned b Inv)).
  rewrite BlameFacts.filter_concat_length, map_map.
  f_equal. apply map_ext_in. intros c Hc.
  unfold contributes_to.
  pose proof (BlameFacts.contributes_all b x y Inv c Hc) as Hall.
  cbv zeta in Hall. subst shas. rewrite Hall.
  destruct (String.eqb (c_author c) author) eqn:E.
  - f_equal. apply filter_ext_in. intros l Hl.
    rewrite (by_author_in_commit b author c l Inv Keyed Hc Hl), E.
    rewrite andb_true_r. reflexivity.
  - rewrite BlameFacts.filter_none; [reflexivity|].
    intros l Hl.
    rewrite (by_author_in_commit b author c l Inv Keyed Hc Hl), E.
    apply andb_false_r.
Qed.

(** The authors' counts are checked on the names that occur. *)
Lemma aggregated_check authors commits lines :
  forallb (fun a => Nat.eqb (old_count a authors) (lines_of commits a lines))
    (JsMap.keys authors ++ map c_author (JsMap.values commits)) = true ->
  aggregated_by_author authors commits lines.
Proof.
  intros H author. rewrite forallb_forall in H.
  destruct (in_dec String.string_dec author
              (JsMap.keys authors ++ map c_author (JsMap.values commits)))
    as [Hin|Hout].
  - apply Nat.eqb_eq, H, Hin.
  - assert (H0 : old_count author authors = 0).
    { unfold old_count. destruct (JsMap.get author authors) eqn:G; [|reflexivity].
      exfalso. apply Hout, in_or_app. left.
      apply get_Some_In in G. apply (in_map fst) in G. exact G. }
    rewrite H0. unfold lines_of. rewrite BlameFacts.filter_none; [reflexivity|].
    intros l _. unfold by_author.
    destruct (JsMap.get (l_sha l) commits) as [c|] eqn:G; [|reflexivity].
    apply String.eqb_neq. intros E. apply Hout, in_or_app. right.
    subst author. apply get_Some_In in G. apply (in_map snd) in G.
    apply in_map. exact G.
Qed.

End BlameAuthorFacts.

(** C8 as stated fails: its invariant speaks neither of the numbers the
    lines carry nor of the counts the authors hold.  On a blame whose two
    lines carry the numbers 10 and 11, the range of the first line returns
    that line and credits its author with no line; and when the range is the
    whole file the authors are those of the blame, whatever they count. *)
Lemma getBlameForRangeSync_counts_by_line_number :
  BlameSpec.partitioned BlameSample.excerpt
  /\ (let result := Blame.getBlameForRangeSync BlameSample.excerpt
                      (Some "/repo") BlameSample.first_line in
      Model.bl_lines result = [BlameSample.m1]
      /\ Model.bl_authors result
         = [("Ann", {| Model.name := "Ann"; Model.lineCount := 0 |})]
      /\ Blame.total_lineCount (Model.bl_authors result) = 0
      /\ length (Model.bl_lines result) = 1)
  /\ BlameSpec.partitioned BlameSample.miscounted
  /\ (let result := Blame.getBlameForRangeSync BlameSample.miscounted
                      (Some "/repo") BlameSample.first_line in
      Blame.total_lineCount (Model.bl_authors result) = 5
      /\ length (Model.bl_lines result) = 1).
Proof.
  split; [|split; [|split]].
  - constructor.
    + intros l [<-|[<-|[]]]; simpl; eauto.
    + simpl. reflexivity.
    + simpl. intros c l [<-|[<-|[]]]; simpl; intros [<-|[]]; reflexivity.
  - vm_compute. repeat split; reflexivity.
  - constructor.
    + intros l [<-|[]]; simpl; eauto.
    + simpl. reflexivity.
    + simpl. intros c l [<-|[]]; simpl; intros [<-|[]]; reflexivity.
  - vm_compute. split; reflexivity.
Qed.

(** C8 (amended). Take a blame that satisfies the blame invariant (every
    line's sha has a commit; the commits' line lists partition the lines,
    each line in the list of the commit of its sha; line [i] of the sequence,
    from zero, carries the number [i + 1]; the authors' counts add up to the
    number of lines), whose commits are kept under their sha and whose
    authors hold, each, the number of the lines of that author's commits.
    Then for every range the lines of the result of [getBlameForRangeSync]
    are [blame.lines.slice(start, end + 1)], its authors hold, each, the
    number of those lines that are of that author's commits, and the counts
    of its authors add up to the number of its lines. *)
Theorem getBlameForRangeSync_author_counts :
  forall (blame : Model.GitBlame) (uri_repoPath : option string)
         (range : Model.Range),
    BlameSpec.invariant blame ->
    BlameKeyed.keyed_by_sha (Model.b_commits blame) ->
    BlameSpec.aggregated_by_author (Model.b_authors blame)
      (Model.b_commits blame) (Model.b_lines blame) ->
    let result := Blame.getBlameForRangeSync blame uri_repoPath range in
    Model.bl_lines result
    = Model.slice (Model.line (Model.start range))
        (Model.line (Model.end_ range) + 1) (Model.b_lines blame)
    /\ BlameSpec.aggregated_by_author (Model.bl_authors result)
         (Model.b_commits blame) (Model.bl_lines result)
    /\ Blame.total_lineCount (Model.bl_authors result)
       = length (Model.bl_lines result).
Proof.
  intros blame uri_repoPath range Inv Keyed Agg result. subst result.
  unfold Blame.getBlameForRangeSync.
  destruct (Nat.eqb (length (Model.b_lines blame)) 0) eqn:E0.
  { apply Nat.eqb_eq in E0. cbn [Blame.whole Model.bl_lines Model.bl_authors].
    split; [|split; [exact Agg|apply (BlameSpec.authors_aggregated blame Inv)]].
    destruct (Model.b_lines blame); [|discriminate].
    unfold Model.slice. rewrite skipn_nil, firstn_nil. reflexivity. }
  destruct (Nat.eqb (Model.line (Model.start range)) 0
            && Nat.eqb (Model.line (Model.end_ range))
                 (length (Model.b_lines blame) - 1)) eqn:E1.
  { apply andb_true_iff in E1 as [Ex Ey]. apply Nat.eqb_eq in Ex, Ey.
    cbn [Blame.whole Model.bl_lines Model.bl_authors].
    split; [|split; [exact Agg|apply (BlameSpec.authors_aggregated blame Inv)]].
    rewrite Ex, Ey, BlameRangeFacts.slice_whole. reflexivity. }
  set (x := Model.line (Model.start range)).
  set (y := Model.line (Model.end_ range)).
  match goal with
  | |- context [fold_left ?f ?l ?a] => set (r := fold_left f l a)
  end.
  assert (Hcount : forall author,
    BlameSpec.old_count author (fst r)
    = BlameSpec.lines_of (Model.b_commits blame) author
        (Model.slice x (y + 1) (Model.b_lines blame))).
  { intros author. subst r. rewrite BlameAuthorFacts.range_fold_count.
    apply (BlameAuthorFacts.sum_contributes_to blame x y author Inv Keyed). }
  assert (Htotal :
    Blame.total_lineCount (fst r)
    = length (Model.slice x (y + 1) (Model.b_lines blame))).
  { subst r. rewrite BlameFacts.range_fold_total.
    apply (BlameFacts.sum_contributes blame x y Inv). }
  assert (Hnodup : NoDup (JsMap.keys (fst r))).
  { subst r. apply BlameFacts.range_fold_NoDup. apply NoDup_nil_2. }
  destruct r as [authors commits].
  cbn [fst] in Hcount, Htotal, Hnodup. cbn [Model.bl_authors Model.bl_lines].
  assert (Hsorted : NoDup (JsMap.keys (Blame.sort_authors authors))).
  { unfold JsMap.keys in *.
    assert (P : Permutation (map fst (Blame.sort_authors authors))
                            (map fst authors))
      by apply Permutation_map, BlameFacts.sort_authors_perm.
    rewrite P. exact Hnodup. }
  rewrite (JsMapFacts.of_entries_id _ Hsorted).
  split; [reflexivity|]. split.
  - intros author. rewrite <- Hcount. unfold BlameSpec.old_count.
    rewrite (BlameAuthorFacts.get_perm author _ authors Hsorted
               (BlameFacts.sort_authors_perm authors)).
    reflexivity.
  - rewrite (BlameFacts.total_perm _ _ (BlameFacts.sort_authors_perm authors)).
    exact Htotal.
Qed.

Lemma blame_sample_aggregated :
  BlameSpec.aggregated_by_author (Model.b_authors BlameSample.blame)
    (Model.b_commits BlameSample.blame) (Model.b_lines BlameSample.blame).
Proof. apply BlameAuthorFacts.aggregated_check. reflexivity. Qed.

Lemma getBlameForRangeSync_author_counts_witness :
  let result := Blame.getBlameForRangeSync BlameSample.blame (Some "/repo")
                  BlameSample.range in
  Model.bl_lines result = [BlameSample.l2; BlameSample.l3]
  /\ BlameSpec.old_count "Ann" (Model.bl_authors result) = 1
  /\ BlameSpec.old_count "Bob" (Model.bl_authors result) = 1
  /\ Blame.total_lineCount (Model.bl_authors result) = 2.
Proof.
  destruct (getBlameForRangeSync_author_counts BlameSample.blame
              (Some "/repo") BlameSample.range blame_sample_invariant
              blame_sample_keyed blame_sample_aggregated)
    as (Hlines & Hagg & Htotal).
  cbv zeta. rewrite Htotal, (Hagg "Ann"), (Hagg "Bob"), Hlines.
  vm_compute. repeat split; reflexivity.
Defined.
